(** * The content-addressed Pareto store of passivbot ([src/pareto_store.py])

    A shallow embedding of [hash_entry], of the [ParetoStore] class (its
    hash index, its entry files and its distance ranker) and of
    [compute_ideal], together with the properties the specification states
    about them.

    Modelling conventions.
    - Python [str] is [string]; each character stands for the code point
      of the same number, and strings compare as Python compares them
      (lexicographically by code point).
    - Python [float] is idealised as a real number ([R]): arithmetic is
      exact, and the only special value that the ranker creates itself,
      [float("inf")], is kept apart in the type [xfloat].  Where rounding,
      overflow or underflow decide what the code does, the lines in
      question are embedded over binary64 ([Binary64]).
    - [dict] is an association list in insertion order, [set] is a [gset],
      a directory is a [gmap] from file names to contents.
    - Exceptions are the [Raise] results of a state-and-error monad over
      the file system; an oracle decides which file operations fail. *)

From Stdlib Require Import ZArith List String Ascii Reals Lra Lia Permutation Sorted OrdersEx.
From Stdlib Require PrimFloat.
From stdpp Require Import gmap strings list fin_maps pretty.

Local Open Scope Z_scope.
Local Open Scope string_scope.

(** ** SHA-256 (FIPS 180-4), as [hashlib.sha256] computes it

    Words are 32-bit integers held in [Z]; every addition wraps around. *)
Module Sha256.

Definition w32 (x : Z) : Z := x mod 2 ^ 32.
Definition add32 (x y : Z) : Z := w32 (x + y).
Definition not32 (x : Z) : Z := Z.lxor x 0xffffffff.
Definition rotr (n x : Z) : Z := Z.lor (Z.shiftr x n) (w32 (Z.shiftl x (32 - n))).
Definition shr (n x : Z) : Z := Z.shiftr x n.

Definition Ch (x y z : Z) : Z := Z.lxor (Z.land x y) (Z.land (not32 x) z).
Definition Maj (x y z : Z) : Z :=
  Z.lxor (Z.lxor (Z.land x y) (Z.land x z)) (Z.land y z).
Definition bsig0 (x : Z) : Z := Z.lxor (Z.lxor (rotr 2 x) (rotr 13 x)) (rotr 22 x).
Definition bsig1 (x : Z) : Z := Z.lxor (Z.lxor (rotr 6 x) (rotr 11 x)) (rotr 25 x).
Definition ssig0 (x : Z) : Z := Z.lxor (Z.lxor (rotr 7 x) (rotr 18 x)) (shr 3 x).
Definition ssig1 (x : Z) : Z := Z.lxor (Z.lxor (rotr 17 x) (rotr 19 x)) (shr 10 x).

(** The constants are what FIPS 180-4 says they are: the first 32 bits of
    the fractional parts of the cube roots of the first 64 primes, and,
    for the initial chaining value, of the square roots of the first 8. *)
Definition is_prime (n : Z) : bool :=
  Z.ltb 1 n && forallb (fun d => negb (Z.eqb (n mod Z.of_nat d) 0)) (seq 2 (Z.to_nat n - 2)).

Definition primes : list Z := filter (fun n => is_prime n = true) (map Z.of_nat (seq 2 310)).

(** The integer cube root, one bit at a time from bit [b - 1] down. *)
Fixpoint cbrt_bits (b : nat) (x acc : Z) : Z :=
  match b with
  | O => acc
  | S b' =>
      let c := acc + 2 ^ Z.of_nat b' in
      cbrt_bits b' x (if Z.leb (c * c * c) x then c else acc)
  end.

Definition frac_cbrt32 (p : Z) : Z := w32 (cbrt_bits 36 (p * 2 ^ 96) 0).
Definition frac_sqrt32 (p : Z) : Z := w32 (Z.sqrt (p * 2 ^ 64)).

Definition K : list Z := Eval vm_compute in map frac_cbrt32 (firstn 64 primes).

(** The eight working variables, and the chaining value between blocks. *)
Record state := State {
  sa : Z; sb : Z; sc : Z; sd : Z; se : Z; sf : Z; sg : Z; sh : Z }.

Definition state_of_list (l : list Z) : state :=
  State (nth 0 l 0) (nth 1 l 0) (nth 2 l 0) (nth 3 l 0)
        (nth 4 l 0) (nth 5 l 0) (nth 6 l 0) (nth 7 l 0).

Definition H0 : state :=
  Eval vm_compute in state_of_list (map frac_sqrt32 (firstn 8 primes)).

(** Padding: a [0x80] byte, zero bytes up to 56 modulo 64, then the bit
    length of the message on eight bytes, big endian. *)
Definition be_bytes (n : nat) (x : Z) : list Z :=
  map (fun i => (x / 256 ^ Z.of_nat i) mod 256) (rev (seq 0 n)).

Definition pad (msg : list Z) : list Z :=
  let len := Z.of_nat (length msg) in
  let zeros := Z.to_nat ((55 - len) mod 64) in
  msg ++ [0x80] ++ repeat 0 zeros ++ be_bytes 8 (8 * len).

Fixpoint be_words (bs : list Z) : list Z :=
  match bs with
  | b0 :: b1 :: b2 :: b3 :: rest =>
      (((b0 * 256 + b1) * 256 + b2) * 256 + b3) :: be_words rest
  | _ => []
  end.

(** The message schedule, most recent word first: [ws] holds
    [W(t-1), W(t-2), ..., W(0)]. *)
Definition next_w (ws : list Z) : Z :=
  add32 (add32 (add32 (ssig1 (nth 1 ws 0)) (nth 6 ws 0)) (ssig0 (nth 14 ws 0)))
        (nth 15 ws 0).

Fixpoint extend (n : nat) (ws : list Z) : list Z :=
  match n with
  | O => ws
  | S n' => extend n' (next_w ws :: ws)
  end.

Definition schedule (block : list Z) : list Z :=
  rev (extend 48 (rev block)).

Definition round (s : state) (kw : Z * Z) : state :=
  let '(k, w) := kw in
  let t1 := add32 (add32 (add32 (add32 (sh s) (bsig1 (se s))) (Ch (se s) (sf s) (sg s))) k) w in
  let t2 := add32 (bsig0 (sa s)) (Maj (sa s) (sb s) (sc s)) in
  State (add32 t1 t2) (sa s) (sb s) (sc s) (add32 (sd s) t1) (se s) (sf s) (sg s).

Definition compress (h : state) (block : list Z) : state :=
  let s := fold_left round (combine K (schedule block)) h in
  State (add32 (sa h) (sa s)) (add32 (sb h) (sb s)) (add32 (sc h) (sc s))
        (add32 (sd h) (sd s)) (add32 (se h) (se s)) (add32 (sf h) (sf s))
        (add32 (sg h) (sg s)) (add32 (sh h) (sh s)).

(** Sixteen words at a time; [fuel] bounds the number of blocks. *)
Fixpoint blocks (fuel : nat) (h : state) (ws : list Z) : state :=
  match fuel, ws with
  | S fuel', _ :: _ => blocks fuel' (compress h (firstn 16 ws)) (skipn 16 ws)
  | _, _ => h
  end.

Definition digest (msg : list Z) : state :=
  let ws := be_words (pad msg) in
  blocks (length ws) H0 ws.

Definition hexdigit (n : Z) : ascii :=
  match n with
  | 0 => "0" | 1 => "1" | 2 => "2" | 3 => "3" | 4 => "4" | 5 => "5" | 6 => "6"
  | 7 => "7" | 8 => "8" | 9 => "9" | 10 => "a" | 11 => "b" | 12 => "c"
  | 13 => "d" | 14 => "e" | _ => "f"
  end%char.

Definition hex8 (x : Z) : string :=
  string_of_list_ascii
    (map (fun i => hexdigit ((x / 16 ^ i) mod 16)) [7; 6; 5; 4; 3; 2; 1; 0]).

(** [hashlib.sha256(b).hexdigest()] *)
Definition hexdigest (msg : list Z) : string :=
  let s := digest msg in
  hex8 (sa s) ++ hex8 (sb s) ++ hex8 (sc s) ++ hex8 (sd s) ++
  hex8 (se s) ++ hex8 (sf s) ++ hex8 (sg s) ++ hex8 (sh s).

End Sha256.

(** [str.encode("utf-8")] on text that [json.dumps] produced: with
    [ensure_ascii] left at its default every character is below 128, and
    is its own single byte. *)
Definition encode_utf8 (s : string) : list Z :=
  map (fun c => Z.of_N (N_of_ascii c)) (list_ascii_of_string s).


(** ** Strings *)

(** [s.startswith(p)] and [s.endswith(suf)]. *)
Definition starts_with (p s : string) : bool := String.prefix p s.

Fixpoint ends_with (suf s : string) : bool :=
  if String.eqb s suf then true
  else match s with
       | EmptyString => false
       | String _ s' => ends_with suf s'
       end.

(** Python orders strings lexicographically by code point. *)
Definition str_lt (a b : string) : bool :=
  match String_as_OT.compare a b with Lt => true | _ => false end.

(** [sorted] on pairs whose first components are strings and differ from
    each other, as the items of a [dict] do: insertion from the right,
    stable as Python's sort is. *)
Fixpoint insert_item {A} (x : string * A) (l : list (string * A)) : list (string * A) :=
  match l with
  | [] => [x]
  | y :: l' => if str_lt (fst y) (fst x) then y :: insert_item x l' else x :: l
  end.

Definition sort_items {A} (l : list (string * A)) : list (string * A) :=
  fold_right insert_item [] l.

(** [sorted] on a list of strings. *)
Definition sorted_strings (l : list string) : list string :=
  map fst (sort_items (map (fun s => (s, tt)) l)).

(** ** JSON documents

    What [json.load] returns and [json.dump] accepts.  A [dict] keeps its
    items in insertion order; its keys are strings. *)
#[warnings="-register-all"]
Inductive json : Type :=
| JNull
| JBool (b : bool)
| JInt (n : Z)
| JFloat (x : R)
| JStr (s : string)
| JList (l : list json)
| JDict (d : list (string * json)).

(** [d.get(k)] on the items of a [dict]. *)
Fixpoint assoc {A} (k : string) (d : list (string * A)) : option A :=
  match d with
  | [] => None
  | (k', v) :: d' => if String.eqb k' k then Some v else assoc k d'
  end.

(** ** What the program takes from outside this file

    - [float_repr]: [float.__repr__], which [json.dumps] prints floats with;
    - [round_sig x n]: a float rounded to [n] significant digits;
    - [set_iter]: the order in which Python iterates over a [set];
    - [listdir]: the order in which the operating system lists a directory;
    - [np_percentile m q]: [numpy.percentile(m, q, axis=0)];
    - [numpy_has_ptp]: whether the arrays of the installed numpy have the
      method [ptp], which numpy 2.0 removed. *)
Class Externals := {
  float_repr : R -> string;
  round_sig : R -> Z -> R;
  set_iter : gset string -> list string;
  listdir : gmap string json -> list string;
  np_percentile : list (list R) -> R -> list R;
  numpy_has_ptp : bool
}.

(** Both orders enumerate exactly the members, each one once. *)
Class ExternalsOk (E : Externals) := {
  set_iter_perm : forall s, Permutation (set_iter s) (elements s);
  listdir_perm : forall m, Permutation (listdir m) (elements (dom m))
}.

(** Modelled from the spec: [opt_utils.round_floats], which is imported by
    [pareto_store.py] and is not part of the sources at hand.  The Rounded
    Entry is the Entry with all floating-point leaves rounded to a fixed
    number of significant digits; everything else is kept. *)
Fixpoint round_floats `{Externals} (j : json) (sig_digits : Z) : json :=
  match j with
  | JFloat x => JFloat (round_sig x sig_digits)
  | JList l => JList (map (fun v => round_floats v sig_digits) l)
  | JDict d => JDict (map (fun kv => (fst kv, round_floats (snd kv) sig_digits)) d)
  | _ => j
  end.

(** ** [json.dumps(entry, sort_keys=True, separators=(",", ":"))] *)

Definition dquote : ascii := "034"%char.
Definition backslash : ascii := "092"%char.

Definition hex4 (x : Z) : string :=
  string_of_list_ascii
    (map (fun i => Sha256.hexdigit ((x / 16 ^ i) mod 16)) [3; 2; 1; 0]).

(** [json.encoder.py_encode_basestring_ascii], one character at a time. *)
Definition escape_char (c : ascii) : string :=
  let n := Z.of_N (N_of_ascii c) in
  if Ascii.eqb c dquote then String backslash (String dquote "")
  else if Ascii.eqb c backslash then String backslash (String backslash "")
  else if Z.eqb n 8 then String backslash "b"
  else if Z.eqb n 12 then String backslash "f"
  else if Z.eqb n 10 then String backslash "n"
  else if Z.eqb n 13 then String backslash "r"
  else if Z.eqb n 9 then String backslash "t"
  else if Z.leb 32 n && Z.leb n 126 then String c ""
  else String backslash ("u" ++ hex4 n).

Fixpoint escape (s : string) : string :=
  match s with
  | EmptyString => ""
  | String c s' => escape_char c ++ escape s'
  end.

Definition quote (s : string) : string :=
  String dquote (escape s ++ String dquote "").

(** The encoder sorts the items of a [dict] by key and then writes each
    one; here each value is written first and the written items are
    sorted by key, which comes to the same text ([sort_items_map_values]). *)
Fixpoint dumps `{Externals} (j : json) : string :=
  match j with
  | JNull => "null"
  | JBool true => "true"
  | JBool false => "false"
  | JInt n => pretty n
  | JFloat x => float_repr x
  | JStr s => quote s
  | JList l => "[" ++ String.concat "," (map dumps l) ++ "]"
  | JDict d =>
      "{" ++ String.concat ","
               (map (fun kv => quote (fst kv) ++ ":" ++ snd kv)
                    (sort_items (map (fun kv => (fst kv, dumps (snd kv))) d)))
          ++ "}"
  end.

(** [hash_entry], lines 12-14. *)
Definition hash_entry `{Externals} (entry : json) : string :=
  let entry_str := dumps entry in
  substring 0 16 (Sha256.hexdigest (encode_utf8 entry_str)).

(** The document that [json.load] reads back from a file written with
    [sort_keys=True]: every [dict] has its items in key order. *)
Fixpoint sort_keys (j : json) : json :=
  match j with
  | JList l => JList (map sort_keys l)
  | JDict d => JDict (sort_items (map (fun kv => (fst kv, sort_keys (snd kv))) d))
  | _ => j
  end.

(** ** Numbers

    A float that the ranker computes with is a real number or the one
    infinity it creates itself for a missing objective. *)
Inductive xfloat : Type :=
| Fin (x : R)
| Inf.

(** [v - m], [v / d] (only ever evaluated for [d > 0]), [v ** 2],
    [a + b] and [math.sqrt(v)], where [m] and [d] are finite. *)
Definition xsub (v : xfloat) (m : R) : xfloat :=
  match v with Fin x => Fin (x - m) | Inf => Inf end.
Definition xdiv (v : xfloat) (d : R) : xfloat :=
  match v with Fin x => Fin (x / d) | Inf => Inf end.
Definition xsq (v : xfloat) : xfloat :=
  match v with Fin x => Fin (x * x) | Inf => Inf end.
Definition xadd (a b : xfloat) : xfloat :=
  match a, b with Fin x, Fin y => Fin (x + y) | _, _ => Inf end.
Definition xsqrt (v : xfloat) : xfloat :=
  match v with Fin x => Fin (sqrt x) | Inf => Inf end.

(** [sum(...)] of a generator of floats: from [0], left to right. *)
Definition xsum (l : list xfloat) : xfloat := fold_left xadd l (Fin 0).

(** *** The format [08.4f]

    The number is rounded to four decimals (ties to the even neighbour),
    written with at least one integer digit, and padded with zeros on the
    left, after the sign, to eight characters. *)
Definition round_half_even (x : R) : Z :=
  let f := Int_part x in
  let r := (x - IZR f)%R in
  if Rlt_dec r (1 / 2) then f
  else if Rlt_dec (1 / 2) r then f + 1
  else if Z.even f then f else f + 1.

Definition digit (d : Z) : ascii := ascii_of_N (Z.to_N (48 + d mod 10)).

(** The [w] lowest decimal digits of [n], highest first. *)
Fixpoint digits_fixed (w : nat) (n : Z) : string :=
  match w with
  | O => ""
  | S w' => String (digit (n / 10 ^ Z.of_nat w')) (digits_fixed w' (n mod 10 ^ Z.of_nat w'))
  end.

(** The integer part, zero-padded to [w] digits; a longer one is written
    in full. *)
Definition int_digits (w : nat) (n : Z) : string :=
  if Z.ltb n (10 ^ Z.of_nat w) then digits_fixed w n else pretty n.

Definition format_08_4f (v : xfloat) : string :=
  match v with
  | Inf => "00000inf"
  | Fin x =>
      let n := round_half_even (Rabs x * 10000) in
      let body w := int_digits w (n / 10000) ++ "." ++ digits_fixed 4 (n mod 10000) in
      if Rlt_dec x 0 then "-" ++ body 2%nat else body 3%nat
  end.

(** ** Exceptions, printed lines, and the state of the program *)
Inductive exn : Type :=
| OSError | FileNotFoundError | IndexError | KeyError | TypeError
| ValueError | AttributeError | StopIteration | OverflowError.

Inductive result (A : Type) : Type :=
| Ret (a : A)
| Raise (e : exn).
Arguments Ret {A} a.
Arguments Raise {A} e.

(** The lines that the store prints. *)
Inductive msg : Type :=
| FailedLoadIndex (e : exn)
| FailedWrite (h : string) (e : exn)
| FailedRemove (name : string) (e : exn)
| NoValidEntries
| NoKeysFound
| FailedRename (h : string) (e : exn).

(** A file is named by its directory and its name in it. *)
Inductive path : Type :=
| Root (name : string)
| Pareto (name : string).

(** [hashes] and [sig_digits] are the fields of the [ParetoStore] object;
    [root_dir] and [pareto_dir] are the files under [self.directory] and
    under its [pareto] subdirectory; [faults] is the oracle: each file
    operation takes its first element and fails when it is [true] (none
    fails once the list is used up); [out] is the standard output, last
    line first. *)
Record state : Type := mkState {
  hashes : gset string;
  sig_digits : Z;
  root_dir : gmap string json;
  pareto_dir : gmap string json;
  faults : list bool;
  out : list msg
}.

Definition M (A : Type) : Type := state -> result A * state.

#[global] Instance result_ret : MRet result := fun A a => Ret a.
#[global] Instance result_bind : MBind result := fun A B f r =>
  match r with Ret a => f a | Raise e => Raise e end.

#[global] Instance M_ret : MRet M := fun A a s => (Ret a, s).
#[global] Instance M_bind : MBind M := fun A B f m s =>
  match m s with
  | (Ret a, s') => f a s'
  | (Raise e, s') => (Raise e, s')
  end.

(** A primitive step, given by what it returns and how it changes the state. *)
Definition act {A} (f : state -> result A * state) : M A := f.
Definition raise {A} (e : exn) : M A := fun s => (Raise e, s).
Definition lift {A} (r : result A) : M A := fun s => (r, s).

(** [try: body / except Exception as e: handler] *)
Definition try_except {A} (body : M A) (handler : exn -> M A) : M A := fun s =>
  match body s with
  | (Ret a, s') => (Ret a, s')
  | (Raise e, s') => handler e s'
  end.

Definition get_hashes : M (gset string) := fun s => (Ret (hashes s), s).
Definition put_hashes (hs : gset string) : M unit := fun s =>
  (Ret tt, mkState hs (sig_digits s) (root_dir s) (pareto_dir s) (faults s) (out s)).
Definition print (m : msg) : M unit := fun s =>
  (Ret tt, mkState (hashes s) (sig_digits s) (root_dir s) (pareto_dir s) (faults s) (m :: out s)).

Definition dir_of (p : path) (s : state) : gmap string json :=
  match p with Root _ => root_dir s | Pareto _ => pareto_dir s end.
Definition name_of (p : path) : string :=
  match p with Root n => n | Pareto n => n end.
Definition set_dir (p : path) (d : gmap string json) (s : state) : state :=
  match p with
  | Root _ => mkState (hashes s) (sig_digits s) d (pareto_dir s) (faults s) (out s)
  | Pareto _ => mkState (hashes s) (sig_digits s) (root_dir s) d (faults s) (out s)
  end.

(** One file operation: it takes the first element of the oracle, and
    fails with [OSError] when that is [true]. *)
Definition tick (s : state) : state :=
  mkState (hashes s) (sig_digits s) (root_dir s) (pareto_dir s) (tail (faults s)) (out s).

Definition io : M unit := fun s =>
  (match faults s with true :: _ => Raise OSError | _ => Ret tt end, tick s).

(** [with open(p, "w") as f: json.dump(doc, f, ...)] *)
Definition write_file (p : path) (doc : json) : M unit :=
  io ;; act (fun s => (Ret tt, set_dir p (<[name_of p := doc]> (dir_of p s)) s)).

(** [with open(p, "r") as f: json.load(f)] *)
Definition read_file (p : path) : M json :=
  io ;; act (fun s =>
    match dir_of p s !! name_of p with
    | Some doc => (Ret doc, s)
    | None => (Raise FileNotFoundError, s)
    end).

(** [os.replace(src, dst)] and [os.rename(src, dst)], within one
    directory: the destination is overwritten. *)
Definition os_replace (src dst : path) : M unit :=
  io ;; act (fun s =>
    match dir_of src s !! name_of src with
    | Some doc =>
        (Ret tt, set_dir dst (<[name_of dst := doc]> (delete (name_of src) (dir_of src s))) s)
    | None => (Raise FileNotFoundError, s)
    end).
Definition os_rename : path -> path -> M unit := os_replace.

(** [os.remove(p)] *)
Definition os_remove (p : path) : M unit :=
  io ;; act (fun s =>
    match dir_of p s !! name_of p with
    | Some _ => (Ret tt, set_dir p (delete (name_of p) (dir_of p s)) s)
    | None => (Raise FileNotFoundError, s)
    end).

(** [os.path.exists(p)] *)
Definition os_path_exists (p : path) : M bool := fun s =>
  (Ret (bool_decide (is_Some (dir_of p s !! name_of p))), s).

(** [glob.glob] in the [pareto] directory, for the two shapes of pattern
    the store uses: [*<suffix>] and a name without wildcard.  A hash is a
    hexadecimal digest, so that it stands for itself in a pattern; the
    star does not match a name that starts with a dot. *)
Inductive pattern : Type :=
| Star (suffix : string)
| Lit (name : string).

Definition fnmatch (pat : pattern) (name : string) : bool :=
  match pat with
  | Star suffix => ends_with suffix name && negb (starts_with "." name)
  | Lit n => String.eqb n name
  end.

Definition glob `{Externals} (pat : pattern) : M (list string) := fun s =>
  (Ret (filter (fun n => fnmatch pat n = true) (listdir (pareto_dir s))), s).

(** Loops: [for x in l: body x], and a list comprehension whose element
    expression may raise. *)
Fixpoint for_each {A} (l : list A) (body : A -> M unit) : M unit :=
  match l with
  | [] => mret tt
  | x :: l' => body x ;; for_each l' body
  end.

Fixpoint map_M {A B} (f : A -> M B) (l : list A) : M (list B) :=
  match l with
  | [] => mret []
  | x :: l' => y ← f x; ys ← map_M f l'; mret (y :: ys)
  end.

Fixpoint map_R {A B} (f : A -> result B) (l : list A) : result (list B) :=
  match l with
  | [] => Ret []
  | x :: l' => y ← f x; ys ← map_R f l'; Ret (y :: ys)
  end.

(** ** What Python does with a JSON value *)

(** [j.get(k, default)]: only a [dict] has the method. *)
Definition py_get (j : json) (k : string) (default : json) : result json :=
  match j with
  | JDict d => Ret (match assoc k d with Some v => v | None => default end)
  | _ => Raise AttributeError
  end.

(** [j[k]] for a string [k] *)
Definition py_getitem (j : json) (k : string) : result json :=
  match j with
  | JDict d => match assoc k d with Some v => Ret v | None => Raise KeyError end
  | _ => Raise TypeError
  end.

(** [[k for k in j if k.startswith(p)]]: a [dict] yields its keys, a
    string its characters, a list its elements, of which only a string
    has [startswith]. *)
Definition py_iter_str (j : json) : result (list string) :=
  match j with
  | JDict d => Ret (map fst d)
  | JStr s => Ret (map (fun c => String c "") (list_ascii_of_string s))
  | JList l => map_R (fun v => match v with JStr s => Ret s | _ => Raise AttributeError end) l
  | _ => Raise TypeError
  end.

(** A value used in arithmetic: [bool] is a subclass of [int]. *)
Definition as_number (j : json) : result R :=
  match j with
  | JInt n => Ret (IZR n)
  | JFloat x => Ret x
  | JBool b => Ret (if b then 1%R else 0%R)
  | _ => Raise TypeError
  end.

(** [min(vals)] and [max(vals)] on a list of numbers; an empty list is a
    [ValueError].  The objective values are numbers; a value of another
    type is modelled as the [TypeError] of its first use in arithmetic. *)
Definition py_min (vals : list json) : result R :=
  xs ← map_R as_number vals;
  match xs with
  | [] => Raise ValueError
  | x :: xs' => Ret (fold_left Rmin xs' x)
  end.

Definition py_max (vals : list json) : result R :=
  xs ← map_R as_number vals;
  match xs with
  | [] => Raise ValueError
  | x :: xs' => Ret (fold_left Rmax xs' x)
  end.

(** [l[i]] *)
Definition py_index {A} (l : list A) (i : nat) : result A :=
  match nth_error l i with Some x => Ret x | None => Raise IndexError end.

Definition is_none (j : json) : bool :=
  match j with JNull => true | _ => false end.

(** ** The [ParetoStore] class *)
Section ParetoStore.
Context `{Externals}.

Definition index_path : path := Root "index.json".

(** [_load_index], lines 33-39.  [set(...)] of the loaded document takes
    the elements of a list, the keys of a [dict] or the characters of a
    string, and raises [TypeError] on anything else, as it does on an
    element that cannot be hashed (a list or a [dict]).  The hashes of
    this model are strings: an index file that lists a number, a boolean
    or [null] beside nothing that cannot be hashed is outside the model
    (the code loads such members, the model does not). *)
Definition _load_index : M unit :=
  ex ← os_path_exists index_path;
  if ex : bool then
    try_except
      (doc ← read_file index_path;
       match doc with
       | JList l =>
           hs ← lift (map_R (fun v => match v with JStr s => Ret s | _ => Raise TypeError end) l);
           put_hashes (list_to_set hs)
       | JDict d => put_hashes (list_to_set (map fst d))
       | JStr s =>
           put_hashes (list_to_set (map (fun c => String c "") (list_ascii_of_string s)))
       | _ => raise TypeError
       end)
      (fun e => print (FailedLoadIndex e))
  else mret tt.

(** [os.makedirs(<directory>/pareto, exist_ok=True)], line 25.  A state
    of this model always has its [pareto] directory (a missing directory
    and an empty one are the same [pareto_dir]), so that the call creates
    nothing; it is one file operation and fails as such, for instance
    with the [FileExistsError] of a file that is in the way, which is an
    [OSError]. *)
Definition os_makedirs_pareto : M unit := io.

(** [__init__], lines 22-28 *)
Definition init (sig : Z) : M unit :=
  act (fun s => (Ret tt, mkState (hashes s) sig (root_dir s) (pareto_dir s) (faults s) (out s)));;
  os_makedirs_pareto;;
  put_hashes ∅;;
  _load_index.

(** [_save_index], lines 41-45 *)
Definition _save_index : M unit :=
  let tmp_path := Root ("index.json" ++ ".tmp") in
  hs ← get_hashes;
  write_file tmp_path (JList (map JStr (sorted_strings (set_iter hs))));;
  os_replace tmp_path index_path.

(** [load_entry], lines 89-98 *)
Definition load_entry (hash_str : string) : M json :=
  matches ← glob (Star ("_" ++ hash_str ++ ".json"));
  matches ← (match matches with
             | [] => glob (Lit (hash_str ++ ".json"))
             | _ => mret matches
             end);
  match matches with
  | [] => raise FileNotFoundError
  | m0 :: _ => read_file (Pareto m0)
  end.

(** [[k for k in entry.get("analyses_combined", {}) if k.startswith("w_")]] *)
Definition w_keys_of (entry : json) : result (list string) :=
  ac ← py_get entry "analyses_combined" (JDict []);
  ks ← py_iter_str ac;
  Ret (filter (fun k => starts_with "w_" k = true) ks).

(** The list comprehension of lines 114-118: the values of [key] that are
    not [None], over all entries. *)
Fixpoint present_values (entries : list json) (key : string) : result (list json) :=
  match entries with
  | [] => Ret []
  | e :: es =>
      ac ← py_getitem e "analyses_combined";
      v ← py_get ac key JNull;
      rest ← present_values es key;
      Ret (if is_none v then rest else v :: rest)
  end.

(** The loop of lines 112-121; [None] stands for [return None]. *)
Fixpoint ideal_of (entries : list json) (keys : list string) : result (option (list R)) :=
  match keys with
  | [] => Ret (Some [])
  | key :: keys' =>
      vals ← present_values entries key;
      match vals with
      | [] => Ret None
      | _ =>
          m ← py_min vals;
          rest ← ideal_of entries keys';
          Ret (match rest with Some l => Some (m :: l) | None => None end)
      end
  end.

(** [compute_ideal_point], lines 107-122.  [entries[0]] is evaluated on
    line 109, before line 110 tests whether there is any entry. *)
Definition compute_ideal_point : M (option (list R)) :=
  hs ← get_hashes;
  entries ← map_M load_entry (set_iter hs);
  e0 ← lift (py_index entries 0);
  w_keys ← lift (w_keys_of e0);
  match entries, w_keys with
  | [], _ | _, [] => mret None
  | _, _ => lift (ideal_of entries (sorted_strings w_keys))
  end.

(** Lines 141-144: the values of one entry are appended to the columns
    of the value matrix. *)
Fixpoint append_values (entry : json) (w_keys : list string) (value_matrix : list (list json))
  : result (list (list json)) :=
  match w_keys, value_matrix with
  | key :: keys', col :: cols =>
      ac ← py_get entry "analyses_combined" (JDict []);
      val ← py_get ac key JNull;
      rest ← append_values entry keys' cols;
      Ret ((if is_none val then col else (col ++ [val])%list) :: rest)
  | _, _ => Ret value_matrix
  end.

(** Lines 139-144 *)
Fixpoint fill_matrix (hs : list string) (w_keys : list string) (value_matrix : list (list json))
  : M (list (list json)) :=
  match hs with
  | [] => mret value_matrix
  | h :: hs' =>
      entry ← load_entry h;
      vm ← lift (append_values entry w_keys value_matrix);
      fill_matrix hs' w_keys vm
  end.

(** Lines 154-158: one coordinate of the normalized point. *)
Definition norm_coord (val : json) (mn mx : R) : result xfloat :=
  let denom := (mx - mn)%R in
  if Rlt_dec 0 denom
  then v ← (if is_none val then Ret Inf else x ← as_number val; Ret (Fin x));
       Ret (xdiv (xsub v mn) denom)
  else Ret (Fin 0).

(** Lines 152-159, with [i] the index of the first key of [w_keys]. *)
Fixpoint point_of (entry : json) (i : nat) (w_keys : list string) (mins maxs : list R)
  : result (list xfloat) :=
  match w_keys with
  | [] => Ret []
  | key :: keys' =>
      ac ← py_get entry "analyses_combined" (JDict []);
      val ← py_get ac key JNull;
      mx ← py_index maxs i;
      mn ← py_index mins i;
      norm ← norm_coord val mn mx;
      rest ← point_of entry (S i) keys' mins maxs;
      Ret (norm :: rest)
  end.

(** Lines 160-163, for the indices [idxs] of [range(dims)]. *)
Fixpoint ideal_norm_of (ideal mins maxs : list R) (idxs : list nat) : result (list R) :=
  match idxs with
  | [] => Ret []
  | i :: idxs' =>
      mx ← py_index maxs i;
      mn ← py_index mins i;
      x ← (if Rlt_dec 0 (mx - mn)
           then idl ← py_index ideal i; Ret ((idl - mn) / (mx - mn))%R
           else Ret 0%R);
      rest ← ideal_norm_of ideal mins maxs idxs';
      Ret (x :: rest)
  end.

(** Line 164 *)
Definition distance (point : list xfloat) (ideal_norm : list R) : xfloat :=
  xsqrt (xsum (map (fun pi => xsq (xsub (fst pi) (snd pi))) (combine point ideal_norm))).

(** Lines 151-165: the distance of one loaded entry. *)
Definition entry_distance (entry : json) (w_keys : list string) (ideal mins maxs : list R)
  : result xfloat :=
  point ← point_of entry 0 w_keys mins maxs;
  ideal_norm ← ideal_norm_of ideal mins maxs (seq 0 (length w_keys));
  Ret (distance point ideal_norm).

Definition storage_name (dist_prefix h : string) : string :=
  dist_prefix ++ "_" ++ h ++ ".json".

(** Lines 150-175: the body of the loop over [sorted(self.hashes)]. *)
Definition rename_one (w_keys : list string) (ideal mins maxs : list R) (h : string) : M unit :=
  try_except
    (entry ← load_entry h;
     dist ← lift (entry_distance entry w_keys ideal mins maxs);
     let dist_prefix := format_08_4f dist in
     old_matches ← glob (Star (h ++ ".json"));
     match old_matches with
     | [] => mret tt
     | old :: _ => os_rename (Pareto old) (Pareto (storage_name dist_prefix h))
     end)
    (fun e => print (FailedRename h e)).

(** [rename_entries_with_distance], lines 124-175 *)
Definition rename_entries_with_distance : M unit :=
  ideal ← compute_ideal_point;
  match ideal with
  | None => print NoValidEntries
  | Some ideal =>
      hs ← get_hashes;
      h0 ← (match set_iter hs with [] => raise StopIteration | h :: _ => mret h end);
      sample_entry ← load_entry h0;
      ks ← lift (w_keys_of sample_entry);
      let w_keys := sorted_strings ks in
      match w_keys with
      | [] => print NoKeysFound
      | _ =>
          value_matrix ← fill_matrix (set_iter hs) w_keys (map (fun _ => []) w_keys);
          mins ← lift (map_R py_min value_matrix);
          maxs ← lift (map_R py_max value_matrix);
          for_each (sorted_strings (set_iter hs)) (rename_one w_keys ideal mins maxs)
      end
  end.

(** Lines 54-60: the entry is written to a temporary file, which is then
    moved to the name that holds the hash alone. *)
Definition write_entry (h : string) (rounded : json) : M unit :=
  let filename := h ++ ".json" in
  let filepath := Pareto filename in
  let tmp_path := Pareto (filename ++ ".tmp") in
  write_file tmp_path (sort_keys rounded);;
  os_replace tmp_path filepath.

(** Lines 61-66 *)
Definition register_entry (h : string) : M bool :=
  hs ← get_hashes;
  put_hashes ({[h]} ∪ hs);;
  _save_index;;
  rename_entries_with_distance;;
  mret true.

(** [add_entry], lines 47-69 *)
Definition add_entry (entry : json) : M bool :=
  sig ← act (fun s => (Ret (sig_digits s), s));
  let rounded := round_floats entry sig in
  let h := hash_entry rounded in
  hs ← get_hashes;
  if bool_decide (h ∈ hs) then mret false
  else
    try_except
      (write_entry h rounded;; register_entry h)
      (fun e => print (FailedWrite h e);; mret false).

(** Lines 75-80: the loop over the matches. *)
Fixpoint remove_files (matches : list string) (success : bool) : M bool :=
  match matches with
  | [] => mret success
  | name :: rest =>
      success' ← try_except
                   (os_remove (Pareto name);; mret true)
                   (fun e => print (FailedRemove name e);; mret success);
      remove_files rest success'
  end.

(** [remove_entry], lines 71-84 *)
Definition remove_entry (hash_str : string) : M bool :=
  matches ← glob (Star ("_" ++ hash_str ++ ".json"));
  success ← remove_files matches false;
  hs ← get_hashes;
  (if bool_decide (hash_str ∈ hs)
   then put_hashes (hs ∖ {[hash_str]});; _save_index
   else mret tt);;
  mret success.

(** [list_entries], lines 86-87 *)
Definition list_entries : M (list string) :=
  hs ← get_hashes; mret (sorted_strings (set_iter hs)).

(** [clear], lines 100-105 *)
Definition clear : M unit :=
  hs ← get_hashes;
  for_each (set_iter hs) (fun h => remove_entry h;; mret tt);;
  ex ← os_path_exists index_path;
  (if ex : bool then os_remove index_path else mret tt);;
  put_hashes ∅.

End ParetoStore.

(** ** [compute_ideal], lines 178-213

    [values_matrix] is the list of its rows, one per point, all of one
    length.  A result is a vector, or the array of [nan] that numpy
    yields (with a warning, not an exception) when it divides zero by
    zero. *)
Section ComputeIdeal.
Context `{Externals}.

Inductive ndarray : Type :=
| Vec (v : list R)
| NaNs.

(** Reductions along [axis=0]; numpy refuses to take the minimum or the
    maximum of no rows. *)
Definition reduce_cols {T} (f : T -> T -> T) (values_matrix : list (list T)) : result (list T) :=
  match values_matrix with
  | [] => Raise ValueError
  | row :: rows => Ret (fold_left (zip_with f) rows row)
  end.

Definition np_min := reduce_cols Rmin.
Definition np_max := reduce_cols Rmax.

(** An operation on two one-dimensional arrays, with numpy's
    broadcasting of an array of length one. *)
Definition broadcast {T} (f : T -> T -> T) (u v : list T) : result (list T) :=
  if Nat.eqb (length u) (length v) then Ret (zip_with f u v)
  else match u, v with
       | [x], _ => Ret (map (f x) v)
       | _, [y] => Ret (map (fun x => f x y) u)
       | _, _ => Raise ValueError
       end.

(** [values_matrix.ptp(axis=0)], the range of every column, where numpy
    has the method. *)
Definition np_ptp (values_matrix : list (list R)) : result (list R) :=
  if numpy_has_ptp then
    vmax ← np_max values_matrix;
    vmin ← np_min values_matrix;
    broadcast Rminus vmax vmin
  else Raise AttributeError.

Definition rsum (l : list R) : R := fold_left Rplus l 0%R.

(** [values_matrix.sum(axis=0)] for at least one row *)
Definition col_sums (rows : list (list R)) : list R :=
  match rows with
  | [] => []
  | row :: rows' => fold_left (zip_with Rplus) rows' row
  end.

(** [values_matrix.mean(axis=0)]: the mean of no rows is [nan]. *)
Definition np_mean (values_matrix : list (list R)) : ndarray :=
  match values_matrix with
  | [] => NaNs
  | _ => Vec (map (fun c => c / INR (length values_matrix))%R (col_sums values_matrix))
  end.

(** [np.linalg.norm(values_matrix - z, axis=1)] *)
Definition row_norm (z row : list R) : R :=
  sqrt (rsum (map (fun d => d * d)%R (zip_with Rminus row z))).

(** [np.allclose(z, z_new, atol=1e-9)], with numpy's default [rtol] of
    [1e-5]: [|z - z_new| <= atol + rtol * |z_new|] in every coordinate. *)
Definition atol : R := (1 / 1000000000)%R.
Definition rtol : R := (1 / 100000)%R.

Definition close (a b : R) : bool :=
  if Rle_dec (Rabs (a - b)) (atol + rtol * Rabs b) then true else false.

Definition allclose (z z_new : list R) : bool :=
  forallb (fun ab => close (fst ab) (snd ab)) (combine z z_new).

(** Lines 205-207: one step of Weiszfeld's algorithm. *)
Definition weiszfeld_step (values_matrix : list (list R)) (z : list R) : ndarray :=
  let d := map (row_norm z) values_matrix in
  let w := map (fun di => if Rlt_dec 0 di then (1 / di)%R else 0%R) d in
  let wsum := rsum w in
  if Req_dec_T wsum 0 then NaNs
  else Vec (map (fun c => c / wsum)%R
                (col_sums (zip_with (fun row wi => map (fun x => x * wi)%R row) values_matrix w))).

(** Lines 204-210: [n] more turns of the loop.  Once the estimate is
    [nan] it stays so: no comparison with [nan] holds. *)
Fixpoint weiszfeld (n : nat) (values_matrix : list (list R)) (z : list R) : ndarray :=
  match n with
  | O => Vec z
  | S n' =>
      match weiszfeld_step values_matrix z with
      | NaNs => NaNs
      | Vec z_new =>
          if allclose z z_new then Vec z
          else weiszfeld n' values_matrix z_new
      end
  end.

Definition geomedian (values_matrix : list (list R)) : ndarray :=
  match np_mean values_matrix with
  | NaNs => NaNs
  | Vec z => weiszfeld 10 values_matrix z
  end.

Definition mode_in (mode a b : string) : bool := String.eqb mode a || String.eqb mode b.

Definition compute_ideal (values_matrix : list (list R)) (mode : string)
    (weights : option (list R)) (eps pct : R) : result ndarray :=
  if mode_in mode "m" "min" then
    v ← np_min values_matrix; Ret (Vec v)
  else if mode_in mode "w" "weighted" then
    match weights with
    | None => Raise ValueError
    | Some weights =>
        vmin ← np_min values_matrix;
        vmax ← np_max values_matrix;
        range ← broadcast Rminus vmax vmin;
        scaled ← broadcast Rmult weights range;
        v ← broadcast Rplus vmin scaled;
        Ret (Vec v)
    end
  else if mode_in mode "u" "utopian" then
    mins ← np_min values_matrix;
    ranges ← np_ptp values_matrix;
    Ret (Vec (zip_with (fun m r => m - eps * r)%R mins ranges))
  else if mode_in mode "p" "percentile" then
    Ret (Vec (np_percentile values_matrix pct))
  else if mode_in mode "mi" "midrange" then
    vmin ← np_min values_matrix;
    vmax ← np_max values_matrix;
    Ret (Vec (zip_with (fun a b => 1 / 2 * (a + b))%R vmin vmax))
  else if mode_in mode "g" "geomedian" then
    Ret (geomedian values_matrix)
  else Raise ValueError.

End ComputeIdeal.

(** ** Binary64

    A Python [float] and a numpy [float64] are the binary64 numbers of
    IEEE 754, which Rocq has as its primitive floats: the same numbers,
    and the same operations, rounded to the nearest with ties to even.
    The lines whose result depends on rounding, overflow or underflow are
    embedded here over these numbers. *)
Module Binary64.
Import PrimFloat.
Local Open Scope float_scope.

(** [pow(x, 2.0)] of the C library, which CPython asks for a finite [x]
    that is positive and not [1.0]: the value it returns, and whether it
    sets [errno] to [ERANGE]. *)
Class Libm := { pow2 : float -> float * bool }.

(** [x ** 2] on a float, as [float_pow] of CPython computes it.  [nan],
    the infinities, zero and one are answered without the C library.
    After the call [errno] is adjusted: an infinite result is a range
    error, a result of zero is none; a range error is raised as
    [OverflowError]. *)
Definition float_pow2 `{Libm} (x : float) : result float :=
  if is_nan x then Ret x
  else if is_infinity x then Ret (abs x)
  else if is_zero x then Ret zero
  else if abs x =? one then Ret one
  else
    let (ix, erange) := pow2 (abs x) in
    let erange := if erange then negb (is_zero ix) else is_infinity ix in
    if erange then Raise OverflowError else Ret ix.

(** [math.sqrt(x)]: a [nan] that was not put in is a [ValueError]. *)
Definition math_sqrt (x : float) : result float :=
  let r := sqrt x in
  if is_nan r && negb (is_nan x) then Raise ValueError else Ret r.

(** [calc_dist], lines 17-18, for points that are sequences of floats.
    Python evaluates the left square before it reads [p0[1]]. *)
Definition calc_dist `{Libm} (p0 p1 : list float) : result float :=
  a0 ← py_index p0 0;
  b0 ← py_index p1 0;
  sq0 ← float_pow2 (a0 - b0);
  a1 ← py_index p0 1;
  b1 ← py_index p1 1;
  sq1 ← float_pow2 (a1 - b1);
  math_sqrt (sq0 + sq1).

(** [np.minimum] and [np.maximum]: a [nan] on the left is kept, one on
    the right wins the comparison. *)
Definition minimum (a b : float) : float := if (a <=? b) || is_nan a then a else b.
Definition maximum (a b : float) : float := if (b <=? a) || is_nan a then a else b.

Definition np_min := reduce_cols minimum.
Definition np_max := reduce_cols maximum.

(** Lines 183-188: [compute_ideal] in the mode [weighted]. *)
Definition compute_ideal_weighted (values_matrix : list (list float))
    (weights : option (list float)) : result (list float) :=
  match weights with
  | None => Raise ValueError
  | Some weights =>
      vmin ← np_min values_matrix;
      vmax ← np_max values_matrix;
      range ← broadcast sub vmax vmin;
      scaled ← broadcast mul weights range;
      broadcast add vmin scaled
  end.

(** A C library whose [pow(x, 2.0)] is the correctly rounded square, with
    a range error for a result that overflows or underflows, to run the
    examples with. *)
Definition sample_libm : Libm := {|
  pow2 := fun x => (x * x, is_infinity (x * x) || is_zero (x * x))
|}.

End Binary64.

(** ** The command line, lines 216-355 *)

(** [sub in s] on strings *)
Fixpoint contains (sub s : string) : bool :=
  String.prefix sub s ||
  match s with
  | EmptyString => false
  | String _ s' => contains sub s'
  end.

(** [s.split(sep)] for a separator that is not empty: the text is read
    from the left, and after an occurrence of the separator reading goes
    on behind it.  [skip] counts the characters of an occurrence that
    are still to be passed over. *)
Fixpoint split_from (sep : string) (skip : nat) (s : string) : list string :=
  match s with
  | EmptyString => [""]
  | String c s' =>
      match skip with
      | S k => split_from sep k s'
      | O =>
          if String.prefix sep s then "" :: split_from sep (String.length sep - 1) s'
          else match split_from sep 0 s' with
               | piece :: rest => String c piece :: rest
               | [] => [String c ""]
               end
      end
  end.

Definition py_split (sep s : string) : result (list string) :=
  match sep with
  | EmptyString => Raise ValueError
  | _ => Ret (split_from sep 0 s)
  end.

(** [str.isspace] on one character below 256: the controls 9 to 13 and
    28 to 31, the space, and the code points 133 and 160. *)
Definition is_space (c : ascii) : bool :=
  let n := Z.of_N (N_of_ascii c) in
  (Z.leb 9 n && Z.leb n 13) || (Z.leb 28 n && Z.leb n 32) || Z.eqb n 133 || Z.eqb n 160.

Fixpoint lstrip (s : string) : string :=
  match s with
  | EmptyString => ""
  | String c s' => if is_space c then lstrip s' else s
  end.

Fixpoint rstrip (s : string) : string :=
  match s with
  | EmptyString => ""
  | String c s' =>
      match rstrip s' with
      | EmptyString => if is_space c then "" else String c ""
      | r => String c r
      end
  end.

(** [s.strip()] *)
Definition strip (s : string) : string := rstrip (lstrip s).

(** What Python's own [float(z)] makes of a text: the float it denotes,
    or nothing, for the [ValueError] of a text that denotes none.  The
    floats of the command line are only passed on, so that their type is
    left open. *)
Class Builtins := {
  float : Type;
  py_float : string -> option float
}.

Section CommandLine.
Context `{Builtins}.

Definition float_of (z : string) : result float :=
  match py_float z with
  | Some x => Ret x
  | None => Raise ValueError
  end.

(** [comma_separated_values_float], lines 216-217 *)
Definition comma_separated_values_float (x : string) : result (list float) :=
  pieces ← py_split "," x;
  map_R float_of pieces.

(** The functions of the module [operator] that [OPERATORS] holds,
    lines 274-281. *)
Inductive operator : Type :=
| op_lt | op_le | op_gt | op_ge | op_eq.

Definition OPERATORS : list (string * operator) :=
  [("<", op_lt); ("<=", op_le); (">", op_gt); (">=", op_ge); ("==", op_eq); ("=", op_eq)].

(** Lines 284-288: the loop over the operator texts.  [key, val = ...]
    raises [ValueError] unless the split gives exactly two pieces. *)
Fixpoint parse_limit_ops (ops : list string) (expr : string)
  : result (string * operator * float) :=
  match ops with
  | [] => Raise ValueError
  | op_str :: ops' =>
      if contains op_str expr then
        pieces ← py_split op_str expr;
        match pieces with
        | [key; val] =>
            let key := strip key in
            val ← float_of (strip val);
            match assoc op_str OPERATORS with
            | Some op_fn => Ret (key, op_fn, val)
            | None => Raise KeyError
            end
        | _ => Raise ValueError
        end
      else parse_limit_ops ops' expr
  end.

(** [parse_limit_expr], lines 283-289 *)
Definition parse_limit_expr (expr : string) : result (string * operator * float) :=
  parse_limit_ops ["<="; ">="; "<"; ">"; "=="; "="] expr.

End CommandLine.

(** Line 304: the hash that [main] reads off the name of an entry file,
    [os.path.splitext(name)[0].split("_")[-1]].  [splitext] cuts the name
    at its last dot, unless nothing but dots comes before it. *)
Fixpoint rfind (c : ascii) (cs : list ascii) : option nat :=
  match cs with
  | [] => None
  | x :: cs' =>
      match rfind c cs' with
      | Some i => Some (S i)
      | None => if Ascii.eqb x c then Some O else None
      end
  end.

Definition splitext_root (p : string) : string :=
  let cs := list_ascii_of_string p in
  match rfind "." cs with
  | Some i =>
      if forallb (Ascii.eqb ".") (firstn i cs) then p
      else string_of_list_ascii (firstn i cs)
  | None => p
  end.

Definition hash_of_name (name : string) : string :=
  List.last (split_from "_" 0 (splitext_root name)) "".

(** Lines 332-355 of [main]: from the matrix of the objective values,
    one row per entry, to the index of the entry closest to the ideal
    point. *)
Section MainRanking.
Context `{Externals}.

(** [values_matrix.shape[1]] *)
Definition shape1 (values_matrix : list (list R)) : result nat :=
  match values_matrix with
  | [] => Raise IndexError
  | row :: _ => Ret (length row)
  end.

(** Lines 332-334: no weights are zero weights, and a single weight
    stands for every objective. *)
Definition main_weights (weights : option (list R)) (n : nat) : list R :=
  let weights := match weights with None => repeat 0%R n | Some w => w end in
  match weights with
  | [w] => repeat w n
  | _ => weights
  end.

(** Lines 341-346: one row of [norm_matrix], from its coordinate [i] on. *)
Fixpoint main_norm_row (mins maxs : list R) (i : nat) (row : list R) : result (list R) :=
  match row with
  | [] => Ret []
  | v :: row' =>
      mx ← py_index maxs i;
      mn ← py_index mins i;
      let x := if Rlt_dec mn mx then ((v - mn) / (mx - mn))%R else v in
      rest ← main_norm_row mins maxs (S i) row';
      Ret (x :: rest)
  end.

(** Lines 349-352 *)
Fixpoint main_ideal_norm (ideal mins maxs : list R) (idxs : list nat) : result (list R) :=
  match idxs with
  | [] => Ret []
  | i :: idxs' =>
      mx ← py_index maxs i;
      mn ← py_index mins i;
      idl ← py_index ideal i;
      let x := if Rlt_dec mn mx then ((idl - mn) / (mx - mn))%R else idl in
      rest ← main_ideal_norm ideal mins maxs idxs';
      Ret (x :: rest)
  end.

(** [np.linalg.norm(norm_matrix - ideal_norm, axis=1)], one row *)
Definition main_dist (ideal_norm row : list R) : result R :=
  d ← broadcast Rminus row ideal_norm;
  Ret (sqrt (rsum (map (fun x => x * x)%R d))).

(** [np.argmin]: the first index of the least element. *)
Fixpoint argmin_from (best_i : nat) (best : R) (i : nat) (l : list R) : nat :=
  match l with
  | [] => best_i
  | x :: l' =>
      if Rlt_dec x best then argmin_from i x (S i) l'
      else argmin_from best_i best (S i) l'
  end.

Definition np_argmin (l : list R) : result nat :=
  match l with
  | [] => Raise ValueError
  | x :: l' => Ret (argmin_from 0 x 1 l')
  end.

(** The distances and [closest_idx].  With an ideal point of [nan]
    every distance is [nan], and [np.argmin] answers [0]. *)
Definition main_ranking (values_matrix : list (list R)) (mode : string)
    (weights : option (list R)) : result (option (list R) * nat) :=
  n ← shape1 values_matrix;
  let weights := main_weights weights n in
  ideal ← compute_ideal values_matrix mode (Some weights) (1 / 1000) 10;
  mins ← np_min values_matrix;
  maxs ← np_max values_matrix;
  norm_matrix ← map_R (main_norm_row mins maxs 0) values_matrix;
  match ideal with
  | NaNs => Ret (None, O)
  | Vec ideal =>
      ideal_norm ← main_ideal_norm ideal mins maxs (seq 0 (length ideal));
      dists ← map_R (main_dist ideal_norm) norm_matrix;
      closest_idx ← np_argmin dists;
      Ret (Some dists, closest_idx)
  end.

End MainRanking.

(** ** Vocabulary of the specification *)

(** Two entries with identical content: Python's [==] on documents, which
    does not look at the order in which a [dict] got its keys. *)
#[warnings="-register-all"]
Inductive json_equiv : json -> json -> Prop :=
| equiv_null : json_equiv JNull JNull
| equiv_bool b : json_equiv (JBool b) (JBool b)
| equiv_int n : json_equiv (JInt n) (JInt n)
| equiv_float x : json_equiv (JFloat x) (JFloat x)
| equiv_str s : json_equiv (JStr s) (JStr s)
| equiv_list l1 l2 :
    Forall2 json_equiv l1 l2 -> json_equiv (JList l1) (JList l2)
| equiv_dict d1 d1' d2 :
    Permutation d1 d1' ->
    Forall2 (fun a b => fst a = fst b /\ json_equiv (snd a) (snd b)) d1' d2 ->
    json_equiv (JDict d1) (JDict d2).

(** A [dict] holds each key once, at every depth. *)
Fixpoint wf_json (j : json) : Prop :=
  match j with
  | JList l => fold_right (fun v acc => wf_json v /\ acc) True l
  | JDict d => NoDup (map fst d) /\ fold_right (fun kv acc => wf_json (snd kv) /\ acc) True d
  | _ => True
  end.

Definition is_hex (c : ascii) : bool :=
  match find (Ascii.eqb c) (list_ascii_of_string "0123456789abcdef") with
  | Some _ => true
  | None => false
  end.

(** The consistency of index and files: for every hash of the index
    exactly one entry file has a name that ends with it, and every entry
    file ends with a hash of the index. *)
Definition entry_file_of (h name : string) : bool := ends_with (h ++ ".json") name.

Definition consistent (s : state) : Prop :=
  (forall h, h ∈ hashes s ->
     exists name, (is_Some (pareto_dir s !! name) /\ entry_file_of h name = true) /\
       forall name', is_Some (pareto_dir s !! name') -> entry_file_of h name' = true -> name' = name)
  /\ (forall name, is_Some (pareto_dir s !! name) ->
        exists h, h ∈ hashes s /\ entry_file_of h name = true).

(** No file operation among the next [n] fails. *)
Definition no_fault (n : nat) (s : state) : Prop :=
  forall i, (i < n)%nat -> faults s !! i <> Some true.

(** Column [j] of a matrix given by its rows, and what it is for a
    number to be the true minimum or maximum of a list. *)
Definition column (j : nat) (rows : list (list R)) : list R :=
  map (fun r => nth j r 0%R) rows.

Definition is_least (m : R) (l : list R) : Prop :=
  In m l /\ forall x, In x l -> (m <= x)%R.

Definition is_greatest (m : R) (l : list R) : Prop :=
  In m l /\ forall x, In x l -> (x <= m)%R.

(** The Weiszfeld iteration in the words of the specification: the [k]-th
    estimate from [z], and the average of the points weighted by the
    reciprocals of their distances to the estimate (by zero for a point
    on the estimate), in coordinate [j]. *)
Fixpoint estimate (k : nat) (values_matrix : list (list R)) (z : list R) : ndarray :=
  match k with
  | O => Vec z
  | S k' =>
      match weiszfeld_step values_matrix z with
      | NaNs => NaNs
      | Vec z' => estimate k' values_matrix z'
      end
  end.

Definition euclid_dist (p z : list R) : R :=
  sqrt (rsum (map (fun d => d * d)%R (zip_with Rminus p z))).

Definition inv_dist (z p : list R) : R :=
  if Rlt_dec 0 (euclid_dist p z) then (1 / euclid_dist p z)%R else 0%R.

Definition weighted_average (values_matrix : list (list R)) (z : list R) (j : nat) : R :=
  (rsum (zip_with Rmult (column j values_matrix) (map (inv_dist z) values_matrix))
   / rsum (map (inv_dist z) values_matrix))%R.

(** The ranking pass in the words of the specification.  The value of an
    objective of an entry is its number, or [+infinity] when it is
    missing; a value is normalized to [(value - min) / (max - min)] when
    [max > min] and to [0.0] otherwise; the distance is the Euclidean
    norm of the difference between the normalized vector and the
    normalized ideal point. *)
Definition objective (entry : json) (key : string) : result xfloat :=
  ac ← py_get entry "analyses_combined" (JDict []);
  val ← py_get ac key JNull;
  if is_none val then Ret Inf else x ← as_number val; Ret (Fin x).

Definition objectives (entry : json) (w_keys : list string) : result (list xfloat) :=
  map_R (objective entry) w_keys.

Definition normalize (v : xfloat) (mn mx : R) : xfloat :=
  if Rlt_dec mn mx then xdiv (xsub v mn) (mx - mn) else Fin 0.

Definition normalize_ideal (v mn mx : R) : R :=
  if Rlt_dec mn mx then ((v - mn) / (mx - mn))%R else 0%R.

Fixpoint normalized_point (vals : list xfloat) (mins maxs : list R) : list xfloat :=
  match vals, mins, maxs with
  | v :: vals', mn :: mins', mx :: maxs' =>
      normalize v mn mx :: normalized_point vals' mins' maxs'
  | _, _, _ => []
  end.

Fixpoint normalized_ideal (ideal mins maxs : list R) : list R :=
  match ideal, mins, maxs with
  | v :: ideal', mn :: mins', mx :: maxs' =>
      normalize_ideal v mn mx :: normalized_ideal ideal' mins' maxs'
  | _, _, _ => []
  end.

Fixpoint sum_squares (p : list xfloat) (q : list R) : xfloat :=
  match p, q with
  | a :: p', b :: q' => xadd (xsq (xsub a b)) (sum_squares p' q')
  | _, _ => Fin 0
  end.

Definition euclid_norm (p : list xfloat) (q : list R) : xfloat := xsqrt (sum_squares p q).

(** Lines 139-144 over entries that are already loaded. *)
Fixpoint fold_values (entries : list json) (w_keys : list string) (value_matrix : list (list json))
  : result (list (list json)) :=
  match entries with
  | [] => Ret value_matrix
  | entry :: entries' =>
      vm ← append_values entry w_keys value_matrix;
      fold_values entries' w_keys vm
  end.



(** Exactly one file of the directory is an entry file of [h], and it
    holds the document [doc]. *)
Definition sole_entry_file (h : string) (doc : json) (d : gmap string json) : Prop :=
  exists name, entry_file_of h name = true /\ d !! name = Some doc /\
    forall name', is_Some (d !! name') -> entry_file_of h name' = true -> name' = name.

(** An instance of [Externals] to run the examples with: sets and
    directories are enumerated in the order of [elements]; none of the
    examples prints a float, rounds one or takes a percentile. *)
Definition sample_externals : Externals := {|
  float_repr := fun _ => "0.0";
  round_sig := fun x _ => x;
  set_iter := elements;
  listdir := fun m => elements (dom m);
  np_percentile := fun _ _ => [];
  numpy_has_ptp := true
|}.

(** The order of two items by their keys. *)
Definition key_lt {A} (x y : string * A) : Prop := str_lt (fst x) (fst y) = true.

(** [keeps proj m]: the step [m] leaves the component [proj] of the state
    as it found it, whatever it returns. *)
Definition keeps {X A} (proj : state -> X) (m : M A) : Prop :=
  forall s, proj (snd (m s)) = proj s.

(** The fields of the object: only [put_hashes] writes them. *)
Definition self_of (s : state) : gset string * Z := (hashes s, sig_digits s).

(** The files: reading, listing and printing leave both directories alone. *)
Definition files_of (s : state) : gmap string json * gmap string json :=
  (root_dir s, pareto_dir s).

(** The document that [_save_index] writes. *)
Definition index_doc `{Externals} (hs : gset string) : json :=
  JList (map JStr (sorted_strings (set_iter hs))).

(** What [entry.get("analyses_combined", {}).get(key)] evaluates to. *)
Definition raw_value (entry : json) (key : string) : result json :=
  ac ← py_get entry "analyses_combined" (JDict []);
  py_get ac key JNull.

(** The text of a rounded, non-negative number below one thousand. *)
Definition fixed4 (n : Z) : string :=
  digits_fixed 3 (n / 10000) ++ "." ++ digits_fixed 4 (n mod 10000).

(** The state in which [write_entry] leaves the entry file in place. *)
Definition entry_written (h : string) (rounded : json) (s : state) : state :=
  mkState (hashes s) (sig_digits s) (root_dir s)
          (<[(h ++ ".json")%string := sort_keys rounded]>
             (delete ((h ++ ".json") ++ ".tmp")%string
                (<[((h ++ ".json") ++ ".tmp")%string := sort_keys rounded]> (pareto_dir s))))
          (tail (tail (faults s))) (out s).

(** The state after a line is printed. *)
Definition printed (m : msg) (s : state) : state := snd (print m s).

(** The vertices of a square, whichever its corner and its side. *)
Definition square (x y a : R) : list (list R) :=
  [[x; y]; [x + a; y]; [x; y + a]; [x + a; y + a]]%R.

(** No file operation fails from this state on. *)
Definition never_faults (s : state) : Prop := forall i : nat, faults s !! i <> Some true.

(** A property of the [pareto] directory that the ranking pass keeps: it
    survives the renaming of an entry file of an indexed hash to a
    storage name of that hash. *)
Definition rename_stable (hs : gset string) (P : gmap string json -> Prop) : Prop :=
  forall d h old doc dist,
    h ∈ hs -> entry_file_of h old = true -> d !! old = Some doc -> P d ->
    P (<[storage_name (format_08_4f dist) h := doc]> (delete old d)).

(** The entry of [h] is stored: one file of the directory is an entry
    file of [h], it holds [doc], and its name is one of the two that the
    store gives, [<h>.json] or [<prefix>_<h>.json]. *)
Definition stored_entry (h : string) (doc : json) (d : gmap string json) : Prop :=
  exists name,
    (name = (h ++ ".json")%string \/ exists dist, name = storage_name (format_08_4f dist) h) /\
    d !! name = Some doc /\
    forall name', is_Some (d !! name') -> entry_file_of h name' = true -> name' = name.

(** Some hash of the list has a ranked file of this name. *)
Definition ranked_of (hs : list string) (name : string) : bool :=
  existsb (fun h => fnmatch (Star ("_" ++ h ++ ".json")) name) hs.

(** [consistent], for an index and a directory taken apart. *)
Definition files_agree (hs : gset string) (d : gmap string json) : Prop :=
  (forall h, h ∈ hs ->
     exists name, (is_Some (d !! name) /\ entry_file_of h name = true) /\
       forall name', is_Some (d !! name') -> entry_file_of h name' = true -> name' = name)
  /\ (forall name, is_Some (d !! name) -> exists h, h ∈ hs /\ entry_file_of h name = true).

(** The character [c] is in the text, and how often. *)
Fixpoint occurs (c : ascii) (s : string) : bool :=
  match s with
  | EmptyString => false
  | String x s' => Ascii.eqb x c || occurs c s'
  end.

Fixpoint count_char (c : ascii) (s : string) : nat :=
  match s with
  | EmptyString => O
  | String x s' => ((if Ascii.eqb x c then 1 else 0) + count_char c s')%nat
  end.

(** A text without any character of a comparison operator. *)
Definition op_free (s : string) : Prop :=
  occurs "<" s = false /\ occurs ">" s = false /\ occurs "=" s = false.

(** An instance of [Builtins] to run the examples with: a float is the
    text that denotes it, and every text but the empty one denotes one. *)
Definition sample_builtins : Builtins := {|
  float := string;
  py_float := fun z => if String.eqb z "" then None else Some z
|}.

(** A value that [set(...)] cannot take as a member: a list or a [dict]. *)
Definition unhashable (j : json) : bool :=
  match j with JList _ | JDict _ => true | _ => false end.

Definition numeric_objectives (doc : json) : Prop :=
  exists d ac k ks,
    doc = JDict d /\ assoc "analyses_combined" d = Some (JDict ac) /\
    filter (fun key => starts_with "w_" key = true) (map fst ac) = k :: ks /\
    forall key, key ∈ k :: ks -> exists v x, assoc key ac = Some v /\ as_number v = Ret x.

(** ** The store that the ranking pass expects

    The entry of [h] is ranked: its file is named by the distance. *)
Definition ranked_entry (h : string) (doc : json) (dist : xfloat) (d : gmap string json) : Prop :=
  d !! storage_name (format_08_4f dist) h = Some doc /\
  forall name', is_Some (d !! name') -> entry_file_of h name' = true ->
    name' = storage_name (format_08_4f dist) h.

(** A document that the pass can rank: under every objective it holds a
    number, or [null], or nothing. *)
Definition rankable (w_keys : list string) (doc : json) : Prop :=
  exists d ac, doc = JDict d /\ assoc "analyses_combined" d = Some (JDict ac) /\
    forall key v, key ∈ w_keys -> assoc key ac = Some v ->
      v = JNull \/ exists x, as_number v = Ret x.

(** What [hash_entry] returns: sixteen hexadecimal digits. *)
Definition is_digest (h : string) : Prop :=
  String.length h = 16%nat /\ forallb is_hex (list_ascii_of_string h) = true.

(** A store of three entries to run the ranking pass on; the first entry
    misses the objective w_0 and the third the objective w_1. *)
Definition sample_hashes : list string :=
  ["1111111111111111"; "2222222222222222"; "3333333333333333"].

Definition sample_docs (h : string) : json :=
  JDict [("analyses_combined",
          JDict (if String.eqb h "1111111111111111" then [("w_0", JNull); ("w_1", JInt 0)]
                 else if String.eqb h "2222222222222222" then [("w_0", JInt 0); ("w_1", JInt 1)]
                 else [("w_0", JInt 0); ("w_1", JNull)]))].

Definition sample_store : state :=
  mkState (list_to_set sample_hashes) 6 ∅
          (list_to_map (map (fun h => ((h ++ ".json")%string, sample_docs h)) sample_hashes))
          [] [].

(** * Properties *)

(** ** Strings and sorting *)

Lemma append_cons (c : ascii) (a b : string) : (String c a ++ b)%string = String c (a ++ b).
Proof. reflexivity. Qed.

Lemma append_nil_l (b : string) : ("" ++ b)%string = b.
Proof. reflexivity. Qed.

Lemma append_length (a b : string) :
  String.length (a ++ b) = (String.length a + String.length b)%nat.
Proof.
  induction a as [|c a IH]; [reflexivity |].
  rewrite append_cons. simpl. now rewrite IH.
Qed.

Lemma substring_append_prefix (a b : string) :
  substring 0 (String.length a) (a ++ b) = a.
Proof.
  induction a as [|c a IH].
  - rewrite append_nil_l. destruct b; reflexivity.
  - rewrite append_cons. simpl. now rewrite IH.
Qed.

Lemma append_assoc (a b c : string) : ((a ++ b) ++ c = a ++ (b ++ c))%string.
Proof.
  induction a as [|x a IH]; [reflexivity |].
  rewrite !append_cons. now rewrite IH.
Qed.

Lemma ends_with_spec (suf s : string) :
  ends_with suf s = true <-> exists p, s = (p ++ suf)%string.
Proof.
  induction s as [|c s IH].
  - destruct suf as [|c suf]; simpl.
    + split; [exists ""; reflexivity | reflexivity].
    + split; [intros Hf; discriminate Hf |].
      intros [p Hp]. destruct p; [rewrite append_nil_l in Hp; congruence |].
      rewrite append_cons in Hp. discriminate.
  - change (ends_with suf (String c s))
      with (if String.eqb (String c s) suf then true else ends_with suf s).
    destruct (String.eqb_spec (String c s) suf) as [<-|Hne].
    + split; [exists ""; reflexivity | reflexivity].
    + rewrite IH. split.
      * intros [p ->]. exists (String c p). reflexivity.
      * intros [p Hp]. destruct p as [|c' p]; [rewrite append_nil_l in Hp; congruence |].
        rewrite append_cons in Hp. injection Hp as _ ->. now exists p.
Qed.

Lemma str_lt_irrefl (a : string) : str_lt a a = false.
Proof.
  unfold str_lt. destruct (String_as_OT.compare_spec a a) as [_|Hlt|Hlt];
    try reflexivity; exfalso; exact (irreflexivity String_as_OT.lt a Hlt).
Qed.

Lemma str_lt_trans (a b c : string) :
  str_lt a b = true -> str_lt b c = true -> str_lt a c = true.
Proof.
  unfold str_lt. intros Hab Hbc.
  assert (String_as_OT.lt a b) as H1 by (unfold String_as_OT.lt; destruct (String_as_OT.compare a b); congruence).
  assert (String_as_OT.lt b c) as H2 by (unfold String_as_OT.lt; destruct (String_as_OT.compare b c); congruence).
  pose proof (transitivity H1 H2) as H3. unfold String_as_OT.lt in H3. now rewrite H3.
Qed.

Lemma str_lt_total (a b : string) :
  str_lt a b = false -> str_lt b a = false -> a = b.
Proof.
  unfold str_lt. intros Hab Hba.
  destruct (String_as_OT.compare_spec a b) as [Heq|Hlt|Hgt]; try discriminate.
  - exact Heq.
  - unfold String_as_OT.lt in Hgt. rewrite Hgt in Hba. discriminate.
Qed.

Lemma str_lt_asym (a b : string) : str_lt a b = true -> str_lt b a = false.
Proof.
  intros Hab. destruct (str_lt b a) eqn:Hba; [|reflexivity].
  pose proof (str_lt_trans _ _ _ Hab Hba) as Haa. rewrite str_lt_irrefl in Haa. discriminate.
Qed.

Section SortItems.
Context {A : Type}.
Implicit Types (x y : string * A) (l : list (string * A)).

Lemma insert_item_perm x l : Permutation (insert_item x l) (x :: l).
Proof.
  induction l as [|y l IH]; simpl; [reflexivity |].
  destruct (str_lt (fst y) (fst x)); [| reflexivity].
  rewrite IH. apply perm_swap.
Qed.

Lemma sort_items_perm l : Permutation (sort_items l) l.
Proof.
  induction l as [|x l IH]; simpl; [reflexivity |].
  rewrite insert_item_perm. now constructor.
Qed.

Lemma insert_item_sorted x l :
  ~ In (fst x) (map fst l) ->
  StronglySorted key_lt l -> StronglySorted key_lt (insert_item x l).
Proof.
  induction l as [|y l IH]; simpl; intros Hnin Hs.
  - repeat constructor.
  - inversion Hs as [|? ? Hs' Hall]; subst.
    destruct (str_lt (fst y) (fst x)) eqn:Hyx.
    + constructor; [apply IH; tauto |].
      rewrite List.Forall_forall. intros z Hz.
      apply (Permutation_in _ (insert_item_perm x l)) in Hz.
      destruct Hz as [<-|Hz]; [exact Hyx |].
      rewrite List.Forall_forall in Hall. now apply Hall.
    + assert (key_lt x y) as Hxy.
      { unfold key_lt. destruct (str_lt (fst x) (fst y)) eqn:E; [reflexivity |].
        exfalso. apply Hnin. left. now apply str_lt_total. }
      constructor; [exact Hs |].
      constructor; [exact Hxy |].
      rewrite List.Forall_forall in Hall |- *. intros z Hz.
      unfold key_lt in *. eapply str_lt_trans; [exact Hxy | now apply Hall].
Qed.

Lemma sort_items_sorted l :
  NoDup (map fst l) -> StronglySorted key_lt (sort_items l).
Proof.
  induction l as [|x l IH]; simpl; intros Hnd; [constructor |].
  inversion Hnd as [|? ? Hnin Hnd']; subst.
  apply insert_item_sorted; [| now apply IH].
  intros Hin. apply Hnin, list_elem_of_In.
  eapply Permutation_in; [| exact Hin].
  apply Permutation_map, sort_items_perm.
Qed.

Lemma sorted_perm_unique l1 l2 :
  StronglySorted key_lt l1 -> StronglySorted key_lt l2 ->
  Permutation l1 l2 -> l1 = l2.
Proof.
  revert l2. induction l1 as [|x l1 IH]; intros l2 H1 H2 Hp.
  - apply Permutation_nil in Hp. now subst.
  - destruct l2 as [|y l2]; [apply Permutation_sym, Permutation_nil in Hp; discriminate |].
    inversion H1 as [|? ? H1' Hall1]; inversion H2 as [|? ? H2' Hall2]; subst.
    rewrite List.Forall_forall in Hall1, Hall2.
    assert (x = y) as ->.
    { assert (In x (y :: l2)) as Hx by (eapply Permutation_in; [exact Hp | now left]).
      assert (In y (x :: l1)) as Hy by (eapply Permutation_in; [symmetry; exact Hp | now left]).
      destruct Hx as [->|Hx]; [reflexivity |].
      destruct Hy as [->|Hy]; [reflexivity |].
      apply Hall2 in Hx. apply Hall1 in Hy. unfold key_lt in *.
      rewrite (str_lt_asym _ _ Hx) in Hy. discriminate. }
    f_equal. apply IH; try assumption. now apply Permutation_cons_inv in Hp.
Qed.

(** [sorted] does not depend on the order of its input. *)
Lemma sort_items_permutation l1 l2 :
  NoDup (map fst l1) -> Permutation l1 l2 -> sort_items l1 = sort_items l2.
Proof.
  intros Hnd Hp. apply sorted_perm_unique.
  - now apply sort_items_sorted.
  - apply sort_items_sorted.
    pose proof (Permutation_map fst Hp) as Hp'. now rewrite <- Hp'.
  - rewrite !sort_items_perm. exact Hp.
Qed.

End SortItems.

(** ** Induction on documents *)
Section JsonInd.
Variable P : json -> Prop.
Hypothesis Hnull : P JNull.
Hypothesis Hbool : forall b, P (JBool b).
Hypothesis Hint : forall n, P (JInt n).
Hypothesis Hfloat : forall x, P (JFloat x).
Hypothesis Hstr : forall s, P (JStr s).
Hypothesis Hlist : forall l, List.Forall P l -> P (JList l).
Hypothesis Hdict : forall d, List.Forall (fun kv => P (snd kv)) d -> P (JDict d).

Fixpoint json_induction (j : json) : P j :=
  match j with
  | JNull => Hnull
  | JBool b => Hbool b
  | JInt n => Hint n
  | JFloat x => Hfloat x
  | JStr s => Hstr s
  | JList l =>
      Hlist l ((fix go (l : list json) : List.Forall P l :=
                  match l with
                  | [] => @List.Forall_nil _ _
                  | v :: l' => @List.Forall_cons _ _ v l' (json_induction v) (go l')
                  end) l)
  | JDict d =>
      Hdict d ((fix go (d : list (string * json)) : List.Forall (fun kv => P (snd kv)) d :=
                  match d with
                  | [] => @List.Forall_nil _ _
                  | kv :: d' => @List.Forall_cons _ _ kv d' (json_induction (snd kv)) (go d')
                  end) d)
  end.
End JsonInd.

(** ** [hash_entry] *)
Section HashEntry.
Context `{Externals}.

Lemma dumps_list l :
  dumps (JList l) = ("[" ++ String.concat "," (map dumps l) ++ "]")%string.
Proof. reflexivity. Qed.

Lemma dumps_dict d :
  dumps (JDict d)
  = ("{" ++ String.concat ","
            (map (fun kv => quote (fst kv) ++ ":" ++ snd kv)
                 (sort_items (map (fun kv => (fst kv, dumps (snd kv))) d)))
         ++ "}")%string.
Proof. reflexivity. Qed.

Lemma wf_json_list l : wf_json (JList l) -> List.Forall wf_json l.
Proof.
  induction l as [|v l IH]; simpl; intros Hwf; constructor; [tauto | apply IH; tauto].
Qed.

Lemma wf_json_dict d :
  wf_json (JDict d) -> NoDup (map fst d) /\ List.Forall (fun kv => wf_json (snd kv)) d.
Proof.
  simpl. intros [Hnd Hall]. split; [exact Hnd |].
  clear Hnd. induction d as [|kv d IH]; simpl in *; constructor; [tauto | apply IH; tauto].
Qed.

(** The encoder's own order of work, sort and then write, gives the text
    that [dumps] builds. *)
Lemma insert_item_map_values {A B} (f : A -> B) (x : string * A) (l : list (string * A)) :
  insert_item (fst x, f (snd x)) (map (fun kv => (fst kv, f (snd kv))) l)
  = map (fun kv => (fst kv, f (snd kv))) (insert_item x l).
Proof.
  induction l as [|y l IH]; simpl; [reflexivity |].
  destruct (str_lt (fst y) (fst x)); simpl; [now rewrite IH | reflexivity].
Qed.

Lemma sort_items_map_values {A B} (f : A -> B) (l : list (string * A)) :
  sort_items (map (fun kv => (fst kv, f (snd kv))) l)
  = map (fun kv => (fst kv, f (snd kv))) (sort_items l).
Proof.
  induction l as [|x l IH]; simpl; [reflexivity |].
  rewrite IH. apply insert_item_map_values.
Qed.

Lemma dumps_equiv (e1 : json) :
  forall e2, wf_json e1 -> json_equiv e1 e2 -> dumps e1 = dumps e2.
Proof.
  induction e1 as [| | | | |l IH|d IH] using json_induction;
    intros e2 Hwf Heq; inversion Heq; subst; try reflexivity.
  - (* lists *)
    rewrite !dumps_list. do 3 f_equal.
    apply wf_json_list in Hwf.
    match goal with Hf : Forall2 json_equiv _ _ |- _ => rename Hf into H2 end.
    clear Heq. induction H2 as [|v1 v2 l1 l2 Hv Hl IH2]; [reflexivity |].
    inversion IH; inversion Hwf; subst. simpl. f_equal; auto.
  - (* dictionaries *)
    rewrite !dumps_dict. do 4 f_equal.
    apply wf_json_dict in Hwf as [Hnd Hwf].
    match goal with
    | Hp : Permutation d ?d', Hf : Forall2 _ ?d' _ |- _ =>
        rename Hp into Hperm; rename Hf into H2; rename d' into d1'
    end.
    transitivity (sort_items (map (fun kv => (fst kv, dumps (snd kv))) d1')).
    + apply sort_items_permutation.
      * rewrite map_map. simpl. exact Hnd.
      * now apply Permutation_map.
    + f_equal.
      assert (List.Forall (fun kv => forall e2, wf_json (snd kv) -> json_equiv (snd kv) e2
                                     -> dumps (snd kv) = dumps e2) d1') as IH'.
      { rewrite List.Forall_forall in IH |- *. intros kv Hkv. apply IH.
        eapply Permutation_in; [symmetry; exact Hperm | exact Hkv]. }
      assert (List.Forall (fun kv => wf_json (snd kv)) d1') as Hwf'.
      { rewrite List.Forall_forall in Hwf |- *. intros kv Hkv. apply Hwf.
        eapply Permutation_in; [symmetry; exact Hperm | exact Hkv]. }
      clear IH Hwf Hperm Hnd Heq.
      induction H2 as [|a b l1 l2 [Hk Hv] Hl IH2]; [reflexivity |].
      inversion IH'; inversion Hwf'; subst. simpl. f_equal; [| auto].
      rewrite Hk. f_equal. auto.
Qed.

Lemma hex8_length x : String.length (Sha256.hex8 x) = 8%nat.
Proof. reflexivity. Qed.

Lemma hexdigit_is_hex n : is_hex (Sha256.hexdigit n) = true.
Proof.
  destruct n as [|p|p]; try reflexivity.
  do 5 (try destruct p as [p|p|]; try reflexivity).
Qed.

Lemma hex8_is_hex x : forallb is_hex (list_ascii_of_string (Sha256.hex8 x)) = true.
Proof.
  unfold Sha256.hex8. rewrite list_ascii_of_string_of_list_ascii. simpl.
  now rewrite !hexdigit_is_hex.
Qed.

Lemma list_ascii_of_string_app a b :
  list_ascii_of_string (a ++ b) = (list_ascii_of_string a ++ list_ascii_of_string b)%list.
Proof.
  induction a as [|c a IH]; [reflexivity |].
  rewrite append_cons. simpl. now rewrite IH.
Qed.

(** The digest that [hash_entry] returns is the first two words of the
    SHA-256 state, in hexadecimal. *)
Lemma hash_entry_words entry :
  hash_entry entry
  = (Sha256.hex8 (Sha256.sa (Sha256.digest (encode_utf8 (dumps entry))))
     ++ Sha256.hex8 (Sha256.sb (Sha256.digest (encode_utf8 (dumps entry)))))%string.
Proof.
  unfold hash_entry, Sha256.hexdigest.
  set (s := Sha256.digest _).
  rewrite <- (append_assoc (Sha256.hex8 (Sha256.sa s))).
  apply (substring_append_prefix (Sha256.hex8 (Sha256.sa s) ++ Sha256.hex8 (Sha256.sb s))).
Qed.

Lemma hash_entry_length entry : String.length (hash_entry entry) = 16%nat.
Proof. rewrite hash_entry_words, append_length, !hex8_length. reflexivity. Qed.

Lemma hash_entry_hex entry :
  forallb is_hex (list_ascii_of_string (hash_entry entry)) = true.
Proof.
  rewrite hash_entry_words, list_ascii_of_string_app, forallb_app, !hex8_is_hex.
  reflexivity.
Qed.

End HashEntry.

(** C4: [hash_entry] returns sixteen hexadecimal characters, the start of
    the SHA-256 digest of the serialization with sorted keys and compact
    separators; two entries with identical content, whatever the order in
    which their mappings got their keys, hash identically. *)
Theorem hash_entry_canonical `{Externals} (e1 e2 : json) :
  wf_json e1 -> json_equiv e1 e2 ->
  hash_entry e1 = substring 0 16 (Sha256.hexdigest (encode_utf8 (dumps e1))) /\
  String.length (hash_entry e1) = 16%nat /\
  forallb is_hex (list_ascii_of_string (hash_entry e1)) = true /\
  hash_entry e1 = hash_entry e2.
Proof.
  intros Hwf Heq. split; [reflexivity |]. split; [apply hash_entry_length |].
  split; [apply hash_entry_hex |].
  unfold hash_entry. now rewrite (dumps_equiv e1 e2 Hwf Heq).
Qed.

Lemma hash_entry_canonical_witness :
  @hash_entry sample_externals (JDict [("a", JInt 1); ("b", JList [JInt 2; JNull])])
  = @hash_entry sample_externals (JDict [("b", JList [JInt 2; JNull]); ("a", JInt 1)]).
Proof.
  refine (proj2 (proj2 (proj2 (@hash_entry_canonical sample_externals _ _ _ _)))).
  - simpl. split; [| tauto].
    apply NoDup_cons. split; [| apply NoDup_singleton].
    rewrite list_elem_of_In. simpl. intros [Hab | []]. discriminate Hab.
  - apply equiv_dict with (d1' := [("b", JList [JInt 2; JNull]); ("a", JInt 1)]).
    + apply perm_swap.
    + repeat constructor.
Defined.

(** The test vectors of FIPS 180-4, and the first of the constants. *)
Example sha256_abc :
  Sha256.hexdigest (encode_utf8 "abc")
  = "ba7816bf8f01cfea414140de5dae2223b00361a396177a9cb410ff61f20015ad".
Proof. vm_compute. reflexivity. Qed.

Example sha256_empty :
  Sha256.hexdigest (encode_utf8 "")
  = "e3b0c44298fc1c149afbf4c8996fb92427ae41e4649b934ca495991b7852b855".
Proof. vm_compute. reflexivity. Qed.

Example sha256_two_blocks :
  Sha256.hexdigest
    (encode_utf8 "abcdbcdecdefdefgefghfghighijhijkijkljklmklmnlmnomnopnopq")
  = "248d6a61d20638b8e5c026930c3e6039a33ce45964ff2167f6ecedd419db06c1".
Proof. vm_compute. reflexivity. Qed.

Example sha256_constants :
  nth 0 Sha256.K 0 = 0x428a2f98 /\ nth 63 Sha256.K 0 = 0xc67178f2 /\
  length Sha256.K = 64%nat /\ Sha256.sa Sha256.H0 = 0x6a09e667.
Proof. repeat split. Qed.

Example dumps_sample :
  @dumps sample_externals
    (JDict [("b", JList [JInt 2; JNull; JBool true]); ("a", JStr "x\y")])
  = "{" ++ String "034" "a" ++ String "034" ":" ++ String "034" "x\\y"
        ++ String "034" "," ++ String "034" "b" ++ String "034" ":[2,null,true]}".
Proof. vm_compute. reflexivity. Qed.

Example hash_entry_sample :
  @hash_entry sample_externals (JDict [("analyses_combined", JDict [])])
  = "917867e278c2a18f".
Proof. vm_compute. reflexivity. Qed.

(** ** Running the monad *)

Lemma bind_run {A B} (m : M A) (f : A -> M B) (s : state) :
  (m ≫= f) s = match m s with
               | (Ret a, s') => f a s'
               | (Raise e, s') => (Raise e, s')
               end.
Proof. reflexivity. Qed.

Lemma try_except_run {A} (body : M A) (handler : exn -> M A) (s : state) :
  try_except body handler s = match body s with
                              | (Ret a, s') => (Ret a, s')
                              | (Raise e, s') => handler e s'
                              end.
Proof. reflexivity. Qed.

Section Keeps.
Context {X : Type} (proj : state -> X).

Lemma keeps_ret {A} (a : A) : keeps proj (mret a).
Proof. intros s. reflexivity. Qed.

Lemma keeps_raise {A} (e : exn) : keeps proj (raise e : M A).
Proof. intros s. reflexivity. Qed.

Lemma keeps_lift {A} (r : result A) : keeps proj (lift r).
Proof. intros s. reflexivity. Qed.

Lemma keeps_bind {A B} (m : M A) (f : A -> M B) :
  keeps proj m -> (forall a, keeps proj (f a)) -> keeps proj (m ≫= f).
Proof.
  intros Hm Hf s. rewrite bind_run. specialize (Hm s).
  destruct (m s) as [[a|e] s1]; simpl in *; [| exact Hm].
  rewrite Hf. exact Hm.
Qed.

Lemma keeps_try_except {A} (body : M A) (handler : exn -> M A) :
  keeps proj body -> (forall e, keeps proj (handler e)) -> keeps proj (try_except body handler).
Proof.
  intros Hm Hf s. rewrite try_except_run. specialize (Hm s).
  destruct (body s) as [[a|e] s1]; simpl in *; [exact Hm |].
  rewrite Hf. exact Hm.
Qed.

Lemma keeps_for_each {A} (l : list A) (body : A -> M unit) :
  (forall x, keeps proj (body x)) -> keeps proj (for_each l body).
Proof.
  intros Hb. induction l as [|x l IH]; simpl; [apply keeps_ret |].
  apply keeps_bind; [apply Hb | intros _; exact IH].
Qed.

Lemma keeps_map_M {A B} (f : A -> M B) (l : list A) :
  (forall x, keeps proj (f x)) -> keeps proj (map_M f l).
Proof.
  intros Hf. induction l as [|x l IH]; simpl; [apply keeps_ret |].
  apply keeps_bind; [apply Hf | intros y].
  apply keeps_bind; [exact IH | intros ys; apply keeps_ret].
Qed.

End Keeps.

(** What each primitive step keeps. *)
Lemma keeps_get_hashes {X} (proj : state -> X) : keeps proj get_hashes.
Proof. intros s. reflexivity. Qed.

Lemma keeps_os_path_exists {X} (proj : state -> X) p : keeps proj (os_path_exists p).
Proof. intros s. reflexivity. Qed.

Lemma keeps_glob `{Externals} {X} (proj : state -> X) pat : keeps proj (glob pat).
Proof. intros s. reflexivity. Qed.

Lemma self_of_set_dir p d s : self_of (set_dir p d s) = self_of s.
Proof. destruct p; reflexivity. Qed.

Lemma keeps_self_io : keeps self_of io.
Proof. intros s. reflexivity. Qed.

Lemma keeps_self_print m : keeps self_of (print m).
Proof. intros s. reflexivity. Qed.

Lemma keeps_self_write_file p doc : keeps self_of (write_file p doc).
Proof.
  apply keeps_bind; [apply keeps_self_io | intros _ s].
  unfold act. simpl. apply self_of_set_dir.
Qed.

Lemma keeps_self_read_file p : keeps self_of (read_file p).
Proof.
  apply keeps_bind; [apply keeps_self_io | intros _ s].
  unfold act. destruct (dir_of p s !! name_of p); reflexivity.
Qed.

Lemma keeps_self_os_replace src dst : keeps self_of (os_replace src dst).
Proof.
  apply keeps_bind; [apply keeps_self_io | intros _ s].
  unfold act. destruct (dir_of src s !! name_of src); simpl; [apply self_of_set_dir | reflexivity].
Qed.

Lemma keeps_self_os_remove p : keeps self_of (os_remove p).
Proof.
  apply keeps_bind; [apply keeps_self_io | intros _ s].
  unfold act. destruct (dir_of p s !! name_of p); simpl; [apply self_of_set_dir | reflexivity].
Qed.

Lemma keeps_files_io : keeps files_of io.
Proof. intros s. reflexivity. Qed.

Lemma keeps_files_print m : keeps files_of (print m).
Proof. intros s. reflexivity. Qed.

Lemma keeps_files_read_file p : keeps files_of (read_file p).
Proof.
  apply keeps_bind; [apply keeps_files_io | intros _ s].
  unfold act. destruct (dir_of p s !! name_of p); reflexivity.
Qed.

Section StoreFrames.
Context `{Externals}.

Lemma keeps_load_entry {X} (proj : state -> X) h :
  keeps proj io -> keeps proj (load_entry h).
Proof.
  intros Hio. unfold load_entry.
  apply keeps_bind; [apply keeps_glob | intros matches].
  apply keeps_bind.
  { destruct matches; [apply keeps_glob | apply keeps_ret]. }
  intros [|m0 ?]; [apply keeps_raise |].
  unfold read_file. apply keeps_bind; [exact Hio | intros _ s].
  unfold act. destruct (dir_of (Pareto m0) s !! name_of (Pareto m0)); reflexivity.
Qed.

Lemma keeps_compute_ideal_point {X} (proj : state -> X) :
  keeps proj io -> keeps proj compute_ideal_point.
Proof.
  intros Hio. unfold compute_ideal_point.
  apply keeps_bind; [apply keeps_get_hashes | intros hs].
  apply keeps_bind; [apply keeps_map_M; intros h; now apply keeps_load_entry | intros entries].
  apply keeps_bind; [apply keeps_lift | intros e0].
  apply keeps_bind; [apply keeps_lift | intros w_keys].
  destruct entries; [apply keeps_ret |].
  destruct w_keys; [apply keeps_ret | apply keeps_lift].
Qed.

Lemma keeps_fill_matrix {X} (proj : state -> X) hs w_keys vm :
  keeps proj io -> keeps proj (fill_matrix hs w_keys vm).
Proof.
  intros Hio. revert vm. induction hs as [|h hs IH]; intros vm; simpl; [apply keeps_ret |].
  apply keeps_bind; [now apply keeps_load_entry | intros entry].
  apply keeps_bind; [apply keeps_lift | intros vm']. apply IH.
Qed.

Lemma keeps_self_rename_one w_keys ideal mins maxs h :
  keeps self_of (rename_one w_keys ideal mins maxs h).
Proof.
  unfold rename_one. apply keeps_try_except; [| intros e; apply keeps_self_print].
  apply keeps_bind; [apply keeps_load_entry, keeps_self_io | intros entry].
  apply keeps_bind; [apply keeps_lift | intros dist].
  apply keeps_bind; [apply keeps_glob | intros [|old ?]]; [apply keeps_ret |].
  apply keeps_self_os_replace.
Qed.

Lemma keeps_self_rename_entries_with_distance :
  keeps self_of rename_entries_with_distance.
Proof.
  unfold rename_entries_with_distance.
  apply keeps_bind; [apply keeps_compute_ideal_point, keeps_self_io | intros [ideal|]];
    [| apply keeps_self_print].
  apply keeps_bind; [apply keeps_get_hashes | intros hs].
  apply keeps_bind.
  { destruct (set_iter hs); [apply keeps_raise | apply keeps_ret]. }
  intros h0.
  apply keeps_bind; [apply keeps_load_entry, keeps_self_io | intros sample].
  apply keeps_bind; [apply keeps_lift | intros ks].
  destruct (sorted_strings ks) eqn:Hks; [apply keeps_self_print |].
  apply keeps_bind; [apply keeps_fill_matrix, keeps_self_io | intros vm].
  apply keeps_bind; [apply keeps_lift | intros mins].
  apply keeps_bind; [apply keeps_lift | intros maxs].
  apply keeps_for_each. intros h. apply keeps_self_rename_one.
Qed.

Lemma keeps_self_save_index : keeps self_of _save_index.
Proof.
  unfold _save_index.
  apply keeps_bind; [apply keeps_get_hashes | intros hs].
  apply keeps_bind; [apply keeps_self_write_file | intros _].
  apply keeps_self_os_replace.
Qed.

End StoreFrames.

(** ** [add_entry]: the duplicate test *)
Section AddEntry.
Context `{Externals}.

Lemma add_entry_run entry s :
  add_entry entry s
  = let rounded := round_floats entry (sig_digits s) in
    let h := hash_entry rounded in
    if bool_decide (h ∈ hashes s) then (Ret false, s)
    else try_except (write_entry h rounded;; register_entry h)
                    (fun e => print (FailedWrite h e);; mret false) s.
Proof.
  unfold add_entry. rewrite bind_run. unfold act at 1. rewrite bind_run.
  unfold get_hashes at 1. cbv zeta.
  destruct (bool_decide _); reflexivity.
Qed.

Lemma keeps_self_write_entry h rounded : keeps self_of (write_entry h rounded).
Proof.
  apply keeps_bind; [apply keeps_self_write_file | intros _; apply keeps_self_os_replace].
Qed.

Lemma register_entry_self h s :
  self_of (snd (register_entry h s)) = ({[h]} ∪ hashes s, sig_digits s).
Proof.
  unfold register_entry. rewrite bind_run. unfold get_hashes at 1.
  rewrite bind_run. unfold put_hashes at 1.
  set (s1 := mkState _ _ _ _ _ _).
  assert (keeps self_of (_save_index;; rename_entries_with_distance;; mret true)) as K.
  { apply keeps_bind; [apply keeps_self_save_index | intros _].
    apply keeps_bind; [apply keeps_self_rename_entries_with_distance | intros _].
    apply keeps_ret. }
  apply (K s1).
Qed.

(** What [add_entry] can do to the fields of the object. *)
Lemma add_entry_self entry s r s' :
  add_entry entry s = (r, s') ->
  let h := hash_entry (round_floats entry (sig_digits s)) in
  sig_digits s' = sig_digits s /\
  (r = Ret true \/ r = Ret false) /\
  (hashes s' = hashes s \/ hashes s' = {[h]} ∪ hashes s) /\
  (r = Ret true -> hashes s' = {[h]} ∪ hashes s).
Proof.
  rewrite add_entry_run. cbv zeta.
  set (rounded := round_floats entry (sig_digits s)). set (h := hash_entry rounded).
  destruct (bool_decide (h ∈ hashes s)).
  { intros [= <- <-]. repeat split; auto; try discriminate. }
  rewrite try_except_run, bind_run.
  pose proof (keeps_self_write_entry h rounded s) as Kw.
  destruct (write_entry h rounded s) as [[[]|ex] s1]; simpl in Kw.
  - pose proof (register_entry_self h s1) as Kr.
    destruct (register_entry h s1) as [[b|ex] s2]; simpl in Kr.
    + intros [= <- <-]. unfold self_of in *.
      injection Kw as Kw1 Kw2. injection Kr as Kr1 Kr2. rewrite Kw1 in Kr1.
      unfold register_entry in *.
      repeat split; try congruence; auto.
      destruct b; auto.
    + rewrite bind_run. unfold print at 1. intros [= <- <-]. simpl.
      unfold self_of in *. injection Kw as Kw1 Kw2. injection Kr as Kr1 Kr2.
      rewrite Kw1 in Kr1.
      repeat split; try congruence; auto; try discriminate.
  - rewrite bind_run. unfold print at 1. intros [= <- <-]. simpl.
    unfold self_of in *. injection Kw as Kw1 Kw2.
    repeat split; try congruence; auto; try discriminate.
Qed.

End AddEntry.

(** C1: when the hash of the rounded entry is in the index, [add_entry]
    returns [False] and leaves the whole state as it was: nothing is
    written, index and files are unchanged.  In particular a second call
    after one that returned [True] returns [False]. *)
Theorem add_entry_dedup `{Externals} (entry : json) (s : state) :
  (hash_entry (round_floats entry (sig_digits s)) ∈ hashes s ->
   add_entry entry s = (Ret false, s)) /\
  (forall s', add_entry entry s = (Ret true, s') ->
     add_entry entry s' = (Ret false, s')).
Proof.
  assert (forall s0, hash_entry (round_floats entry (sig_digits s0)) ∈ hashes s0 ->
                     add_entry entry s0 = (Ret false, s0)) as Hdup.
  { intros s0 Hin. rewrite add_entry_run. cbv zeta.
    now rewrite bool_decide_eq_true_2. }
  split; [apply Hdup |].
  intros s' Hadd. apply Hdup.
  destruct (add_entry_self _ _ _ _ Hadd) as (Hsig & _ & _ & Hh).
  rewrite Hsig, (Hh eq_refl). apply elem_of_union_l, elem_of_singleton. reflexivity.
Qed.

Lemma sample_externals_ok : ExternalsOk sample_externals.
Proof. split; intros; reflexivity. Qed.

Lemma add_entry_dedup_witness :
  let s1 := snd (@add_entry sample_externals (JDict [("analyses_combined", JDict [])])
                   (mkState ∅ 6 ∅ ∅ [] [])) in
  @add_entry sample_externals (JDict [("analyses_combined", JDict [])]) s1 = (Ret false, s1).
Proof.
  intros s1.
  apply (proj1 (@add_entry_dedup sample_externals (JDict [("analyses_combined", JDict [])]) s1)).
  apply (bool_decide_unpack _). vm_compute. exact I.
Defined.

(** ** The oracle *)

Lemma io_ok s : faults s !! 0%nat <> Some true -> io s = (Ret tt, tick s).
Proof.
  unfold io. destruct (faults s) as [|[] fs]; simpl; intros Hf; try reflexivity.
  now contradict Hf.
Qed.

Lemma io_fail s fs : faults s = true :: fs -> io s = (Raise OSError, tick s).
Proof. unfold io. now intros ->. Qed.

Lemma no_fault_head n s : no_fault (S n) s -> faults s !! 0%nat <> Some true.
Proof. intros Hn. apply Hn. lia. Qed.

Lemma no_fault_tick n s : no_fault (S n) s -> no_fault n (tick s).
Proof.
  intros Hn i Hi. simpl. specialize (Hn (S i)). 
  destruct (faults s) as [|b fs]; simpl in *; [now rewrite lookup_nil | apply Hn; lia].
Qed.

Lemma no_fault_nil n s : faults s = [] -> no_fault n s.
Proof. intros Hf i _. rewrite Hf, lookup_nil. discriminate. Qed.

(** ** Orders of enumeration *)
Section Orders.
Context `{EOk : ExternalsOk}.

Lemma set_iter_empty : set_iter ∅ = [].
Proof.
  apply Permutation_nil. rewrite set_iter_perm, elements_empty. reflexivity.
Qed.

Lemma elem_of_set_iter (hs : gset string) h : h ∈ set_iter hs <-> h ∈ hs.
Proof. rewrite set_iter_perm. apply elem_of_elements. Qed.

Lemma elem_of_listdir (m : gmap string json) name :
  name ∈ listdir m <-> is_Some (m !! name).
Proof. rewrite listdir_perm, elem_of_elements. apply elem_of_dom. Qed.

Lemma glob_run pat s :
  glob pat s = (Ret (filter (fun n => fnmatch pat n = true) (listdir (pareto_dir s))), s).
Proof. reflexivity. Qed.

Lemma glob_no_match pat s :
  (forall name, is_Some (pareto_dir s !! name) -> fnmatch pat name = false) ->
  glob pat s = (Ret [], s).
Proof.
  intros Hno. rewrite glob_run. do 2 f_equal.
  assert (forall name, name ∈ listdir (pareto_dir s) -> fnmatch pat name = false) as Hl.
  { intros name Hin. now apply Hno, elem_of_listdir. }
  induction (listdir (pareto_dir s)) as [|n l IH]; [reflexivity |].
  rewrite filter_cons_False.
  - apply IH. intros name Hin. apply Hl. now right.
  - rewrite (Hl n); [discriminate | now left].
Qed.

End Orders.

(** ** The ranker on a store without objectives *)
Section RankerAborts.
Context `{EOk : ExternalsOk}.

(** [compute_ideal_point] in direct style. *)
Lemma compute_ideal_point_run s :
  compute_ideal_point s
  = match map_M load_entry (set_iter (hashes s)) s with
    | (Raise e, s1) => (Raise e, s1)
    | (Ret entries, s1) =>
        match py_index entries 0 with
        | Raise e => (Raise e, s1)
        | Ret e0 =>
            match w_keys_of e0 with
            | Raise e => (Raise e, s1)
            | Ret w_keys =>
                (match entries, w_keys with
                 | [], _ | _, [] => Ret None
                 | _, _ => ideal_of entries (sorted_strings w_keys)
                 end, s1)
            end
        end
    end.
Proof.
  unfold compute_ideal_point. rewrite bind_run. unfold get_hashes at 1.
  rewrite bind_run.
  destruct (map_M load_entry (set_iter (hashes s)) s) as [[entries|e] s1]; [| reflexivity].
  rewrite bind_run. unfold lift at 1.
  destruct (py_index entries 0) as [e0|e]; [| reflexivity].
  rewrite bind_run. unfold lift at 1.
  destruct (w_keys_of e0) as [w_keys|e]; [| reflexivity].
  destruct entries; [reflexivity |]. destruct w_keys; reflexivity.
Qed.

Lemma compute_ideal_point_empty s :
  hashes s = ∅ -> compute_ideal_point s = (Raise IndexError, s).
Proof.
  intros Hs. rewrite compute_ideal_point_run, Hs, set_iter_empty. reflexivity.
Qed.

(** When the first loaded entry has no key that starts with [w_], the
    pass prints one line and does nothing else. *)
Lemma rename_without_objectives s entries e0 s1 :
  map_M load_entry (set_iter (hashes s)) s = (Ret (e0 :: entries), s1) ->
  w_keys_of e0 = Ret [] ->
  exists s', rename_entries_with_distance s = (Ret tt, s') /\
             files_of s' = files_of s /\ self_of s' = self_of s /\
             out s' = NoValidEntries :: out s.
Proof.
  intros Hload Hkeys.
  pose proof (keeps_map_M files_of load_entry (set_iter (hashes s))
                (fun h => keeps_load_entry files_of h keeps_files_io) s) as Kf.
  pose proof (keeps_map_M self_of load_entry (set_iter (hashes s))
                (fun h => keeps_load_entry self_of h keeps_self_io) s) as Ks.
  pose proof (keeps_map_M out load_entry (set_iter (hashes s))
                (fun h => keeps_load_entry out h (fun _ => eq_refl)) s) as Ko.
  rewrite Hload in Kf, Ks, Ko. simpl in Kf, Ks, Ko.
  exists (mkState (hashes s1) (sig_digits s1) (root_dir s1) (pareto_dir s1) (faults s1)
                  (NoValidEntries :: out s1)).
  split; [| unfold files_of, self_of in *; repeat split; simpl; congruence].
  unfold rename_entries_with_distance. rewrite bind_run, compute_ideal_point_run, Hload.
  change (py_index (e0 :: entries) 0) with (Ret e0). cbv iota.
  rewrite Hkeys. reflexivity.
Qed.

End RankerAborts.

(** C9: on a store without entries, [rename_entries_with_distance] does
    not abort quietly: line 109 takes [entries[0]] before line 110 tests
    whether there is any entry, and the call ends with an [IndexError]. *)
Theorem rename_entries_with_distance_empty_store `{ExternalsOk} (s : state) :
  hashes s = ∅ -> rename_entries_with_distance s = (Raise IndexError, s).
Proof.
  intros Hs. unfold rename_entries_with_distance.
  rewrite bind_run. now rewrite compute_ideal_point_empty.
Qed.

Lemma rename_entries_with_distance_empty_store_witness :
  @rename_entries_with_distance sample_externals (mkState ∅ 6 ∅ ∅ [] [])
  = (Raise IndexError, mkState ∅ 6 ∅ ∅ [] []).
Proof.
  apply (@rename_entries_with_distance_empty_store _ sample_externals_ok).
  reflexivity.
Defined.

(** ** [remove_entry] *)
Section RemoveEntry.
Context `{EOk : ExternalsOk}.

(** Saving the index when its two file operations succeed. *)
Lemma save_index_ok s :
  no_fault 2 s ->
  exists s', _save_index s = (Ret tt, s') /\
             hashes s' = hashes s /\ sig_digits s' = sig_digits s /\
             pareto_dir s' = pareto_dir s /\ out s' = out s /\
             faults s' = tail (tail (faults s)) /\
             root_dir s' !! "index.json" = Some (index_doc (hashes s)).
Proof.
  intros Hnf.
  pose proof (no_fault_head _ _ Hnf) as H0.
  pose proof (no_fault_head _ _ (no_fault_tick _ _ Hnf)) as H1.
  unfold _save_index. rewrite bind_run. unfold get_hashes at 1.
  rewrite bind_run. unfold write_file. rewrite bind_run, (io_ok s H0).
  unfold act at 1. cbn [dir_of name_of set_dir].
  unfold os_replace. rewrite bind_run.
  match goal with |- context [io ?st] => rewrite (io_ok st) by exact H1 end.
  unfold act at 1. cbn [dir_of name_of set_dir index_path root_dir tick].
  rewrite lookup_insert_eq.
  eexists. split; [reflexivity |]. cbn.
  repeat split. apply lookup_insert_eq.
Qed.

Lemma remove_entry_run h s :
  remove_entry h s
  = match glob (Star ("_" ++ h ++ ".json")) s with
    | (Raise e, s1) => (Raise e, s1)
    | (Ret matches, s1) =>
        match remove_files matches false s1 with
        | (Raise e, s2) => (Raise e, s2)
        | (Ret success, s2) =>
            if bool_decide (h ∈ hashes s2)
            then match (put_hashes (hashes s2 ∖ {[h]});; _save_index) s2 with
                 | (Raise e, s3) => (Raise e, s3)
                 | (Ret _, s3) => (Ret success, s3)
                 end
            else (Ret success, s2)
        end
    end.
Proof.
  unfold remove_entry. rewrite bind_run.
  destruct (glob _ s) as [[matches|e] s1]; [| reflexivity].
  rewrite bind_run.
  destruct (remove_files matches false s1) as [[success|e] s2]; [| reflexivity].
  rewrite bind_run. unfold get_hashes at 1. rewrite bind_run.
  destruct (bool_decide (h ∈ hashes s2)); [| reflexivity].
  destruct ((put_hashes (hashes s2 ∖ {[h]});; _save_index) s2) as [[[]|e] s3]; reflexivity.
Qed.

End RemoveEntry.

(** C10: [remove_entry] looks only for names of the form [*_<h>.json].
    When the entry file of [h] exists under the bare name [<h>.json]
    alone, the name [add_entry] gave it, no file is deleted and [False] is
    returned, and yet [h] is taken out of the index and the index is
    saved: the file stays behind, unreferenced. *)
Theorem remove_entry_bare_name `{ExternalsOk} (h : string) (s : state) :
  h ∈ hashes s ->
  is_Some (pareto_dir s !! (h ++ ".json")) ->
  (forall name, is_Some (pareto_dir s !! name) ->
                fnmatch (Star ("_" ++ h ++ ".json")) name = false) ->
  no_fault 2 s ->
  exists s', remove_entry h s = (Ret false, s') /\
             pareto_dir s' = pareto_dir s /\
             is_Some (pareto_dir s' !! (h ++ ".json")) /\
             hashes s' = hashes s ∖ {[h]} /\
             root_dir s' !! "index.json" = Some (index_doc (hashes s ∖ {[h]})).
Proof.
  intros Hin Hfile Hno Hnf.
  rewrite remove_entry_run, (glob_no_match _ _ Hno).
  cbn [remove_files]. unfold mret at 1, M_ret at 1.
  rewrite bool_decide_eq_true_2 by exact Hin.
  rewrite bind_run. unfold put_hashes at 1.
  set (s1 := mkState _ _ _ _ _ _).
  destruct (save_index_ok s1) as (s' & Hrun & Hh & _ & Hp & _ & _ & Hidx); [exact Hnf |].
  rewrite Hrun. exists s'. split; [reflexivity |].
  rewrite Hp, Hh. repeat split; assumption.
Qed.

Lemma remove_entry_bare_name_witness :
  let h := "917867e278c2a18f" in
  let e := JDict [("analyses_combined", JDict [])] in
  let s := mkState {[h]} 6 ∅ {[ (h ++ ".json")%string := e ]} [] [] in
  exists s', @remove_entry sample_externals h s = (Ret false, s') /\
             pareto_dir s' = pareto_dir s /\
             is_Some (pareto_dir s' !! (h ++ ".json")%string) /\
             hashes s' = hashes s ∖ {[h]} /\
             root_dir s' !! "index.json" = Some (@index_doc sample_externals (hashes s ∖ {[h]})).
Proof.
  intros h e s.
  apply (@remove_entry_bare_name _ sample_externals_ok h s); subst s; cbn [hashes pareto_dir].
  - apply elem_of_singleton_2. reflexivity.
  - rewrite lookup_singleton_eq. eauto.
  - intros name [x Hx].
    apply lookup_singleton_Some in Hx as [<- _]. vm_compute. reflexivity.
  - apply no_fault_nil. reflexivity.
Defined.

(** C3: the index and the files do not stay consistent.  From the empty
    store, adding an entry that has no objective leaves its file under
    the bare name (the ranking pass renames nothing); [remove_entry] then
    takes the hash out of the index and leaves the file, which no hash of
    the index accounts for. *)
Theorem remove_entry_breaks_consistency :
  let s0 := mkState ∅ 6 ∅ ∅ [] [] in
  let e := JDict [("analyses_combined", JDict [])] in
  let r1 := @add_entry sample_externals e s0 in
  let r2 := @remove_entry sample_externals (@hash_entry sample_externals e) (snd r1) in
  consistent s0 /\ fst r1 = Ret true /\ consistent (snd r1) /\
  fst r2 = Ret false /\ ~ consistent (snd r2).
Proof.
  intros s0 e r1 r2.
  assert (r1 = (Ret true,
                mkState {["917867e278c2a18f"]} 6
                        {["index.json" := JList [JStr "917867e278c2a18f"]]}
                        {["917867e278c2a18f.json" := e]} [] [NoValidEntries])) as H1
    by (vm_compute; reflexivity).
  assert (r2 = (Ret false,
                mkState ∅ 6 {["index.json" := JList []]}
                        {["917867e278c2a18f.json" := e]} [] [NoValidEntries])) as H2
    by (vm_compute; reflexivity).
  rewrite H1, H2. cbn [fst snd].
  split; [| split; [reflexivity | split; [| split; [reflexivity |]]]].
  - split; cbn.
    + intros h Hh. now apply not_elem_of_empty in Hh.
    + intros name [x Hx]. now rewrite lookup_empty in Hx.
  - split; cbn.
    + intros h Hh. apply elem_of_singleton in Hh as ->.
      exists "917867e278c2a18f.json". split.
      * split; [rewrite lookup_singleton_eq; eauto | vm_compute; reflexivity].
      * intros name' [x Hx] _. now apply lookup_singleton_Some in Hx as [<- _].
    + intros name [x Hx]. apply lookup_singleton_Some in Hx as [<- _].
      exists "917867e278c2a18f". split; [now apply elem_of_singleton_2 | vm_compute; reflexivity].
  - intros [_ Hfiles]. cbn in Hfiles.
    destruct (Hfiles "917867e278c2a18f.json") as (h & Hh & _).
    + rewrite lookup_singleton_eq. eauto.
    + now apply not_elem_of_empty in Hh.
Qed.

(** ** [compute_ideal]: the modes [min] and [weighted] *)
Section IdealBounds.
Context `{Externals}.

Lemma nth_zip_with (f : R -> R -> R) (l k : list R) (j : nat) (d : R) :
  (j < length l)%nat -> (j < length k)%nat ->
  nth j (zip_with f l k) d = f (nth j l d) (nth j k d).
Proof.
  revert k j. induction l as [|x l IH]; intros [|y k] [|j]; simpl; intros Hl Hk;
    try lia; [reflexivity | apply IH; lia].
Qed.

Lemma length_zip_with_same (f : R -> R -> R) (l k : list R) :
  length l = length k -> length (zip_with f l k) = length l.
Proof.
  revert k. induction l as [|x l IH]; intros [|y k]; simpl; intros Hl; try lia.
  now rewrite IH by lia.
Qed.

(** A reduction along [axis=0] reduces every column. *)
Lemma fold_zip_with_cols (f : R -> R -> R) (n : nat) (rows : list (list R)) :
  forall row, length row = n -> List.Forall (fun r => length r = n) rows ->
  length (fold_left (zip_with f) rows row) = n /\
  forall j, (j < n)%nat ->
    nth j (fold_left (zip_with f) rows row) 0%R
    = fold_left f (column j rows) (nth j row 0%R).
Proof.
  induction rows as [|r rows IH]; intros row Hrow Hall; simpl.
  - split; [exact Hrow | reflexivity].
  - inversion Hall as [|? ? Hr Hrows]; subst.
    destruct (IH (zip_with f row r)) as [Hlen Hnth].
    + rewrite length_zip_with_same; congruence.
    + exact Hrows.
    + split; [exact Hlen |]. intros j Hj. rewrite Hnth by exact Hj.
      rewrite nth_zip_with by lia. reflexivity.
Qed.

Lemma fold_Rmin_le (l : list R) (x : R) : (fold_left Rmin l x <= x)%R.
Proof.
  revert x. induction l as [|y l IH]; intros x; simpl; [lra |].
  eapply Rle_trans; [apply IH | apply Rmin_l].
Qed.

Lemma fold_Rmin_least (l : list R) (x : R) :
  is_least (fold_left Rmin l x) (x :: l).
Proof.
  revert x. induction l as [|y l IH]; intros x; simpl.
  - split; [now left | intros z [<-|[]]; lra].
  - destruct (IH (Rmin x y)) as [Hin Hle]. split.
    + destruct Hin as [Hm|Hin]; [| now right; right].
      rewrite <- Hm. unfold Rmin. destruct (Rle_dec x y); [now left | right; now left].
    + intros z [<-|[<-|Hz]].
      * eapply Rle_trans; [apply fold_Rmin_le | apply Rmin_l].
      * eapply Rle_trans; [apply fold_Rmin_le | apply Rmin_r].
      * apply Hle. now right.
Qed.

Lemma fold_Rmax_ge (l : list R) (x : R) : (x <= fold_left Rmax l x)%R.
Proof.
  revert x. induction l as [|y l IH]; intros x; simpl; [lra |].
  eapply Rle_trans; [apply Rmax_l | apply IH].
Qed.

Lemma fold_Rmax_greatest (l : list R) (x : R) :
  is_greatest (fold_left Rmax l x) (x :: l).
Proof.
  revert x. induction l as [|y l IH]; intros x; simpl.
  - split; [now left | intros z [<-|[]]; lra].
  - destruct (IH (Rmax x y)) as [Hin Hle]. split.
    + destruct Hin as [Hm|Hin]; [| now right; right].
      rewrite <- Hm. unfold Rmax. destruct (Rle_dec x y); [right; now left | now left].
    + intros z [<-|[<-|Hz]].
      * eapply Rle_trans; [apply Rmax_l | apply fold_Rmax_ge].
      * eapply Rle_trans; [apply Rmax_r | apply fold_Rmax_ge].
      * apply Hle. now right.
Qed.

Lemma np_min_cols n row rows :
  length row = n -> List.Forall (fun r => length r = n) rows ->
  exists vmin, np_min (row :: rows) = Ret vmin /\ length vmin = n /\
    forall j, (j < n)%nat -> is_least (nth j vmin 0%R) (column j (row :: rows)).
Proof.
  intros Hrow Hall. eexists. split; [reflexivity |].
  destruct (fold_zip_with_cols Rmin n rows row Hrow Hall) as [Hlen Hnth].
  split; [exact Hlen |]. intros j Hj. rewrite Hnth by exact Hj. apply fold_Rmin_least.
Qed.

Lemma np_max_cols n row rows :
  length row = n -> List.Forall (fun r => length r = n) rows ->
  exists vmax, np_max (row :: rows) = Ret vmax /\ length vmax = n /\
    forall j, (j < n)%nat -> is_greatest (nth j vmax 0%R) (column j (row :: rows)).
Proof.
  intros Hrow Hall. eexists. split; [reflexivity |].
  destruct (fold_zip_with_cols Rmax n rows row Hrow Hall) as [Hlen Hnth].
  split; [exact Hlen |]. intros j Hj. rewrite Hnth by exact Hj. apply fold_Rmax_greatest.
Qed.

Lemma broadcast_same (f : R -> R -> R) (u v : list R) :
  length u = length v -> broadcast f u v = Ret (zip_with f u v).
Proof. intros Hl. unfold broadcast. now rewrite Hl, Nat.eqb_refl. Qed.

Lemma list_eq_nth (u v : list R) :
  length u = length v ->
  (forall j, (j < length u)%nat -> nth j u 0%R = nth j v 0%R) -> u = v.
Proof.
  revert v. induction u as [|x u IH]; intros [|y v]; simpl; intros Hl Hn; try lia; [reflexivity |].
  f_equal; [apply (Hn 0%nat); lia |].
  apply IH; [lia |]. intros j Hj. apply (Hn (S j)). lia.
Qed.

End IdealBounds.

Lemma nth_repeat_lt (x d : R) (n j : nat) : (j < n)%nat -> nth j (repeat x n) d = x.
Proof.
  revert j. induction n as [|n IH]; intros [|j] Hj; simpl; try lia; [reflexivity |].
  apply IH. lia.
Qed.

Lemma length_weighted (vmin vmax ws : list R) (n : nat) :
  length vmin = n -> length vmax = n -> length ws = n ->
  length (zip_with Rminus vmax vmin) = n /\
  length (zip_with Rmult ws (zip_with Rminus vmax vmin)) = n /\
  length (zip_with Rplus vmin (zip_with Rmult ws (zip_with Rminus vmax vmin))) = n.
Proof.
  intros H1 H2 H3.
  assert (length (zip_with Rminus vmax vmin) = n) as L1
    by (rewrite length_zip_with_same; congruence).
  assert (length (zip_with Rmult ws (zip_with Rminus vmax vmin)) = n) as L2
    by (rewrite length_zip_with_same; congruence).
  repeat split; try assumption.
  rewrite length_zip_with_same; congruence.
Qed.

Section WeightedRounding.
Import PrimFloat.
Set Warnings "-inexact-float".

(** In binary64 the claim of C7 fails for weights of one: for a column
    with the minimum 0.3 and the maximum 0.9, line 188 computes
    [0.3 + 1.0 * (0.9 - 0.3)], which is 0.9000000000000001 and not the
    maximum. *)
Lemma weighted_unit_weights_not_maximum :
  Binary64.compute_ideal_weighted [[0.3%float]; [0.9%float]] (Some [1%float])
  = Ret [0.9000000000000001%float] /\
  Binary64.np_max [[0.3%float]; [0.9%float]] = Ret [0.9%float] /\
  Binary64.np_min [[0.3%float]; [0.9%float]] = Ret [0.3%float] /\
  (0.9 <? 0.9000000000000001)%float = true /\
  Binary64.compute_ideal_weighted [[0.3%float]; [0.9%float]] (Some [0%float])
  = Ret [0.3%float].
Proof. repeat split; vm_compute; reflexivity. Qed.

End WeightedRounding.

(** C7, as the code has it: in the mode [min], [compute_ideal] returns for
    every column its true minimum over all rows; in the mode [weighted]
    it returns [min + weights * (max - min)] per objective, which is the
    result of [min] for all-zero weights. *)
Theorem compute_ideal_min_weighted `{Externals} (n : nat) (row : list R)
    (rows : list (list R)) (eps pct : R) :
  length row = n -> List.Forall (fun r => length r = n) rows ->
  exists vmin vmax,
    length vmin = n /\ length vmax = n /\
    (forall j, (j < n)%nat ->
       is_least (nth j vmin 0%R) (column j (row :: rows)) /\
       is_greatest (nth j vmax 0%R) (column j (row :: rows))) /\
    (forall weights,
       compute_ideal (row :: rows) "min" weights eps pct = Ret (Vec vmin)) /\
    (forall ws, length ws = n ->
       exists v,
         compute_ideal (row :: rows) "weighted" (Some ws) eps pct = Ret (Vec v) /\
         length v = n /\
         forall j, (j < n)%nat ->
           nth j v 0%R = (nth j vmin 0 + nth j ws 0 * (nth j vmax 0 - nth j vmin 0))%R) /\
    compute_ideal (row :: rows) "weighted" (Some (repeat 0%R n)) eps pct = Ret (Vec vmin).
Proof.
  intros Hrow Hall.
  destruct (np_min_cols n row rows Hrow Hall) as (vmin & Hmin & Hlmin & Hleast).
  destruct (np_max_cols n row rows Hrow Hall) as (vmax & Hmax & Hlmax & Hgreatest).
  exists vmin, vmax.
  assert (forall ws, length ws = n ->
            compute_ideal (row :: rows) "weighted" (Some ws) eps pct
            = Ret (Vec (zip_with Rplus vmin (zip_with Rmult ws (zip_with Rminus vmax vmin)))))
    as Hweighted.
  { intros ws Hws.
    destruct (length_weighted vmin vmax ws n Hlmin Hlmax Hws) as (L1 & L2 & L3).
    unfold compute_ideal. cbn [mode_in String.eqb Ascii.eqb Bool.eqb orb].
    rewrite Hmin, Hmax. cbn [mbind result_bind].
    rewrite (broadcast_same Rminus vmax vmin) by congruence. cbn [mbind result_bind].
    rewrite (broadcast_same Rmult) by congruence. cbn [mbind result_bind].
    rewrite (broadcast_same Rplus) by congruence. reflexivity. }
  assert (forall ws j, length ws = n -> (j < n)%nat ->
            nth j (zip_with Rplus vmin (zip_with Rmult ws (zip_with Rminus vmax vmin))) 0%R
            = (nth j vmin 0 + nth j ws 0 * (nth j vmax 0 - nth j vmin 0))%R) as Hnth.
  { intros ws j Hws Hj.
    destruct (length_weighted vmin vmax ws n Hlmin Hlmax Hws) as (L1 & L2 & L3).
    rewrite nth_zip_with by lia.
    rewrite nth_zip_with by lia.
    now rewrite nth_zip_with by lia. }
  split; [exact Hlmin |]. split; [exact Hlmax |].
  split; [intros j Hj; split; [now apply Hleast | now apply Hgreatest] |].
  split.
  { intros weights. unfold compute_ideal. cbn [mode_in String.eqb Ascii.eqb Bool.eqb orb].
    now rewrite Hmin. }
  split.
  { intros ws Hws. eexists. split; [apply Hweighted, Hws |].
    split; [apply (length_weighted vmin vmax ws n Hlmin Hlmax Hws) |].
    intros j Hj. now apply Hnth. }
  rewrite Hweighted by apply repeat_length. do 2 f_equal.
  apply list_eq_nth.
  { rewrite (proj2 (proj2 (length_weighted vmin vmax (repeat 0%R n) n Hlmin Hlmax
                             (repeat_length _ _)))). congruence. }
  intros j Hj.
  rewrite (proj2 (proj2 (length_weighted vmin vmax (repeat 0%R n) n Hlmin Hlmax
                           (repeat_length _ _)))) in Hj.
  rewrite Hnth by (rewrite ?repeat_length; auto). rewrite nth_repeat_lt by exact Hj. lra.
Qed.

Lemma compute_ideal_min_weighted_witness :
  exists vmin vmax,
    @compute_ideal sample_externals [[1; 5]; [2; 3]]%R "min" None (1 / 1000)%R 10%R
    = Ret (Vec vmin) /\
    @compute_ideal sample_externals [[1; 5]; [2; 3]]%R "weighted" (Some (repeat 0%R 2))
                   (1 / 1000)%R 10%R = Ret (Vec vmin) /\
    is_least (nth 0 vmin 0%R) [1; 2]%R /\ is_greatest (nth 1 vmax 0%R) [5; 3]%R.
Proof.
  destruct (@compute_ideal_min_weighted sample_externals 2 [1; 5]%R [[2; 3]]%R
              (1 / 1000)%R 10%R eq_refl ltac:(repeat constructor))
    as (vmin & vmax & _ & _ & Hcols & Hm & _ & Hw0).
  exists vmin, vmax. split; [apply Hm |]. split; [exact Hw0 |].
  split; [apply (Hcols 0%nat); lia | apply (Hcols 1%nat); lia].
Defined.

(** ** [compute_ideal]: the mode [geomedian] *)
Section Geomedian.
Context `{Externals}.

(** The loop of lines 204-210 returns one of the first ten estimates: the
    first that the next estimate is close to, or else the tenth. *)
Lemma weiszfeld_estimate (n : nat) (values_matrix : list (list R)) :
  forall z0 z, weiszfeld n values_matrix z0 = Vec z ->
  exists k, (k <= n)%nat /\ estimate k values_matrix z0 = Vec z /\
    ((k < n)%nat ->
       exists z', weiszfeld_step values_matrix z = Vec z' /\ allclose z z' = true) /\
    (forall i, (i < k)%nat ->
       exists zi zi', estimate i values_matrix z0 = Vec zi /\
                      weiszfeld_step values_matrix zi = Vec zi' /\
                      allclose zi zi' = false).
Proof.
  induction n as [|n IH]; intros z0 z; simpl.
  - intros [= <-]. exists 0%nat. repeat split; [lia | lia | lia].
  - destruct (weiszfeld_step values_matrix z0) as [z1|] eqn:Hstep; [| discriminate].
    destruct (allclose z0 z1) eqn:Hclose.
    + intros [= <-]. exists 0%nat. split; [lia |]. split; [reflexivity |].
      split; [intros _; exists z1; auto | lia].
    + intros Hw. destruct (IH z1 z Hw) as (k & Hk & Hest & Hstop & Hbefore).
      exists (S k). split; [lia |]. split; [simpl; now rewrite Hstep |].
      split; [intros Hlt; apply Hstop; lia |].
      intros [|i] Hi.
      * exists z0, z1. auto.
      * destruct (Hbefore i) as (zi & zi' & H1 & H2 & H3); [lia |].
        exists zi, zi'. simpl. rewrite Hstep. auto.
Qed.

(** The loop always ends, with a vector or with [nan]. *)
Lemma close_within_atol (a b : R) : (Rabs (a - b) < atol)%R -> close a b = true.
Proof.
  intros Hlt. unfold close. destruct (Rle_dec _ _) as [_|Hn]; [reflexivity |].
  exfalso. apply Hn. pose proof (Rabs_pos b). unfold rtol, atol in *.
  assert (0 <= 1 / 100000 * Rabs b)%R by (apply Rmult_le_pos; lra). lra.
Qed.

Lemma allclose_within_atol (z z' : list R) :
  (forall j, (j < length z)%nat -> (Rabs (nth j z 0 - nth j z' 0) < atol)%R) ->
  allclose z z' = true.
Proof.
  revert z'. induction z as [|a z IH]; intros [|b z'] Hj; try reflexivity.
  unfold allclose. simpl. fold (allclose z z').
  rewrite close_within_atol by (apply (Hj 0%nat); simpl; lia).
  simpl. apply IH. intros j Hlt. apply (Hj (S j)). simpl. lia.
Qed.

Lemma fold_left_Rplus (l : list R) (x : R) : fold_left Rplus l x = (x + rsum l)%R.
Proof.
  unfold rsum. revert x. induction l as [|y l IH]; intros x; simpl; [lra |].
  rewrite (IH (x + y)%R), (IH (0 + y)%R). lra.
Qed.

Lemma rsum_cons (x : R) (l : list R) : rsum (x :: l) = (x + rsum l)%R.
Proof. unfold rsum at 1. simpl. rewrite fold_left_Rplus. lra. Qed.

Lemma nth_map_lt (f : R -> R) (l : list R) (j : nat) :
  (j < length l)%nat -> nth j (map f l) 0%R = f (nth j l 0%R).
Proof.
  revert j. induction l as [|x l IH]; intros [|j] Hj; simpl in *; try lia; [reflexivity |].
  apply IH. lia.
Qed.

Lemma col_sums_nth (n : nat) (row : list R) (rows : list (list R)) (j : nat) :
  length row = n -> List.Forall (fun r => length r = n) rows -> (j < n)%nat ->
  length (col_sums (row :: rows)) = n /\
  nth j (col_sums (row :: rows)) 0%R = rsum (column j (row :: rows)).
Proof.
  intros Hrow Hall Hj. simpl col_sums.
  destruct (fold_zip_with_cols Rplus n rows row Hrow Hall) as [Hlen Hnth].
  split; [exact Hlen |].
  rewrite Hnth by exact Hj. simpl column. now rewrite fold_left_Rplus, rsum_cons.
Qed.

(** The initial estimate is the mean of every column. *)
Lemma np_mean_cols (n : nat) (row : list R) (rows : list (list R)) :
  length row = n -> List.Forall (fun r => length r = n) rows ->
  exists z0, np_mean (row :: rows) = Vec z0 /\ length z0 = n /\
    forall j, (j < n)%nat ->
      nth j z0 0%R = (rsum (column j (row :: rows)) / INR (length (row :: rows)))%R.
Proof.
  intros Hrow Hall. eexists. split; [reflexivity |].
  split.
  - rewrite length_map. simpl col_sums.
    apply (fold_zip_with_cols Rplus n rows row Hrow Hall).
  - intros j Hj.
    destruct (col_sums_nth n row rows j Hrow Hall Hj) as [Hlen Hnth].
    rewrite nth_map_lt by lia. now rewrite Hnth.
Qed.

Lemma column_scaled (j : nat) (rows : list (list R)) (w : list R) :
  column j (zip_with (fun row wi => map (fun x => x * wi)%R row) rows w)
  = zip_with Rmult (column j rows) w.
Proof.
  revert w. induction rows as [|row rows IH]; intros [|wi w]; simpl; try reflexivity.
  f_equal; [| apply IH].
  clear. revert j. induction row as [|x row IH]; intros [|j]; simpl; try lra; apply IH.
Qed.

(** Each new estimate is the average of the points weighted by the
    reciprocals of their distances to the current one. *)
Lemma weiszfeld_step_average (n : nat) (row : list R) (rows : list (list R)) (z z' : list R) :
  length row = n -> List.Forall (fun r => length r = n) rows ->
  weiszfeld_step (row :: rows) z = Vec z' ->
  length z' = n /\
  forall j, (j < n)%nat -> nth j z' 0%R = weighted_average (row :: rows) z j.
Proof.
  intros Hrow Hall. unfold weiszfeld_step.
  rewrite map_map.
  change (map (fun x => if Rlt_dec 0 (row_norm z x) then (1 / row_norm z x)%R else 0%R)
              (row :: rows))
    with (map (inv_dist z) (row :: rows)).
  destruct (Req_dec_T (rsum (map (inv_dist z) (row :: rows))) 0) as [_|Hw]; [discriminate |].
  intros Heq. injection Heq as <-.
  pose (r0 := map (fun x => x * inv_dist z row)%R row).
  pose (rs := zip_with (fun row wi => map (fun x => x * wi)%R row) rows
                       (map (inv_dist z) rows)).
  change (zip_with (fun row wi => map (fun x => x * wi)%R row) (row :: rows)
                   (map (inv_dist z) (row :: rows))) with (r0 :: rs).
  assert (length r0 = n) as Hr0 by (unfold r0; rewrite length_map; exact Hrow).
  assert (List.Forall (fun r => length r = n) rs) as Hrs.
  { unfold rs. clear - Hall.
    induction Hall as [|r rows' Hr Hall' IH]; simpl; constructor;
      [rewrite length_map; exact Hr | exact IH]. }
  change (fold_left (zip_with Rplus) rs r0) with (col_sums (r0 :: rs)).
  split.
  - rewrite length_map. simpl col_sums.
    apply (fold_zip_with_cols Rplus n rs r0 Hr0 Hrs).
  - intros j Hj.
    destruct (col_sums_nth n r0 rs j Hr0 Hrs Hj) as [Hlen Hnth].
    change (nth j (map (fun c => c / rsum (map (inv_dist z) (row :: rows)))%R
                       (col_sums (r0 :: rs))) 0%R
            = weighted_average (row :: rows) z j).
    rewrite nth_map_lt by lia. rewrite Hnth.
    change (r0 :: rs)
      with (zip_with (fun row wi => map (fun x => x * wi)%R row) (row :: rows)
                     (map (inv_dist z) (row :: rows))).
    rewrite column_scaled. reflexivity.
Qed.

Lemma allclose_refl (z : list R) : allclose z z = true.
Proof.
  apply allclose_within_atol. intros j _.
  replace (nth j z 0 - nth j z 0)%R with 0%R by ring.
  rewrite Rabs_R0. unfold atol. lra.
Qed.

Lemma weiszfeld_fixed (n : nat) (values_matrix : list (list R)) (z : list R) :
  weiszfeld_step values_matrix z = Vec z -> weiszfeld (S n) values_matrix z = Vec z.
Proof. intros Hstep. simpl. now rewrite Hstep, allclose_refl. Qed.

Lemma square_mean (x y a : R) :
  np_mean (square x y a) = Vec [x + a / 2; y + a / 2]%R.
Proof.
  unfold np_mean, square. simpl. f_equal. f_equal; [| f_equal]; field.
Qed.

Lemma square_row_norm (x y a px py : R) :
  ((px - (x + a / 2)) * (px - (x + a / 2)) = a * a / 4)%R ->
  ((py - (y + a / 2)) * (py - (y + a / 2)) = a * a / 4)%R ->
  row_norm [x + a / 2; y + a / 2]%R [px; py] = sqrt (a * a / 2).
Proof.
  intros Hx Hy. unfold row_norm, rsum. simpl. f_equal. rewrite Hx, Hy. field.
Qed.

Lemma square_step (x y a : R) :
  (0 < a)%R ->
  weiszfeld_step (square x y a) [x + a / 2; y + a / 2]%R = Vec [x + a / 2; y + a / 2]%R.
Proof.
  intros Ha. unfold weiszfeld_step, square. cbn [map].
  rewrite !square_row_norm by field.
  assert (0 < sqrt (a * a / 2))%R as Hd by (apply sqrt_lt_R0; nra).
  set (d := sqrt (a * a / 2)) in *.
  destruct (Rlt_dec 0 d) as [_|Hn]; [| contradiction].
  assert (0 < 1 / d)%R as Hinv by (apply Rdiv_lt_0_compat; lra).
  destruct (Req_dec_T (rsum [1 / d; 1 / d; 1 / d; 1 / d]%R) 0) as [Hz|Hnz].
  { exfalso. unfold rsum in Hz. simpl in Hz. lra. }
  unfold rsum. simpl. f_equal. f_equal; [| f_equal]; field; unfold rsum in Hnz; simpl in Hnz; lra.
Qed.

(** For the vertices of a square the mean is already the median: the
    first step does not move it, and the loop stops at once. *)
Lemma square_geomedian (x y a : R) :
  (0 < a)%R -> geomedian (square x y a) = Vec [x + a / 2; y + a / 2]%R.
Proof.
  intros Ha. unfold geomedian. rewrite square_mean.
  apply weiszfeld_fixed, square_step, Ha.
Qed.

End Geomedian.

Lemma close_iff (a b : R) :
  close a b = true <-> (Rabs (a - b) <= atol + rtol * Rabs b)%R.
Proof.
  unfold close. destruct (Rle_dec _ _) as [Hle | Hn]; split; intros Hx;
    [exact Hle | reflexivity | discriminate Hx | contradiction].
Qed.

(** [np.allclose] holds exactly when every coordinate is within the
    absolute tolerance plus the relative tolerance of the second argument. *)
Lemma allclose_iff (z : list R) :
  forall z', length z = length z' ->
  (allclose z z' = true <->
   forall j, (j < length z)%nat ->
     (Rabs (nth j z 0 - nth j z' 0) <= atol + rtol * Rabs (nth j z' 0))%R).
Proof.
  induction z as [|a z IH]; intros [|b z'] Hlen; try discriminate Hlen.
  - split; [intros _ j Hj; simpl in Hj; lia | reflexivity].
  - unfold allclose. cbn [combine forallb fst snd]. fold (allclose z z').
    rewrite andb_true_iff, close_iff, (IH z') by (now injection Hlen).
    split.
    + intros [Ha Hz] [|j] Hj; [exact Ha | apply Hz; simpl in Hj; lia].
    + intros Hall. split; [apply (Hall 0%nat); simpl; lia |].
      intros j Hj. apply (Hall (S j)). simpl. lia.
Qed.

(** The claim of C8 fails in its stopping rule: the loop stops on
    [np.allclose(z, z_new, atol=1e-9)], which keeps numpy's relative
    tolerance of [1e-5].  For the three points 1000000, 1000000 and
    1000003 of one objective the first step moves the estimate from the
    mean 1000001 to 1000000.6, by 0.4, and the loop stops there and
    returns the mean. *)
Lemma geomedian_stops_on_a_large_move :
  let pts := [[1000000]; [1000000]; [1000003]]%R in
  np_mean pts = Vec [1000001%R] /\
  weiszfeld_step pts [1000001%R] = Vec [(5000003 / 5)%R] /\
  (Rabs (1000001 - 5000003 / 5) = 2 / 5)%R /\
  (1 / 1000000000 < 2 / 5)%R /\
  allclose [1000001%R] [(5000003 / 5)%R] = true /\
  @compute_ideal sample_externals pts "geomedian" None (1 / 1000) 10 = Ret (Vec [1000001%R]).
Proof.
  intros pts.
  assert (np_mean pts = Vec [1000001%R]) as Hmean.
  { unfold np_mean, pts. cbn [col_sums fold_left zip_with map length INR].
    do 2 f_equal. lra. }
  assert (forall x : R, row_norm [1000001%R] [x] = sqrt ((x - 1000001) * (x - 1000001))) as Hnorm.
  { intros x. unfold row_norm, rsum. cbn [zip_with map fold_left]. f_equal. ring. }
  assert (sqrt ((1000000 - 1000001) * (1000000 - 1000001)) = 1)%R as H1.
  { replace ((1000000 - 1000001) * (1000000 - 1000001))%R with 1%R by lra. apply sqrt_1. }
  assert (sqrt ((1000003 - 1000001) * (1000003 - 1000001)) = 2)%R as H2.
  { replace ((1000003 - 1000001) * (1000003 - 1000001))%R with (2 * 2)%R by lra.
    apply sqrt_square. lra. }
  assert (weiszfeld_step pts [1000001%R] = Vec [(5000003 / 5)%R]) as Hstep.
  { unfold weiszfeld_step, pts. cbn [map]. rewrite !Hnorm, H1, H2.
    destruct (Rlt_dec 0 1) as [_ | Hn]; [| lra].
    destruct (Rlt_dec 0 2) as [_ | Hn]; [| lra].
    unfold rsum. cbn [fold_left zip_with map col_sums].
    destruct (Req_dec_T (0 + 1 / 1 + 1 / 1 + 1 / 2) 0) as [Hz | _]; [lra |].
    do 2 f_equal. field. }
  assert (Rabs (1000001 - 5000003 / 5) = 2 / 5)%R as Hmove.
  { replace (1000001 - 5000003 / 5)%R with (2 / 5)%R by field. apply Rabs_pos_eq. lra. }
  assert (allclose [1000001%R] [(5000003 / 5)%R] = true) as Hclose.
  { apply allclose_iff; [reflexivity |]. intros [|j] Hj; [| simpl in Hj; lia].
    cbn [nth]. rewrite Hmove. unfold atol, rtol.
    rewrite (Rabs_pos_eq (5000003 / 5)) by lra. lra. }
  split; [exact Hmean |]. split; [exact Hstep |]. split; [exact Hmove |].
  split; [lra |]. split; [exact Hclose |].
  unfold compute_ideal. cbn [mode_in String.eqb Ascii.eqb Bool.eqb orb].
  unfold geomedian. rewrite Hmean. cbn [weiszfeld]. now rewrite Hstep, Hclose.
Qed.

(** C8, as the code has it: in the mode [geomedian], [compute_ideal] runs
    Weiszfeld's algorithm: it starts from the mean of every column, makes
    at most ten steps, each to the average of the points weighted by the
    reciprocals of their distances to the current estimate (zero for a
    point on it), and stops at the first step that moves no coordinate by
    more than [1e-9 + 1e-5 * |new|], as it does when every coordinate
    moves by less than [1e-9]; for the vertices of a square the result is
    the centroid. *)
Theorem geomedian_weiszfeld `{Externals} (n : nat) (row : list R) (rows : list (list R))
    (weights : option (list R)) (eps pct : R) :
  length row = n -> List.Forall (fun r => length r = n) rows ->
  compute_ideal (row :: rows) "geomedian" weights eps pct = Ret (geomedian (row :: rows)) /\
  (exists z0,
     np_mean (row :: rows) = Vec z0 /\
     (forall j, (j < n)%nat ->
        nth j z0 0%R = (rsum (column j (row :: rows)) / INR (length (row :: rows)))%R) /\
     forall z, geomedian (row :: rows) = Vec z ->
       exists k, (k <= 10)%nat /\ estimate k (row :: rows) z0 = Vec z /\
         ((k < 10)%nat ->
            exists z', weiszfeld_step (row :: rows) z = Vec z' /\ allclose z z' = true) /\
         (forall i, (i < k)%nat ->
            exists zi zi', estimate i (row :: rows) z0 = Vec zi /\
                           weiszfeld_step (row :: rows) zi = Vec zi' /\
                           allclose zi zi' = false)) /\
  (forall z z', weiszfeld_step (row :: rows) z = Vec z' ->
     length z' = n /\
     forall j, (j < n)%nat -> nth j z' 0%R = weighted_average (row :: rows) z j) /\
  (forall z z' : list R, length z = length z' ->
     (allclose z z' = true <->
      forall j, (j < length z)%nat ->
        (Rabs (nth j z 0 - nth j z' 0)
         <= 1 / 1000000000 + 1 / 100000 * Rabs (nth j z' 0))%R)) /\
  (forall z z' : list R,
     (forall j, (j < length z)%nat ->
        (Rabs (nth j z 0 - nth j z' 0) < 1 / 1000000000)%R) ->
     allclose z z' = true) /\
  (forall x y a, (0 < a)%R ->
     compute_ideal (square x y a) "geomedian" weights eps pct
     = Ret (Vec [x + a / 2; y + a / 2]%R)).
Proof.
  intros Hrow Hall.
  split; [reflexivity |]. split.
  - destruct (np_mean_cols n row rows Hrow Hall) as (z0 & Hmean & _ & Hcols).
    exists z0. split; [exact Hmean |]. split; [exact Hcols |].
    intros z Hz. unfold geomedian in Hz. rewrite Hmean in Hz.
    now apply weiszfeld_estimate.
  - split; [intros z z' Hstep; now apply (weiszfeld_step_average n row rows z z') |].
    split; [exact allclose_iff |].
    split; [exact allclose_within_atol |].
    intros x y a Ha.
    change (compute_ideal (square x y a) "geomedian" weights eps pct)
      with (Ret (geomedian (square x y a))).
    now rewrite square_geomedian.
Qed.

Lemma geomedian_weiszfeld_witness :
  @compute_ideal sample_externals (square 0 0 1) "geomedian" None (1 / 1000)%R 10%R
  = Ret (Vec [0 + 1 / 2; 0 + 1 / 2]%R).
Proof.
  refine (proj2 (proj2 (proj2 (proj2 (proj2
    (@geomedian_weiszfeld sample_externals 2 [0; 0]%R [[0 + 1; 0]; [0; 0 + 1]; [0 + 1; 0 + 1]]%R
       None (1 / 1000)%R 10%R eq_refl ltac:(repeat constructor)))))) 0%R 0%R 1%R _).
  lra.
Defined.

(** ** The ranking pass: normalization and distance *)
Section Ranking.
Context `{Externals}.

Lemma xadd_assoc (a b c : xfloat) : xadd (xadd a b) c = xadd a (xadd b c).
Proof. destruct a, b, c; simpl; try reflexivity. f_equal. ring. Qed.

Lemma xadd_0_l (a : xfloat) : xadd (Fin 0) a = a.
Proof. destruct a; simpl; [f_equal; ring | reflexivity]. Qed.

Lemma xadd_0_r (a : xfloat) : xadd a (Fin 0) = a.
Proof. destruct a; simpl; [f_equal; ring | reflexivity]. Qed.

Lemma fold_left_xadd (l : list xfloat) (a : xfloat) :
  fold_left xadd l a = xadd a (fold_right xadd (Fin 0) l).
Proof.
  revert a. induction l as [|x l IH]; intros a; simpl.
  - now rewrite xadd_0_r.
  - now rewrite IH, xadd_assoc.
Qed.

(** Line 164 computes the Euclidean norm of the difference. *)
Lemma distance_euclid_norm (point : list xfloat) (ideal_norm : list R) :
  distance point ideal_norm = euclid_norm point ideal_norm.
Proof.
  unfold distance, euclid_norm, xsum. f_equal.
  rewrite fold_left_xadd, xadd_0_l.
  revert ideal_norm. induction point as [|a p IH]; intros [|b q]; simpl; try reflexivity.
  now rewrite IH.
Qed.

Lemma py_index_app {A} (pre : list A) (x : A) (rest : list A) (i : nat) :
  length pre = i -> py_index (pre ++ x :: rest) i = Ret x.
Proof.
  intros <-. unfold py_index. rewrite nth_error_app2 by lia. now rewrite Nat.sub_diag.
Qed.

Lemma norm_coord_normalize (val : json) (v : xfloat) (mn mx : R) :
  (if is_none val then Ret Inf else x ← as_number val; Ret (Fin x)) = Ret v ->
  norm_coord val mn mx = Ret (normalize v mn mx).
Proof.
  intros Hv. unfold norm_coord, normalize.
  destruct (Rlt_dec 0 (mx - mn)) as [Hd|Hd], (Rlt_dec mn mx) as [Hm|Hm]; try lra.
  - now rewrite Hv.
  - reflexivity.
Qed.

(** Lines 152-159 build the normalized vector of the entry. *)
Lemma point_of_normalized (entry : json) (w_keys : list string) :
  forall (vals : list xfloat) (pre_min pre_max mins maxs : list R),
    objectives entry w_keys = Ret vals ->
    length pre_min = length pre_max ->
    length mins = length w_keys -> length maxs = length w_keys ->
    point_of entry (length pre_min) w_keys (pre_min ++ mins) (pre_max ++ maxs)
    = Ret (normalized_point vals mins maxs).
Proof.
  induction w_keys as [|key keys IH]; intros vals pre_min pre_max mins maxs Hobj Hpre Hmin Hmax.
  - injection Hobj as <-. reflexivity.
  - destruct mins as [|mn mins]; [discriminate |].
    destruct maxs as [|mx maxs]; [discriminate |].
    unfold objectives in Hobj. cbn [map_R] in Hobj.
    destruct (objective entry key) as [v|e] eqn:Hv; [| discriminate].
    cbn [mbind result_bind] in Hobj.
    destruct (map_R (objective entry) keys) as [vals'|e] eqn:Hrest; [| discriminate].
    injection Hobj as <-.
    unfold objective in Hv. simpl point_of.
    destruct (py_get entry "analyses_combined" (JDict [])) as [ac|e]; [| discriminate].
    cbn [mbind result_bind] in *.
    destruct (py_get ac key JNull) as [val|e]; [| discriminate].
    cbn [mbind result_bind] in *.
    rewrite (py_index_app pre_max), (py_index_app pre_min) by lia. cbn [mbind result_bind].
    rewrite (norm_coord_normalize val v mn mx Hv). cbn [mbind result_bind].
    pose proof (IH vals' (pre_min ++ [mn])%list (pre_max ++ [mx])%list mins maxs) as IH'.
    rewrite !length_app in IH'. simpl in IH'.
    rewrite <- !app_assoc in IH'. simpl in IH'.
    replace (S (length pre_min)) with (length pre_min + 1)%nat by lia.
    rewrite IH'; [reflexivity | exact Hrest | lia | |]; simpl in *; lia.
Qed.

(** Lines 160-163 normalize the ideal point by the same formula. *)
Lemma ideal_norm_of_normalized (n : nat) :
  forall (pre_ideal pre_min pre_max ideal mins maxs : list R),
    length pre_ideal = length pre_min -> length pre_max = length pre_min ->
    length ideal = n -> length mins = n -> length maxs = n ->
    ideal_norm_of (pre_ideal ++ ideal) (pre_min ++ mins) (pre_max ++ maxs)
                  (seq (length pre_min) n)
    = Ret (normalized_ideal ideal mins maxs).
Proof.
  induction n as [|n IH]; intros pre_ideal pre_min pre_max ideal mins maxs Hpi Hpx Hi Hm Hx.
  - destruct ideal; [reflexivity | discriminate].
  - destruct ideal as [|v ideal]; [discriminate |].
    destruct mins as [|mn mins]; [discriminate |].
    destruct maxs as [|mx maxs]; [discriminate |].
    simpl seq. simpl ideal_norm_of.
    rewrite (py_index_app pre_max), (py_index_app pre_min) by lia. cbn [mbind result_bind].
    rewrite (py_index_app pre_ideal) by lia.
    pose proof (IH (pre_ideal ++ [v])%list (pre_min ++ [mn])%list (pre_max ++ [mx])%list
                   ideal mins maxs) as IH'.
    rewrite !length_app in IH'. simpl in IH'.
    rewrite <- !app_assoc in IH'. simpl in IH'.
    replace (S (length pre_min)) with (length pre_min + 1)%nat by lia.
    rewrite IH' by (simpl in *; lia).
    cbn [normalized_ideal]. unfold normalize_ideal.
    destruct (Rlt_dec 0 (mx - mn)) as [Hd|Hd], (Rlt_dec mn mx) as [Hlt|Hlt]; try lra; reflexivity.
Qed.

(** The distance that the pass assigns to an entry. *)
Lemma entry_distance_spec (entry : json) (w_keys : list string) (vals : list xfloat)
    (ideal mins maxs : list R) :
  objectives entry w_keys = Ret vals ->
  length ideal = length w_keys -> length mins = length w_keys ->
  length maxs = length w_keys ->
  entry_distance entry w_keys ideal mins maxs
  = Ret (euclid_norm (normalized_point vals mins maxs) (normalized_ideal ideal mins maxs)).
Proof.
  intros Hobj Hi Hm Hx. unfold entry_distance.
  pose proof (point_of_normalized entry w_keys vals [] [] mins maxs Hobj eq_refl Hm Hx) as Hp.
  pose proof (ideal_norm_of_normalized (length w_keys) [] [] [] ideal mins maxs
                eq_refl eq_refl Hi Hm Hx) as Hn.
  simpl in Hp, Hn. rewrite Hp. cbn [mbind result_bind]. rewrite Hn.
  cbn [mbind result_bind]. now rewrite distance_euclid_norm.
Qed.

Lemma objective_raw_value (entry : json) (key : string) (x : R) :
  objective entry key = Ret (Fin x) <->
  exists v, raw_value entry key = Ret v /\ is_none v = false /\ as_number v = Ret x.
Proof.
  unfold objective, raw_value.
  destruct (py_get entry "analyses_combined" (JDict [])) as [ac|e]; cbn [mbind result_bind].
  2: { split; [discriminate | intros (v & Hv & _); discriminate]. }
  destruct (py_get ac key JNull) as [val|e]; cbn [mbind result_bind].
  2: { split; [discriminate | intros (v & Hv & _); discriminate]. }
  split.
  - intros Hobj. exists val. split; [reflexivity |].
    destruct (is_none val); [discriminate |]. split; [reflexivity |].
    destruct (as_number val) as [y|e]; [| discriminate].
    cbn [mbind result_bind] in Hobj. congruence.
  - intros (v & [= <-] & Hn & Hx). rewrite Hn, Hx. reflexivity.
Qed.

(** Lines 141-144 append the value of every key to its column. *)
Lemma append_values_lookup (entry : json) (w_keys : list string) :
  forall vm vm', append_values entry w_keys vm = Ret vm' ->
  length vm' = length vm /\
  forall (i : nat) key col, w_keys !! i = Some key -> vm !! i = Some col ->
    exists v, raw_value entry key = Ret v /\
              vm' !! i = Some (if is_none v then col else (col ++ [v])%list).
Proof.
  induction w_keys as [|key keys IH]; intros vm vm' Happ.
  - simpl in Happ. injection Happ as <-. split; [reflexivity |].
    intros i key col Hk. now rewrite lookup_nil in Hk.
  - destruct vm as [|col0 cols].
    { simpl in Happ. injection Happ as <-. split; [reflexivity |].
      intros i k col _ Hc. now rewrite lookup_nil in Hc. }
    simpl in Happ.
    destruct (py_get entry "analyses_combined" (JDict [])) as [ac|e] eqn:Hac; [| discriminate].
    cbn [mbind result_bind] in Happ.
    destruct (py_get ac key JNull) as [val|e] eqn:Hval; [| discriminate].
    cbn [mbind result_bind] in Happ.
    destruct (append_values entry keys cols) as [rest|e] eqn:Hrest; [| discriminate].
    injection Happ as <-.
    destruct (IH cols rest Hrest) as [Hlen Hlook].
    split; [simpl; now rewrite Hlen |].
    intros [|i] k col Hk Hc; simpl in *.
    + injection Hk as <-. injection Hc as <-. exists val. split; [| reflexivity].
      unfold raw_value. rewrite Hac. exact Hval.
    + now apply Hlook.
Qed.

Lemma fold_values_lookup (entries : list json) (w_keys : list string) :
  forall vm vm', fold_values entries w_keys vm = Ret vm' ->
  forall (i : nat) key col, w_keys !! i = Some key -> vm !! i = Some col ->
    exists vs, vm' !! i = Some (col ++ vs)%list /\
      forall v, v ∈ vs <->
        exists e, e ∈ entries /\ raw_value e key = Ret v /\ is_none v = false.
Proof.
  induction entries as [|entry entries IH]; intros vm vm' Hfold i key col Hk Hc.
  - simpl in Hfold. injection Hfold as <-. exists []. rewrite app_nil_r.
    split; [exact Hc |]. intros v. split.
    + intros Hv. now apply elem_of_nil in Hv.
    + intros (e & He & _). now apply elem_of_nil in He.
  - simpl in Hfold.
    destruct (append_values entry w_keys vm) as [vm1|e] eqn:Happ; [| discriminate].
    cbn [mbind result_bind] in Hfold.
    destruct (append_values_lookup entry w_keys vm vm1 Happ) as [_ Hlook].
    destruct (Hlook i key col Hk Hc) as (v0 & Hraw & Hc1).
    destruct (IH vm1 vm' Hfold i key _ Hk Hc1) as (vs & Hvm' & Hvs).
    destruct (is_none v0) eqn:Hnone.
    + exists vs. split; [exact Hvm' |]. intros v. rewrite Hvs. split.
      * intros (e & He & Hr). exists e. split; [now right | exact Hr].
      * intros (e & He & Hr & Hn). apply elem_of_cons in He as [-> | He].
        -- rewrite Hraw in Hr. injection Hr as <-. congruence.
        -- exists e. auto.
    + exists (v0 :: vs). split.
      { rewrite Hvm', <- app_assoc. reflexivity. }
      intros v. rewrite elem_of_cons, Hvs. split.
      * intros [-> | (e & He & Hr)].
        -- exists entry. split; [now left | auto].
        -- exists e. split; [now right | exact Hr].
      * intros (e & He & Hr & Hn). apply elem_of_cons in He as [-> | He].
        -- left. rewrite Hraw in Hr. now injection Hr.
        -- right. exists e. auto.
Qed.

Lemma map_R_lookup {A B} (f : A -> result B) (l : list A) :
  forall l', map_R f l = Ret l' ->
  length l' = length l /\
  forall (i : nat) x, l !! i = Some x -> exists y, l' !! i = Some y /\ f x = Ret y.
Proof.
  induction l as [|a l IH]; intros l' Hmap; simpl in Hmap.
  - injection Hmap as <-. split; [reflexivity |]. intros i x Hx. now rewrite lookup_nil in Hx.
  - destruct (f a) as [b|e] eqn:Hfa; [| discriminate]. cbn [mbind result_bind] in Hmap.
    destruct (map_R f l) as [bs|e]; [| discriminate]. injection Hmap as <-.
    destruct (IH bs eq_refl) as [Hlen Hlook].
    split; [simpl; now rewrite Hlen |].
    intros [|i] x Hx; simpl in *.
    + injection Hx as <-. exists b. auto.
    + now apply Hlook.
Qed.

Lemma map_R_elem_of {A B} (f : A -> result B) (l : list A) (l' : list B) :
  map_R f l = Ret l' ->
  (forall x, x ∈ l -> exists y, y ∈ l' /\ f x = Ret y) /\
  (forall y, y ∈ l' -> exists x, x ∈ l /\ f x = Ret y).
Proof.
  intros Hmap. destruct (map_R_lookup f l l' Hmap) as [Hlen Hlook]. split.
  - intros x Hx. apply list_elem_of_lookup in Hx as [i Hi].
    destruct (Hlook i x Hi) as (y & Hy & Hf). exists y. split; [| exact Hf].
    apply list_elem_of_lookup. eauto.
  - intros y Hy. apply list_elem_of_lookup in Hy as [i Hi].
    destruct (l !! i) as [x|] eqn:Hx.
    + destruct (Hlook i x Hx) as (y' & Hy' & Hf). exists x. split.
      * apply list_elem_of_lookup. eauto.
      * congruence.
    + apply lookup_ge_None in Hx. apply lookup_lt_Some in Hi. lia.
Qed.

(** [min(vals)] is the least of the numbers in [vals], [max(vals)] the
    greatest. *)
Lemma py_min_least (vals : list json) (mn : R) :
  py_min vals = Ret mn ->
  (exists v, v ∈ vals /\ as_number v = Ret mn) /\
  (forall v x, v ∈ vals -> as_number v = Ret x -> (mn <= x)%R).
Proof.
  unfold py_min. destruct (map_R as_number vals) as [xs|e] eqn:Hmap; [| discriminate].
  cbn [mbind result_bind]. destruct xs as [|x0 xs]; [discriminate |]. intros [= <-].
  destruct (map_R_elem_of _ _ _ Hmap) as [Hfw Hbw].
  destruct (fold_Rmin_least xs x0) as [Hin Hle]. split.
  - apply list_elem_of_In in Hin. destruct (Hbw _ Hin) as (v & Hv & Hf). eauto.
  - intros v x Hv Hx. destruct (Hfw v Hv) as (y & Hy & Hf).
    apply Hle, list_elem_of_In. congruence.
Qed.

Lemma py_max_greatest (vals : list json) (mx : R) :
  py_max vals = Ret mx ->
  (exists v, v ∈ vals /\ as_number v = Ret mx) /\
  (forall v x, v ∈ vals -> as_number v = Ret x -> (x <= mx)%R).
Proof.
  unfold py_max. destruct (map_R as_number vals) as [xs|e] eqn:Hmap; [| discriminate].
  cbn [mbind result_bind]. destruct xs as [|x0 xs]; [discriminate |]. intros [= <-].
  destruct (map_R_elem_of _ _ _ Hmap) as [Hfw Hbw].
  destruct (fold_Rmax_greatest xs x0) as [Hin Hle]. split.
  - apply list_elem_of_In in Hin. destruct (Hbw _ Hin) as (v & Hv & Hf). eauto.
  - intros v x Hv Hx. destruct (Hfw v Hv) as (y & Hy & Hf).
    apply Hle, list_elem_of_In. congruence.
Qed.

(** The value matrix holds the values of the entries as they are loaded. *)
Lemma fill_matrix_fold (hs : list string) (w_keys : list string) :
  forall vm s vm' s', fill_matrix hs w_keys vm s = (Ret vm', s') ->
  exists entries, map_M load_entry hs s = (Ret entries, s') /\
                  fold_values entries w_keys vm = Ret vm'.
Proof.
  induction hs as [|h hs IH]; intros vm s vm' s' Hfill; simpl in Hfill.
  - injection Hfill as <- <-. exists []. split; reflexivity.
  - rewrite bind_run in Hfill.
    destruct (load_entry h s) as [[entry|e] s1] eqn:Hload; [| discriminate].
    rewrite bind_run in Hfill. unfold lift at 1 in Hfill.
    destruct (append_values entry w_keys vm) as [vm1|e] eqn:Happ; [| discriminate].
    destruct (IH vm1 s1 vm' s' Hfill) as (entries & Hmap & Hfold).
    exists (entry :: entries). split.
    + simpl. rewrite bind_run, Hload, bind_run, Hmap. reflexivity.
    + simpl. now rewrite Happ.
Qed.

Lemma normalized_point_lookup (vals : list xfloat) :
  forall (mins maxs : list R) (i : nat) v mn mx,
    vals !! i = Some v -> mins !! i = Some mn -> maxs !! i = Some mx ->
    normalized_point vals mins maxs !! i = Some (normalize v mn mx).
Proof.
  induction vals as [|v0 vals IH]; intros [|mn0 mins] [|mx0 maxs] [|i] v mn mx Hv Hm Hx;
    simpl in *; try discriminate.
  - congruence.
  - now apply IH.
Qed.

Lemma normalized_ideal_length (ideal : list R) :
  forall mins maxs, length mins = length ideal -> length maxs = length ideal ->
  length (normalized_ideal ideal mins maxs) = length ideal.
Proof.
  induction ideal as [|v ideal IH]; intros [|mn mins] [|mx maxs] Hm Hx; simpl in *;
    try discriminate; [reflexivity |].
  rewrite IH; lia.
Qed.

Lemma xadd_inf_r (a : xfloat) : xadd a Inf = Inf.
Proof. destruct a; reflexivity. Qed.

Lemma sum_squares_inf (p : list xfloat) :
  forall (q : list R) (i : nat),
    p !! i = Some Inf -> (i < length q)%nat -> sum_squares p q = Inf.
Proof.
  induction p as [|a p IH]; intros [|b q] [|i] Hp Hq; simpl in *; try discriminate; try lia.
  - injection Hp as ->. reflexivity.
  - rewrite (IH q i Hp) by lia. apply xadd_inf_r.
Qed.

End Ranking.

(** ** The distance prefix: rounding and lexical order *)
Section Rounding.

Lemma Int_part_le (x y : R) : (x <= y)%R -> Int_part x <= Int_part y.
Proof.
  intros Hxy.
  destruct (base_Int_part x) as [Hx1 Hx2], (base_Int_part y) as [Hy1 Hy2].
  assert (IZR (Int_part x) < IZR (Int_part y + 1))%R as Hlt by (rewrite plus_IZR; lra).
  apply lt_IZR in Hlt. lia.
Qed.

Lemma round_half_even_bounds (x : R) :
  Int_part x <= round_half_even x <= Int_part x + 1.
Proof.
  unfold round_half_even.
  destruct (Rlt_dec _ _); [lia |]. destruct (Rlt_dec _ _); [lia |].
  destruct (Z.even _); lia.
Qed.

(** Rounding to the nearest integer keeps the order. *)
Lemma round_half_even_le (x y : R) :
  (x <= y)%R -> round_half_even x <= round_half_even y.
Proof.
  intros Hxy. pose proof (Int_part_le x y Hxy) as Hip.
  destruct (Z_lt_le_dec (Int_part x) (Int_part y)) as [Hlt|Hge].
  - pose proof (round_half_even_bounds x). pose proof (round_half_even_bounds y). lia.
  - assert (Int_part x = Int_part y) as Heq by lia.
    unfold round_half_even. rewrite Heq.
    destruct (Rlt_dec (x - IZR (Int_part y)) (1 / 2)) as [Hx1|Hx1],
             (Rlt_dec (y - IZR (Int_part y)) (1 / 2)) as [Hy1|Hy1]; try lia; try lra.
    + destruct (Rlt_dec (1 / 2) (y - IZR (Int_part y))); [lia |]. destruct (Z.even _); lia.
    + destruct (Rlt_dec (1 / 2) (x - IZR (Int_part y))) as [Hx2|Hx2],
               (Rlt_dec (1 / 2) (y - IZR (Int_part y))) as [Hy2|Hy2]; try lia; try lra;
        destruct (Z.even _); lia.
Qed.

Lemma round_half_even_nonneg (x : R) : (0 <= x)%R -> 0 <= round_half_even x.
Proof.
  intros Hx. pose proof (round_half_even_bounds x) as [Hb _].
  pose proof (Int_part_le 0 x Hx) as Hi.
  assert (Int_part 0 = 0) as H0 by (symmetry; apply Int_part_spec; simpl; lra).
  lia.
Qed.

Lemma round_half_even_near (x : R) :
  (x - 1 / 2 <= IZR (round_half_even x) <= x + 1 / 2)%R.
Proof.
  unfold round_half_even. destruct (base_Int_part x) as [H1 H2].
  destruct (Rlt_dec _ _) as [Ha|Ha]; [lra |].
  destruct (Rlt_dec _ _) as [Hb|Hb]; [rewrite plus_IZR; lra |].
  destruct (Z.even _); [lra | rewrite plus_IZR; lra].
Qed.


Lemma compare_refl (s : string) : String_as_OT.compare s s = Eq.
Proof.
  destruct (String_as_OT.compare_spec s s) as [_|Hlt|Hlt]; [reflexivity | |];
    exfalso; exact (irreflexivity String_as_OT.lt s Hlt).
Qed.

Lemma ascii_compare_refl (c : ascii) : Ascii_as_OT.compare c c = Eq.
Proof. unfold Ascii_as_OT.compare. apply N.compare_refl. Qed.

(** A common prefix does not count in the comparison. *)
Lemma compare_append_same (p s1 s2 : string) :
  String_as_OT.compare (p ++ s1) (p ++ s2) = String_as_OT.compare s1 s2.
Proof.
  induction p as [|c p IH]; [reflexivity |].
  rewrite !append_cons. cbn [String_as_OT.compare]. now rewrite ascii_compare_refl.
Qed.

Lemma N_of_digit (d : Z) : 0 <= d < 10 -> N_of_ascii (digit d) = Z.to_N (48 + d).
Proof.
  intros Hd. unfold digit. rewrite Z.mod_small by lia.
  apply N_ascii_embedding. lia.
Qed.

Lemma digit_compare_lt (a b : Z) :
  0 <= a < b -> b < 10 -> Ascii_as_OT.compare (digit a) (digit b) = Lt.
Proof.
  intros Ha Hb. unfold Ascii_as_OT.compare.
  rewrite !N_of_digit by lia. apply N.compare_lt_iff. lia.
Qed.

(** Zero-padded numbers of one width compare as strings the way they
    compare as numbers, whatever follows them. *)
Lemma digits_fixed_lt (w : nat) :
  forall (a b : Z) (s1 s2 : string),
    0 <= a < b -> b < 10 ^ Z.of_nat w ->
    String_as_OT.compare (digits_fixed w a ++ s1) (digits_fixed w b ++ s2) = Lt.
Proof.
  induction w as [|w IH]; intros a b s1 s2 Hab Hb.
  - simpl in Hb. lia.
  - cbn [digits_fixed]. rewrite !append_cons. cbn [String_as_OT.compare].
    set (p := 10 ^ Z.of_nat w) in *.
    assert (0 < p) as Hp by (apply Z.pow_pos_nonneg; lia).
    assert (10 ^ Z.of_nat (S w) = 10 * p) as Hpow.
    { unfold p. rewrite Nat2Z.inj_succ, Z.pow_succ_r by lia. reflexivity. }
    rewrite Hpow in Hb.
    assert (0 <= a / p <= b / p) as Hq
      by (split; [apply Z.div_pos; lia | apply Z.div_le_mono; lia]).
    assert (b / p < 10) as Hq10 by (apply Z.div_lt_upper_bound; lia).
    destruct (Z_lt_le_dec (a / p) (b / p)) as [Hlt|Hge].
    + now rewrite digit_compare_lt by lia.
    + assert (a / p = b / p) as Heq by lia.
      rewrite Heq, ascii_compare_refl. apply IH.
      * pose proof (Z.mod_pos_bound a p Hp). split; [lia |].
        rewrite (Z.div_mod a p), (Z.div_mod b p) in Hab by lia. rewrite Heq in Hab. lia.
      * apply Z.mod_pos_bound. exact Hp.
Qed.

Lemma format_fixed4 (d : R) :
  (0 <= d)%R -> round_half_even (d * 10000) < 10 ^ 7 ->
  format_08_4f (Fin d) = fixed4 (round_half_even (d * 10000)).
Proof.
  intros Hd Hn. unfold format_08_4f.
  rewrite Rabs_pos_eq by exact Hd.
  destruct (Rlt_dec d 0) as [Hneg|_]; [lra |].
  unfold int_digits, fixed4.
  assert (round_half_even (d * 10000) / 10000 < 10 ^ Z.of_nat 3) as Hip
    by (apply Z.div_lt_upper_bound; simpl; lia).
  apply Z.ltb_lt in Hip. now rewrite Hip.
Qed.


End Rounding.

Lemma round_half_even_small (x : R) : (0 <= x < 1 / 2)%R -> round_half_even x = 0.
Proof.
  intros Hx. unfold round_half_even.
  assert (Int_part x = 0) as -> by (symmetry; apply Int_part_spec; simpl; lra).
  simpl. destruct (Rlt_dec (x - 0) (1 / 2)); [reflexivity | lra].
Qed.

Lemma str_lt_compare (a b : string) :
  str_lt a b = true <-> String_as_OT.compare a b = Lt.
Proof. unfold str_lt. destruct (String_as_OT.compare a b); split; congruence. Qed.






(** ** [add_entry]: failures of the file system *)
Section AddEntryFaults.
Context `{Externals}.

Lemma write_file_run p doc s :
  write_file p doc s
  = match faults s with
    | true :: _ => (Raise OSError, tick s)
    | _ => (Ret tt, set_dir p (<[name_of p := doc]> (dir_of p (tick s))) (tick s))
    end.
Proof.
  unfold write_file. rewrite bind_run. unfold io.
  destruct (faults s) as [|[] fs]; reflexivity.
Qed.

Lemma os_replace_run src dst s :
  os_replace src dst s
  = match faults s with
    | true :: _ => (Raise OSError, tick s)
    | _ => match dir_of src (tick s) !! name_of src with
           | Some doc =>
               (Ret tt, set_dir dst (<[name_of dst := doc]>
                                       (delete (name_of src) (dir_of src (tick s)))) (tick s))
           | None => (Raise FileNotFoundError, tick s)
           end
    end.
Proof.
  unfold os_replace. rewrite bind_run. unfold io.
  destruct (faults s) as [|[] fs]; reflexivity.
Qed.

Lemma write_entry_run h rounded s :
  write_entry h rounded s
  = match faults s with
    | true :: _ => (Raise OSError, tick s)
    | _ :: true :: _ =>
        (Raise OSError,
         mkState (hashes s) (sig_digits s) (root_dir s)
                 (<[((h ++ ".json") ++ ".tmp")%string := sort_keys rounded]> (pareto_dir s))
                 (tail (tail (faults s))) (out s))
    | _ => (Ret tt, entry_written h rounded s)
    end.
Proof.
  unfold write_entry. rewrite bind_run, write_file_run.
  destruct (faults s) as [|[] fs] eqn:Hf; try reflexivity.
  - rewrite os_replace_run. cbn [faults set_dir tick dir_of name_of pareto_dir].
    rewrite Hf. cbn [tail]. rewrite lookup_insert_eq.
    unfold entry_written. cbn. rewrite Hf. reflexivity.
  - rewrite os_replace_run. cbn [faults set_dir tick dir_of name_of pareto_dir].
    rewrite Hf. cbn [tail].
    destruct fs as [|[] fs']; cbn [tail]; unfold entry_written; cbn; rewrite ?Hf;
      try reflexivity; rewrite lookup_insert_eq; reflexivity.
Qed.

(** Whenever [write_entry] returns, the entry file is in place; whenever
    it raises, nothing but the temporary file has changed. *)
Lemma write_entry_inv h rounded s r s1 :
  write_entry h rounded s = (r, s1) ->
  self_of s1 = self_of s /\ root_dir s1 = root_dir s /\ out s1 = out s /\
  match r with
  | Ret _ => pareto_dir s1 !! (h ++ ".json")%string = Some (sort_keys rounded)
  | Raise e =>
      e = OSError /\
      forall name, name <> ((h ++ ".json") ++ ".tmp")%string ->
                   pareto_dir s1 !! name = pareto_dir s !! name
  end.
Proof.
  rewrite write_entry_run.
  destruct (faults s) as [|[] [|[] fs]]; intros [= <- <-]; cbn;
    repeat split; try reflexivity; try apply lookup_insert_eq;
    intros name Hne; now rewrite lookup_insert_ne by congruence.
Qed.

Lemma save_index_fails s :
  (exists fs, faults s = true :: fs) \/ (exists b fs, faults s = b :: true :: fs) ->
  exists s', _save_index s = (Raise OSError, s') /\
             self_of s' = self_of s /\ pareto_dir s' = pareto_dir s /\
             root_dir s' !! "index.json" = root_dir s !! "index.json".
Proof.
  intros Hf. unfold _save_index. rewrite bind_run. unfold get_hashes at 1.
  rewrite bind_run, write_file_run.
  destruct Hf as [[fs Hf] | (b & fs & Hf)]; rewrite Hf.
  - eexists. split; [reflexivity |]. repeat split.
  - destruct b; [eexists; split; [reflexivity |]; repeat split |].
    rewrite os_replace_run. cbn [faults set_dir tick dir_of name_of root_dir].
    rewrite Hf. cbn [tail]. eexists. split; [reflexivity |]. cbn.
    repeat split. now rewrite lookup_insert_ne by discriminate.
Qed.

End AddEntryFaults.

(** ** The entry file through the ranking pass *)
Section EntryFileKept.
Context `{EOk : ExternalsOk}.

Lemma append_inj_r (a b c d : string) :
  (a ++ b = c ++ d)%string -> String.length b = String.length d -> a = c /\ b = d.
Proof.
  revert c. induction a as [|x a IH]; intros [|y c] Heq Hlen.
  - rewrite !append_nil_l in Heq. auto.
  - rewrite append_nil_l in Heq. subst b. rewrite append_length in Hlen. simpl in Hlen. lia.
  - rewrite append_nil_l in Heq. subst d. rewrite append_length in Hlen. simpl in Hlen. lia.
  - rewrite !append_cons in Heq. injection Heq as -> Heq.
    destruct (IH c Heq Hlen) as [-> ->]. auto.
Qed.

(** Hashes of one length that end the same name are the same hash. *)
Lemma entry_file_of_inj (h h' name : string) :
  String.length h = String.length h' ->
  entry_file_of h name = true -> entry_file_of h' name = true -> h = h'.
Proof.
  unfold entry_file_of. intros Hlen H1 H2.
  apply ends_with_spec in H1 as [p1 ->]. apply ends_with_spec in H2 as [p2 H2].
  apply append_inj_r in H2 as [_ H2]; [| rewrite !append_length; simpl; lia].
  apply append_inj_r in H2 as [H2 _]; [exact H2 | reflexivity].
Qed.

Lemma storage_name_entry_file (prefix h : string) :
  entry_file_of h (storage_name prefix h) = true.
Proof.
  unfold entry_file_of, storage_name. apply ends_with_spec.
  exists (prefix ++ "_")%string. now rewrite append_assoc.
Qed.

(** What one turn of the renaming loop does to the directory: nothing,
    or the renaming of one entry file of the hash to its storage name. *)
Lemma rename_one_files w_keys ideal mins maxs h s r s' :
  rename_one w_keys ideal mins maxs h s = (r, s') ->
  pareto_dir s' = pareto_dir s \/
  exists old doc d,
    entry_file_of h old = true /\ pareto_dir s !! old = Some doc /\
    pareto_dir s' = <[storage_name (format_08_4f d) h := doc]> (delete old (pareto_dir s)).
Proof.
  unfold rename_one. rewrite try_except_run, bind_run.
  pose proof (keeps_load_entry pareto_dir h (fun _ => eq_refl) s) as Kl.
  destruct (load_entry h s) as [[entry|e] s1]; simpl in Kl;
    [| intros [= _ <-]; left; exact Kl].
  rewrite bind_run. unfold lift at 1.
  destruct (entry_distance entry w_keys ideal mins maxs) as [d|e];
    [| intros [= _ <-]; left; exact Kl].
  rewrite bind_run, glob_run.
  destruct (filter _ (listdir (pareto_dir s1))) as [|old others] eqn:Hglob;
    [intros [= _ <-]; left; exact Kl |].
  assert (entry_file_of h old = true) as Hmatch.
  { assert (old ∈ filter (fun n => fnmatch (Star (h ++ ".json")) n = true)
                         (listdir (pareto_dir s1))) as Hin by (rewrite Hglob; now left).
    apply list_elem_of_filter in Hin as [Hm _].
    unfold fnmatch in Hm. now apply andb_true_iff in Hm as [Hm _]. }
  unfold os_rename. rewrite os_replace_run.
  destruct (faults s1) as [|[] fs]; cbn [dir_of name_of tick pareto_dir];
    try (intros [= _ <-]; left; exact Kl);
    (destruct (pareto_dir s1 !! old) as [doc|] eqn:Hold;
     [| intros [= _ <-]; left; exact Kl]);
    intros [= _ <-]; right; exists old, doc, d; rewrite <- Kl; repeat split; assumption.
Qed.

(** A turn for a hash of the same length keeps the one entry file of [h]. *)
Lemma rename_one_keeps_entry_file w_keys ideal mins maxs h doc h' s :
  String.length h' = String.length h ->
  sole_entry_file h doc (pareto_dir s) ->
  sole_entry_file h doc (pareto_dir (snd (rename_one w_keys ideal mins maxs h' s))).
Proof.
  intros Hlen (name & Hname & Hdoc & Huniq).
  destruct (rename_one w_keys ideal mins maxs h' s) as [r s'] eqn:Hrun. cbn [snd].
  destruct (rename_one_files _ _ _ _ _ _ _ _ Hrun)
    as [-> | (old & doc' & d & Hold & Hlook & ->)]; [exists name; auto |].
  set (new := storage_name (format_08_4f d) h').
  pose proof (storage_name_entry_file (format_08_4f d) h') as Hnew. fold new in Hnew.
  destruct (String.eqb_spec h' h) as [-> | Hne].
  - assert (old = name) as -> by (apply Huniq; eauto).
    assert (doc' = doc) as -> by congruence.
    exists new. split; [exact Hnew |]. split; [apply lookup_insert_eq |].
    intros name' [x Hx] Hfile.
    destruct (String.eqb_spec new name') as [<- | Hnn]; [reflexivity |].
    rewrite lookup_insert_ne in Hx by exact Hnn.
    apply lookup_delete_Some in Hx as [Hneq Hx].
    exfalso. apply Hneq. symmetry. apply Huniq; eauto.
  - assert (name <> old) as Hno
      by (intros ->; apply Hne; now apply (entry_file_of_inj h' h old)).
    assert (name <> new) as Hnn
      by (intros ->; apply Hne; now apply (entry_file_of_inj h' h new)).
    exists name. split; [exact Hname |]. split.
    + rewrite lookup_insert_ne by congruence. now rewrite lookup_delete_ne by congruence.
    + intros name' [x Hx] Hfile.
      assert (new <> name') as Hnn'
        by (intros <-; apply Hne; now apply (entry_file_of_inj h' h new)).
      rewrite lookup_insert_ne in Hx by exact Hnn'.
      apply lookup_delete_Some in Hx as [_ Hx]. apply Huniq; eauto.
Qed.

Lemma for_each_rename_keeps_entry_file w_keys ideal mins maxs h doc (l : list string) :
  List.Forall (fun h' => String.length h' = String.length h) l ->
  forall s, sole_entry_file h doc (pareto_dir s) ->
  sole_entry_file h doc
    (pareto_dir (snd (for_each l (rename_one w_keys ideal mins maxs) s))).
Proof.
  induction 1 as [|h' l Hh' Hl IH]; intros s Hs; [exact Hs |].
  simpl for_each. rewrite bind_run.
  pose proof (rename_one_keeps_entry_file w_keys ideal mins maxs h doc h' s Hh' Hs) as Hone.
  destruct (rename_one w_keys ideal mins maxs h' s) as [[[]|e] s1]; simpl in Hone |- *.
  - now apply IH.
  - exact Hone.
Qed.

Lemma elem_of_sorted_strings (l : list string) (x : string) :
  x ∈ sorted_strings l -> x ∈ l.
Proof.
  unfold sorted_strings. intros Hx.
  apply list_elem_of_fmap in Hx as ([y []] & -> & Hy).
  rewrite sort_items_perm in Hy.
  apply list_elem_of_fmap in Hy as (z & [= ->] & Hz). exact Hz.
Qed.

(** Closes a goal about a directory that the steps so far have kept. *)
Local Ltac kept_files :=
  simpl;
  repeat match goal with
         | K : pareto_dir _ = pareto_dir _ |- _ => rewrite K; clear K
         end;
  assumption.

(** The ranking pass keeps the one entry file of a hash, when the hashes
    of the index have the length of that hash. *)
Lemma rename_pass_keeps_entry_file h doc s :
  (forall h', h' ∈ hashes s -> String.length h' = String.length h) ->
  sole_entry_file h doc (pareto_dir s) ->
  sole_entry_file h doc (pareto_dir (snd (rename_entries_with_distance s))).
Proof.
  intros Hlen Hs. unfold rename_entries_with_distance. rewrite bind_run.
  pose proof (keeps_compute_ideal_point pareto_dir (fun _ => eq_refl) s) as K1.
  pose proof (keeps_compute_ideal_point hashes (fun _ => eq_refl) s) as H1.
  destruct (compute_ideal_point s) as [[[ideal|]|e] s1]; simpl in K1, H1;
    [| kept_files | kept_files].
  rewrite bind_run. unfold get_hashes at 1. rewrite bind_run.
  destruct (set_iter (hashes s1)) as [|h0 hs0] eqn:Hiter; [kept_files |].
  unfold mret at 1, M_ret at 1. rewrite bind_run.
  pose proof (keeps_load_entry pareto_dir h0 (fun _ => eq_refl) s1) as K2.
  destruct (load_entry h0 s1) as [[sample|e] s2]; simpl in K2; [| kept_files].
  rewrite bind_run. unfold lift at 1.
  destruct (w_keys_of sample) as [ks|e]; [| kept_files].
  destruct (sorted_strings ks) as [|k0 ks0] eqn:Hks; [kept_files |].
  rewrite bind_run.
  pose proof (keeps_fill_matrix pareto_dir (h0 :: hs0) (k0 :: ks0)
                (map (fun _ => []) (k0 :: ks0)) (fun _ => eq_refl) s2) as K3.
  destruct (fill_matrix _ _ _ s2) as [[vm|e] s3]; simpl in K3; [| kept_files].
  rewrite bind_run. unfold lift at 1.
  destruct (map_R py_min vm) as [mins|e]; [| kept_files].
  rewrite bind_run. unfold lift at 1.
  destruct (map_R py_max vm) as [maxs|e]; [| kept_files].
  apply for_each_rename_keeps_entry_file; [| kept_files].
  apply List.Forall_forall. intros h' Hin. apply Hlen.
  apply list_elem_of_In, elem_of_sorted_strings in Hin.
  rewrite <- Hiter in Hin. apply elem_of_set_iter in Hin. now rewrite H1 in Hin.
Qed.

Lemma keeps_pareto_save_index : keeps pareto_dir _save_index.
Proof.
  unfold _save_index. apply keeps_bind; [apply keeps_get_hashes | intros hs].
  apply keeps_bind.
  - intros s. rewrite write_file_run. destruct (faults s) as [|[] fs]; reflexivity.
  - intros _ s. rewrite os_replace_run.
    destruct (faults s) as [|[] fs]; cbn; try reflexivity;
      destruct (root_dir s !! _); reflexivity.
Qed.

Lemma entry_file_of_bare (h : string) : entry_file_of h (h ++ ".json") = true.
Proof. unfold entry_file_of. apply ends_with_spec. now exists "". Qed.

(** Once written, the entry file is the one entry file of its hash, if
    the directory held none before. *)
Lemma entry_written_sole h rounded s :
  (forall name, is_Some (pareto_dir s !! name) -> entry_file_of h name = false) ->
  sole_entry_file h (sort_keys rounded) (pareto_dir (entry_written h rounded s)).
Proof.
  intros Hfresh. exists (h ++ ".json")%string. cbn.
  split; [apply entry_file_of_bare |]. split; [apply lookup_insert_eq |].
  intros name' [x Hx] Hfile.
  destruct (String.eqb_spec (h ++ ".json") name') as [<- | Hne]; [reflexivity |].
  rewrite lookup_insert_ne in Hx by exact Hne.
  apply lookup_delete_Some in Hx as [Hnt Hx].
  rewrite lookup_insert_ne in Hx by exact Hnt.
  rewrite Hfresh in Hfile by eauto. discriminate.
Qed.

(** Lines 61-66 keep the entry file, whatever fails in them. *)
Lemma register_entry_keeps_entry_file h doc s :
  (forall h', h' ∈ hashes s -> String.length h' = String.length h) ->
  sole_entry_file h doc (pareto_dir s) ->
  sole_entry_file h doc (pareto_dir (snd (register_entry h s))).
Proof.
  intros Hlen Hs. unfold register_entry. rewrite bind_run. unfold get_hashes at 1.
  rewrite bind_run. unfold put_hashes at 1. rewrite bind_run.
  set (s1 := mkState _ _ _ _ _ _).
  pose proof (keeps_pareto_save_index s1) as K1.
  pose proof (keeps_self_save_index s1) as H1.
  destruct (_save_index s1) as [[[]|e] s2]; subst s1; cbn in K1, H1;
    [| cbn; now rewrite K1].
  injection H1 as H1 _. rewrite bind_run.
  assert (sole_entry_file h doc (pareto_dir (snd (rename_entries_with_distance s2))))
    as Hpass.
  { apply rename_pass_keeps_entry_file; [| now rewrite K1].
    intros h' Hin. rewrite H1 in Hin.
    apply elem_of_union in Hin as [Hin | Hin]; [| now apply Hlen].
    apply elem_of_singleton in Hin. now subst. }
  destruct (rename_entries_with_distance s2) as [[[]|e] s3]; exact Hpass.
Qed.

End EntryFileKept.

Section AddEntryCases.
Context `{Externals}.

Lemma add_entry_cases entry s :
  let rounded := round_floats entry (sig_digits s) in
  let h := hash_entry rounded in
  h ∉ hashes s ->
  add_entry entry s
  = match write_entry h rounded s with
    | (Raise e, s1) => (Ret false, printed (FailedWrite h e) s1)
    | (Ret _, s1) =>
        match register_entry h s1 with
        | (Ret b, s2) => (Ret b, s2)
        | (Raise e, s2) => (Ret false, printed (FailedWrite h e) s2)
        end
    end.
Proof.
  intros rounded h Hnin. subst h rounded. rewrite add_entry_run. cbv zeta.
  rewrite bool_decide_eq_false_2 by exact Hnin.
  rewrite try_except_run, bind_run.
  destruct (write_entry _ _ s) as [[[]|e] s1]; [| reflexivity].
  destruct (register_entry _ s1) as [[b|e] s2]; reflexivity.
Qed.

Lemma register_entry_save_fails h s1 e s2 :
  _save_index (mkState ({[h]} ∪ hashes s1) (sig_digits s1) (root_dir s1) (pareto_dir s1)
                       (faults s1) (out s1)) = (Raise e, s2) ->
  register_entry h s1 = (Raise e, s2).
Proof.
  intros Hsave. unfold register_entry. rewrite bind_run. unfold get_hashes at 1.
  rewrite bind_run. unfold put_hashes at 1. rewrite bind_run, Hsave. reflexivity.
Qed.

End AddEntryCases.

(** C2, as the code has it.  [add_entry] never raises.  When the entry
    file cannot be written or moved into place, it returns [False], the
    index is unchanged in memory and on disk, and only the temporary file
    may be left.  When saving the index fails, it also returns [False],
    but the hash is by then in the index in memory, its entry file in
    place and the index file unchanged.  The index gains no hash other
    than that of the entry, and gains it only after the entry file was
    written; in a store of 16-character hashes that held no file of the
    hash, that file is there at the end, under one name. *)
Theorem add_entry_failure `{ExternalsOk} (entry : json) (s s' : state) (r : result bool) :
  let rounded := round_floats entry (sig_digits s) in
  let h := hash_entry rounded in
  h ∉ hashes s -> add_entry entry s = (r, s') ->
  (r = Ret true \/ r = Ret false) /\
  ((exists fs, faults s = true :: fs) \/ (exists b fs, faults s = b :: true :: fs) ->
     r = Ret false /\ hashes s' = hashes s /\ root_dir s' = root_dir s /\
     forall name, name <> ((h ++ ".json") ++ ".tmp")%string ->
                  pareto_dir s' !! name = pareto_dir s !! name) /\
  ((exists fs, faults s = false :: false :: true :: fs) \/
   (exists b fs, faults s = false :: false :: b :: true :: fs) ->
     r = Ret false /\ hashes s' = {[h]} ∪ hashes s /\
     pareto_dir s' !! (h ++ ".json")%string = Some (sort_keys rounded) /\
     root_dir s' !! "index.json" = root_dir s !! "index.json") /\
  (h ∈ hashes s' ->
     exists s1, write_entry h rounded s = (Ret tt, s1) /\
                pareto_dir s1 !! (h ++ ".json")%string = Some (sort_keys rounded)) /\
  (forall h', h' ∈ hashes s' -> h' = h \/ h' ∈ hashes s) /\
  ((forall h', h' ∈ hashes s -> String.length h' = 16%nat) ->
   (forall name, is_Some (pareto_dir s !! name) -> entry_file_of h name = false) ->
   h ∈ hashes s' ->
   sole_entry_file h (sort_keys rounded) (pareto_dir s')).
Proof.
  intros rounded h Hnin Hadd.
  pose proof (add_entry_self _ _ _ _ Hadd) as (_ & Hr & Hhs & _). fold rounded h in Hhs.
  rewrite (add_entry_cases entry s Hnin) in Hadd. fold rounded h in Hadd.
  split; [exact Hr |]. split; [| split; [| split; [| split]]].
  - intros Hf.
    assert (exists s1, write_entry h rounded s = (Raise OSError, s1)) as [s1 Hw].
    { rewrite write_entry_run.
      destruct Hf as [[fs ->] | (b & fs & ->)]; [eauto |]. destruct b; eauto. }
    rewrite Hw in Hadd. injection Hadd as <- <-.
    destruct (write_entry_inv _ _ _ _ _ Hw) as (Hself & Hroot & _ & _ & Hfiles).
    injection Hself as Hh _. cbn. repeat split; assumption.
  - intros Hf.
    assert (write_entry h rounded s = (Ret tt, entry_written h rounded s)) as Hw.
    { rewrite write_entry_run. destruct Hf as [[fs ->] | (b & fs & ->)]; reflexivity. }
    rewrite Hw in Hadd.
    destruct (save_index_fails
                (mkState ({[h]} ∪ hashes s) (sig_digits s) (root_dir s)
                         (pareto_dir (entry_written h rounded s))
                         (faults (entry_written h rounded s)) (out s)))
      as (s2 & Hsave & Hself & Hpd & Hidx).
    { cbn. destruct Hf as [[fs ->] | (b & fs & ->)]; eauto. }
    rewrite (register_entry_save_fails h (entry_written h rounded s) OSError s2 Hsave) in Hadd.
    injection Hadd as <- <-. injection Hself as Hh _. cbn in *.
    split; [reflexivity |]. split; [exact Hh |]. split; [| exact Hidx].
    rewrite Hpd. apply lookup_insert_eq.
  - intros Hin.
    destruct (write_entry h rounded s) as [[[]|e] s1] eqn:Hw.
    + exists s1. split; [reflexivity |].
      apply (write_entry_inv _ _ _ _ _ Hw).
    + exfalso. injection Hadd as _ <-.
      destruct (write_entry_inv _ _ _ _ _ Hw) as (Hself & _).
      injection Hself as Hh _. cbn in Hin. rewrite Hh in Hin. contradiction.
  - intros h' Hin. destruct Hhs as [Heq | Heq]; rewrite Heq in Hin; [now right |].
    apply elem_of_union in Hin as [Hin | Hin]; [left | now right].
    now apply elem_of_singleton in Hin.
  - intros Hlen Hfresh Hin.
    pose proof (write_entry_run h rounded s) as Hrun.
    destruct (write_entry h rounded s) as [[[]|e] s1] eqn:Hw.
    + assert (s1 = entry_written h rounded s) as ->.
      { destruct (faults s) as [|[] [|[] fs]]; congruence. }
      pose proof (register_entry_keeps_entry_file h (sort_keys rounded)
                    (entry_written h rounded s)) as Hkeep.
      assert (sole_entry_file h (sort_keys rounded)
                (pareto_dir (snd (register_entry h (entry_written h rounded s))))) as Hsole.
      { apply Hkeep; [| now apply entry_written_sole].
        intros h' Hh'. cbn in Hh'. rewrite (Hlen h' Hh').
        symmetry. apply hash_entry_length. }
      destruct (register_entry h (entry_written h rounded s)) as [[b|e] s2];
        injection Hadd as _ <-; exact Hsole.
    + exfalso. injection Hadd as _ <-.
      destruct (write_entry_inv _ _ _ _ _ Hw) as (Hself & _).
      injection Hself as Hh _. cbn in Hin. rewrite Hh in Hin. contradiction.
Qed.

Lemma add_entry_failure_witness :
  let e := JDict [("analyses_combined", JDict [])] in
  let s := mkState ∅ 6 ∅ ∅ [false; false; true] [] in
  fst (@add_entry sample_externals e s) = Ret false /\
  hashes (snd (@add_entry sample_externals e s))
  = {[@hash_entry sample_externals (@round_floats sample_externals e 6)]} ∪ ∅.
Proof.
  intros e s.
  destruct (@add_entry_failure _ sample_externals_ok e s
              (snd (@add_entry sample_externals e s))
              (fst (@add_entry sample_externals e s)))
    as (_ & _ & Hsave & _).
  - apply not_elem_of_empty.
  - apply surjective_pairing.
  - destruct Hsave as (Hr & Hh & _); [left; exists []; reflexivity |].
    split; assumption.
Defined.

(** The claim of C2 fails in two ways.  When the third file operation,
    the writing of the index, fails, [add_entry] returns [False] but the
    index in memory has gained the hash, and the entry file is on disk
    while the index file is not.  When the eighth, the loading of the
    entry in the renaming loop, fails, the failure is printed and
    [add_entry] returns [True]. *)
Lemma add_entry_fault_counterexample :
  (let r := @add_entry sample_externals (JDict [("analyses_combined", JDict [])])
              (mkState ∅ 6 ∅ ∅ [false; false; true] []) in
   fst r = Ret false /\
   hashes (snd r) = {["917867e278c2a18f"]} /\
   hashes (snd r) <> ∅ /\
   is_Some (pareto_dir (snd r) !! "917867e278c2a18f.json") /\
   root_dir (snd r) !! "index.json" = None) /\
  (let r := @add_entry sample_externals
              (JDict [("analyses_combined", JDict [("w_0", JInt 1)])])
              (mkState ∅ 6 ∅ ∅ [false; false; false; false; false; false; false; true] []) in
   fst r = Ret true /\
   out (snd r) = [FailedRename "f891840af17b5020" OSError]).
Proof.
  split.
  - intros r.
    assert (r = (Ret false,
                 mkState {["917867e278c2a18f"]} 6 ∅
                         {["917867e278c2a18f.json" := JDict [("analyses_combined", JDict [])]]}
                         [] [FailedWrite "917867e278c2a18f" OSError])) as ->
      by (vm_compute; reflexivity).
    cbn. repeat split.
    + intros Hempty. apply (not_elem_of_empty (C := gset string) "917867e278c2a18f").
      rewrite <- Hempty. now apply elem_of_singleton_2.
    + rewrite lookup_singleton_eq. eauto.
  - intros r. split; vm_compute; reflexivity.
Qed.

(** * Further properties of the store *)

(** ** The index file *)
Section IndexFile.
Context `{EOk : ExternalsOk}.

Lemma sorted_strings_perm (l : list string) : Permutation (sorted_strings l) l.
Proof.
  unfold sorted_strings. rewrite sort_items_perm.
  rewrite map_map. simpl. now rewrite map_id.
Qed.

Lemma map_R_strings (l : list string) :
  map_R (fun v => match v with JStr s => Ret s | _ => Raise TypeError end) (map JStr l) = Ret l.
Proof.
  induction l as [|x l IH]; [reflexivity |]. simpl. rewrite IH. reflexivity.
Qed.

Lemma index_doc_hashes (hs : gset string) :
  list_to_set (C := gset string) (sorted_strings (set_iter hs)) = hs.
Proof.
  apply set_eq. intros x. rewrite elem_of_list_to_set.
  rewrite sorted_strings_perm. apply elem_of_set_iter.
Qed.

(** [_save_index] when its two file operations succeed. *)
Lemma save_index_state s :
  no_fault 2 s ->
  _save_index s
  = (Ret tt,
     mkState (hashes s) (sig_digits s)
             (<["index.json" := index_doc (hashes s)]>
                (delete ("index.json" ++ ".tmp")%string
                   (<[("index.json" ++ ".tmp")%string := index_doc (hashes s)]> (root_dir s))))
             (pareto_dir s) (tail (tail (faults s))) (out s)).
Proof.
  intros Hnf.
  pose proof (no_fault_head _ _ Hnf) as H0.
  pose proof (no_fault_head _ _ (no_fault_tick _ _ Hnf)) as H1.
  unfold _save_index. rewrite bind_run. unfold get_hashes at 1.
  rewrite bind_run. unfold write_file. rewrite bind_run, (io_ok s H0).
  unfold act at 1. cbn [dir_of name_of set_dir].
  unfold os_replace. rewrite bind_run.
  match goal with |- context [io ?st] => rewrite (io_ok st) by exact H1 end.
  unfold act at 1. cbn [dir_of name_of set_dir index_path root_dir tick].
  rewrite lookup_insert_eq. reflexivity.
Qed.

(** [_load_index] on an index file that holds a list of strings. *)
Lemma load_index_list (l : list string) s :
  root_dir s !! "index.json" = Some (JList (map JStr l)) ->
  faults s !! 0%nat <> Some true ->
  _load_index s
  = (Ret tt, mkState (list_to_set l) (sig_digits s) (root_dir s) (pareto_dir s)
                     (tail (faults s)) (out s)).
Proof.
  intros Hidx Hf. unfold _load_index. rewrite bind_run.
  unfold os_path_exists at 1. cbn [dir_of name_of index_path].
  rewrite Hidx, bool_decide_eq_true_2 by eauto.
  rewrite try_except_run, bind_run. unfold read_file. rewrite bind_run, (io_ok s Hf).
  unfold act at 1. cbn [dir_of name_of index_path tick root_dir]. rewrite Hidx.
  rewrite bind_run. unfold lift at 1. rewrite map_R_strings. reflexivity.
Qed.

End IndexFile.

(** X1: what [_save_index] has written, a new [ParetoStore] on the same
    directory reads back: the index of the new object is the index that
    was saved, nothing is printed, and the temporary file is gone. *)
Theorem save_index_reload `{ExternalsOk} (sig : Z) (s : state) :
  no_fault 4 s ->
  exists s1 s2,
    _save_index s = (Ret tt, s1) /\ init sig s1 = (Ret tt, s2) /\
    hashes s2 = hashes s /\ sig_digits s2 = sig /\ out s2 = out s /\
    files_of s2 = files_of s1 /\ pareto_dir s1 = pareto_dir s /\
    root_dir s1 !! ("index.json" ++ ".tmp")%string = None.
Proof.
  intros Hnf.
  assert (no_fault 2 s) as Hnf2 by (intros i Hi; apply Hnf; lia).
  eexists. eexists. split; [apply save_index_state; exact Hnf2 |].
  pose proof (Hnf 2%nat ltac:(lia)) as H2. pose proof (Hnf 3%nat ltac:(lia)) as H3.
  unfold init. rewrite bind_run. unfold act at 1. rewrite bind_run.
  unfold os_makedirs_pareto. rewrite io_ok.
  2:{ cbn. destruct (faults s) as [|b0 [|b1 fs]]; simpl in *; try discriminate. exact H2. }
  rewrite bind_run. unfold put_hashes at 1.
  rewrite (load_index_list (sorted_strings (set_iter (hashes s)))).
  - cbn. rewrite index_doc_hashes. repeat split.
    rewrite lookup_insert_ne by discriminate. apply lookup_delete_eq.
  - cbn. apply lookup_insert_eq.
  - cbn. destruct (faults s) as [|b0 [|b1 [|b2 fs]]]; simpl in *; try discriminate. exact H3.
Qed.

Lemma save_index_reload_witness :
  let s := mkState {["917867e278c2a18f"; "f891840af17b5020"]} 6 ∅ ∅ [] [] in
  exists s1 s2,
    @_save_index sample_externals s = (Ret tt, s1) /\ init 4 s1 = (Ret tt, s2) /\
    hashes s2 = hashes s /\ sig_digits s2 = 4 /\ out s2 = out s /\
    files_of s2 = files_of s1 /\ pareto_dir s1 = pareto_dir s /\
    root_dir s1 !! ("index.json" ++ ".tmp")%string = None.
Proof.
  intros s. apply (@save_index_reload _ sample_externals_ok 4 s).
  apply no_fault_nil. reflexivity.
Defined.

Lemma load_index_elements (l : list json) :
  (forall hs, l = map JStr hs ->
     map_R (fun v => match v with JStr s => Ret s | _ => Raise TypeError end) l = Ret hs) /\
  (existsb unhashable l = true ->
     map_R (fun v => match v with JStr s => Ret s | _ => Raise TypeError end) l
     = Raise TypeError).
Proof.
  split.
  - intros hs ->. induction hs as [|x hs IH]; [reflexivity |]. simpl. now rewrite IH.
  - induction l as [|v l IH]; intros Hex; [discriminate |].
    simpl in Hex. destruct v; simpl in *; try reflexivity.
    rewrite (IH Hex). reflexivity.
Qed.

(** [_load_index], step by step. *)
Lemma load_index_run (t : state) :
  _load_index t
  = match root_dir t !! "index.json" with
    | None => (Ret tt, t)
    | Some doc =>
        match faults t with
        | true :: _ => print (FailedLoadIndex OSError) (tick t)
        | _ =>
            match doc with
            | JList l =>
                match map_R (fun v => match v with JStr s => Ret s | _ => Raise TypeError end) l with
                | Ret hs => put_hashes (list_to_set hs) (tick t)
                | Raise e => print (FailedLoadIndex e) (tick t)
                end
            | JDict d => put_hashes (list_to_set (map fst d)) (tick t)
            | JStr x =>
                put_hashes (list_to_set (map (fun c => String c "") (list_ascii_of_string x)))
                           (tick t)
            | _ => print (FailedLoadIndex TypeError) (tick t)
            end
        end
    end.
Proof.
  unfold _load_index. rewrite bind_run. unfold os_path_exists at 1.
  cbn [dir_of name_of index_path].
  destruct (root_dir t !! "index.json") as [doc|] eqn:Hidx.
  - rewrite bool_decide_eq_true_2 by eauto.
    rewrite try_except_run, bind_run. unfold read_file. rewrite bind_run. unfold io at 1.
    destruct (faults t) as [|[] fs] eqn:Hf; unfold act;
      cbn [dir_of name_of index_path root_dir tick]; rewrite ?Hidx; try reflexivity;
      destruct doc as [| | | | |l|]; try reflexivity;
      rewrite bind_run; unfold lift at 1; destruct (map_R _ l); reflexivity.
  - rewrite bool_decide_eq_false_2 by (intros [x Hx]; discriminate). reflexivity.
Qed.

(** X2: [__init__] raises only when [os.makedirs] fails, and touches no
    file.  When it returns: without an index file the index is empty and
    nothing is printed; an index file that lists strings gives the index
    (a [dict] gives its keys, a string its characters); when the index
    file cannot be read, holds a number, a boolean or [null], or lists a
    member that cannot be hashed, the failure is printed and the index
    is empty. *)
Theorem init_loads_index (sig : Z) (s : state) :
  exists r s', init sig s = (r, s') /\ files_of s' = files_of s /\
    match faults s with
    | true :: _ => r = Raise OSError /\ out s' = out s
    | _ =>
        r = Ret tt /\ sig_digits s' = sig /\
        match root_dir s !! "index.json" with
        | None => hashes s' = ∅ /\ out s' = out s
        | Some doc =>
            match tail (faults s) with
            | true :: _ => hashes s' = ∅ /\ out s' = FailedLoadIndex OSError :: out s
            | _ =>
                match doc with
                | JList l =>
                    (forall hs, l = map JStr hs -> hashes s' = list_to_set hs /\ out s' = out s) /\
                    (existsb unhashable l = true ->
                       hashes s' = ∅ /\ out s' = FailedLoadIndex TypeError :: out s)
                | JDict d => hashes s' = list_to_set (map fst d) /\ out s' = out s
                | JStr t =>
                    hashes s' = list_to_set (map (fun c => String c "") (list_ascii_of_string t)) /\
                    out s' = out s
                | _ => hashes s' = ∅ /\ out s' = FailedLoadIndex TypeError :: out s
                end
            end
        end
    end.
Proof.
  unfold init. rewrite bind_run. unfold act at 1. rewrite bind_run.
  unfold os_makedirs_pareto, io at 1. cbn [faults tick hashes sig_digits root_dir pareto_dir out].
  destruct (faults s) as [|[] fs] eqn:Hf.
  2:{ eexists _, _. split; [reflexivity |]. cbn. repeat split. }
  all: rewrite bind_run; unfold put_hashes at 1;
    cbn [faults tick hashes sig_digits root_dir pareto_dir out tail];
    rewrite load_index_run; cbn [faults tick hashes sig_digits root_dir pareto_dir out tail];
    destruct (root_dir s !! "index.json") as [doc|] eqn:Hidx;
    try (eexists _, _; split; [reflexivity |]; cbn; repeat split; fail).
  - destruct doc as [| | | | |l|];
      try (eexists _, _; split; [reflexivity |]; cbn; repeat split; fail).
    destruct (load_index_elements l) as [Hstr Hun].
    destruct (map_R _ l) as [hs|e] eqn:Hmap;
      (eexists _, _; split; [reflexivity |]); cbn;
      (split; [reflexivity |]); (split; [reflexivity |]); (split; [reflexivity |]); split.
    + intros hs' Hl. injection (Hstr hs' Hl) as <-. split; reflexivity.
    + intros Hex. discriminate (Hun Hex).
    + intros hs' Hl. discriminate (Hstr hs' Hl).
    + intros Hex. injection (Hun Hex) as ->. split; reflexivity.
  - destruct fs as [|[] fs'];
      try (eexists _, _; split; [reflexivity |]; cbn; repeat split; fail).
    + destruct doc as [| | | | |l|];
        try (eexists _, _; split; [reflexivity |]; cbn; repeat split; fail).
      destruct (load_index_elements l) as [Hstr Hun].
      destruct (map_R _ l) as [hs|e] eqn:Hmap;
        (eexists _, _; split; [reflexivity |]); cbn;
        (split; [reflexivity |]); (split; [reflexivity |]); (split; [reflexivity |]); split.
      * intros hs' Hl. injection (Hstr hs' Hl) as <-. split; reflexivity.
      * intros Hex. discriminate (Hun Hex).
      * intros hs' Hl. discriminate (Hstr hs' Hl).
      * intros Hex. injection (Hun Hex) as ->. split; reflexivity.
    + destruct doc as [| | | | |l|];
        try (eexists _, _; split; [reflexivity |]; cbn; repeat split; fail).
      destruct (load_index_elements l) as [Hstr Hun].
      destruct (map_R _ l) as [hs|e] eqn:Hmap;
        (eexists _, _; split; [reflexivity |]); cbn;
        (split; [reflexivity |]); (split; [reflexivity |]); (split; [reflexivity |]); split.
      * intros hs' Hl. injection (Hstr hs' Hl) as <-. split; reflexivity.
      * intros Hex. discriminate (Hun Hex).
      * intros hs' Hl. discriminate (Hstr hs' Hl).
      * intros Hex. injection (Hun Hex) as ->. split; reflexivity.
Qed.

(** Closes a goal about the files of the directory after the steps of
    [_save_index]. *)
Ltac index_files :=
  cbn; repeat split;
  try (intros name Hn1 Hn2);
  rewrite ?lookup_insert_eq;
  rewrite ?lookup_insert_ne by first [congruence | discriminate];
  rewrite ?lookup_delete_eq;
  rewrite ?lookup_delete_ne by first [congruence | discriminate];
  rewrite ?lookup_insert_ne by first [congruence | discriminate];
  reflexivity.

Lemma save_index_cases `{Externals} (s s' : state) (r : result unit) :
  _save_index s = (r, s') ->
  self_of s' = self_of s /\ pareto_dir s' = pareto_dir s /\ out s' = out s /\
  (forall name, name <> "index.json" -> name <> ("index.json" ++ ".tmp")%string ->
     root_dir s' !! name = root_dir s !! name) /\
  match r with
  | Ret _ =>
      root_dir s' !! "index.json" = Some (index_doc (hashes s)) /\
      root_dir s' !! ("index.json" ++ ".tmp")%string = None
  | Raise e =>
      e = OSError /\ root_dir s' !! "index.json" = root_dir s !! "index.json"
  end.
Proof.
  unfold _save_index. rewrite bind_run. unfold get_hashes at 1. rewrite bind_run.
  rewrite write_file_run.
  destruct (faults s) as [|[] fs] eqn:Hf.
  - rewrite os_replace_run. cbn [faults tick set_dir dir_of name_of index_path root_dir].
    rewrite Hf. cbn [tail]. rewrite lookup_insert_eq. intros [= <- <-]. index_files.
  - intros [= <- <-]. index_files.
  - rewrite os_replace_run. cbn [faults tick set_dir dir_of name_of index_path root_dir].
    rewrite Hf. cbn [tail]. rewrite lookup_insert_eq.
    destruct fs as [|[] fs']; intros [= <- <-]; index_files.
Qed.

(** X3: [_save_index] writes the index to a temporary file and moves it
    into place.  When it raises, the exception is an [OSError] and
    [index.json] holds what it held before; when it returns,
    [index.json] holds the index and the temporary file is gone.  It
    touches no other file and not the index in memory. *)
Theorem save_index_atomic `{Externals} (s s' : state) (r : result unit) :
  _save_index s = (r, s') ->
  self_of s' = self_of s /\ pareto_dir s' = pareto_dir s /\ out s' = out s /\
  (forall name, name <> "index.json" -> name <> ("index.json" ++ ".tmp")%string ->
     root_dir s' !! name = root_dir s !! name) /\
  match r with
  | Ret _ =>
      root_dir s' !! "index.json" = Some (index_doc (hashes s)) /\
      root_dir s' !! ("index.json" ++ ".tmp")%string = None
  | Raise e =>
      e = OSError /\ root_dir s' !! "index.json" = root_dir s !! "index.json"
  end.
Proof. apply save_index_cases. Qed.

Lemma save_index_atomic_witness :
  let s := mkState {["917867e278c2a18f"]} 6 {["index.json" := JList []]} ∅ [false; true] [] in
  let s' := snd (@_save_index sample_externals s) in
  self_of s' = self_of s /\ pareto_dir s' = pareto_dir s /\ out s' = out s /\
  (forall name, name <> "index.json" -> name <> ("index.json" ++ ".tmp")%string ->
     root_dir s' !! name = root_dir s !! name) /\
  (OSError = OSError /\ root_dir s' !! "index.json" = root_dir s !! "index.json").
Proof.
  intros s s'.
  apply (@save_index_atomic sample_externals s s' (Raise OSError)).
  vm_compute. reflexivity.
Defined.

(** ** [list_entries] *)
Lemma sorted_strings_sorted (l : list string) :
  NoDup l -> StronglySorted (fun a b => str_lt a b = true) (sorted_strings l).
Proof.
  intros Hnd. unfold sorted_strings.
  assert (StronglySorted key_lt (sort_items (map (fun s => (s, tt)) l))) as Hs.
  { apply sort_items_sorted. rewrite map_map. simpl. now rewrite map_id. }
  induction Hs as [|x l' Hs IH Hall]; simpl; constructor; [exact IH |].
  rewrite List.Forall_forall in Hall |- *. intros y Hy.
  apply in_map_iff in Hy as (z & <- & Hz). now apply Hall.
Qed.

Lemma sorted_strings_permutation (l1 l2 : list string) :
  NoDup l1 -> Permutation l1 l2 -> sorted_strings l1 = sorted_strings l2.
Proof.
  intros Hnd Hp. unfold sorted_strings. f_equal.
  apply sort_items_permutation; [| now apply Permutation_map].
  rewrite map_map. simpl. now rewrite map_id.
Qed.

(** X4: [list_entries] returns the hashes of the index, each one once,
    in strictly ascending order; the list does not depend on the order in
    which the set is iterated, and the state is left as it was. *)
Theorem list_entries_sorted `{ExternalsOk} (s : state) :
  exists l, list_entries s = (Ret l, s) /\
    (forall h, h ∈ l <-> h ∈ hashes s) /\
    StronglySorted (fun a b => str_lt a b = true) l /\
    NoDup l /\
    l = sorted_strings (elements (hashes s)).
Proof.
  exists (sorted_strings (set_iter (hashes s))).
  assert (NoDup (set_iter (hashes s))) as Hnd.
  { rewrite set_iter_perm. apply NoDup_elements. }
  split; [reflexivity |]. split; [| split; [| split]].
  - intros h. rewrite sorted_strings_perm. apply elem_of_set_iter.
  - now apply sorted_strings_sorted.
  - now rewrite sorted_strings_perm.
  - apply sorted_strings_permutation; [exact Hnd | apply set_iter_perm].
Qed.

Lemma list_entries_sorted_witness :
  let s := mkState {["f891840af17b5020"; "917867e278c2a18f"]} 6 ∅ ∅ [] [] in
  exists l, @list_entries sample_externals s = (Ret l, s) /\
    (forall h, h ∈ l <-> h ∈ hashes s) /\
    StronglySorted (fun a b => str_lt a b = true) l /\
    NoDup l /\
    l = sorted_strings (elements (hashes s)).
Proof.
  intros s. apply (@list_entries_sorted _ sample_externals_ok s).
Defined.

(** ** [load_entry] *)
Section LoadEntry.
Context `{EOk : ExternalsOk}.

Lemma NoDup_listdir (m : gmap string json) : NoDup (listdir m).
Proof. rewrite listdir_perm. apply NoDup_elements. Qed.

(** A list without repetition whose members are all [x] is [[x]]. *)
Lemma NoDup_all_same {A} (x : A) (l : list A) :
  NoDup l -> x ∈ l -> (forall y, y ∈ l -> y = x) -> l = [x].
Proof.
  intros Hnd Hin Hall. destruct l as [|y l]; [now apply elem_of_nil in Hin |].
  assert (y = x) as -> by (apply Hall; now left).
  f_equal. destruct l as [|z l]; [reflexivity |].
  assert (z = x) as -> by (apply Hall; right; now left).
  apply NoDup_cons in Hnd as [Hnin _]. exfalso. apply Hnin. now left.
Qed.

(** A pattern that one file of the directory matches. *)
Lemma glob_unique pat s name :
  is_Some (pareto_dir s !! name) -> fnmatch pat name = true ->
  (forall name', is_Some (pareto_dir s !! name') -> fnmatch pat name' = true -> name' = name) ->
  glob pat s = (Ret [name], s).
Proof.
  intros Hin Hm Huniq. rewrite glob_run. do 2 f_equal.
  apply NoDup_all_same.
  - apply NoDup_filter, NoDup_listdir.
  - apply list_elem_of_filter. split; [exact Hm | now apply elem_of_listdir].
  - intros y Hy. apply list_elem_of_filter in Hy as [Hy1 Hy2].
    apply Huniq; [now apply elem_of_listdir | exact Hy1].
Qed.

Lemma read_file_ok name doc s :
  pareto_dir s !! name = Some doc -> faults s !! 0%nat <> Some true ->
  read_file (Pareto name) s = (Ret doc, tick s).
Proof.
  intros Hdoc Hf. unfold read_file. rewrite bind_run, (io_ok s Hf).
  unfold act. cbn [dir_of name_of tick pareto_dir]. now rewrite Hdoc.
Qed.

Lemma load_entry_ranked h name doc s :
  pareto_dir s !! name = Some doc ->
  fnmatch (Star ("_" ++ h ++ ".json")) name = true ->
  (forall name', is_Some (pareto_dir s !! name') ->
     fnmatch (Star ("_" ++ h ++ ".json")) name' = true -> name' = name) ->
  faults s !! 0%nat <> Some true ->
  load_entry h s = (Ret doc, tick s).
Proof.
  intros Hdoc Hm Huniq Hf. unfold load_entry.
  rewrite bind_run, (glob_unique _ s name) by eauto.
  rewrite bind_run. unfold mret at 1, M_ret at 1.
  now apply read_file_ok.
Qed.

Lemma load_entry_bare h doc s :
  (forall name, is_Some (pareto_dir s !! name) ->
     fnmatch (Star ("_" ++ h ++ ".json")) name = false) ->
  pareto_dir s !! (h ++ ".json")%string = Some doc ->
  faults s !! 0%nat <> Some true ->
  load_entry h s = (Ret doc, tick s).
Proof.
  intros Hno Hdoc Hf. unfold load_entry.
  rewrite bind_run, (glob_no_match _ s Hno).
  rewrite bind_run, (glob_unique _ s (h ++ ".json")%string).
  - now apply read_file_ok.
  - eauto.
  - apply String.eqb_refl.
  - intros name' _ Hm. symmetry. now apply String.eqb_eq.
Qed.

Lemma load_entry_none h s :
  (forall name, is_Some (pareto_dir s !! name) ->
     fnmatch (Star ("_" ++ h ++ ".json")) name = false) ->
  pareto_dir s !! (h ++ ".json")%string = None ->
  load_entry h s = (Raise FileNotFoundError, s).
Proof.
  intros Hno Hdoc. unfold load_entry.
  rewrite bind_run, (glob_no_match _ s Hno).
  rewrite bind_run, (glob_no_match _ s); [reflexivity |].
  intros name [x Hx]. cbn. apply String.eqb_neq. intros <-. congruence.
Qed.

End LoadEntry.

(** X5: when neither a ranked file [*_<h>.json] nor the bare file
    [<h>.json] exists, [load_entry] raises [FileNotFoundError] without
    any file operation: the state, the oracle included, is unchanged. *)
Theorem load_entry_missing `{ExternalsOk} (h : string) (s : state) :
  (forall name, is_Some (pareto_dir s !! name) ->
     fnmatch (Star ("_" ++ h ++ ".json")) name = false) ->
  pareto_dir s !! (h ++ ".json")%string = None ->
  load_entry h s = (Raise FileNotFoundError, s).
Proof. apply load_entry_none. Qed.

Lemma load_entry_missing_witness :
  let s := mkState {["917867e278c2a18f"]} 6 ∅
                   {["000.0000_f891840af17b5020.json" := JNull]} [true] [] in
  @load_entry sample_externals "917867e278c2a18f" s = (Raise FileNotFoundError, s).
Proof.
  intros s. apply (@load_entry_missing _ sample_externals_ok "917867e278c2a18f" s).
  - intros name [x Hx]. subst s. cbn [pareto_dir] in Hx.
    apply lookup_singleton_Some in Hx as [<- _]. vm_compute. reflexivity.
  - reflexivity.
Defined.

(** X6: [load_entry] looks for the ranked name first.  When one file
    matches [*_<h>.json] its content is returned, whatever [<h>.json]
    holds; the bare file is read only when no ranked file exists. *)
Theorem load_entry_lookup_order `{ExternalsOk} (h : string) (s : state) :
  faults s !! 0%nat <> Some true ->
  (forall name ranked,
     pareto_dir s !! name = Some ranked ->
     fnmatch (Star ("_" ++ h ++ ".json")) name = true ->
     (forall name', is_Some (pareto_dir s !! name') ->
        fnmatch (Star ("_" ++ h ++ ".json")) name' = true -> name' = name) ->
     load_entry h s = (Ret ranked, tick s)) /\
  (forall bare,
     (forall name, is_Some (pareto_dir s !! name) ->
        fnmatch (Star ("_" ++ h ++ ".json")) name = false) ->
     pareto_dir s !! (h ++ ".json")%string = Some bare ->
     load_entry h s = (Ret bare, tick s)).
Proof.
  intros Hf. split.
  - intros name ranked Hdoc Hm Huniq. now apply (load_entry_ranked h name).
  - intros bare Hno Hdoc. now apply load_entry_bare.
Qed.

Lemma load_entry_lookup_order_witness :
  let h := "917867e278c2a18f" in
  let s := mkState {[h]} 6 ∅
                   {[ "000.0000_917867e278c2a18f.json" := JInt 1;
                      "917867e278c2a18f.json" := JInt 2 ]} [] [] in
  @load_entry sample_externals h s = (Ret (JInt 1), tick s).
Proof.
  intros h s.
  apply (proj1 (@load_entry_lookup_order _ sample_externals_ok h s ltac:(discriminate))
           "000.0000_917867e278c2a18f.json").
  - reflexivity.
  - vm_compute. reflexivity.
  - intros name' [x Hx] Hm. subst s. cbn [pareto_dir] in Hx.
    apply lookup_insert_Some in Hx as [[<- _] | [_ Hx]]; [reflexivity |].
    apply lookup_singleton_Some in Hx as [<- _]. vm_compute in Hm. discriminate.
Defined.

(** ** Invariants of the ranking pass *)



Section RenameStable.
Context `{EOk : ExternalsOk}.
Variable P : gmap string json -> Prop.

Lemma rename_one_stable hs w_keys ideal mins maxs h s :
  rename_stable hs P -> h ∈ hs -> P (pareto_dir s) ->
  P (pareto_dir (snd (rename_one w_keys ideal mins maxs h s))).
Proof.
  intros Hst Hin HP.
  destruct (rename_one w_keys ideal mins maxs h s) as [r s'] eqn:Hrun. cbn [snd].
  destruct (rename_one_files _ _ _ _ _ _ _ _ Hrun)
    as [-> | (old & doc' & d & Hold & Hlook & ->)]; [exact HP |].
  now apply Hst.
Qed.

Lemma for_each_rename_stable hs w_keys ideal mins maxs (l : list string) :
  rename_stable hs P -> List.Forall (fun h => h ∈ hs) l ->
  forall s, P (pareto_dir s) ->
  P (pareto_dir (snd (for_each l (rename_one w_keys ideal mins maxs) s))).
Proof.
  intros Hst. induction 1 as [|h l Hh Hl IH]; intros s Hs; [exact Hs |].
  simpl for_each. rewrite bind_run.
  pose proof (rename_one_stable hs w_keys ideal mins maxs h s Hst Hh Hs) as Hone.
  destruct (rename_one w_keys ideal mins maxs h s) as [[[]|e] s1]; simpl in Hone |- *.
  - now apply IH.
  - exact Hone.
Qed.

Local Ltac kept_dir :=
  simpl;
  repeat match goal with
         | K : pareto_dir _ = pareto_dir _ |- _ => rewrite K; clear K
         end;
  assumption.

Lemma rename_pass_stable s :
  rename_stable (hashes s) P -> P (pareto_dir s) ->
  P (pareto_dir (snd (rename_entries_with_distance s))).
Proof.
  intros Hst Hs. unfold rename_entries_with_distance. rewrite bind_run.
  pose proof (keeps_compute_ideal_point pareto_dir (fun _ => eq_refl) s) as K1.
  pose proof (keeps_compute_ideal_point hashes (fun _ => eq_refl) s) as H1.
  destruct (compute_ideal_point s) as [[[ideal|]|e] s1]; simpl in K1, H1;
    [| kept_dir | kept_dir].
  rewrite bind_run. unfold get_hashes at 1. rewrite bind_run.
  destruct (set_iter (hashes s1)) as [|h0 hs0] eqn:Hiter; [kept_dir |].
  unfold mret at 1, M_ret at 1. rewrite bind_run.
  pose proof (keeps_load_entry pareto_dir h0 (fun _ => eq_refl) s1) as K2.
  destruct (load_entry h0 s1) as [[sample|e] s2]; simpl in K2; [| kept_dir].
  rewrite bind_run. unfold lift at 1.
  destruct (w_keys_of sample) as [ks|e]; [| kept_dir].
  destruct (sorted_strings ks) as [|k0 ks0] eqn:Hks; [kept_dir |].
  rewrite bind_run.
  pose proof (keeps_fill_matrix pareto_dir (h0 :: hs0) (k0 :: ks0)
                (map (fun _ => []) (k0 :: ks0)) (fun _ => eq_refl) s2) as K3.
  destruct (fill_matrix _ _ _ s2) as [[vm|e] s3]; simpl in K3; [| kept_dir].
  rewrite bind_run. unfold lift at 1.
  destruct (map_R py_min vm) as [mins|e]; [| kept_dir].
  rewrite bind_run. unfold lift at 1.
  destruct (map_R py_max vm) as [maxs|e]; [| kept_dir].
  apply (for_each_rename_stable (hashes s)); [exact Hst | | kept_dir].
  apply List.Forall_forall. intros h' Hin.
  apply list_elem_of_In, elem_of_sorted_strings in Hin.
  rewrite <- Hiter in Hin. apply elem_of_set_iter in Hin. now rewrite H1 in Hin.
Qed.

Lemma register_entry_stable h s :
  rename_stable ({[h]} ∪ hashes s) P -> P (pareto_dir s) ->
  P (pareto_dir (snd (register_entry h s))).
Proof.
  intros Hst Hs. unfold register_entry. rewrite bind_run. unfold get_hashes at 1.
  rewrite bind_run. unfold put_hashes at 1. rewrite bind_run.
  set (s1 := mkState _ _ _ _ _ _).
  pose proof (keeps_pareto_save_index s1) as K1.
  pose proof (keeps_self_save_index s1) as H1.
  destruct (_save_index s1) as [[[]|e] s2]; subst s1; cbn in K1, H1;
    [| cbn; now rewrite K1].
  injection H1 as H1 _. rewrite bind_run.
  assert (P (pareto_dir (snd (rename_entries_with_distance s2)))) as Hpass.
  { apply rename_pass_stable; [now rewrite H1 | now rewrite K1]. }
  destruct (rename_entries_with_distance s2) as [[[]|e] s3]; exact Hpass.
Qed.

End RenameStable.

(** ** The names of the entry files *)

Lemma ends_with_length (suf s : string) :
  ends_with suf s = true -> (String.length suf <= String.length s)%nat.
Proof.
  intros Hs. apply ends_with_spec in Hs as [p ->]. rewrite append_length. lia.
Qed.

Lemma ranked_is_entry_file (h name : string) :
  fnmatch (Star ("_" ++ h ++ ".json")) name = true -> entry_file_of h name = true.
Proof.
  unfold fnmatch, entry_file_of. intros Hm. apply andb_true_iff in Hm as [Hm _].
  apply ends_with_spec in Hm as [p ->]. apply ends_with_spec.
  exists (p ++ "_")%string. now rewrite append_assoc.
Qed.

Lemma bare_is_not_ranked (h : string) :
  fnmatch (Star ("_" ++ h ++ ".json")) (h ++ ".json") = false.
Proof.
  unfold fnmatch. destruct (ends_with _ _) eqn:He; [| reflexivity].
  apply ends_with_length in He. rewrite append_cons, append_nil_l in He.
  simpl in He. lia.
Qed.

Lemma pretty_N_char_not_dot (x : N) : pretty_N_char x <> "."%char.
Proof. unfold pretty_N_char. repeat case_match; discriminate. Qed.

Lemma pretty_N_go_head (x : N) (s : string) :
  (0 < x)%N -> exists c t, pretty_N_go x s = String c t /\ c <> "."%char.
Proof.
  revert s. induction (N.lt_wf_0 x) as [x _ IH]; intros s Hx.
  rewrite pretty_N_go_step by exact Hx.
  destruct (decide (0 < x `div` 10)%N) as [Hd | Hd].
  - apply IH; [apply N.div_lt; lia | exact Hd].
  - apply N.nlt_ge, N.le_0_r in Hd. rewrite Hd, pretty_N_go_0.
    eexists _, _. split; [reflexivity | apply pretty_N_char_not_dot].
Qed.

Lemma digit_not_dot (d : Z) : digit d <> "."%char.
Proof.
  unfold digit.
  assert (0 <= d mod 10 < 10) as Hd by (apply Z.mod_pos_bound; lia).
  assert (d mod 10 = 0 \/ d mod 10 = 1 \/ d mod 10 = 2 \/ d mod 10 = 3 \/ d mod 10 = 4 \/
          d mod 10 = 5 \/ d mod 10 = 6 \/ d mod 10 = 7 \/ d mod 10 = 8 \/ d mod 10 = 9)
    as Hc by lia.
  repeat destruct Hc as [-> | Hc]; try rewrite Hc; discriminate.
Qed.

Lemma int_digits_head (w : nat) (n : Z) :
  0 <= n -> exists c t, int_digits (S w) n = String c t /\ c <> "."%char.
Proof.
  intros Hn. unfold int_digits. destruct (Z.ltb_spec n (10 ^ Z.of_nat (S w))) as [Hlt | Hge].
  - eexists _, _. split; [reflexivity | apply digit_not_dot].
  - assert (0 < 10 ^ Z.of_nat (S w)) as Hpos by (apply Z.pow_pos_nonneg; lia).
    destruct n as [|p|p]; [lia | | lia].
    unfold pretty, pretty_Z, pretty, pretty_positive, pretty, pretty_N.
    rewrite decide_False by discriminate. apply pretty_N_go_head. lia.
Qed.

(** The distance prefix starts with a digit or a sign, never with a dot. *)
Lemma format_08_4f_head (v : xfloat) :
  exists c t, format_08_4f v = String c t /\ c <> "."%char.
Proof.
  destruct v as [x|]; [| eexists _, _; split; [reflexivity | discriminate]].
  unfold format_08_4f.
  assert (0 <= round_half_even (Rabs x * 10000) / 10000) as Hn.
  { apply Z.div_pos; [| lia]. apply round_half_even_nonneg.
    pose proof (Rabs_pos x). lra. }
  destruct (Rlt_dec x 0).
  - eexists _, _. split; [rewrite append_cons; reflexivity | discriminate].
  - destruct (int_digits_head 2 _ Hn) as (c & t & -> & Hc).
    eexists _, _. split; [rewrite append_cons; reflexivity | exact Hc].
Qed.

Lemma storage_name_ranked (dist : xfloat) (h : string) :
  fnmatch (Star ("_" ++ h ++ ".json")) (storage_name (format_08_4f dist) h) = true.
Proof.
  unfold fnmatch, storage_name. apply andb_true_iff. split.
  - apply ends_with_spec. now exists (format_08_4f dist).
  - destruct (format_08_4f_head dist) as (c & t & -> & Hc).
    rewrite append_cons. unfold starts_with. cbn [String.prefix].
    destruct (ascii_dec "."%char c) as [<- | _]; [now contradict Hc | reflexivity].
Qed.

Section StoredEntry.
Context `{EOk : ExternalsOk}.

Lemma stored_entry_file (h name : string) :
  (name = (h ++ ".json")%string \/ exists dist, name = storage_name (format_08_4f dist) h) ->
  entry_file_of h name = true.
Proof.
  intros [-> | [dist ->]]; [apply entry_file_of_bare | apply storage_name_entry_file].
Qed.

Lemma stored_entry_stable h doc (hs : gset string) :
  (forall h', h' ∈ hs -> String.length h' = String.length h) ->
  rename_stable hs (stored_entry h doc).
Proof.
  intros Hlen d h' old doc' dist Hin Hold Hlook (name & Hform & Hdoc & Huniq).
  pose proof (stored_entry_file h name Hform) as Hname.
  specialize (Hlen h' Hin).
  set (new := storage_name (format_08_4f dist) h').
  pose proof (storage_name_entry_file (format_08_4f dist) h') as Hnew. fold new in Hnew.
  destruct (String.eqb_spec h' h) as [-> | Hne].
  - assert (old = name) as -> by (apply Huniq; eauto).
    assert (doc' = doc) as -> by congruence.
    exists new. split; [right; now exists dist |]. split; [apply lookup_insert_eq |].
    intros name' [x Hx] Hfile.
    destruct (String.eqb_spec new name') as [<- | Hnn]; [reflexivity |].
    rewrite lookup_insert_ne in Hx by exact Hnn.
    apply lookup_delete_Some in Hx as [Hneq Hx].
    exfalso. apply Hneq. symmetry. apply Huniq; eauto.
  - assert (name <> old) as Hno
      by (intros ->; apply Hne; now apply (entry_file_of_inj h' h old)).
    assert (name <> new) as Hnn
      by (intros ->; apply Hne; now apply (entry_file_of_inj h' h new)).
    exists name. split; [exact Hform |]. split.
    + rewrite lookup_insert_ne by congruence. now rewrite lookup_delete_ne by congruence.
    + intros name' [x Hx] Hfile.
      assert (new <> name') as Hnn'
        by (intros <-; apply Hne; now apply (entry_file_of_inj h' h new)).
      rewrite lookup_insert_ne in Hx by exact Hnn'.
      apply lookup_delete_Some in Hx as [_ Hx]. apply Huniq; eauto.
Qed.

Lemma entry_written_stored h rounded s :
  (forall name, is_Some (pareto_dir s !! name) -> entry_file_of h name = false) ->
  stored_entry h (sort_keys rounded) (pareto_dir (entry_written h rounded s)).
Proof.
  intros Hfresh. destruct (entry_written_sole h rounded s Hfresh) as (name & Hn & Hd & Hu).
  exists (h ++ ".json")%string. split; [now left |].
  assert (name = (h ++ ".json")%string) as Heq.
  { symmetry. apply Hu; [| apply entry_file_of_bare]. cbn. rewrite lookup_insert_eq. eauto. }
  rewrite <- Heq. auto.
Qed.

(** Reading the entry of a hash that is stored under one of its names. *)
Lemma load_entry_stored h doc s :
  stored_entry h doc (pareto_dir s) -> faults s !! 0%nat <> Some true ->
  load_entry h s = (Ret doc, tick s).
Proof.
  intros (name & Hform & Hdoc & Huniq) Hf.
  destruct Hform as [-> | [dist ->]].
  - apply load_entry_bare; [| exact Hdoc | exact Hf].
    intros name' Hin. destruct (fnmatch _ name') eqn:Hm; [| reflexivity].
    rewrite (Huniq name' Hin (ranked_is_entry_file _ _ Hm)) in Hm.
    now rewrite bare_is_not_ranked in Hm.
  - apply (load_entry_ranked h (storage_name (format_08_4f dist) h)); auto.
    + apply storage_name_ranked.
    + intros name' Hin Hm. apply Huniq; [exact Hin | now apply ranked_is_entry_file].
Qed.

Lemma add_entry_stored entry s s' :
  let rounded := round_floats entry (sig_digits s) in
  let h := hash_entry rounded in
  (forall h', h' ∈ hashes s -> String.length h' = 16%nat) ->
  (forall name, is_Some (pareto_dir s !! name) -> entry_file_of h name = false) ->
  add_entry entry s = (Ret true, s') ->
  stored_entry h (sort_keys rounded) (pareto_dir s').
Proof.
  intros rounded h Hlen Hfresh Hadd.
  assert (h ∉ hashes s) as Hnin.
  { intros Hin. rewrite add_entry_run in Hadd. cbv zeta in Hadd.
    fold rounded in Hadd. fold h in Hadd.
    rewrite bool_decide_eq_true_2 in Hadd by exact Hin. discriminate. }
  rewrite (add_entry_cases entry s Hnin) in Hadd. cbv zeta in Hadd.
  fold rounded in Hadd. fold h in Hadd.
  pose proof (write_entry_run h rounded s) as Hrun.
  destruct (write_entry h rounded s) as [[[]|e] s1] eqn:Hw; [| discriminate].
  assert (s1 = entry_written h rounded s) as ->.
  { destruct (faults s) as [|[] [|[] fs]]; congruence. }
  assert (stored_entry h (sort_keys rounded)
            (pareto_dir (snd (register_entry h (entry_written h rounded s))))) as Hst.
  { apply register_entry_stable; [| now apply entry_written_stored].
    apply stored_entry_stable. intros h' Hh'. cbn in Hh'.
    apply elem_of_union in Hh' as [Hh' | Hh']; [apply elem_of_singleton in Hh'; now subst |].
    rewrite (Hlen h' Hh'). symmetry. apply hash_entry_length. }
  destruct (register_entry h (entry_written h rounded s)) as [[b|e] s2];
    injection Hadd as _ <-; exact Hst.
Qed.

End StoredEntry.

(** X7: after [add_entry] has returned [True] on a store of
    16-character hashes that held no file of the new hash,
    [load_entry] of that hash returns the rounded entry as it was
    written, whether the ranking pass renamed the file or not. *)
Theorem add_entry_load_entry `{ExternalsOk} (entry : json) (s s' : state) :
  let rounded := round_floats entry (sig_digits s) in
  let h := hash_entry rounded in
  (forall h', h' ∈ hashes s -> String.length h' = 16%nat) ->
  (forall name, is_Some (pareto_dir s !! name) -> entry_file_of h name = false) ->
  add_entry entry s = (Ret true, s') ->
  faults s' !! 0%nat <> Some true ->
  load_entry h s' = (Ret (sort_keys rounded), tick s').
Proof.
  intros rounded h Hlen Hfresh Hadd Hf.
  apply load_entry_stored; [| exact Hf].
  now apply (add_entry_stored entry s s').
Qed.

Lemma add_entry_load_entry_witness :
  let e := JDict [("analyses_combined", JDict [])] in
  let s0 := mkState ∅ 6 ∅ ∅ [] [] in
  let s' := snd (@add_entry sample_externals e s0) in
  @load_entry sample_externals (@hash_entry sample_externals (@round_floats sample_externals e 6)) s'
  = (Ret (sort_keys (@round_floats sample_externals e 6)), tick s').
Proof.
  intros e s0 s'.
  apply (@add_entry_load_entry _ sample_externals_ok e s0 s').
  - intros h' Hh'. now apply not_elem_of_empty in Hh'.
  - intros name [x Hx]. cbn in Hx. now rewrite lookup_empty in Hx.
  - vm_compute. reflexivity.
  - vm_compute. discriminate.
Defined.

(** ** [remove_entry] and [clear] when no file operation fails *)

Section RemoveOk.
Context `{EOk : ExternalsOk}.

Lemma never_faults_tick s : never_faults s -> never_faults (tick s).
Proof.
  intros Hn i. specialize (Hn (S i)). simpl.
  destruct (faults s) as [|b fs]; simpl in *; [now rewrite lookup_nil | exact Hn].
Qed.

Lemma never_faults_no_fault n s : never_faults s -> no_fault n s.
Proof. intros Hn i _. apply Hn. Qed.

Lemma os_remove_ok name doc s :
  pareto_dir s !! name = Some doc -> faults s !! 0%nat <> Some true ->
  os_remove (Pareto name) s
  = (Ret tt, mkState (hashes s) (sig_digits s) (root_dir s) (delete name (pareto_dir s))
                     (tail (faults s)) (out s)).
Proof.
  intros Hdoc Hf. unfold os_remove. rewrite bind_run, (io_ok s Hf).
  unfold act. cbn [dir_of name_of tick pareto_dir set_dir]. now rewrite Hdoc.
Qed.

Lemma remove_files_ok (matches : list string) :
  forall (b : bool) s,
    NoDup matches -> (forall n, n ∈ matches -> is_Some (pareto_dir s !! n)) ->
    never_faults s ->
    exists s',
      remove_files matches b s = (Ret (b || negb (bool_decide (matches = []))), s') /\
      self_of s' = self_of s /\ root_dir s' = root_dir s /\ out s' = out s /\
      never_faults s' /\
      forall name, pareto_dir s' !! name
                   = if bool_decide (name ∈ matches) then None else pareto_dir s !! name.
Proof.
  induction matches as [|n rest IH]; intros b s Hnd Hin Hnf.
  - exists s. cbn. rewrite orb_false_r. repeat split; auto.
  - apply NoDup_cons in Hnd as [Hnin Hnd].
    destruct (Hin n ltac:(now left)) as [doc Hdoc].
    cbn [remove_files]. rewrite bind_run, try_except_run, bind_run.
    rewrite (os_remove_ok n doc s Hdoc (Hnf 0%nat)).
    unfold mret at 1, M_ret at 1.
    set (s1 := mkState _ _ _ _ _ _).
    destruct (IH true s1 Hnd) as (s' & Hrun & Hself & Hroot & Hout & Hnf' & Hdir).
    + intros m Hm. subst s1. cbn. rewrite lookup_delete_ne; [apply Hin; now right |].
      intros <-. contradiction.
    + apply (never_faults_tick s Hnf).
    + exists s'. rewrite Hrun. cbn [orb]. rewrite orb_true_r.
      split; [reflexivity |]. repeat split; try assumption.
      intros name. rewrite Hdir. subst s1. cbn [pareto_dir]. clear Hrun IH.
      destruct (decide (name = n)) as [-> | Hne].
      * rewrite lookup_delete_eq.
        rewrite (bool_decide_eq_true_2 (n ∈ n :: rest)) by (apply elem_of_cons; now left).
        now destruct (bool_decide _).
      * rewrite lookup_delete_ne by congruence.
        rewrite (bool_decide_ext (name ∈ n :: rest) (name ∈ rest)); [reflexivity |].
        rewrite elem_of_cons. tauto.
Qed.

Lemma never_faults_tail2 s s' :
  never_faults s -> faults s' = tail (tail (faults s)) -> never_faults s'.
Proof.
  intros Hn Hf i. rewrite Hf.
  apply (never_faults_tick _ (never_faults_tick _ Hn) i).
Qed.

(** [remove_entry] when no file operation fails. *)
Lemma remove_entry_ok h s :
  never_faults s ->
  exists b s',
    remove_entry h s = (Ret b, s') /\
    hashes s' = hashes s ∖ {[h]} /\ sig_digits s' = sig_digits s /\ out s' = out s /\
    never_faults s' /\
    (forall name, pareto_dir s' !! name
                  = if fnmatch (Star ("_" ++ h ++ ".json")) name then None
                    else pareto_dir s !! name) /\
    (b = true <-> exists name, is_Some (pareto_dir s !! name) /\
                               fnmatch (Star ("_" ++ h ++ ".json")) name = true) /\
    (h ∈ hashes s -> root_dir s' !! "index.json" = Some (index_doc (hashes s ∖ {[h]}))) /\
    (h ∉ hashes s -> root_dir s' = root_dir s).
Proof.
  intros Hnf. rewrite remove_entry_run, glob_run.
  set (pat := Star ("_" ++ h ++ ".json")).
  set (matches := filter (fun n => fnmatch pat n = true) (listdir (pareto_dir s))).
  assert (forall name, name ∈ matches <-> fnmatch pat name = true /\ is_Some (pareto_dir s !! name))
    as Hmatches.
  { intros name. unfold matches. rewrite list_elem_of_filter, elem_of_listdir. tauto. }
  destruct (remove_files_ok matches false s) as (s2 & Hrun & Hself & Hroot & Hout & Hnf2 & Hdir).
  { apply NoDup_filter, NoDup_listdir. }
  { intros n Hn. now apply Hmatches in Hn. }
  { exact Hnf. }
  rewrite Hrun. injection Hself as Hh Hsig.
  assert (forall name, pareto_dir s2 !! name
                       = if fnmatch pat name then None else pareto_dir s !! name) as Hdir'.
  { intros name. rewrite Hdir.
    destruct (bool_decide_reflect (name ∈ matches)) as [Hm | Hm].
    - apply Hmatches in Hm as [-> _]. reflexivity.
    - destruct (fnmatch pat name) eqn:Hp; [| reflexivity].
      destruct (pareto_dir s !! name) eqn:Hl; [| reflexivity].
      exfalso. apply Hm, Hmatches. eauto. }
  assert (false || negb (bool_decide (matches = [])) = true <->
          exists name, is_Some (pareto_dir s !! name) /\ fnmatch pat name = true) as Hb.
  { cbn [orb]. rewrite negb_true_iff, bool_decide_eq_false. split.
    - intros Hne. destruct matches as [|n l] eqn:Hm; [contradiction |].
      exists n. apply and_comm, Hmatches. now left.
    - intros (n & Hn1 & Hn2) Hm.
      assert (n ∈ matches) as Hin by (apply Hmatches; auto).
      rewrite Hm in Hin. now apply elem_of_nil in Hin. }
  destruct (bool_decide (h ∈ hashes s2)) eqn:Hmem.
  - apply bool_decide_eq_true_1 in Hmem. rewrite Hh in Hmem.
    rewrite bind_run. unfold put_hashes at 1.
    rewrite save_index_state by (apply never_faults_no_fault; exact Hnf2).
    cbn [hashes sig_digits root_dir pareto_dir faults out].
    eexists _, _. split; [reflexivity |]. cbn [hashes sig_digits root_dir pareto_dir faults out].
    rewrite Hh. repeat split; try assumption; try tauto.
    + eapply never_faults_tail2; [exact Hnf2 | reflexivity].
    + intros _. apply lookup_insert_eq.
  - apply bool_decide_eq_false_1 in Hmem. rewrite Hh in Hmem.
    eexists _, _. split; [reflexivity |].
    rewrite Hh. repeat split; try assumption; try tauto.
    + apply set_eq. intros x. rewrite elem_of_difference, elem_of_singleton.
      split; [| tauto]. intros Hx. split; [exact Hx | now intros ->].
Qed.

End RemoveOk.

(** X8: when no file operation fails, [remove_entry] deletes exactly the
    files that match [*_<h>.json], returns [True] exactly when there was
    one, takes [h] out of the index, and saves the index when [h] was in
    it; otherwise the root directory is untouched. *)
Theorem remove_entry_effect `{ExternalsOk} (h : string) (s : state) :
  never_faults s ->
  exists b s',
    remove_entry h s = (Ret b, s') /\
    hashes s' = hashes s ∖ {[h]} /\ sig_digits s' = sig_digits s /\ out s' = out s /\
    never_faults s' /\
    (forall name, pareto_dir s' !! name
                  = if fnmatch (Star ("_" ++ h ++ ".json")) name then None
                    else pareto_dir s !! name) /\
    (b = true <-> exists name, is_Some (pareto_dir s !! name) /\
                               fnmatch (Star ("_" ++ h ++ ".json")) name = true) /\
    (h ∈ hashes s -> root_dir s' !! "index.json" = Some (index_doc (hashes s ∖ {[h]}))) /\
    (h ∉ hashes s -> root_dir s' = root_dir s).
Proof. apply remove_entry_ok. Qed.

Lemma never_faults_nil s : faults s = [] -> never_faults s.
Proof. intros Hf i. rewrite Hf, lookup_nil. discriminate. Qed.

Lemma remove_entry_effect_witness :
  let h := "917867e278c2a18f" in
  let s := mkState {[h]} 6 ∅ {[ "000.0000_917867e278c2a18f.json" := JNull ]} [] [] in
  exists b s',
    @remove_entry sample_externals h s = (Ret b, s') /\
    hashes s' = hashes s ∖ {[h]} /\ sig_digits s' = sig_digits s /\ out s' = out s /\
    never_faults s' /\
    (forall name, pareto_dir s' !! name
                  = if fnmatch (Star ("_" ++ h ++ ".json")) name then None
                    else pareto_dir s !! name) /\
    (b = true <-> exists name, is_Some (pareto_dir s !! name) /\
                               fnmatch (Star ("_" ++ h ++ ".json")) name = true) /\
    (h ∈ hashes s ->
       root_dir s' !! "index.json" = Some (@index_doc sample_externals (hashes s ∖ {[h]}))) /\
    (h ∉ hashes s -> root_dir s' = root_dir s).
Proof.
  intros h s. apply (@remove_entry_effect _ sample_externals_ok h s).
  apply never_faults_nil. reflexivity.
Defined.

Section RemoveRaises.
Context `{EOk : ExternalsOk}.

(** The loop over the matches catches every exception. *)
Lemma remove_files_never_raises (matches : list string) :
  forall (b : bool) s,
    exists b' s',
      remove_files matches b s = (Ret b', s') /\
      self_of s' = self_of s /\ root_dir s' = root_dir s /\
      forall name, name ∉ matches -> pareto_dir s' !! name = pareto_dir s !! name.
Proof.
  induction matches as [|n rest IH]; intros b s.
  - exists b, s. repeat split; auto.
  - cbn [remove_files]. rewrite bind_run, try_except_run, bind_run.
    unfold os_remove. rewrite bind_run. unfold io at 1, act at 1.
    cbn [dir_of name_of tick pareto_dir set_dir faults].
    assert (forall name, name ∉ n :: rest -> name <> n /\ name ∉ rest) as Hsplit.
    { intros name Hn. rewrite not_elem_of_cons in Hn. exact Hn. }
    destruct (faults s) as [|[] fs]; [| |];
      try destruct (pareto_dir s !! n) as [doc|] eqn:Hdoc;
      rewrite ?bind_run; unfold print, mret, M_ret;
      match goal with
      | |- context [remove_files rest ?b0 ?s0] =>
          destruct (IH b0 s0) as (b' & s' & -> & Hself & Hroot & Hdir)
      end;
      exists b', s'; (split; [reflexivity |]); (split; [exact Hself |]);
      (split; [exact Hroot |]);
      intros name Hn; apply Hsplit in Hn as [Hn1 Hn2]; rewrite (Hdir name Hn2);
      cbn [pareto_dir]; rewrite ?lookup_delete_ne by congruence; reflexivity.
Qed.

Lemma remove_entry_raise_inv h s e s' :
  remove_entry h s = (Raise e, s') ->
  e = OSError /\ h ∈ hashes s /\ hashes s' = hashes s ∖ {[h]} /\
  root_dir s' !! "index.json" = root_dir s !! "index.json" /\
  forall name, fnmatch (Star ("_" ++ h ++ ".json")) name = false ->
               pareto_dir s' !! name = pareto_dir s !! name.
Proof.
  rewrite remove_entry_run, glob_run.
  set (matches := filter _ _).
  destruct (remove_files_never_raises matches false s) as (b & s2 & -> & Hself & Hroot & Hdir).
  injection Hself as Hh Hsig.
  destruct (bool_decide (h ∈ hashes s2)) eqn:Hmem; [| discriminate].
  apply bool_decide_eq_true_1 in Hmem.
  rewrite bind_run. unfold put_hashes at 1.
  set (s3 := mkState _ _ _ _ _ _).
  pose proof (save_index_cases s3) as Hsave.
  destruct (_save_index s3) as [[[]|e'] s4]; [discriminate |].
  intros [= <- <-].
  destruct (Hsave _ _ eq_refl) as (Hself' & Hp & _ & _ & -> & Hidx).
  injection Hself' as Hh' _. subst s3. cbn in *.
  rewrite Hh', Hidx, Hroot, Hp, <- Hh. repeat split; try assumption.
  intros name Hname. apply Hdir. unfold matches.
  rewrite list_elem_of_filter. intros [Hm _]. congruence.
Qed.

End RemoveRaises.

(** X9: [remove_entry] raises only when saving the index fails: the
    exception is an [OSError], the hash was in the index and has left
    the index in memory, and [index.json] still holds what it held; the
    files that do not match [*_<h>.json] are untouched. *)
Theorem remove_entry_raises `{ExternalsOk} (h : string) (s s' : state) (e : exn) :
  remove_entry h s = (Raise e, s') ->
  e = OSError /\ h ∈ hashes s /\ hashes s' = hashes s ∖ {[h]} /\
  root_dir s' !! "index.json" = root_dir s !! "index.json" /\
  forall name, fnmatch (Star ("_" ++ h ++ ".json")) name = false ->
               pareto_dir s' !! name = pareto_dir s !! name.
Proof. apply remove_entry_raise_inv. Qed.

Lemma remove_entry_raises_witness :
  let h := "917867e278c2a18f" in
  let s := mkState {[h]} 6 {["index.json" := JList [JStr h]]}
                   {[ "000.0000_917867e278c2a18f.json" := JNull ]} [false; false; true] [] in
  let s' := snd (@remove_entry sample_externals h s) in
  OSError = OSError /\ h ∈ hashes s /\ hashes s' = hashes s ∖ {[h]} /\
  root_dir s' !! "index.json" = root_dir s !! "index.json" /\
  forall name, fnmatch (Star ("_" ++ h ++ ".json")) name = false ->
               pareto_dir s' !! name = pareto_dir s !! name.
Proof.
  intros h s s'.
  apply (@remove_entry_raises _ sample_externals_ok h s s' OSError).
  vm_compute. reflexivity.
Defined.

(** ** [clear] *)
Section Clear.
Context `{EOk : ExternalsOk}.


Lemma clear_loop_ok (l : list string) :
  forall s, never_faults s ->
    exists s',
      for_each l (fun h => remove_entry h;; mret tt) s = (Ret tt, s') /\
      hashes s' = hashes s ∖ list_to_set l /\ sig_digits s' = sig_digits s /\
      out s' = out s /\ never_faults s' /\
      forall name, pareto_dir s' !! name
                   = if ranked_of l name then None else pareto_dir s !! name.
Proof.
  induction l as [|h l IH]; intros s Hnf.
  - exists s. cbn. repeat split; auto. now rewrite difference_empty_L.
  - cbn [for_each]. rewrite bind_run, bind_run.
    destruct (remove_entry_ok h s Hnf)
      as (b & s1 & -> & Hh & Hsig & Hout & Hnf1 & Hdir & _).
    unfold mret at 1, M_ret at 1.
    destruct (IH s1 Hnf1) as (s' & -> & Hh' & Hsig' & Hout' & Hnf' & Hdir').
    exists s'. split; [reflexivity |].
    rewrite Hh', Hh, Hsig', Hsig, Hout', Hout. repeat split; try assumption.
    + rewrite list_to_set_cons. apply difference_difference_l_L.
    + intros name. rewrite Hdir', Hdir. cbn [ranked_of existsb].
      fold (ranked_of l name).
      destruct (fnmatch _ name), (ranked_of l name); reflexivity.
Qed.

Lemma clear_ok s :
  never_faults s ->
  exists s',
    clear s = (Ret tt, s') /\ hashes s' = ∅ /\ sig_digits s' = sig_digits s /\
    out s' = out s /\ root_dir s' !! "index.json" = None /\
    forall name, pareto_dir s' !! name
                 = if ranked_of (set_iter (hashes s)) name then None
                   else pareto_dir s !! name.
Proof.
  intros Hnf. unfold clear. rewrite bind_run. unfold get_hashes at 1. rewrite bind_run.
  destruct (clear_loop_ok (set_iter (hashes s)) s Hnf)
    as (s1 & -> & _ & Hsig & Hout & Hnf1 & Hdir).
  rewrite bind_run. unfold os_path_exists at 1. cbn [dir_of name_of index_path].
  destruct (root_dir s1 !! "index.json") as [doc|] eqn:Hidx.
  - rewrite bool_decide_eq_true_2 by eauto. rewrite bind_run.
    unfold os_remove. rewrite bind_run, (io_ok s1 (Hnf1 0%nat)).
    unfold act at 1, index_path. cbn [dir_of name_of tick root_dir set_dir]. rewrite Hidx.
    eexists. split; [reflexivity |]. cbn.
    repeat split; try assumption. apply lookup_delete_eq.
  - rewrite bool_decide_eq_false_2 by (intros [x Hx]; discriminate).
    eexists. split; [reflexivity |]. cbn. repeat split; assumption.
Qed.

Lemma ranked_of_true (l : list string) (name : string) :
  ranked_of l name = true
  <-> exists h, h ∈ l /\ fnmatch (Star ("_" ++ h ++ ".json")) name = true.
Proof.
  unfold ranked_of. rewrite existsb_exists. split; intros (h & Hh & Hm); exists h;
    (split; [now apply list_elem_of_In | exact Hm]).
Qed.

End Clear.

(** X10: when no file operation fails, [clear] empties the index and
    removes [index.json] and every ranked file of an indexed hash; the
    other files stay, the bare entry files among them. *)
Theorem clear_empties_index `{ExternalsOk} (s : state) :
  never_faults s ->
  exists s',
    clear s = (Ret tt, s') /\ hashes s' = ∅ /\ sig_digits s' = sig_digits s /\
    out s' = out s /\ root_dir s' !! "index.json" = None /\
    (forall h name, h ∈ hashes s -> fnmatch (Star ("_" ++ h ++ ".json")) name = true ->
       pareto_dir s' !! name = None) /\
    (forall name,
       (forall h, h ∈ hashes s -> fnmatch (Star ("_" ++ h ++ ".json")) name = false) ->
       pareto_dir s' !! name = pareto_dir s !! name) /\
    (forall h doc, pareto_dir s !! (h ++ ".json")%string = Some doc ->
       String.length h = 16%nat -> (forall h', h' ∈ hashes s -> String.length h' = 16%nat) ->
       pareto_dir s' !! (h ++ ".json")%string = Some doc).
Proof.
  intros Hnf. destruct (clear_ok s Hnf) as (s' & Hrun & Hh & Hsig & Hout & Hidx & Hdir).
  exists s'. repeat split; try assumption.
  - intros h name Hin Hm. rewrite Hdir.
    rewrite (proj2 (ranked_of_true _ name)); [reflexivity |].
    exists h. split; [now apply elem_of_set_iter | exact Hm].
  - intros name Hno. rewrite Hdir.
    destruct (ranked_of _ name) eqn:Hr; [| reflexivity].
    apply ranked_of_true in Hr as (h & Hin & Hm).
    apply elem_of_set_iter in Hin. rewrite (Hno h Hin) in Hm. discriminate.
  - intros h doc Hdoc Hlen Hall. rewrite Hdir.
    destruct (ranked_of _ _) eqn:Hr; [| exact Hdoc].
    apply ranked_of_true in Hr as (h' & Hin & Hm).
    apply elem_of_set_iter in Hin. specialize (Hall h' Hin).
    unfold fnmatch in Hm. apply andb_true_iff in Hm as [Hm _].
    apply ends_with_length in Hm. rewrite !append_length in Hm. simpl in Hm. lia.
Qed.

Lemma clear_empties_index_witness :
  let s := mkState {["917867e278c2a18f"; "f891840af17b5020"]} 6
                   {["index.json" := JList []]}
                   {[ "000.0000_917867e278c2a18f.json" := JNull;
                      "f891840af17b5020.json" := JNull ]} [] [] in
  exists s',
    @clear sample_externals s = (Ret tt, s') /\ hashes s' = ∅ /\ sig_digits s' = sig_digits s /\
    out s' = out s /\ root_dir s' !! "index.json" = None /\
    (forall h name, h ∈ hashes s -> fnmatch (Star ("_" ++ h ++ ".json")) name = true ->
       pareto_dir s' !! name = None) /\
    (forall name,
       (forall h, h ∈ hashes s -> fnmatch (Star ("_" ++ h ++ ".json")) name = false) ->
       pareto_dir s' !! name = pareto_dir s !! name) /\
    (forall h doc, pareto_dir s !! (h ++ ".json")%string = Some doc ->
       String.length h = 16%nat -> (forall h', h' ∈ hashes s -> String.length h' = 16%nat) ->
       pareto_dir s' !! (h ++ ".json")%string = Some doc).
Proof.
  intros s. apply (@clear_empties_index _ sample_externals_ok s).
  apply never_faults_nil. reflexivity.
Defined.

(** ** [add_entry] keeps index and files consistent *)

Section Consistency.
Context `{EOk : ExternalsOk}.

Lemma tmp_not_entry_file (h h' : string) :
  entry_file_of h' ((h ++ ".json") ++ ".tmp") = false.
Proof.
  unfold entry_file_of. destruct (ends_with _ _) eqn:He; [| reflexivity].
  apply ends_with_spec in He as [p He].
  assert ((((h ++ ".json") ++ ".tm") ++ "p")%string = ((p ++ (h' ++ ".jso")) ++ "n")%string) as He'.
  { rewrite !append_assoc. rewrite append_assoc in He. exact He. }
  apply append_inj_r in He' as [_ He']; [discriminate | reflexivity].
Qed.

Lemma files_agree_stable (hs : gset string) :
  (forall h, h ∈ hs -> String.length h = 16%nat) ->
  rename_stable hs (files_agree hs).
Proof.
  intros Hlen d h0 old doc dist Hin0 Hold Hlook [Hone Hall].
  set (new := storage_name (format_08_4f dist) h0).
  pose proof (storage_name_entry_file (format_08_4f dist) h0) as Hnew. fold new in Hnew.
  assert (forall h name, h ∈ hs -> entry_file_of h name = true ->
                         entry_file_of h0 name = true -> h = h0) as Hinj.
  { intros h name Hh H1 H2. apply (entry_file_of_inj h h0 name); auto.
    rewrite (Hlen h Hh), (Hlen h0 Hin0). reflexivity. }
  split.
  - intros h Hh. destruct (Hone h Hh) as (name & [Hsome Hfile] & Huniq).
    destruct (String.eqb_spec h h0) as [-> | Hne].
    + assert (old = name) as -> by (apply Huniq; eauto).
      exists new. split; [split; [rewrite lookup_insert_eq; eauto | exact Hnew] |].
      intros name' [x Hx] Hfile'.
      destruct (String.eqb_spec new name') as [<- | Hnn]; [reflexivity |].
      rewrite lookup_insert_ne in Hx by exact Hnn.
      apply lookup_delete_Some in Hx as [Hneq Hx].
      exfalso. apply Hneq. symmetry. apply Huniq; eauto.
    + assert (name <> old) as Hno by (intros ->; apply Hne; eauto).
      assert (name <> new) as Hnn by (intros ->; apply Hne; eauto).
      exists name. split.
      * split; [| exact Hfile].
        rewrite lookup_insert_ne by congruence. now rewrite lookup_delete_ne by congruence.
      * intros name' [x Hx] Hfile'.
        assert (new <> name') as Hnn' by (intros <-; apply Hne; eauto).
        rewrite lookup_insert_ne in Hx by exact Hnn'.
        apply lookup_delete_Some in Hx as [_ Hx]. apply Huniq; eauto.
  - intros name [x Hx].
    destruct (String.eqb_spec new name) as [<- | Hnn]; [exists h0; auto |].
    rewrite lookup_insert_ne in Hx by exact Hnn.
    apply lookup_delete_Some in Hx as [_ Hx]. apply Hall. eauto.
Qed.

Lemma entry_written_agree h rounded s :
  String.length h = 16%nat ->
  (forall h', h' ∈ hashes s -> String.length h' = 16%nat) ->
  h ∉ hashes s ->
  files_agree (hashes s) (pareto_dir s) ->
  files_agree ({[h]} ∪ hashes s) (pareto_dir (entry_written h rounded s)).
Proof.
  intros Hlenh Hlen Hnin [Hone Hall]. cbn [entry_written pareto_dir].
  set (hj := (h ++ ".json")%string). set (tmp := (hj ++ ".tmp")%string).
  set (doc := sort_keys rounded).
  assert (forall h1 name, h1 ∈ hashes s -> entry_file_of h1 name = true ->
                          entry_file_of h name = true -> False) as Hfresh.
  { intros h1 name Hh1 H1 H2. apply Hnin.
    rewrite (entry_file_of_inj h h1 name); auto. now rewrite (Hlen h1 Hh1). }
  assert (forall name x,
            (<[hj := doc]> (delete tmp (<[tmp := doc]> (pareto_dir s)))) !! name = Some x ->
            name = hj \/ (name <> hj /\ name <> tmp /\ pareto_dir s !! name = Some x)) as Hcases.
  { intros name x Hx. destruct (String.eqb_spec hj name) as [<- | Hn1]; [now left |].
    right. rewrite lookup_insert_ne in Hx by exact Hn1.
    apply lookup_delete_Some in Hx as [Hn2 Hx].
    rewrite lookup_insert_ne in Hx by exact Hn2. auto. }
  assert (forall name x, name <> hj -> name <> tmp -> pareto_dir s !! name = Some x ->
            (<[hj := doc]> (delete tmp (<[tmp := doc]> (pareto_dir s)))) !! name = Some x)
    as Hkeep.
  { intros name x Hn1 Hn2 Hx.
    rewrite lookup_insert_ne by congruence. rewrite lookup_delete_ne by congruence.
    now rewrite lookup_insert_ne by congruence. }
  split.
  - intros h1 Hh1. apply elem_of_union in Hh1 as [Hh1 | Hh1].
    + apply elem_of_singleton in Hh1 as ->.
      exists hj. split; [split; [rewrite lookup_insert_eq; eauto | apply entry_file_of_bare] |].
      intros name' [x Hx] Hfile. apply Hcases in Hx as [-> | (_ & _ & Hx)]; [reflexivity |].
      exfalso. destruct (Hall name' ltac:(eauto)) as (h2 & Hh2 & Hf2). eauto.
    + destruct (Hone h1 Hh1) as (name & [[x Hx] Hfile] & Huniq).
      exists name. split.
      * split; [| exact Hfile]. exists x. apply Hkeep; [| | exact Hx].
        -- intros ->. apply (Hfresh h1 hj Hh1 Hfile). apply entry_file_of_bare.
        -- intros ->. unfold tmp, hj in Hfile. now rewrite tmp_not_entry_file in Hfile.
      * intros name' [x' Hx'] Hfile'. apply Hcases in Hx' as [-> | (_ & _ & Hx')].
        -- exfalso. apply (Hfresh h1 hj Hh1 Hfile'). apply entry_file_of_bare.
        -- apply Huniq; eauto.
  - intros name [x Hx]. apply Hcases in Hx as [-> | (_ & _ & Hx)].
    + exists h. split; [apply elem_of_union_l; now apply elem_of_singleton |].
      apply entry_file_of_bare.
    + destruct (Hall name ltac:(eauto)) as (h2 & Hh2 & Hf2).
      exists h2. split; [now apply elem_of_union_r | exact Hf2].
Qed.

Lemma add_entry_agree entry s s' :
  (forall h', h' ∈ hashes s -> String.length h' = 16%nat) ->
  consistent s -> add_entry entry s = (Ret true, s') -> consistent s'.
Proof.
  intros Hlen Hcons Hadd.
  set (rounded := round_floats entry (sig_digits s)). set (h := hash_entry rounded).
  assert (h ∉ hashes s) as Hnin.
  { intros Hin. rewrite add_entry_run in Hadd. cbv zeta in Hadd.
    fold rounded in Hadd. fold h in Hadd.
    rewrite bool_decide_eq_true_2 in Hadd by exact Hin. discriminate. }
  destruct (add_entry_self _ _ _ _ Hadd) as (_ & _ & _ & Hh). specialize (Hh eq_refl).
  fold rounded in Hh. fold h in Hh.
  rewrite (add_entry_cases entry s Hnin) in Hadd. cbv zeta in Hadd.
  fold rounded in Hadd. fold h in Hadd.
  pose proof (write_entry_run h rounded s) as Hrun.
  destruct (write_entry h rounded s) as [[[]|e] s1] eqn:Hw; [| discriminate].
  assert (s1 = entry_written h rounded s) as ->.
  { destruct (faults s) as [|[] [|[] fs]]; congruence. }
  assert (files_agree ({[h]} ∪ hashes s)
            (pareto_dir (snd (register_entry h (entry_written h rounded s))))) as Hst.
  { apply register_entry_stable.
    - apply files_agree_stable. intros h' Hh'. cbn in Hh'.
      apply elem_of_union in Hh' as [Hh' | Hh']; [| now apply Hlen].
      apply elem_of_singleton in Hh' as ->. apply hash_entry_length.
    - apply entry_written_agree; auto. }
  destruct (register_entry h (entry_written h rounded s)) as [[b|e] s2]; [| discriminate].
  injection Hadd as _ <-. cbn [snd] in Hst.
  unfold consistent. rewrite Hh. exact Hst.
Qed.

End Consistency.

(** X11: on a store of 16-character hashes whose index and files are
    consistent, an [add_entry] that returns [True] leaves them
    consistent, and the hashes are still of 16 characters. *)
Theorem add_entry_keeps_consistent `{ExternalsOk} (entry : json) (s s' : state) :
  (forall h', h' ∈ hashes s -> String.length h' = 16%nat) ->
  consistent s -> add_entry entry s = (Ret true, s') ->
  consistent s' /\ forall h', h' ∈ hashes s' -> String.length h' = 16%nat.
Proof.
  intros Hlen Hcons Hadd. split; [now apply (add_entry_agree entry s s') |].
  destruct (add_entry_self _ _ _ _ Hadd) as (_ & _ & _ & Hh). rewrite (Hh eq_refl).
  intros h' Hh'. apply elem_of_union in Hh' as [Hh' | Hh']; [| now apply Hlen].
  apply elem_of_singleton in Hh' as ->. apply hash_entry_length.
Qed.

Lemma add_entry_keeps_consistent_witness :
  let e := JDict [("analyses_combined", JDict [])] in
  let s0 := mkState ∅ 6 ∅ ∅ [] [] in
  let s' := snd (@add_entry sample_externals e s0) in
  consistent s' /\ forall h', h' ∈ hashes s' -> String.length h' = 16%nat.
Proof.
  intros e s0 s'.
  apply (@add_entry_keeps_consistent _ sample_externals_ok e s0 s').
  - intros h' Hh'. now apply not_elem_of_empty in Hh'.
  - split.
    + intros h Hh. now apply not_elem_of_empty in Hh.
    + intros name [x Hx]. cbn in Hx. now rewrite lookup_empty in Hx.
  - vm_compute. reflexivity.
Defined.

(** * Further properties of [compute_ideal] *)

Lemma is_least_le_greatest (mn mx : R) (l : list R) :
  is_least mn l -> is_greatest mx l -> (mn <= mx)%R.
Proof. intros [Hin Hle] [Hin' Hge]. now apply Hle. Qed.

(** X12: on a matrix with at least one row, the mode [midrange] (or
    [mi]) returns for every objective the mean of the column minimum and
    the column maximum, which lies between the two. *)
Theorem compute_ideal_midrange `{Externals} (n : nat) (row : list R) (rows : list (list R))
    (weights : option (list R)) (eps pct : R) :
  length row = n -> List.Forall (fun r => length r = n) rows ->
  exists vmin vmax mid,
    compute_ideal (row :: rows) "min" weights eps pct = Ret (Vec vmin) /\
    np_max (row :: rows) = Ret vmax /\
    compute_ideal (row :: rows) "midrange" weights eps pct = Ret (Vec mid) /\
    compute_ideal (row :: rows) "mi" weights eps pct = Ret (Vec mid) /\
    length mid = n /\
    forall j, (j < n)%nat ->
      nth j mid 0%R = ((nth j vmin 0 + nth j vmax 0) / 2)%R /\
      (nth j vmin 0 <= nth j mid 0 <= nth j vmax 0)%R /\
      is_least (nth j vmin 0%R) (column j (row :: rows)) /\
      is_greatest (nth j vmax 0%R) (column j (row :: rows)).
Proof.
  intros Hrow Hall.
  destruct (np_min_cols n row rows Hrow Hall) as (vmin & Hmin & Hlmin & Hleast).
  destruct (np_max_cols n row rows Hrow Hall) as (vmax & Hmax & Hlmax & Hgreatest).
  exists vmin, vmax, (zip_with (fun a b => 1 / 2 * (a + b))%R vmin vmax).
  assert (length (zip_with (fun a b => 1 / 2 * (a + b))%R vmin vmax) = n) as Hlen.
  { rewrite length_zip_with_same; congruence. }
  assert (forall j, (j < n)%nat ->
            nth j (zip_with (fun a b => 1 / 2 * (a + b))%R vmin vmax) 0%R
            = ((nth j vmin 0 + nth j vmax 0) / 2)%R) as Hnth.
  { intros j Hj. rewrite nth_zip_with by lia. lra. }
  split; [unfold compute_ideal; cbn [mode_in String.eqb Ascii.eqb Bool.eqb orb];
          now rewrite Hmin |].
  split; [exact Hmax |].
  split; [unfold compute_ideal; cbn [mode_in String.eqb Ascii.eqb Bool.eqb orb];
          now rewrite Hmin, Hmax |].
  split; [unfold compute_ideal; cbn [mode_in String.eqb Ascii.eqb Bool.eqb orb];
          now rewrite Hmin, Hmax |].
  split; [exact Hlen |].
  intros j Hj. rewrite (Hnth j Hj).
  pose proof (is_least_le_greatest _ _ _ (Hleast j Hj) (Hgreatest j Hj)).
  split; [reflexivity |]. split; [lra |]. split; [now apply Hleast | now apply Hgreatest].
Qed.

(** X13: on a matrix with at least one row, the mode [utopian] (or [u])
    returns [min - eps * (max - min)] for every objective where numpy
    has the method [ptp], and raises [AttributeError] where it has not.
    For [eps >= 0] no point is below the result in any objective. *)
Theorem compute_ideal_utopian `{Externals} (n : nat) (row : list R) (rows : list (list R))
    (weights : option (list R)) (eps pct : R) :
  length row = n -> List.Forall (fun r => length r = n) rows ->
  exists vmin vmax u,
    np_min (row :: rows) = Ret vmin /\ np_max (row :: rows) = Ret vmax /\
    length u = n /\
    (forall j, (j < n)%nat ->
       nth j u 0%R = (nth j vmin 0 - eps * (nth j vmax 0 - nth j vmin 0))%R /\
       ((0 <= eps)%R -> forall x, In x (column j (row :: rows)) -> (nth j u 0 <= x)%R)) /\
    forall mode, mode = "utopian" \/ mode = "u" ->
      compute_ideal (row :: rows) mode weights eps pct
      = if numpy_has_ptp then Ret (Vec u) else Raise AttributeError.
Proof.
  intros Hrow Hall.
  destruct (np_min_cols n row rows Hrow Hall) as (vmin & Hmin & Hlmin & Hleast).
  destruct (np_max_cols n row rows Hrow Hall) as (vmax & Hmax & Hlmax & Hgreatest).
  exists vmin, vmax, (zip_with (fun m r => m - eps * r)%R vmin (zip_with Rminus vmax vmin)).
  assert (length (zip_with Rminus vmax vmin) = n) as L1
    by (rewrite length_zip_with_same; congruence).
  split; [exact Hmin |]. split; [exact Hmax |].
  split; [rewrite length_zip_with_same; congruence |].
  split.
  - intros j Hj.
    assert (nth j (zip_with (fun m r => m - eps * r)%R vmin (zip_with Rminus vmax vmin)) 0%R
            = (nth j vmin 0 - eps * (nth j vmax 0 - nth j vmin 0))%R) as Hnth.
    { rewrite nth_zip_with by lia. now rewrite nth_zip_with by lia. }
    rewrite Hnth. split; [reflexivity |].
    destruct (Hleast j Hj) as [_ Hle].
    pose proof (is_least_le_greatest _ _ _ (Hleast j Hj) (Hgreatest j Hj)) as Hmm.
    intros Heps x Hx. specialize (Hle x Hx). nra.
  - intros mode [-> | ->];
      unfold compute_ideal; cbn [mode_in String.eqb Ascii.eqb Bool.eqb orb];
      rewrite Hmin; cbn [mbind result_bind]; unfold np_ptp;
      (destruct numpy_has_ptp; [| reflexivity]);
      rewrite Hmin, Hmax; cbn [mbind result_bind];
      rewrite (broadcast_same Rminus vmax vmin) by congruence; reflexivity.
Qed.

Lemma compute_ideal_midrange_witness :
  exists vmin vmax mid,
    @compute_ideal sample_externals [[1; 4]; [3; 2]]%R "min" None 0 0 = Ret (Vec vmin) /\
    np_max [[1; 4]; [3; 2]]%R = Ret vmax /\
    @compute_ideal sample_externals [[1; 4]; [3; 2]]%R "midrange" None 0 0 = Ret (Vec mid) /\
    @compute_ideal sample_externals [[1; 4]; [3; 2]]%R "mi" None 0 0 = Ret (Vec mid) /\
    length mid = 2%nat /\
    forall j, (j < 2)%nat ->
      nth j mid 0%R = ((nth j vmin 0 + nth j vmax 0) / 2)%R /\
      (nth j vmin 0 <= nth j mid 0 <= nth j vmax 0)%R /\
      is_least (nth j vmin 0%R) (column j [[1; 4]; [3; 2]]%R) /\
      is_greatest (nth j vmax 0%R) (column j [[1; 4]; [3; 2]]%R).
Proof.
  apply (@compute_ideal_midrange sample_externals 2 [1; 4]%R [[3; 2]%R] None 0%R 0%R).
  - reflexivity.
  - repeat constructor.
Defined.

Lemma compute_ideal_utopian_witness :
  exists vmin vmax u,
    np_min [[1; 4]; [3; 2]]%R = Ret vmin /\ np_max [[1; 4]; [3; 2]]%R = Ret vmax /\
    length u = 2%nat /\
    (forall j, (j < 2)%nat ->
       nth j u 0%R = (nth j vmin 0 - 1 / 1000 * (nth j vmax 0 - nth j vmin 0))%R /\
       ((0 <= 1 / 1000)%R ->
          forall x, In x (column j [[1; 4]; [3; 2]]%R) -> (nth j u 0 <= x)%R)) /\
    forall mode, mode = "utopian" \/ mode = "u" ->
      @compute_ideal sample_externals [[1; 4]; [3; 2]]%R mode None (1 / 1000) 10
      = Ret (Vec u).
Proof.
  apply (@compute_ideal_utopian sample_externals 2 [1; 4]%R [[3; 2]%R] None (1 / 1000)%R 10%R).
  - reflexivity.
  - repeat constructor.
Defined.

(** X14: [compute_ideal] raises [ValueError] for a mode that is none of
    its twelve names, for the mode [weighted] without weights, and, on a
    matrix without rows, in the modes [min], [weighted], [utopian] and
    [midrange]; the mode [geomedian] then returns [nan] and does not
    raise. *)
Theorem compute_ideal_errors `{Externals} (values_matrix : list (list R)) (mode : string)
    (weights : option (list R)) (eps pct : R) :
  (~ In mode ["m"; "min"; "w"; "weighted"; "u"; "utopian"; "p"; "percentile";
              "mi"; "midrange"; "g"; "geomedian"] ->
   compute_ideal values_matrix mode weights eps pct = Raise ValueError) /\
  compute_ideal values_matrix "weighted" None eps pct = Raise ValueError /\
  compute_ideal values_matrix "w" None eps pct = Raise ValueError /\
  (In mode ["m"; "min"; "u"; "utopian"; "mi"; "midrange"] ->
   compute_ideal [] mode weights eps pct = Raise ValueError) /\
  (forall ws, compute_ideal [] "weighted" (Some ws) eps pct = Raise ValueError) /\
  compute_ideal [] "geomedian" weights eps pct = Ret NaNs.
Proof.
  split; [| split; [reflexivity | split; [reflexivity | split; [| split; [reflexivity | reflexivity]]]]].
  - intros Hnot. unfold compute_ideal, mode_in.
    repeat match goal with
           | |- context [String.eqb mode ?m] =>
               rewrite (proj2 (String.eqb_neq mode m))
                 by (intros ->; apply Hnot; simpl; tauto)
           end.
    reflexivity.
  - intros Hin. simpl in Hin.
    repeat destruct Hin as [<- | Hin]; try reflexivity. contradiction.
Qed.

(** ** The geometric median of a single point *)
Section SinglePoint.
Context `{Externals}.

Lemma rsum_squares_self (p : list R) :
  rsum (map (fun d => d * d)%R (zip_with Rminus p p)) = 0%R.
Proof.
  induction p as [|x p IH]; [reflexivity |].
  simpl zip_with. simpl map. rewrite rsum_cons, IH. lra.
Qed.

Lemma mean_single (p : list R) : np_mean [p] = Vec p.
Proof.
  unfold np_mean, col_sums. simpl fold_left. f_equal.
  rewrite <- (map_id p) at 2. apply map_ext. intros c. simpl. lra.
Qed.

Lemma weiszfeld_step_single (p : list R) : weiszfeld_step [p] p = NaNs.
Proof.
  unfold weiszfeld_step. simpl map. unfold row_norm.
  rewrite rsum_squares_self, sqrt_0.
  destruct (Rlt_dec 0 0) as [Hlt | _]; [lra |].
  unfold rsum at 1. simpl fold_left.
  destruct (Req_dec_T (0 + 0) 0) as [_ | Hne]; [reflexivity | lra].
Qed.

End SinglePoint.

(** X15: for a single point the mode [geomedian] does not return the
    point but [nan]: the point is at distance zero from the mean, its
    weight is zero, and line 207 divides by the zero sum of the weights.
    The mode [min] returns the point. *)
Theorem geomedian_single_point `{Externals} (p : list R) (weights : option (list R))
    (eps pct : R) :
  p <> [] ->
  compute_ideal [p] "geomedian" weights eps pct = Ret NaNs /\
  compute_ideal [p] "g" weights eps pct = Ret NaNs /\
  compute_ideal [p] "min" weights eps pct = Ret (Vec p).
Proof.
  intros _.
  assert (geomedian [p] = NaNs) as Hg.
  { unfold geomedian. rewrite mean_single. simpl weiszfeld.
    now rewrite weiszfeld_step_single. }
  repeat split.
  - unfold compute_ideal. cbn [mode_in String.eqb Ascii.eqb Bool.eqb orb]. now rewrite Hg.
  - unfold compute_ideal. cbn [mode_in String.eqb Ascii.eqb Bool.eqb orb]. now rewrite Hg.
Qed.

Lemma geomedian_single_point_witness :
  @compute_ideal sample_externals [[1; 2]%R] "geomedian" None (1 / 1000) 10 = Ret NaNs /\
  @compute_ideal sample_externals [[1; 2]%R] "g" None (1 / 1000) 10 = Ret NaNs /\
  @compute_ideal sample_externals [[1; 2]%R] "min" None (1 / 1000) 10 = Ret (Vec [1; 2]%R).
Proof.
  apply (@geomedian_single_point sample_externals [1; 2]%R None (1 / 1000)%R 10%R).
  discriminate.
Defined.

(** ** The ranking pass on an entry without [analyses_combined] *)
Section RankerKeyError.
Context `{EOk : ExternalsOk}.

Lemma present_values_key_error (d0 d1 : list (string * json)) ac0 rest key :
  assoc "analyses_combined" d0 = Some (JDict ac0) ->
  assoc "analyses_combined" d1 = None ->
  present_values (JDict d0 :: JDict d1 :: rest) key = Raise KeyError.
Proof.
  intros H0 H1. cbn [present_values py_getitem]. rewrite H0. cbn [mbind result_bind py_get].
  rewrite H1. reflexivity.
Qed.

Lemma sorted_strings_not_nil (l : list string) : l <> [] -> sorted_strings l <> [].
Proof.
  intros Hl Hs. apply Hl. apply Permutation_nil.
  rewrite <- Hs. apply sorted_strings_perm.
Qed.

End RankerKeyError.

(** X16: line 115 reads [e["analyses_combined"]] without a default.
    When the first loaded entry has an objective and the second has no
    key [analyses_combined], [compute_ideal_point], and with it the
    ranking pass, raises [KeyError] - although line 109 and line 142
    read the same key with a default, for which the second entry simply
    has no objectives. *)
Theorem ranking_pass_key_error `{ExternalsOk} (s s1 : state) (d0 d1 : list (string * json))
    (ac0 : list (string * json)) (rest : list json) (k : string) (ks : list string) :
  map_M load_entry (set_iter (hashes s)) s = (Ret (JDict d0 :: JDict d1 :: rest), s1) ->
  assoc "analyses_combined" d0 = Some (JDict ac0) ->
  w_keys_of (JDict d0) = Ret (k :: ks) ->
  assoc "analyses_combined" d1 = None ->
  compute_ideal_point s = (Raise KeyError, s1) /\
  rename_entries_with_distance s = (Raise KeyError, s1) /\
  w_keys_of (JDict d1) = Ret [].
Proof.
  intros Hload Hac Hkeys Hnone.
  assert (compute_ideal_point s = (Raise KeyError, s1)) as Hcip.
  { rewrite compute_ideal_point_run, Hload.
    change (py_index (JDict d0 :: JDict d1 :: rest) 0) with (Ret (JDict d0)). cbv iota.
    rewrite Hkeys.
    destruct (sorted_strings (k :: ks)) as [|key keys] eqn:Hs.
    - now apply sorted_strings_not_nil in Hs.
    - cbn [ideal_of]. rewrite (present_values_key_error d0 d1 ac0 rest key Hac Hnone).
      reflexivity. }
  split; [exact Hcip |]. split.
  - unfold rename_entries_with_distance. rewrite bind_run, Hcip. reflexivity.
  - unfold w_keys_of. cbn [py_get]. rewrite Hnone. reflexivity.
Qed.

Lemma ranking_pass_key_error_witness :
  let d0 := [("analyses_combined", JDict [("w_0", JInt 1)])] in
  let d1 := [("config", JDict [])] in
  let s := mkState {["a"; "b"]} 6 ∅
                   {[ "000.0000_a.json" := JDict d0; "b.json" := JDict d1 ]} [] [] in
  let s1 := snd (@map_M _ _ (@load_entry sample_externals)
                   (@set_iter sample_externals (hashes s)) s) in
  @compute_ideal_point sample_externals s = (Raise KeyError, s1) /\
  @rename_entries_with_distance sample_externals s = (Raise KeyError, s1) /\
  w_keys_of (JDict d1) = Ret [].
Proof.
  intros d0 d1 s s1.
  apply (@ranking_pass_key_error _ sample_externals_ok s s1 d0 d1 [("w_0", JInt 1)] []
           "w_0" []).
  - vm_compute. reflexivity.
  - reflexivity.
  - reflexivity.
  - reflexivity.
Defined.

(** * [calc_dist] *)

Section CalcDist.
Import PrimFloat.
Import Binary64.
Context `{LM : Libm}.

Lemma float_pow2_raise (x : float) (e : exn) :
  float_pow2 x = Raise e -> e = OverflowError.
Proof.
  unfold float_pow2.
  destruct (is_nan x); [discriminate |]. destruct (is_infinity x); [discriminate |].
  destruct (is_zero x); [discriminate |]. destruct (abs x =? one)%float; [discriminate |].
  destruct (pow2 (abs x)) as [ix [|]].
  - destruct (negb (is_zero ix)); [now intros [= <-] | discriminate].
  - destruct (is_infinity ix); [now intros [= <-] | discriminate].
Qed.

Lemma math_sqrt_raise (x : float) (e : exn) : math_sqrt x = Raise e -> e = ValueError.
Proof.
  unfold math_sqrt. destruct (is_nan (sqrt x) && negb (is_nan x)); [now intros [= <-] | discriminate].
Qed.

Lemma calc_dist_two (a0 a1 b0 b1 : float) (t0 t1 : list float) :
  calc_dist (a0 :: a1 :: t0) (b0 :: b1 :: t1)
  = (sq0 ← float_pow2 (a0 - b0); sq1 ← float_pow2 (a1 - b1); math_sqrt (sq0 + sq1)).
Proof.
  unfold calc_dist. cbn [py_index nth_error mbind result_bind].
  destruct (float_pow2 (a0 - b0)); reflexivity.
Qed.

End CalcDist.

Section CalcDistErrors.
Import PrimFloat.
Set Warnings "-inexact-float".

(** X17: [calc_dist] on points that are sequences of floats.  It raises
    [IndexError] when a point is empty, and raises it only when a point
    has fewer than two coordinates.  Its other exceptions are the
    [OverflowError] of [** 2], for a squared difference that overflows,
    and the [ValueError] of [math.sqrt]; the first square is computed
    before the second coordinates are read, so that its overflow is
    raised for points of one coordinate as well.  Coordinates after the
    second are not read.  With a correctly rounded square, the points
    (1e200, 0) and (0, 0) give [OverflowError], (1e-200, 0) and (0, 0)
    the distance 0.0, and (3, 4) and (0, 0) the distance 5.0. *)
Theorem calc_dist_errors `{Binary64.Libm} (p0 p1 : list PrimFloat.float) :
  (p0 = [] \/ p1 = [] -> Binary64.calc_dist p0 p1 = Raise IndexError) /\
  (Binary64.calc_dist p0 p1 = Raise IndexError -> (length p0 < 2 \/ length p1 < 2)%nat) /\
  (forall e, Binary64.calc_dist p0 p1 = Raise e ->
     e = IndexError \/ e = OverflowError \/ e = ValueError) /\
  (forall a0 a1 t0 b0 b1 t1, p0 = a0 :: a1 :: t0 -> p1 = b0 :: b1 :: t1 ->
     Binary64.calc_dist p0 p1 = Binary64.calc_dist [a0; a1] [b0; b1]) /\
  (forall a0 b0 t0 t1, p0 = a0 :: t0 -> p1 = b0 :: t1 ->
     Binary64.float_pow2 (a0 - b0)%float = Raise OverflowError ->
     Binary64.calc_dist p0 p1 = Raise OverflowError) /\
  @Binary64.calc_dist Binary64.sample_libm [1e200%float; 0%float] [0%float; 0%float]
  = Raise OverflowError /\
  @Binary64.calc_dist Binary64.sample_libm [1e200%float] [0%float] = Raise OverflowError /\
  @Binary64.calc_dist Binary64.sample_libm [1e-200%float; 0%float] [0%float; 0%float]
  = Ret 0%float /\
  @Binary64.calc_dist Binary64.sample_libm [3%float; 4%float] [0%float; 0%float]
  = Ret 5%float.
Proof.
  split; [| split; [| split; [| split; [| split]]]].
  - intros [-> | ->]; [reflexivity |]. destruct p0; reflexivity.
  - destruct p0 as [|a0 [|a1 t0]]; destruct p1 as [|b0 [|b1 t1]]; cbn [length]; try lia.
    rewrite calc_dist_two. intros Hr.
    destruct (Binary64.float_pow2 (a0 - b0)) as [sq0|e0] eqn:H0;
      [| apply float_pow2_raise in H0; subst; discriminate Hr].
    cbn [mbind result_bind] in Hr.
    destruct (Binary64.float_pow2 (a1 - b1)) as [sq1|e1] eqn:H1;
      [| apply float_pow2_raise in H1; subst; discriminate Hr].
    cbn [mbind result_bind] in Hr. apply math_sqrt_raise in Hr. discriminate Hr.
  - intros e. unfold Binary64.calc_dist.
    destruct (py_index p0 0) as [a0|e0] eqn:Ha0;
      [| unfold py_index in Ha0; destruct (nth_error p0 0); [discriminate |];
         injection Ha0 as <-; intros [= <-]; now left].
    cbn [mbind result_bind].
    destruct (py_index p1 0) as [b0|e0] eqn:Hb0;
      [| unfold py_index in Hb0; destruct (nth_error p1 0); [discriminate |];
         injection Hb0 as <-; intros [= <-]; now left].
    cbn [mbind result_bind].
    destruct (Binary64.float_pow2 (a0 - b0)) as [sq0|e0] eqn:H0;
      [| apply float_pow2_raise in H0; subst; intros [= <-]; right; now left].
    cbn [mbind result_bind].
    destruct (py_index p0 1) as [a1|e0] eqn:Ha1;
      [| unfold py_index in Ha1; destruct (nth_error p0 1); [discriminate |];
         injection Ha1 as <-; intros [= <-]; now left].
    cbn [mbind result_bind].
    destruct (py_index p1 1) as [b1|e0] eqn:Hb1;
      [| unfold py_index in Hb1; destruct (nth_error p1 1); [discriminate |];
         injection Hb1 as <-; intros [= <-]; now left].
    cbn [mbind result_bind].
    destruct (Binary64.float_pow2 (a1 - b1)) as [sq1|e0] eqn:H1;
      [| apply float_pow2_raise in H1; subst; intros [= <-]; right; now left].
    cbn [mbind result_bind]. intros Hr. apply math_sqrt_raise in Hr. right; now right.
  - intros a0 a1 t0 b0 b1 t1 -> ->. now rewrite !calc_dist_two.
  - intros a0 b0 t0 t1 -> -> Hov. unfold Binary64.calc_dist.
    cbn [py_index nth_error mbind result_bind]. now rewrite Hov.
  - repeat split; vm_compute; reflexivity.
Qed.

End CalcDistErrors.

(** * The command line *)

(** ** [str.split] and [in] *)
Lemma occurs_append (c : ascii) (a b : string) :
  occurs c (a ++ b) = occurs c a || occurs c b.
Proof.
  induction a as [|x a IH]; [reflexivity |].
  rewrite append_cons. simpl. rewrite IH. now rewrite orb_assoc.
Qed.

Lemma prefix_cons (c x : ascii) (r s : string) :
  String.prefix (String c r) (String x s) = Ascii.eqb c x && String.prefix r s.
Proof.
  cbn [String.prefix]. destruct (ascii_dec c x) as [-> | Hne].
  - now rewrite Ascii.eqb_refl.
  - apply Ascii.eqb_neq in Hne. now rewrite Hne.
Qed.

Lemma prefix_append (a b : string) : String.prefix a (a ++ b) = true.
Proof.
  induction a as [|x a IH]; [destruct b; reflexivity |].
  rewrite append_cons, prefix_cons, Ascii.eqb_refl. exact IH.
Qed.

Lemma contains_absent (c : ascii) (r s : string) :
  occurs c s = false -> contains (String c r) s = false.
Proof.
  induction s as [|x s IH]; intros Hs; [reflexivity |].
  simpl in Hs. apply orb_false_iff in Hs as [Hx Hs].
  cbn [contains]. rewrite prefix_cons, (Ascii.eqb_sym c x), Hx. simpl. now apply IH.
Qed.

Lemma contains_skip (c : ascii) (r key t : string) :
  occurs c key = false -> contains (String c r) (key ++ t) = contains (String c r) t.
Proof.
  induction key as [|x key IH]; intros Hk; [reflexivity |].
  simpl in Hk. apply orb_false_iff in Hk as [Hx Hk].
  rewrite append_cons. cbn [contains].
  rewrite prefix_cons, (Ascii.eqb_sym c x), Hx. simpl. now apply IH.
Qed.

Lemma contains_here (sep t : string) : contains sep (sep ++ t) = true.
Proof.
  destruct sep as [|c r]; [destruct t; reflexivity |].
  rewrite append_cons. cbn [contains]. rewrite <- append_cons, prefix_append. reflexivity.
Qed.

Lemma split_from_not_nil (sep : string) (k : nat) (s : string) : split_from sep k s <> [].
Proof.
  revert k. induction s as [|x s IH]; intros k; [discriminate |].
  cbn [split_from]. destruct k as [|k]; [| apply IH].
  destruct (String.prefix sep (String x s)); [discriminate |].
  destruct (split_from sep 0 s); discriminate.
Qed.

Lemma split_from_skip (sep a rest : string) :
  split_from sep (String.length a) (a ++ rest) = split_from sep 0 rest.
Proof.
  induction a as [|x a IH]; [reflexivity |].
  rewrite append_cons. exact IH.
Qed.

Lemma split_from_absent (c : ascii) (r s : string) :
  occurs c s = false -> split_from (String c r) 0 s = [s].
Proof.
  induction s as [|x s IH]; intros Hs; [reflexivity |].
  simpl in Hs. apply orb_false_iff in Hs as [Hx Hs].
  cbn [split_from]. rewrite prefix_cons, (Ascii.eqb_sym c x), Hx. simpl.
  now rewrite (IH Hs).
Qed.

Lemma split_from_first (c : ascii) (r key rest : string) :
  occurs c key = false ->
  split_from (String c r) 0 (key ++ String c r ++ rest)
  = key :: split_from (String c r) 0 rest.
Proof.
  induction key as [|x key IH]; intros Hk.
  - rewrite append_nil_l, append_cons. cbn [split_from].
    rewrite prefix_cons, Ascii.eqb_refl, prefix_append. cbn [andb String.length].
    rewrite Nat.sub_succ, Nat.sub_0_r.
    now rewrite split_from_skip.
  - simpl in Hk. apply orb_false_iff in Hk as [Hx Hk].
    rewrite append_cons. cbn [split_from].
    rewrite prefix_cons, (Ascii.eqb_sym c x), Hx. simpl.
    now rewrite (IH Hk).
Qed.

(** A separator of one character. *)
Lemma split_char_cons (c x : ascii) (s : string) :
  split_from (String c "") 0 (String x s)
  = if Ascii.eqb x c then "" :: split_from (String c "") 0 s
    else match split_from (String c "") 0 s with
         | piece :: rest => String x piece :: rest
         | [] => [String x ""]
         end.
Proof.
  cbn [split_from]. rewrite prefix_cons, (Ascii.eqb_sym c x).
  destruct (Ascii.eqb x c); [| reflexivity].
  destruct s; reflexivity.
Qed.

Lemma split_char_app (c : ascii) (x y : string) :
  split_from (String c "") 0 (x ++ String c y)
  = (split_from (String c "") 0 x ++ split_from (String c "") 0 y)%list.
Proof.
  induction x as [|a x IH].
  - rewrite append_nil_l, split_char_cons, Ascii.eqb_refl. reflexivity.
  - rewrite append_cons, !split_char_cons, IH.
    destruct (Ascii.eqb a c); [reflexivity |].
    pose proof (split_from_not_nil (String c "") 0 x) as Hne.
    destruct (split_from (String c "") 0 x) as [|p r]; [contradiction | reflexivity].
Qed.

Lemma concat_cons_nonempty (sep x : string) (l : list string) :
  l <> [] -> String.concat sep (x :: l) = (x ++ sep ++ String.concat sep l)%string.
Proof. destruct l; [contradiction | reflexivity]. Qed.

Lemma concat_cons_head (sep : string) (a : ascii) (p : string) (r : list string) :
  String.concat sep (String a p :: r) = String a (String.concat sep (p :: r)).
Proof. destruct r; reflexivity. Qed.

Lemma split_char_concat (c : ascii) (x : string) :
  String.concat (String c "") (split_from (String c "") 0 x) = x.
Proof.
  induction x as [|a x IH]; [reflexivity |].
  rewrite split_char_cons.
  pose proof (split_from_not_nil (String c "") 0 x) as Hne.
  destruct (Ascii.eqb_spec a c) as [-> | _].
  - rewrite concat_cons_nonempty by exact Hne. now rewrite IH.
  - destruct (split_from (String c "") 0 x) as [|p r]; [contradiction |].
    now rewrite concat_cons_head, IH.
Qed.

Lemma split_char_length (c : ascii) (x : string) :
  length (split_from (String c "") 0 x) = S (count_char c x).
Proof.
  induction x as [|a x IH]; [reflexivity |].
  rewrite split_char_cons. cbn [count_char].
  pose proof (split_from_not_nil (String c "") 0 x) as Hne.
  destruct (Ascii.eqb a c); simpl.
  - now rewrite IH.
  - destruct (split_from (String c "") 0 x) as [|p r]; [contradiction |]. exact IH.
Qed.

Lemma split_char_pieces (c : ascii) (x : string) :
  List.Forall (fun piece => occurs c piece = false) (split_from (String c "") 0 x).
Proof.
  induction x as [|a x IH]; [repeat constructor |].
  rewrite split_char_cons.
  destruct (Ascii.eqb a c) eqn:Hac; [constructor; [reflexivity | exact IH] |].
  destruct (split_from (String c "") 0 x) as [|p r]; [repeat constructor; simpl; now rewrite Hac |].
  inversion IH as [|? ? Hp Hr]; subst. constructor; [| exact Hr].
  simpl. now rewrite Hac, Hp.
Qed.

Lemma map_R_app {A B} (f : A -> result B) (a b : list A) :
  map_R f (a ++ b) = (la ← map_R f a; lb ← map_R f b; Ret (la ++ lb)%list).
Proof.
  induction a as [|x a IH]; cbn [map_R app mbind result_bind].
  - destruct (map_R f b); reflexivity.
  - destruct (f x) as [y|e]; [| reflexivity]. cbn [mbind result_bind]. rewrite IH.
    destruct (map_R f a) as [la|e]; [| reflexivity]. cbn [mbind result_bind].
    destruct (map_R f b); reflexivity.
Qed.

Lemma map_R_length {A B} (f : A -> result B) (l : list A) (l' : list B) :
  map_R f l = Ret l' -> length l' = length l.
Proof.
  revert l'. induction l as [|x l IH]; intros l'; cbn [map_R mbind result_bind].
  - now intros [= <-].
  - destruct (f x) as [y|e]; [| discriminate]. cbn [mbind result_bind].
    destruct (map_R f l) as [ys|e]; [| discriminate]. cbn [mbind result_bind].
    intros [= <-]. simpl. now rewrite (IH ys).
Qed.

(** X18: [comma_separated_values_float] converts the pieces of the text
    between commas, which joined by commas give the text back.  A
    result has one float more than the text has commas, and is never
    empty; the only exception is the [ValueError] of a piece that is no
    float; and the floats of [x,y] are those of [x] followed by those
    of [y]. *)
Theorem comma_separated_values_float_pieces `{Builtins} (x : string) :
  exists pieces,
    py_split "," x = Ret pieces /\
    String.concat "," pieces = x /\
    length pieces = S (count_char "," x) /\
    List.Forall (fun piece => occurs "," piece = false) pieces /\
    comma_separated_values_float x = map_R float_of pieces /\
    (forall l, comma_separated_values_float x = Ret l ->
       length l = S (count_char "," x) /\ l <> []) /\
    (forall e, comma_separated_values_float x = Raise e -> e = ValueError) /\
    (forall y, comma_separated_values_float (x ++ "," ++ y)
               = (l1 ← comma_separated_values_float x;
                  l2 ← comma_separated_values_float y;
                  Ret (l1 ++ l2)%list)).
Proof.
  exists (split_from "," 0 x).
  split; [reflexivity |]. split; [apply split_char_concat |].
  split; [apply split_char_length |]. split; [apply split_char_pieces |].
  split; [reflexivity |]. split; [| split].
  - intros l Hl. unfold comma_separated_values_float in Hl. cbn in Hl.
    apply map_R_length in Hl. rewrite split_char_length in Hl.
    split; [exact Hl |]. intros ->. discriminate.
  - intros e. unfold comma_separated_values_float. cbn [py_split mbind result_bind].
    induction (split_from "," 0 x) as [|p l IH]; cbn [map_R mbind result_bind];
      [intros Hl; discriminate Hl |].
    destruct (float_of p) as [y|e'] eqn:Hp; cbn [mbind result_bind].
    + destruct (map_R float_of l); cbn [mbind result_bind];
        [intros Hl; discriminate Hl | exact IH].
    + intros [= <-]. unfold float_of in Hp. destruct (py_float p); congruence.
  - intros y. unfold comma_separated_values_float. cbn [py_split mbind result_bind].
    change ("," ++ y)%string with (String "," y).
    rewrite split_char_app. apply map_R_app.
Qed.

(** ** [parse_limit_expr] *)

Section ParseLimit.
Context `{Builtins}.

Lemma prefix_absent (c : ascii) (r s : string) :
  occurs c s = false -> String.prefix (String c r) s = false.
Proof.
  destruct s as [|x s]; [reflexivity |]. simpl occurs. intros Hs.
  apply orb_false_iff in Hs as [Hx _].
  now rewrite prefix_cons, (Ascii.eqb_sym c x), Hx.
Qed.

(** An operator text whose first character is nowhere in the expression. *)
Lemma contains_absent3 (c : ascii) (r key op val : string) :
  occurs c key = false -> occurs c op = false -> occurs c val = false ->
  contains (String c r) (key ++ op ++ val) = false.
Proof.
  intros Hk Ho Hv. apply contains_absent. rewrite !occurs_append, Hk, Ho, Hv. reflexivity.
Qed.

(** A two-character operator text is not found at its one-character
    beginning, when its second character is not in what follows. *)
Lemma contains_longer (c c' : ascii) (key val : string) :
  occurs c key = false -> occurs c val = false -> occurs c' val = false ->
  contains (String c (String c' "")) (key ++ String c "" ++ val) = false.
Proof.
  intros Hk Hv Hv'. rewrite contains_skip by exact Hk.
  rewrite append_cons, append_nil_l. cbn [contains].
  rewrite prefix_cons, Ascii.eqb_refl, (prefix_absent c' "" val Hv').
  now rewrite (contains_absent c _ val Hv).
Qed.

Lemma contains_found (c : ascii) (r key val : string) :
  occurs c key = false -> contains (String c r) (key ++ String c r ++ val) = true.
Proof. intros Hk. rewrite contains_skip by exact Hk. apply contains_here. Qed.

Lemma py_split_two (c : ascii) (r key val : string) :
  occurs c key = false -> occurs c val = false ->
  py_split (String c r) (key ++ String c r ++ val) = Ret [key; val].
Proof.
  intros Hk Hv. unfold py_split.
  now rewrite split_from_first, split_from_absent.
Qed.

Lemma operators_keys (op_str : string) (op : operator) :
  assoc op_str OPERATORS = Some op ->
  op_str = "<" \/ op_str = "<=" \/ op_str = ">" \/ op_str = ">=" \/ op_str = "==" \/ op_str = "=".
Proof.
  unfold OPERATORS. cbn [assoc].
  repeat match goal with
         | |- context [String.eqb ?a op_str] =>
             destruct (String.eqb_spec a op_str) as [<- | _]; [tauto |]
         end.
  discriminate.
Qed.

End ParseLimit.

(** X19: for a key and a value without [<], [>] and [=], and each of the
    six operator texts, [parse_limit_expr] splits [key op value] at the
    operator and returns the stripped key, the function of the operator
    and the float of the stripped value: the longer texts [<=], [>=]
    and [==] are tried before their one-character beginnings. *)
Theorem parse_limit_expr_wellformed `{Builtins} (key val op_str : string) (op : operator) :
  assoc op_str OPERATORS = Some op -> op_free key -> op_free val ->
  parse_limit_expr (key ++ op_str ++ val)
  = (v ← float_of (strip val); Ret (strip key, op, v)).
Proof.
  intros Hop (Hk1 & Hk2 & Hk3) (Hv1 & Hv2 & Hv3).
  unfold parse_limit_expr.
  destruct (operators_keys op_str op Hop) as [-> | [-> | [-> | [-> | [-> | ->]]]]];
    injection Hop as <-; cbn [parse_limit_ops].
  - (* < *)
    rewrite (contains_longer "<" "=") by assumption.
    rewrite (contains_absent3 ">") by (assumption || reflexivity).
    rewrite contains_found by assumption.
    rewrite py_split_two by assumption. reflexivity.
  - (* <= *)
    rewrite contains_found by assumption.
    rewrite py_split_two by assumption. reflexivity.
  - (* > *)
    rewrite (contains_absent3 "<") by (assumption || reflexivity).
    rewrite (contains_longer ">" "=") by assumption.
    rewrite (contains_absent3 "<") by (assumption || reflexivity).
    rewrite contains_found by assumption.
    rewrite py_split_two by assumption. reflexivity.
  - (* >= *)
    rewrite (contains_absent3 "<") by (assumption || reflexivity).
    rewrite contains_found by assumption.
    rewrite py_split_two by assumption. reflexivity.
  - (* == *)
    rewrite (contains_absent3 "<") by (assumption || reflexivity).
    rewrite (contains_absent3 ">") by (assumption || reflexivity).
    rewrite (contains_absent3 "<") by (assumption || reflexivity).
    rewrite (contains_absent3 ">") by (assumption || reflexivity).
    rewrite contains_found by assumption.
    rewrite py_split_two by assumption. reflexivity.
  - (* = *)
    rewrite (contains_absent3 "<") by (assumption || reflexivity).
    rewrite (contains_absent3 ">") by (assumption || reflexivity).
    rewrite (contains_absent3 "<") by (assumption || reflexivity).
    rewrite (contains_absent3 ">") by (assumption || reflexivity).
    rewrite (contains_longer "=" "=") by assumption.
    rewrite contains_found by assumption.
    rewrite py_split_two by assumption. reflexivity.
Qed.


Lemma parse_limit_expr_wellformed_witness :
  @parse_limit_expr sample_builtins ("w_0 " ++ "<=" ++ " 1.0")
  = (v ← @float_of sample_builtins (strip " 1.0"); Ret (strip "w_0 ", op_le, v)).
Proof.
  apply (@parse_limit_expr_wellformed sample_builtins "w_0 " " 1.0" "<=" op_le).
  - reflexivity.
  - repeat split.
  - repeat split.
Defined.

Section ParseLimitErrors.
Context `{Builtins}.

Lemma float_of_raise (z : string) (e : exn) : float_of z = Raise e -> e = ValueError.
Proof. unfold float_of. destruct (py_float z); congruence. Qed.

Lemma parse_limit_ops_raise (ops : list string) (expr : string) (e : exn) :
  List.Forall (fun o => o <> "" /\ is_Some (assoc o OPERATORS)) ops ->
  parse_limit_ops ops expr = Raise e -> e = ValueError.
Proof.
  induction 1 as [|o ops [Hne [op Hop]] _ IH]; cbn [parse_limit_ops]; [congruence |].
  destruct (contains o expr); [| exact IH].
  unfold py_split. destruct o as [|c r]; [contradiction |]. cbn [mbind result_bind].
  destruct (split_from (String c r) 0 expr) as [|key [|val [|more pieces]]]; try congruence.
  destruct (float_of (strip val)) as [v|e'] eqn:Hv; cbn [mbind result_bind].
  - rewrite Hop. discriminate.
  - intros [= <-]. now apply float_of_raise in Hv.
Qed.

Lemma parse_limit_ops_absent (ops : list string) (expr : string) :
  List.Forall (fun o => contains o expr = false) ops ->
  parse_limit_ops ops expr = Raise ValueError.
Proof.
  induction 1 as [|o ops Ho _ IH]; cbn [parse_limit_ops]; [reflexivity |].
  now rewrite Ho.
Qed.

Lemma contains_longer_twice (c c' : ascii) (a b d : string) :
  occurs c a = false -> occurs c b = false -> occurs c' b = false -> b <> "" ->
  occurs c d = false -> occurs c' d = false ->
  contains (String c (String c' "")) (a ++ String c "" ++ b ++ String c "" ++ d) = false.
Proof.
  intros Ha Hb Hb' Hne Hd Hd'. rewrite contains_skip by exact Ha.
  rewrite append_cons, append_nil_l. cbn [contains].
  rewrite prefix_cons, Ascii.eqb_refl.
  rewrite (contains_longer c c' b d Hb Hd Hd').
  destruct b as [|x b]; [contradiction |]. simpl in Hb'.
  apply orb_false_iff in Hb' as [Hx _].
  now rewrite append_cons, prefix_cons, (Ascii.eqb_sym c' x), Hx.
Qed.

Lemma py_split_three (c : ascii) (r a b d : string) :
  occurs c a = false -> occurs c b = false -> occurs c d = false ->
  py_split (String c r) (a ++ String c r ++ b ++ String c r ++ d) = Ret [a; b; d].
Proof.
  intros Ha Hb Hd. unfold py_split.
  now rewrite !split_from_first, split_from_absent.
Qed.

End ParseLimitErrors.

(** X20: the only exception of [parse_limit_expr] is [ValueError].  It
    is raised for an expression without operator, and for one in which
    the operator comes twice around a middle part that is not empty
    (the unpacking of line 286 wants two pieces). *)
Theorem parse_limit_expr_errors `{Builtins} (expr : string) :
  (forall e, parse_limit_expr expr = Raise e -> e = ValueError) /\
  (op_free expr -> parse_limit_expr expr = Raise ValueError) /\
  (forall a b c op_str op,
     assoc op_str OPERATORS = Some op -> op_free a -> op_free b -> op_free c -> b <> "" ->
     expr = (a ++ op_str ++ b ++ op_str ++ c)%string ->
     parse_limit_expr expr = Raise ValueError).
Proof.
  split; [| split].
  - intros e. apply parse_limit_ops_raise.
    repeat constructor; try discriminate; eexists; reflexivity.
  - intros (H1 & H2 & H3). apply parse_limit_ops_absent.
    repeat constructor; now apply contains_absent.
  - intros a b c op_str op Hop (Ha1 & Ha2 & Ha3) (Hb1 & Hb2 & Hb3) (Hc1 & Hc2 & Hc3) Hne ->.
    unfold parse_limit_expr.
    destruct (operators_keys op_str op Hop) as [-> | [-> | [-> | [-> | [-> | ->]]]]];
      cbn [parse_limit_ops];
      repeat first
        [ rewrite py_split_three by assumption
        | rewrite contains_found by assumption
        | rewrite (contains_longer_twice "<" "=") by assumption
        | rewrite (contains_longer_twice ">" "=") by assumption
        | rewrite (contains_longer_twice "=" "=") by assumption
        | rewrite (contains_absent "<")
            by (rewrite !occurs_append, Ha1, Hb1, Hc1; reflexivity)
        | rewrite (contains_absent ">")
            by (rewrite !occurs_append, Ha2, Hb2, Hc2; reflexivity) ];
      reflexivity.
Qed.

(** ** The hash in the name of an entry file *)
Lemma rfind_absent (c : ascii) (cs : list ascii) :
  forallb (fun x => negb (Ascii.eqb x c)) cs = true -> rfind c cs = None.
Proof.
  induction cs as [|x cs IH]; [reflexivity |]. simpl.
  intros Hcs. apply andb_true_iff in Hcs as [Hx Hcs].
  rewrite (IH Hcs). apply negb_true_iff in Hx. now rewrite Hx.
Qed.

Lemma rfind_last (c : ascii) (pre suf : list ascii) :
  forallb (fun x => negb (Ascii.eqb x c)) suf = true ->
  rfind c (pre ++ c :: suf) = Some (length pre).
Proof.
  intros Hsuf. induction pre as [|x pre IH]; simpl.
  - now rewrite (rfind_absent c suf Hsuf), Ascii.eqb_refl.
  - now rewrite IH.
Qed.

Lemma forallb_eqb_false (c x : ascii) (pre post : list ascii) :
  x <> c -> forallb (Ascii.eqb c) (pre ++ x :: post) = false.
Proof.
  intros Hx. rewrite forallb_app. simpl.
  apply Ascii.eqb_neq in Hx. rewrite (Ascii.eqb_sym c x), Hx.
  now rewrite andb_false_r.
Qed.

Lemma splitext_root_json (stem : string) (x : ascii) (pre post : string) :
  stem = (pre ++ String x post)%string -> x <> "."%char ->
  splitext_root (stem ++ ".json") = stem.
Proof.
  intros Hstem Hx. unfold splitext_root.
  rewrite list_ascii_of_string_app.
  change (list_ascii_of_string ".json")
    with ("."%char :: list_ascii_of_string "json").
  rewrite rfind_last by reflexivity.
  rewrite firstn_app, Nat.sub_diag, firstn_all. simpl firstn. rewrite app_nil_r.
  rewrite string_of_list_ascii_of_string.
  rewrite Hstem at 1. rewrite list_ascii_of_string_app. simpl list_ascii_of_string.
  now rewrite forallb_eqb_false.
Qed.

Lemma hash_of_name_stem (dist_prefix h : string) :
  occurs "_" h = false -> occurs "." h = false -> h <> "" ->
  hash_of_name (storage_name dist_prefix h) = h /\
  hash_of_name (h ++ ".json") = h.
Proof.
  intros Hu Hd Hne. unfold hash_of_name, storage_name. split.
  - rewrite <- !append_assoc.
    rewrite (splitext_root_json ((dist_prefix ++ "_") ++ h) "_" dist_prefix h).
    + rewrite append_assoc. change ("_" ++ h)%string with (String "_" h).
      rewrite split_char_app, (split_from_absent "_" "" h Hu).
      apply List.last_last.
    + now rewrite append_assoc.
    + discriminate.
  - destruct h as [|x h'] eqn:Hh; [contradiction |].
    rewrite (splitext_root_json (String x h') x "" h').
    + now rewrite (split_from_absent "_" "" _ Hu).
    + reflexivity.
    + simpl in Hd. apply orb_false_iff in Hd as [Hx _]. now apply Ascii.eqb_neq in Hx.
Qed.

Lemma occurs_hex (c : ascii) (s : string) :
  is_hex c = false -> forallb is_hex (list_ascii_of_string s) = true -> occurs c s = false.
Proof.
  intros Hc. induction s as [|x s IH]; [reflexivity |]. simpl.
  intros Hs. apply andb_true_iff in Hs as [Hx Hs]. rewrite (IH Hs), orb_false_r.
  apply Ascii.eqb_neq. intros ->. congruence.
Qed.

(** X21: line 304 of [main] recovers the hash from the name of an entry
    file, from the ranked name [<prefix>_<hash>.json] that line 172
    builds as well as from the bare name [<hash>.json] of line 54. *)
Theorem hash_of_name_storage_name `{Externals} (entry : json) (dist : xfloat) :
  let h := hash_entry entry in
  hash_of_name (storage_name (format_08_4f dist) h) = h /\
  hash_of_name (h ++ ".json") = h.
Proof.
  intros h. pose proof (hash_entry_hex entry) as Hhex. pose proof (hash_entry_length entry) as Hlen.
  fold h in Hhex, Hlen.
  apply hash_of_name_stem.
  - now apply occurs_hex.
  - now apply occurs_hex.
  - intros Hh. rewrite Hh in Hlen. discriminate.
Qed.

(** * The closest entry in [main] *)

Lemma argmin_from_spec (l : list R) :
  forall (best_i : nat) (best : R) (i : nat),
    (argmin_from best_i best i l = best_i /\ List.Forall (fun x => best <= x)%R l) \/
    (exists (k : nat) (v : R),
       argmin_from best_i best i l = (i + k)%nat /\ l !! k = Some v /\ (v < best)%R /\
       List.Forall (fun x => v <= x)%R l /\
       forall (j : nat) x, (j < k)%nat -> l !! j = Some x -> (v < x)%R).
Proof.
  induction l as [|x l IH]; intros best_i best i; [left; split; [reflexivity | constructor] |].
  cbn [argmin_from]. destruct (Rlt_dec x best) as [Hlt | Hge].
  - right. destruct (IH i x (S i)) as [[Hr Hall] | (k & v & Hr & Hk & Hv & Hall & Hbefore)].
    + exists 0%nat, x. rewrite Hr, Nat.add_0_r.
      repeat split; auto; [constructor; [lra | exact Hall] | intros j y Hj; lia].
    + exists (S k), v. rewrite Hr. split; [lia |]. split; [exact Hk |].
      split; [lra |]. split; [constructor; [lra | exact Hall] |].
      intros [|j] y Hj Hy; [injection Hy as <-; exact Hv |].
      apply (Hbefore j y); [lia | exact Hy].
  - apply Rnot_lt_le in Hge.
    destruct (IH best_i best (S i)) as [[Hr Hall] | (k & v & Hr & Hk & Hv & Hall & Hbefore)].
    + left. split; [exact Hr | constructor; assumption].
    + right. exists (S k), v. rewrite Hr. split; [lia |]. split; [exact Hk |].
      split; [exact Hv |]. split; [constructor; [lra | exact Hall] |].
      intros [|j] y Hj Hy; [injection Hy as <-; lra |].
      apply (Hbefore j y); [lia | exact Hy].
Qed.

Lemma np_argmin_spec (l : list R) (i : nat) :
  np_argmin l = Ret i ->
  exists m, l !! i = Some m /\
    (forall (k : nat) d, l !! k = Some d -> (m <= d)%R) /\
    (forall (k : nat) d, (k < i)%nat -> l !! k = Some d -> (m < d)%R).
Proof.
  destruct l as [|x l]; [discriminate |]. cbn [np_argmin]. intros [= <-].
  destruct (argmin_from_spec l 0 x 1) as [[-> Hall] | (k & v & -> & Hk & Hv & Hall & Hbefore)].
  - exists x. split; [reflexivity |]. split; [| intros k d Hk; lia].
    intros [|k] d Hd; [injection Hd as <-; lra |].
    rewrite List.Forall_forall in Hall. apply Hall.
    apply list_elem_of_In. apply (list_elem_of_lookup_2 l k). exact Hd.
  - exists v. split; [exact Hk |]. split.
    + intros [|j] d Hd; [injection Hd as <-; lra |].
      rewrite List.Forall_forall in Hall. apply Hall.
      apply list_elem_of_In. apply (list_elem_of_lookup_2 l j). exact Hd.
    + intros [|j] d Hj Hd; [injection Hd as <-; exact Hv |].
      apply (Hbefore j d); [lia | exact Hd].
Qed.

Lemma map_R_lookup_ret {A B} (f : A -> result B) (l : list A) (l' : list B) (k : nat) (y : B) :
  map_R f l = Ret l' -> l' !! k = Some y -> exists x, l !! k = Some x /\ f x = Ret y.
Proof.
  revert l' k. induction l as [|x l IH]; intros l' k; cbn [map_R mbind result_bind].
  - intros [= <-] Hk. now rewrite lookup_nil in Hk.
  - destruct (f x) as [y0|e] eqn:Hx; [| discriminate]. cbn [mbind result_bind].
    destruct (map_R f l) as [ys|e]; [| discriminate]. cbn [mbind result_bind].
    intros [= <-]. destruct k as [|k]; simpl.
    + intros [= <-]. eauto.
    + intros Hk. now apply (IH ys k).
Qed.

(** X22: when lines 332-355 of [main] come to an end with distances,
    there is one distance per row, none is negative, and [closest_idx]
    is the first index of a least distance. *)
Theorem main_ranking_closest `{Externals} (values_matrix : list (list R)) (mode : string)
    (weights : option (list R)) (dists : list R) (closest_idx : nat) :
  main_ranking values_matrix mode weights = Ret (Some dists, closest_idx) ->
  length dists = length values_matrix /\
  exists m, dists !! closest_idx = Some m /\ (0 <= m)%R /\
    (forall (k : nat) d, dists !! k = Some d -> (m <= d)%R) /\
    (forall (k : nat) d, (k < closest_idx)%nat -> dists !! k = Some d -> (m < d)%R).
Proof.
  unfold main_ranking.
  destruct (shape1 values_matrix) as [n|e]; [| discriminate]. cbn [mbind result_bind].
  destruct (compute_ideal _ _ _ _ _) as [ideal|e]; [| discriminate]. cbn [mbind result_bind].
  destruct (np_min values_matrix) as [mins|e]; [| discriminate]. cbn [mbind result_bind].
  destruct (np_max values_matrix) as [maxs|e]; [| discriminate]. cbn [mbind result_bind].
  destruct (map_R _ values_matrix) as [norm_matrix|e] eqn:Hnorm; [| discriminate].
  cbn [mbind result_bind].
  destruct ideal as [ideal|]; [| discriminate].
  destruct (main_ideal_norm _ _ _ _) as [ideal_norm|e]; [| discriminate].
  cbn [mbind result_bind].
  destruct (map_R _ norm_matrix) as [ds|e] eqn:Hds; [| discriminate].
  cbn [mbind result_bind].
  destruct (np_argmin ds) as [i|e] eqn:Harg; [| discriminate]. cbn [mbind result_bind].
  intros [= <- <-].
  split; [rewrite (map_R_length _ _ _ Hds); now rewrite (map_R_length _ _ _ Hnorm) |].
  destruct (np_argmin_spec ds i Harg) as (m & Hm & Hle & Hlt).
  exists m. split; [exact Hm |]. split; [| split; assumption].
  destruct (map_R_lookup_ret _ _ _ _ _ Hds Hm) as (row & _ & Hrow).
  unfold main_dist in Hrow. destruct (broadcast Rminus row ideal_norm); [| discriminate].
  cbn [mbind result_bind] in Hrow. injection Hrow as <-. apply sqrt_pos.
Qed.

Lemma main_ranking_closest_witness :
  let dists := [sqrt (0 + (0 - 0) * (0 - 0))]%R in
  length dists = length [[0%R]] /\
  exists m, dists !! 0%nat = Some m /\ (0 <= m)%R /\
    (forall (k : nat) d, dists !! k = Some d -> (m <= d)%R) /\
    (forall (k : nat) d, (k < 0)%nat -> dists !! k = Some d -> (m < d)%R).
Proof.
  intros dists.
  apply (@main_ranking_closest sample_externals [[0%R]] "min" None dists 0%nat).
  unfold main_ranking. cbn [shape1 mbind result_bind length main_weights repeat].
  unfold compute_ideal. cbn [mode_in String.eqb Ascii.eqb Bool.eqb orb].
  cbn [np_min np_max reduce_cols fold_left mbind result_bind map_R main_norm_row py_index
       nth_error].
  destruct (Rlt_dec 0 0) as [Hlt | _]; [lra |].
  cbn [mbind result_bind length seq main_ideal_norm py_index nth_error].
  destruct (Rlt_dec 0 0) as [Hlt | _]; [lra |].
  cbn [mbind result_bind map_R main_dist]. reflexivity.
Defined.

(** * The ranking pass only renames *)
Section OnlyRenames.
Context `{EOk : ExternalsOk}.

Lemma keeps_root_rename_one w_keys ideal mins maxs h :
  keeps root_dir (rename_one w_keys ideal mins maxs h).
Proof.
  unfold rename_one. apply keeps_try_except; [| intros e s; reflexivity].
  apply keeps_bind; [apply keeps_load_entry; intros s; reflexivity | intros entry].
  apply keeps_bind; [apply keeps_lift | intros dist].
  apply keeps_bind; [apply keeps_glob | intros [|old ?]]; [apply keeps_ret |].
  intros s. unfold os_rename. rewrite os_replace_run.
  destruct (faults s) as [|[] fs]; cbn; try reflexivity;
    destruct (pareto_dir s !! old); reflexivity.
Qed.

Lemma keeps_root_rename_entries_with_distance :
  keeps root_dir rename_entries_with_distance.
Proof.
  assert (keeps root_dir io) as Hio by (intros s; reflexivity).
  unfold rename_entries_with_distance.
  apply keeps_bind; [now apply keeps_compute_ideal_point | intros [ideal|]];
    [| intros s; reflexivity].
  apply keeps_bind; [apply keeps_get_hashes | intros hs].
  apply keeps_bind.
  { destruct (set_iter hs); [apply keeps_raise | apply keeps_ret]. }
  intros h0.
  apply keeps_bind; [now apply keeps_load_entry | intros sample].
  apply keeps_bind; [apply keeps_lift | intros ks].
  destruct (sorted_strings ks) eqn:Hks; [intros s; reflexivity |].
  apply keeps_bind; [now apply keeps_fill_matrix | intros vm].
  apply keeps_bind; [apply keeps_lift | intros mins].
  apply keeps_bind; [apply keeps_lift | intros maxs].
  apply keeps_for_each. intros h. apply keeps_root_rename_one.
Qed.

End OnlyRenames.

(** X23: [rename_entries_with_distance] only renames.  On a consistent store
    with hashes of one length, whatever fails on the way, the store is
    consistent afterwards, the index and the root directory are unchanged, and
    every indexed entry that had exactly one file still has exactly one file,
    with the same document. *)
Theorem ranking_pass_only_renames `{ExternalsOk} (s : state) :
  (forall h, h ∈ hashes s -> String.length h = 16%nat) ->
  consistent s ->
  let s' := snd (rename_entries_with_distance s) in
  consistent s' /\ self_of s' = self_of s /\ root_dir s' = root_dir s /\
  forall h doc, h ∈ hashes s -> sole_entry_file h doc (pareto_dir s) ->
                sole_entry_file h doc (pareto_dir s').
Proof.
  intros Hlen Hcons s'.
  pose proof (keeps_self_rename_entries_with_distance s) as Hself. fold s' in Hself.
  assert (hashes s' = hashes s) as Hh by (now injection Hself).
  split; [| split; [exact Hself | split; [apply keeps_root_rename_entries_with_distance |]]].
  - unfold consistent. rewrite Hh. apply rename_pass_stable; [| exact Hcons].
    now apply files_agree_stable.
  - intros h doc Hin Hsole. apply rename_pass_keeps_entry_file; [| exact Hsole].
    intros h' Hh'. now rewrite (Hlen h Hin), (Hlen h' Hh').
Qed.

Lemma ranking_pass_only_renames_witness :
  let h := "917867e278c2a18f" in
  let e := JDict [("analyses_combined", JDict [])] in
  let s := mkState {[h]} 6 ∅ {[ (h ++ ".json")%string := e ]} [] [] in
  let s' := snd (@rename_entries_with_distance sample_externals s) in
  consistent s' /\ self_of s' = self_of s /\ root_dir s' = root_dir s /\
  forall h doc, h ∈ hashes s -> sole_entry_file h doc (pareto_dir s) ->
                sole_entry_file h doc (pareto_dir s').
Proof.
  intros h e s.
  apply (@ranking_pass_only_renames _ sample_externals_ok s).
  - intros h' Hh'. subst s. cbn [hashes] in Hh'.
    apply elem_of_singleton in Hh' as ->. reflexivity.
  - split; cbn.
    + intros h' Hh'. apply elem_of_singleton in Hh' as ->.
      exists (h ++ ".json")%string. split.
      * split; [rewrite lookup_singleton_eq; eauto | vm_compute; reflexivity].
      * intros name' [x Hx] _. now apply lookup_singleton_Some in Hx as [<- _].
    + intros name [x Hx]. apply lookup_singleton_Some in Hx as [<- _].
      exists h. split; [now apply elem_of_singleton_2 | vm_compute; reflexivity].
Defined.

(** * [add_entry] leaves the other entries alone *)
Section KeepsOthers.
Context `{EOk : ExternalsOk}.

Lemma sole_entry_insert_other (h : string) (doc x : json) (d : gmap string json) (n : string) :
  entry_file_of h n = false ->
  sole_entry_file h doc d -> sole_entry_file h doc (<[n := x]> d).
Proof.
  intros Hn (name & Hname & Hdoc & Huniq).
  assert (n <> name) as Hne by (intros ->; congruence).
  exists name. split; [exact Hname |]. split; [now rewrite lookup_insert_ne |].
  intros name' [y Hy] Hfile.
  assert (n <> name') as Hne' by (intros ->; congruence).
  rewrite lookup_insert_ne in Hy by exact Hne'. apply Huniq; eauto.
Qed.

Lemma sole_entry_delete_other (h : string) (doc : json) (d : gmap string json) (n : string) :
  entry_file_of h n = false ->
  sole_entry_file h doc d -> sole_entry_file h doc (delete n d).
Proof.
  intros Hn (name & Hname & Hdoc & Huniq).
  assert (n <> name) as Hne by (intros ->; congruence).
  exists name. split; [exact Hname |]. split; [now rewrite lookup_delete_ne |].
  intros name' [y Hy] Hfile.
  apply lookup_delete_Some in Hy as [_ Hy]. apply Huniq; eauto.
Qed.

Lemma sole_entry_stable (h : string) (doc : json) (hs : gset string) :
  (forall h', h' ∈ hs -> String.length h' = String.length h) ->
  rename_stable hs (sole_entry_file h doc).
Proof.
  intros Hlen d h' old doc' dist Hin Hold Hlook (name & Hname & Hdoc & Huniq).
  specialize (Hlen h' Hin).
  set (new := storage_name (format_08_4f dist) h').
  pose proof (storage_name_entry_file (format_08_4f dist) h') as Hnew. fold new in Hnew.
  destruct (String.eqb_spec h' h) as [-> | Hne].
  - assert (old = name) as -> by (apply Huniq; eauto).
    assert (doc' = doc) as -> by congruence.
    exists new. split; [exact Hnew |]. split; [apply lookup_insert_eq |].
    intros name' [x Hx] Hfile.
    destruct (String.eqb_spec new name') as [<- | Hnn]; [reflexivity |].
    rewrite lookup_insert_ne in Hx by exact Hnn.
    apply lookup_delete_Some in Hx as [Hneq Hx].
    exfalso. apply Hneq. symmetry. apply Huniq; eauto.
  - apply sole_entry_insert_other.
    + destruct (entry_file_of h new) eqn:Ef; [| reflexivity].
      exfalso. apply Hne. now apply (entry_file_of_inj h' h new).
    + apply sole_entry_delete_other; [| exists name; auto].
      destruct (entry_file_of h old) eqn:Ef; [| reflexivity].
      exfalso. apply Hne. now apply (entry_file_of_inj h' h old).
Qed.

Lemma write_entry_keeps_other h rounded s h' doc' :
  h' <> h -> String.length h' = String.length h ->
  sole_entry_file h' doc' (pareto_dir s) ->
  sole_entry_file h' doc' (pareto_dir (snd (write_entry h rounded s))).
Proof.
  intros Hne Hlen Hsole. rewrite write_entry_run.
  assert (entry_file_of h' (h ++ ".json") = false) as Hhj.
  { destruct (entry_file_of h' (h ++ ".json")) eqn:Ef; [| reflexivity].
    exfalso. apply Hne. apply (entry_file_of_inj h' h (h ++ ".json")); auto.
    apply entry_file_of_bare. }
  pose proof (tmp_not_entry_file h h') as Htmp.
  destruct (faults s) as [|[] [|[] fs]]; cbn [snd pareto_dir tick entry_written];
    try exact Hsole;
    repeat first [apply sole_entry_insert_other; [assumption |]
                 | apply sole_entry_delete_other; [assumption |]];
    exact Hsole.
Qed.

Lemma add_entry_keeps_other entry s r s' h' doc' :
  (forall h0, h0 ∈ hashes s -> String.length h0 = 16%nat) ->
  String.length h' = 16%nat ->
  h' <> hash_entry (round_floats entry (sig_digits s)) ->
  sole_entry_file h' doc' (pareto_dir s) ->
  add_entry entry s = (r, s') -> sole_entry_file h' doc' (pareto_dir s').
Proof.
  intros Hlen Hlen' Hne Hsole. rewrite add_entry_run. cbv zeta.
  set (rounded := round_floats entry (sig_digits s)) in *. set (h := hash_entry rounded) in *.
  destruct (bool_decide (h ∈ hashes s)); [now intros [= _ <-] |].
  rewrite try_except_run, bind_run.
  assert (String.length h' = String.length h) as Hlenh
    by (rewrite Hlen'; symmetry; apply hash_entry_length).
  pose proof (write_entry_keeps_other h rounded s h' doc' Hne Hlenh Hsole) as Hw.
  pose proof (keeps_self_write_entry h rounded s) as Kw.
  destruct (write_entry h rounded s) as [[[]|e] s1]; cbn [snd] in Hw, Kw.
  - assert (sole_entry_file h' doc' (pareto_dir (snd (register_entry h s1)))) as Hr.
    { apply register_entry_stable.
      - apply sole_entry_stable. intros h0 Hh0. rewrite Hlen'.
        apply elem_of_union in Hh0 as [Hh0 | Hh0].
        + apply elem_of_singleton in Hh0 as ->. apply hash_entry_length.
        + apply Hlen. injection Kw as Kw _. now rewrite Kw in Hh0.
      - exact Hw. }
    destruct (register_entry h s1) as [[b|e] s2]; cbn [snd] in Hr.
    + now intros [= _ <-].
    + rewrite bind_run. unfold print at 1. intros [= _ <-]. exact Hr.
  - rewrite bind_run. unfold print at 1. intros [= _ <-]. exact Hw.
Qed.

End KeepsOthers.

(** X24: [add_entry] never loses or alters another entry.  Whatever it
    returns or raises, an entry of another hash that had exactly one file
    keeps exactly one file with the same document, and stays in the index if
    it was there. *)
Theorem add_entry_keeps_others `{ExternalsOk} (entry : json) (s s' : state) (r : result bool)
    (h' : string) (doc' : json) :
  (forall h0, h0 ∈ hashes s -> String.length h0 = 16%nat) ->
  String.length h' = 16%nat ->
  h' <> hash_entry (round_floats entry (sig_digits s)) ->
  sole_entry_file h' doc' (pareto_dir s) ->
  add_entry entry s = (r, s') ->
  sole_entry_file h' doc' (pareto_dir s') /\ (h' ∈ hashes s -> h' ∈ hashes s').
Proof.
  intros Hlen Hlen' Hne Hsole Hadd.
  split; [now apply (add_entry_keeps_other entry s r s') |].
  destruct (add_entry_self _ _ _ _ Hadd) as (_ & _ & [-> | ->] & _); [auto |].
  intros Hin. now apply elem_of_union_r.
Qed.

Lemma add_entry_keeps_others_witness :
  let h' := "f891840af17b5020" in
  let e := JDict [("analyses_combined", JDict [])] in
  let s := mkState {[h']} 6 ∅ {[ (h' ++ ".json")%string := JNull ]} [false; true] [] in
  let s' := snd (@add_entry sample_externals e s) in
  sole_entry_file h' JNull (pareto_dir s') /\ (h' ∈ hashes s -> h' ∈ hashes s').
Proof.
  intros h' e s s'.
  apply (@add_entry_keeps_others _ sample_externals_ok e s s'
           (fst (@add_entry sample_externals e s)) h' JNull).
  - intros h0 Hh0. subst s. cbn [hashes] in Hh0.
    apply elem_of_singleton in Hh0 as ->. reflexivity.
  - reflexivity.
  - vm_compute. discriminate.
  - exists (h' ++ ".json")%string. subst s. cbn [pareto_dir].
    split; [vm_compute; reflexivity |]. split; [apply lookup_singleton_eq |].
    intros name' [x Hx] _. now apply lookup_singleton_Some in Hx as [<- _].
  - subst s'. now destruct (@add_entry sample_externals e s).
Defined.

(** * A store with one entry *)

(** ** Objectives without spread *)
Lemma sum_squares_degenerate (vals : list xfloat) (ideal mins : list R) :
  exists z, sum_squares (normalized_point vals mins mins) (normalized_ideal ideal mins mins)
            = Fin z /\ z = 0%R.
Proof.
  revert vals ideal. induction mins as [|mn mins IH]; intros vals ideal.
  - exists 0%R. split; [| reflexivity]. destruct vals, ideal; reflexivity.
  - destruct vals as [|v vals]; [exists 0%R; split; reflexivity |].
    destruct ideal as [|i ideal]; [exists 0%R; split; reflexivity |].
    cbn [normalized_point normalized_ideal sum_squares].
    unfold normalize, normalize_ideal.
    destruct (Rlt_dec mn mn) as [Hlt | _]; [lra |].
    destruct (IH vals ideal) as (z & -> & ->).
    eexists. split; [reflexivity | lra].
Qed.

Lemma entry_distance_no_spread (entry : json) (w_keys : list string) (vals : list xfloat)
    (ideal mins : list R) :
  objectives entry w_keys = Ret vals ->
  length ideal = length w_keys -> length mins = length w_keys ->
  entry_distance entry w_keys ideal mins mins = Ret (Fin 0).
Proof.
  intros Hobj Hi Hm. rewrite (entry_distance_spec _ _ vals) by assumption.
  unfold euclid_norm. destruct (sum_squares_degenerate vals ideal mins) as (z & -> & ->).
  cbn [xsqrt]. now rewrite sqrt_0.
Qed.

Lemma format_zero : format_08_4f (Fin 0) = "000.0000".
Proof.
  assert (round_half_even (0 * 10000) = 0) as Hr by (apply round_half_even_small; lra).
  rewrite format_fixed4; rewrite ?Hr; [reflexivity | lra | reflexivity].
Qed.

(** X25: when no objective has any spread (the maxima are the minima, as in
    a store of one entry), lines 157 to 165 give every entry the distance 0,
    even an entry that misses an objective, and the file name prefix of
    distance 0 is 000.0000. *)
Theorem entry_distance_without_spread (entry : json) (w_keys : list string)
    (vals : list xfloat) (ideal mins : list R) :
  objectives entry w_keys = Ret vals ->
  length ideal = length w_keys -> length mins = length w_keys ->
  entry_distance entry w_keys ideal mins mins = Ret (Fin 0) /\
  format_08_4f (Fin 0) = "000.0000".
Proof.
  intros Hobj Hi Hm. split; [now apply (entry_distance_no_spread _ _ vals) | apply format_zero].
Qed.

Lemma entry_distance_without_spread_witness :
  entry_distance (JDict [("analyses_combined", JDict [("w_0", JInt 3)])])
                 ["w_0"; "w_1"] [3; 5]%R [3; 5]%R [3; 5]%R = Ret (Fin 0) /\
  format_08_4f (Fin 0) = "000.0000".
Proof.
  apply (entry_distance_without_spread _ _ [Fin (IZR 3); Inf]); reflexivity.
Defined.

(** ** The ranking pass on one entry *)
Section SingleEntry.
Context `{EOk : ExternalsOk}.

Lemma set_iter_singleton (h : string) : set_iter {[h]} = [h].
Proof.
  pose proof (set_iter_perm {[h]}) as Hp. rewrite elements_singleton in Hp.
  symmetry in Hp. now apply Permutation_singleton_l in Hp.
Qed.

Lemma as_number_not_none (v : json) (x : R) : as_number v = Ret x -> is_none v = false.
Proof. destruct v; simpl; intros Hv; try discriminate Hv; reflexivity. Qed.

Lemma single_entry_columns (d ac : list (string * json)) (keys : list string) :
  assoc "analyses_combined" d = Some (JDict ac) ->
  (forall key, key ∈ keys -> exists v x, assoc key ac = Some v /\ as_number v = Ret x) ->
  exists xs vm,
    length xs = length keys /\
    objectives (JDict d) keys = Ret (map Fin xs) /\
    ideal_of [JDict d] keys = Ret (Some xs) /\
    append_values (JDict d) keys (map (fun _ => []) keys) = Ret vm /\
    map_R py_min vm = Ret xs /\ map_R py_max vm = Ret xs.
Proof.
  intros Hac. induction keys as [|key keys IH]; intros Hnum.
  - exists [], []. repeat split.
  - destruct (Hnum key ltac:(now left)) as (v & x & Hv & Hx).
    pose proof (as_number_not_none v x Hx) as Hnone.
    destruct IH as (xs & vm & Hlen & Hobj & Hideal & Happ & Hmin & Hmax).
    { intros key' Hin. apply Hnum. now right. }
    exists (x :: xs), ([v] :: vm).
    split; [simpl; now rewrite Hlen |].
    split.
    { assert (objective (JDict d) key = Ret (Fin x)) as Ho.
      { unfold objective. cbn [py_get]. rewrite Hac. cbn [mbind result_bind py_get].
        now rewrite Hv, Hnone, Hx. }
      unfold objectives in *. cbn [map_R map]. rewrite Ho.
      cbn [mbind result_bind]. now rewrite Hobj. }
    assert (py_min [v] = Ret x) as Hpmin.
    { unfold py_min. cbn [map_R mbind result_bind]. now rewrite Hx. }
    assert (py_max [v] = Ret x) as Hpmax.
    { unfold py_max. cbn [map_R mbind result_bind]. now rewrite Hx. }
    split.
    { cbn [ideal_of present_values py_getitem]. rewrite Hac.
      cbn [mbind result_bind py_get]. rewrite Hv, Hnone, Hpmin.
      cbn [mbind result_bind]. now rewrite Hideal. }
    split.
    { cbn [map append_values py_get]. rewrite Hac. cbn [mbind result_bind py_get].
      rewrite Hv, Hnone, Happ. reflexivity. }
    split.
    + cbn [map_R]. rewrite Hpmin. cbn [mbind result_bind]. now rewrite Hmin.
    + cbn [map_R]. rewrite Hpmax. cbn [mbind result_bind]. now rewrite Hmax.
Qed.

Lemma sorted_strings_singleton (h : string) : sorted_strings [h] = [h].
Proof. reflexivity. Qed.

Lemma rename_pass_single (h : string) (doc : json) (s : state) :
  hashes s = {[h]} -> stored_entry h doc (pareto_dir s) ->
  starts_with "." (h ++ ".json") = false ->
  numeric_objectives doc -> never_faults s ->
  exists s' name,
    rename_entries_with_distance s = (Ret tt, s') /\
    self_of s' = self_of s /\ root_dir s' = root_dir s /\ out s' = out s /\
    never_faults s' /\
    pareto_dir s !! name = Some doc /\ entry_file_of h name = true /\
    pareto_dir s' = <[storage_name "000.0000" h := doc]> (delete name (pareto_dir s)).
Proof.
  intros Hh Hst Hdot (d & ac & k & ks & -> & Hac & Hfilter & Hvals) Hnf.
  assert (w_keys_of (JDict d) = Ret (k :: ks)) as Hkeys.
  { unfold w_keys_of. cbn [py_get]. rewrite Hac. cbn [mbind result_bind py_iter_str].
    now rewrite Hfilter. }
  destruct (sorted_strings (k :: ks)) as [|k0 K0] eqn:HK.
  { now apply sorted_strings_not_nil in HK. }
  destruct (single_entry_columns d ac (k0 :: K0) Hac)
    as (xs & vm & Hlen & Hobj & Hideal & Happ & Hmin & Hmax).
  { intros key Hin. apply Hvals. apply elem_of_sorted_strings. now rewrite HK. }
  assert (forall s0, pareto_dir s0 = pareto_dir s -> never_faults s0 ->
                     load_entry h s0 = (Ret (JDict d), tick s0)) as Hload.
  { intros s0 Hp Hn. apply load_entry_stored; [now rewrite Hp | apply Hn]. }
  pose proof (never_faults_tick _ Hnf) as Hnf1.
  pose proof (never_faults_tick _ Hnf1) as Hnf2.
  pose proof (never_faults_tick _ Hnf2) as Hnf3.
  pose proof (never_faults_tick _ Hnf3) as Hnf4.
  pose proof (never_faults_tick _ Hnf4) as Hnf5.
  unfold rename_entries_with_distance.
  rewrite bind_run, compute_ideal_point_run, Hh, set_iter_singleton.
  cbn [map_M]. rewrite bind_run, (Hload s eq_refl Hnf).
  rewrite bind_run. unfold mret at 1, M_ret at 1. unfold mret at 1, M_ret at 1.
  change (py_index [JDict d] 0) with (Ret (JDict d)). cbv iota.
  rewrite Hkeys, HK, Hideal.
  rewrite bind_run. unfold get_hashes at 1. cbn [hashes tick]. rewrite Hh, set_iter_singleton.
  rewrite bind_run. unfold mret at 1, M_ret at 1.
  rewrite bind_run, (Hload (tick s) eq_refl Hnf1).
  rewrite bind_run. unfold lift at 1. rewrite Hkeys, HK.
  rewrite bind_run. cbn [fill_matrix].
  rewrite bind_run, (Hload (tick (tick s)) eq_refl Hnf2).
  rewrite bind_run. unfold lift at 1. rewrite Happ. unfold mret at 1, M_ret at 1.
  rewrite bind_run. unfold lift at 1. rewrite Hmin.
  rewrite bind_run. unfold lift at 1. rewrite Hmax.
  rewrite sorted_strings_singleton. cbn [for_each]. rewrite bind_run.
  unfold rename_one. rewrite try_except_run, bind_run.
  rewrite (Hload (tick (tick (tick s))) eq_refl Hnf3).
  rewrite bind_run. unfold lift at 1.
  rewrite (entry_distance_no_spread _ _ (map Fin xs)) by (assumption || congruence).
  rewrite format_zero, bind_run.
  destruct Hst as (name & Hform & Hdoc & Huniq).
  pose proof (stored_entry_file h name Hform) as Hfile.
  assert (fnmatch (Star (h ++ ".json")) name = true) as Hmatch.
  { unfold fnmatch. apply andb_true_iff. split; [exact Hfile |].
    apply negb_true_iff. destruct Hform as [-> | [dist ->]]; [exact Hdot |].
    unfold storage_name. destruct (format_08_4f_head dist) as (c & t & -> & Hc).
    rewrite append_cons. unfold starts_with. cbn [String.prefix].
    destruct (ascii_dec "."%char c) as [<- | _]; [now contradict Hc | reflexivity]. }
  rewrite (glob_unique _ _ name); [| cbn; eauto | exact Hmatch |].
  2:{ intros name' Hin Hm. apply Huniq; [exact Hin |].
      unfold fnmatch in Hm. now apply andb_true_iff in Hm as [Hm _]. }
  unfold os_rename. rewrite os_replace_run.
  set (s4 := tick (tick (tick (tick s)))) in *.
  pose proof (Hnf4 0%nat) as Hhead.
  assert (pareto_dir (tick s4) !! name = Some (JDict d)) as Hdoc4 by exact Hdoc.
  cbn [dir_of name_of]. rewrite Hdoc4.
  destruct (faults s4) as [|[] fs] eqn:Hf4; [| now contradict Hhead |];
    (eexists _, name; split; [reflexivity |]);
    cbn [set_dir]; unfold self_of; cbn [hashes sig_digits root_dir out pareto_dir tick];
    repeat split; try assumption; exact Hnf5.
Qed.

End SingleEntry.

Section FirstEntry.
Context `{EOk : ExternalsOk}.

Lemma hash_entry_not_dot (entry : json) :
  starts_with "." (hash_entry entry ++ ".json") = false.
Proof.
  pose proof (hash_entry_hex entry) as Hhex. pose proof (hash_entry_length entry) as Hlen.
  destruct (hash_entry entry) as [|c t]; [discriminate |].
  simpl in Hhex. apply andb_true_iff in Hhex as [Hc _].
  rewrite append_cons. unfold starts_with. cbn [String.prefix].
  destruct (ascii_dec "."%char c) as [<- | _]; [discriminate | reflexivity].
Qed.

End FirstEntry.

(** X26: the first entry.  On an empty store without faults, [add_entry] of
    an entry whose stored document has at least one w_ objective, all of them
    numbers, returns True; afterwards the directory holds exactly one file,
    000.0000_<hash>.json, with the rounded document, the index is the one hash
    and index.json lists it, and nothing was printed. *)
Theorem first_entry_ranked_zero `{ExternalsOk} (entry : json) (s : state) :
  let rounded := round_floats entry (sig_digits s) in
  let doc := sort_keys rounded in
  let h := hash_entry rounded in
  hashes s = ∅ -> pareto_dir s = ∅ -> never_faults s -> numeric_objectives doc ->
  exists s',
    add_entry entry s = (Ret true, s') /\ hashes s' = {[h]} /\
    pareto_dir s' = {[ storage_name "000.0000" h := doc ]} /\
    root_dir s' !! "index.json" = Some (index_doc {[h]}) /\ out s' = out s.
Proof.
  intros rounded doc h Hhs Hpd Hnf Hnum.
  assert (h ∉ hashes s) as Hnin by (rewrite Hhs; apply not_elem_of_empty).
  rewrite (add_entry_cases entry s Hnin). cbv zeta. fold rounded. fold h.
  rewrite write_entry_run.
  pose proof (Hnf 0%nat) as Hf0. pose proof (Hnf 1%nat) as Hf1.
  assert (match faults s with
          | true :: _ => (Raise OSError, tick s)
          | _ :: true :: _ =>
              (Raise OSError,
               mkState (hashes s) (sig_digits s) (root_dir s)
                       (<[((h ++ ".json") ++ ".tmp")%string := sort_keys rounded]> (pareto_dir s))
                       (tail (tail (faults s))) (out s))
          | _ => (Ret tt, entry_written h rounded s)
          end = (Ret tt, entry_written h rounded s)) as ->.
  { destruct (faults s) as [|[] [|[] fs]]; try reflexivity;
      [now contradict Hf0 | now contradict Hf0 | now contradict Hf0 | now contradict Hf1]. }
  set (s1 := entry_written h rounded s).
  assert (never_faults s1) as Hnf1 by (apply (never_faults_tail2 s); [exact Hnf | reflexivity]).
  unfold register_entry. rewrite bind_run. unfold get_hashes at 1.
  rewrite bind_run. unfold put_hashes at 1. rewrite bind_run.
  rewrite save_index_state by (apply never_faults_no_fault; exact Hnf1).
  cbn [hashes sig_digits root_dir pareto_dir faults out].
  set (s2 := mkState _ _ _ _ _ _).
  assert (hashes s2 = {[h]}) as Hh2.
  { subst s2 s1. cbn. rewrite Hhs. apply union_empty_r_L. }
  destruct (rename_pass_single h doc s2) as
    (s3 & name & Hrun & Hself & Hroot & Hout & Hnf3 & Hname & Hfile & Hdir).
  { exact Hh2. }
  { subst s2. cbn [pareto_dir]. apply entry_written_stored.
    intros n [x Hx]. rewrite Hpd, lookup_empty in Hx. discriminate. }
  { apply hash_entry_not_dot. }
  { exact Hnum. }
  { apply (never_faults_tail2 s1); [exact Hnf1 | reflexivity]. }
  rewrite bind_run, Hrun. unfold mret, M_ret.
  exists s3. split; [reflexivity |].
  injection Hself as Hh3 _. rewrite Hh3, Hroot, Hout, Hhs, union_empty_r_L.
  split; [reflexivity |]. split; [| split; [| reflexivity]].
  - rewrite Hdir. subst s2 s1. cbn [pareto_dir entry_written] in *. rewrite Hpd in *.
    assert (name = (h ++ ".json")%string) as ->.
    { destruct (String.eqb_spec (h ++ ".json") name) as [<- | Hne]; [reflexivity |].
      rewrite lookup_insert_ne in Hname by exact Hne.
      apply lookup_delete_Some in Hname as [Hnt Hname].
      rewrite lookup_insert_ne in Hname by exact Hnt.
      rewrite lookup_empty in Hname. discriminate. }
    apply map_eq. intros i.
    destruct (String.eqb_spec (storage_name "000.0000" h) i) as [<- | Hni].
    + now rewrite lookup_insert_eq, lookup_singleton_eq.
    + rewrite lookup_insert_ne by exact Hni. rewrite lookup_singleton_ne by exact Hni.
      destruct (String.eqb_spec (h ++ ".json") i) as [<- | Hnj]; [apply lookup_delete_eq |].
      rewrite lookup_delete_ne by exact Hnj. rewrite lookup_insert_ne by exact Hnj.
      destruct (String.eqb_spec ((h ++ ".json") ++ ".tmp") i) as [<- | Hnt];
        [apply lookup_delete_eq |].
      rewrite lookup_delete_ne by exact Hnt. rewrite lookup_insert_ne by exact Hnt.
      apply lookup_empty.
  - subst s2. cbn [root_dir]. rewrite lookup_insert_eq. f_equal.
    subst s1. cbn. rewrite Hhs. now rewrite union_empty_r_L.
Qed.

Lemma first_entry_ranked_zero_witness :
  let e := JDict [("analyses_combined", JDict [("w_0", JInt 1)])] in
  let s := mkState ∅ 6 ∅ ∅ [] [] in
  let doc := sort_keys (@round_floats sample_externals e 6) in
  let h := @hash_entry sample_externals (@round_floats sample_externals e 6) in
  exists s',
    @add_entry sample_externals e s = (Ret true, s') /\ hashes s' = {[h]} /\
    pareto_dir s' = {[ storage_name "000.0000" h := doc ]} /\
    root_dir s' !! "index.json" = Some (@index_doc sample_externals {[h]}) /\ out s' = out s.
Proof.
  intros e s doc h.
  apply (@first_entry_ranked_zero _ sample_externals_ok e s).
  - reflexivity.
  - reflexivity.
  - apply never_faults_nil. reflexivity.
  - exists [("analyses_combined", JDict [("w_0", JInt 1)])], [("w_0", JInt 1)], "w_0", [].
    split; [reflexivity |]. split; [reflexivity |]. split; [reflexivity |].
    intros key Hkey. apply list_elem_of_singleton in Hkey as ->.
    exists (JInt 1), (IZR 1). split; reflexivity.
Defined.

(** * The ideal point of the ranking pass *)

Lemma present_values_elem_of (entries : list json) (key : string) :
  forall vals, present_values entries key = Ret vals ->
  forall v, v ∈ vals <->
    exists e, e ∈ entries /\ raw_value e key = Ret v /\ is_none v = false.
Proof.
  induction entries as [|e es IH]; intros vals Hv v.
  - injection Hv as <-. split; [intros Hin; inversion Hin |].
    intros (e & He & _). inversion He.
  - cbn [present_values] in Hv.
    destruct e as [| | | | | |d]; try discriminate Hv.
    cbn [py_getitem] in Hv.
    destruct (assoc "analyses_combined" d) as [ac|] eqn:Hac; [| discriminate Hv].
    cbn [mbind result_bind] in Hv.
    destruct (py_get ac key JNull) as [v0|err] eqn:Hget; [| discriminate Hv].
    cbn [mbind result_bind] in Hv.
    destruct (present_values es key) as [rest|err] eqn:Hrest; [| discriminate Hv].
    cbn [mbind result_bind] in Hv. injection Hv as <-.
    assert (raw_value (JDict d) key = Ret v0) as Hraw.
    { unfold raw_value. cbn [py_get]. rewrite Hac. cbn [mbind result_bind]. exact Hget. }
    specialize (IH rest eq_refl v).
    split.
    + intros Hin.
      destruct (is_none v0) eqn:Hn.
      * apply IH in Hin as (e & He & Hr & Hnn). exists e. split; [now apply elem_of_cons; right | auto].
      * apply elem_of_cons in Hin as [-> | Hin].
        -- exists (JDict d). split; [apply elem_of_cons; now left | auto].
        -- apply IH in Hin as (e & He & Hr & Hnn).
           exists e. split; [now apply elem_of_cons; right | auto].
    + intros (e & He & Hr & Hnn).
      apply elem_of_cons in He as [-> | He].
      * rewrite Hraw in Hr. injection Hr as ->. rewrite Hnn. apply elem_of_cons; now left.
      * assert (v ∈ rest) as Hin by (apply IH; eauto).
        destruct (is_none v0); [exact Hin | now apply elem_of_cons; right].
Qed.

Lemma ideal_of_lookup (entries : list json) (keys : list string) :
  forall ideal, ideal_of entries keys = Ret (Some ideal) ->
  length ideal = length keys /\
  forall (i : nat) key, keys !! i = Some key ->
    exists vals m, present_values entries key = Ret vals /\ py_min vals = Ret m /\
                   ideal !! i = Some m.
Proof.
  induction keys as [|k ks IH]; intros ideal Hi.
  - injection Hi as <-. split; [reflexivity |]. intros i key Hk. discriminate Hk.
  - cbn [ideal_of] in Hi.
    destruct (present_values entries k) as [vals|err] eqn:Hv; [| discriminate Hi].
    cbn [mbind result_bind] in Hi.
    destruct vals as [|v0 vals]; [discriminate Hi |].
    destruct (py_min (v0 :: vals)) as [m|err] eqn:Hm; [| discriminate Hi].
    cbn [mbind result_bind] in Hi.
    destruct (ideal_of entries ks) as [[rest|]|err] eqn:Hr; try discriminate Hi.
    cbn [mbind result_bind] in Hi. injection Hi as <-.
    destruct (IH rest eq_refl) as [Hlen Hlk].
    split; [cbn; now rewrite Hlen |].
    intros [|i] key Hk.
    + injection Hk as <-. exists (v0 :: vals), m. auto.
    + apply (Hlk i key Hk).
Qed.

Lemma fold_values_length (entries : list json) (w_keys : list string) :
  forall vm vm', fold_values entries w_keys vm = Ret vm' -> length vm' = length vm.
Proof.
  induction entries as [|e es IH]; intros vm vm' Hf.
  - now injection Hf as <-.
  - cbn [fold_values] in Hf.
    destruct (append_values e w_keys vm) as [vm1|err] eqn:Ha; [| discriminate Hf].
    cbn [mbind result_bind] in Hf.
    rewrite (IH _ _ Hf). now apply (append_values_lookup e w_keys vm vm1).
Qed.

Lemma normalized_ideal_origin (mins : list R) :
  forall maxs, length maxs = length mins ->
  normalized_ideal mins mins maxs = repeat 0%R (length mins).
Proof.
  induction mins as [|mn mins IH]; intros [|mx maxs] Hl; try discriminate Hl; [reflexivity |].
  cbn [normalized_ideal length repeat]. rewrite IH by (now injection Hl). f_equal.
  unfold normalize_ideal. destruct (Rlt_dec mn mx); [| reflexivity].
  unfold Rdiv. rewrite Rminus_diag. apply Rmult_0_l.
Qed.

Lemma unit_coordinate (x mn mx : R) :
  (mn <= x <= mx)%R ->
  exists c, normalize (Fin x) mn mx = Fin c /\ (0 <= c <= 1)%R.
Proof.
  intros [Hlo Hhi]. unfold normalize. destruct (Rlt_dec mn mx) as [Hlt | _].
  - exists ((x - mn) / (mx - mn))%R. split; [reflexivity |].
    assert (0 < mx - mn)%R as Hd by lra.
    split.
    + apply Rmult_le_pos; [lra | left; now apply Rinv_0_lt_compat].
    + apply (Rmult_le_reg_r (mx - mn)); [exact Hd |].
      unfold Rdiv. rewrite Rmult_assoc, Rinv_l by lra. lra.
  - exists 0%R. split; [reflexivity | lra].
Qed.

Lemma sum_squares_unit (xs : list R) :
  forall mins maxs, length mins = length xs -> length maxs = length xs ->
  (forall (i : nat) x mn mx, xs !! i = Some x -> mins !! i = Some mn -> maxs !! i = Some mx ->
     (mn <= x <= mx)%R) ->
  exists z, sum_squares (normalized_point (map Fin xs) mins maxs) (repeat 0%R (length xs)) = Fin z /\
            (0 <= z <= INR (length xs))%R.
Proof.
  induction xs as [|x xs IH]; intros [|mn mins] [|mx maxs] Hm Hx Hb; try discriminate.
  - exists 0%R. split; [reflexivity | cbn; lra].
  - destruct (IH mins maxs) as (z & Hz & Hz0 & Hz1);
      [now injection Hm | now injection Hx | intros i; apply (Hb (S i)) |].
    destruct (unit_coordinate x mn mx (Hb 0%nat x mn mx eq_refl eq_refl eq_refl))
      as (c & Hc & Hc0 & Hc1).
    exists ((c - 0) * (c - 0) + z)%R.
    split.
    + cbn [map normalized_point length repeat sum_squares]. rewrite Hc, Hz. reflexivity.
    + change (length (x :: xs)) with (S (length xs)). rewrite S_INR.
      assert (0 <= c * c)%R by (apply Rmult_le_pos; lra).
      assert (c * c <= 1 * 1)%R by (apply Rmult_le_compat; lra).
      lra.
Qed.

Lemma ideal_is_minimum (entries : list json) (w_keys : list string)
    (ideal : list R) (value_matrix : list (list json)) (mins maxs : list R) :
  ideal_of entries w_keys = Ret (Some ideal) ->
  fold_values entries w_keys (map (fun _ => []) w_keys) = Ret value_matrix ->
  map_R py_min value_matrix = Ret mins ->
  map_R py_max value_matrix = Ret maxs ->
  ideal = mins /\
  normalized_ideal ideal mins maxs = repeat 0%R (length w_keys) /\
  forall entry xs, entry ∈ entries -> objectives entry w_keys = Ret (map Fin xs) ->
    exists d, entry_distance entry w_keys ideal mins maxs = Ret (Fin d) /\
              (0 <= d <= sqrt (INR (length w_keys)))%R.
Proof.
  intros Hideal Hfold Hmin Hmax.
  destruct (ideal_of_lookup _ _ _ Hideal) as [Hli Hik].
  pose proof (fold_values_length _ _ _ _ Hfold) as Hlv. rewrite length_map in Hlv.
  destruct (map_R_lookup _ _ _ Hmin) as [Hlmin Hmink].
  destruct (map_R_lookup _ _ _ Hmax) as [Hlmax Hmaxk].
  rewrite Hlv in Hlmin, Hlmax.
  assert (forall (i : nat) key, w_keys !! i = Some key ->
            exists vs mn mx, mins !! i = Some mn /\ maxs !! i = Some mx /\
              py_min vs = Ret mn /\ py_max vs = Ret mx /\
              forall v, v ∈ vs <->
                exists e, e ∈ entries /\ raw_value e key = Ret v /\ is_none v = false) as Hcol.
  { intros i key Hk.
    destruct (fold_values_lookup _ _ _ _ Hfold i key []) as (vs & Hvm & Hvs);
      [exact Hk | rewrite list_lookup_fmap, Hk; reflexivity |].
    cbn [app] in Hvm.
    destruct (Hmink i vs Hvm) as (mn & Hmn & Hpmin).
    destruct (Hmaxk i vs Hvm) as (mx & Hmx & Hpmax).
    exists vs, mn, mx. auto. }
  assert (ideal = mins) as Heq.
  { apply list_eq. intros i.
    destruct (w_keys !! i) as [key|] eqn:Hk.
    - destruct (Hik i key Hk) as (vals & m & Hpv & Hpm & Him).
      destruct (Hcol i key Hk) as (vs & mn & mx & Hmn & _ & Hpmin & _ & Hvs).
      rewrite Him, Hmn. f_equal.
      pose proof (present_values_elem_of _ _ _ Hpv) as Hvals.
      destruct (py_min_least _ _ Hpm) as [(v1 & Hv1 & Hn1) Hle1].
      destruct (py_min_least _ _ Hpmin) as [(v2 & Hv2 & Hn2) Hle2].
      apply Rle_antisym.
      + apply (Hle1 v2); [apply Hvals, Hvs, Hv2 | exact Hn2].
      + apply (Hle2 v1); [apply Hvs, Hvals, Hv1 | exact Hn1].
    - apply lookup_ge_None_1 in Hk.
      rewrite !lookup_ge_None_2; [reflexivity | lia | lia]. }
  split; [exact Heq |]. subst ideal.
  assert (normalized_ideal mins mins maxs = repeat 0%R (length w_keys)) as Horigin.
  { rewrite <- Hlmin. apply normalized_ideal_origin. congruence. }
  split; [exact Horigin |].
  intros entry xs Hin Hobj.
  rewrite (entry_distance_spec entry w_keys (map Fin xs)) by assumption.
  rewrite Horigin.
  destruct (map_R_lookup _ _ _ Hobj) as [Hlx Hxk]. rewrite length_map in Hlx.
  destruct (sum_squares_unit xs mins maxs) as (z & Hz & Hz0 & Hz1); [lia | lia | |].
  { intros i x mn mx Hx Hmn Hmx.
    destruct (w_keys !! i) as [key|] eqn:Hk;
      [| apply lookup_ge_None_1 in Hk; apply lookup_lt_Some in Hx; lia].
    destruct (Hxk i key Hk) as (y & Hy & Hobjective).
    rewrite list_lookup_fmap, Hx in Hy. injection Hy as <-.
    apply objective_raw_value in Hobjective as (v & Hraw & Hnn & Hnum).
    destruct (Hcol i key Hk) as (vs & mn' & mx' & Hmn' & Hmx' & Hpmin & Hpmax & Hvs).
    rewrite Hmn in Hmn'. rewrite Hmx in Hmx'. injection Hmn' as <-. injection Hmx' as <-.
    assert (v ∈ vs) as Hv by (apply Hvs; eauto).
    split.
    - apply (proj2 (py_min_least _ _ Hpmin) v x Hv Hnum).
    - apply (proj2 (py_max_greatest _ _ Hpmax) v x Hv Hnum). }
  exists (sqrt z). unfold euclid_norm. rewrite <- Hlx, Hz. cbn [xsqrt].
  split; [reflexivity |]. split; [apply sqrt_pos | now apply sqrt_le_1_alt].
Qed.

(** What [load_entry] returns depends on the directory only. *)
Section LoadTwice.
Context `{E : Externals}.

Lemma load_entry_inv h s e s1 :
  load_entry h s = (Ret e, s1) ->
  pareto_dir s1 = pareto_dir s /\
  exists name,
    match filter (fun n => fnmatch (Star ("_" ++ h ++ ".json")) n = true) (listdir (pareto_dir s)) with
    | [] => filter (fun n => fnmatch (Lit (h ++ ".json")) n = true) (listdir (pareto_dir s))
    | l => l
    end = name /\ exists m0 rest, name = m0 :: rest /\ pareto_dir s !! m0 = Some e.
Proof.
  intros Hload.
  split.
  { pose proof (keeps_load_entry pareto_dir h (fun s0 => eq_refl) s) as Hk.
    now rewrite Hload in Hk. }
  unfold load_entry in Hload. rewrite bind_run, glob_run in Hload.
  eexists. split; [reflexivity |].
  destruct (filter _ (listdir (pareto_dir s))) as [|m0 rest] eqn:Hf.
  - rewrite bind_run, glob_run in Hload.
    destruct (filter (fun n => fnmatch (Lit (h ++ ".json")) n = true) (listdir (pareto_dir s)))
      as [|m1 rest1] eqn:Hf1; [unfold raise in Hload; discriminate Hload |].
    exists m1, rest1. split; [reflexivity |].
    unfold read_file in Hload. rewrite bind_run in Hload.
    unfold io, act in Hload. cbn [dir_of name_of tick pareto_dir] in Hload.
    destruct (faults s) as [|[] fs]; try discriminate Hload;
      destruct (pareto_dir s !! m1); now inversion Hload.
  - rewrite bind_run in Hload. unfold mret, M_ret in Hload.
    exists m0, rest. split; [reflexivity |].
    unfold read_file in Hload. rewrite bind_run in Hload.
    unfold io, act in Hload. cbn [dir_of name_of tick pareto_dir] in Hload.
    destruct (faults s) as [|[] fs]; try discriminate Hload;
      destruct (pareto_dir s !! m0); now inversion Hload.
Qed.

Lemma load_entry_twice h s e s1 s' e' s1' :
  load_entry h s = (Ret e, s1) -> load_entry h s' = (Ret e', s1') ->
  pareto_dir s' = pareto_dir s -> e' = e.
Proof.
  intros H1 H2 Hd.
  destruct (load_entry_inv _ _ _ _ H1) as (_ & l & Hl & m0 & rest & -> & Hm).
  destruct (load_entry_inv _ _ _ _ H2) as (_ & l' & Hl' & m0' & rest' & -> & Hm').
  rewrite Hd, Hl in Hl'. injection Hl' as <- _. rewrite Hd in Hm'. congruence.
Qed.

Lemma load_all_twice (hs : list string) :
  forall s es s1 s' es' s1',
    map_M load_entry hs s = (Ret es, s1) -> map_M load_entry hs s' = (Ret es', s1') ->
    pareto_dir s' = pareto_dir s -> es' = es.
Proof.
  induction hs as [|h hs IH]; intros s es s1 s' es' s1' H1 H2 Hd; cbn [map_M] in H1, H2.
  - unfold mret, M_ret in H1, H2. congruence.
  - rewrite bind_run in H1, H2.
    destruct (load_entry h s) as [[e|err] t] eqn:L1; [| discriminate H1].
    destruct (load_entry h s') as [[e'|err] t'] eqn:L2; [| discriminate H2].
    rewrite bind_run in H1, H2.
    destruct (map_M load_entry hs t) as [[r|err] u] eqn:M1; [| discriminate H1].
    destruct (map_M load_entry hs t') as [[r'|err] u'] eqn:M2; [| discriminate H2].
    unfold mret, M_ret in H1, H2. injection H1 as <- _. injection H2 as <- _.
    rewrite (load_entry_twice _ _ _ _ _ _ _ L1 L2 Hd).
    rewrite (IH _ _ _ _ _ _ M1 M2); [reflexivity |].
    destruct (load_entry_inv _ _ _ _ L1) as [-> _].
    destruct (load_entry_inv _ _ _ _ L2) as [-> _]. exact Hd.
Qed.

End LoadTwice.

(** X27: in [rename_entries_with_distance] the ideal point is the vector of
    the column minima.  For a run of the pass up to the renaming loop (ideal
    point computed, sample entry loaded, value matrix filled, minima and maxima
    taken), the ideal point that [compute_ideal_point] returned equals [mins],
    so the normalised ideal is the origin, and every loaded entry that has all
    objectives gets a finite distance between 0 and the square root of the
    number of objectives. *)
Theorem ranking_pass_ideal `{Externals} (s s1 s2 s3 : state) (ideal : list R)
    (sample : json) (ks : list string) (value_matrix : list (list json)) (mins maxs : list R) :
  let w_keys := sorted_strings ks in
  compute_ideal_point s = (Ret (Some ideal), s1) ->
  (h0 ← (match set_iter (hashes s1) with [] => raise StopIteration | h :: _ => mret h end);
   load_entry h0) s1 = (Ret sample, s2) ->
  w_keys_of sample = Ret ks ->
  fill_matrix (set_iter (hashes s1)) w_keys (map (fun _ => []) w_keys) s2
  = (Ret value_matrix, s3) ->
  map_R py_min value_matrix = Ret mins ->
  map_R py_max value_matrix = Ret maxs ->
  ideal = mins /\
  normalized_ideal ideal mins maxs = repeat 0%R (length w_keys) /\
  exists entries,
    map_M load_entry (set_iter (hashes s)) s = (Ret entries, s1) /\
    forall entry xs, entry ∈ entries -> objectives entry w_keys = Ret (map Fin xs) ->
      exists d, entry_distance entry w_keys ideal mins maxs = Ret (Fin d) /\
                (0 <= d <= sqrt (INR (length w_keys)))%R.
Proof.
  intros w_keys Hideal Hsample Hks Hfill Hmin Hmax.
  pose proof (keeps_compute_ideal_point self_of keeps_self_io s) as Hself.
  pose proof (keeps_compute_ideal_point pareto_dir (fun s0 => eq_refl) s) as Hdir.
  rewrite Hideal in Hself, Hdir. cbn [snd] in Hself, Hdir.
  assert (hashes s1 = hashes s) as Hh by (now injection Hself).
  rewrite Hh in Hsample, Hfill.
  rewrite compute_ideal_point_run in Hideal.
  destruct (map_M load_entry (set_iter (hashes s)) s) as [[entries|err] t] eqn:Hall;
    [| discriminate Hideal].
  destruct (py_index entries 0) as [e0|err] eqn:He0; [| discriminate Hideal].
  destruct (w_keys_of e0) as [wk|err] eqn:Hwk; [| discriminate Hideal].
  assert (t = s1) as -> by (destruct entries, wk; now inversion Hideal).
  destruct entries as [|e0' entries]; [discriminate He0 |].
  injection He0 as ->.
  destruct wk as [|k wk]; [discriminate Hideal |].
  assert (ideal_of (e0 :: entries) (sorted_strings (k :: wk)) = Ret (Some ideal)) as Hof
    by (now inversion Hideal).
  clear Hideal.
  (* the sample entry is the first loaded entry *)
  rewrite bind_run in Hsample.
  destruct (set_iter (hashes s)) as [|h0 hs] eqn:Hiter.
  { discriminate Hsample. }
  unfold mret, M_ret in Hsample.
  pose proof Hall as Hall0.
  cbn [map_M] in Hall. rewrite bind_run in Hall.
  destruct (load_entry h0 s) as [[e|err] t] eqn:L0; [| discriminate Hall].
  assert (e = e0) as ->.
  { rewrite bind_run in Hall. destruct (map_M load_entry hs t) as [[r|err] u]; [| discriminate Hall].
    unfold mret, M_ret in Hall. now injection Hall. }
  assert (sample = e0) as -> by (apply (load_entry_twice h0 s e0 t s1 sample s2 L0 Hsample Hdir)).
  assert (ks = k :: wk) as Hkeys by congruence.
  subst w_keys. rewrite Hkeys in *.
  destruct (fill_matrix_fold _ _ _ _ _ _ Hfill) as (entries2 & Hall2 & Hfold).
  assert (entries2 = e0 :: entries) as ->.
  { apply (load_all_twice (h0 :: hs) s (e0 :: entries) s1 s2 entries2 s3).
    - exact Hall0.
    - exact Hall2.
    - destruct (load_entry_inv _ _ _ _ Hsample) as [-> _]. exact Hdir. }
  destruct (ideal_is_minimum _ _ _ _ _ _ Hof Hfold Hmin Hmax) as (Heq & Horigin & Hdist).
  split; [exact Heq |]. split; [exact Horigin |].
  exists (e0 :: entries). split; [reflexivity | exact Hdist].
Qed.

Lemma ranking_pass_ideal_witness :
  let h := "917867e278c2a18f" in
  let e := JDict [("analyses_combined", JDict [("w_0", JInt 1)])] in
  let s := mkState {[h]} 6 ∅ {[ (h ++ ".json")%string := e ]} [] [] in
  [IZR 1] = [IZR 1] /\
  normalized_ideal [IZR 1] [IZR 1] [IZR 1] = repeat 0%R (length (sorted_strings ["w_0"])) /\
  exists entries,
    map_M (@load_entry sample_externals) (@set_iter sample_externals (hashes s)) s
    = (Ret entries, s) /\
    forall entry xs, entry ∈ entries ->
      objectives entry (sorted_strings ["w_0"]) = Ret (map Fin xs) ->
      exists d, entry_distance entry (sorted_strings ["w_0"]) [IZR 1] [IZR 1] [IZR 1]
                = Ret (Fin d) /\
                (0 <= d <= sqrt (INR (length (sorted_strings ["w_0"]))))%R.
Proof.
  intros h e s.
  apply (@ranking_pass_ideal sample_externals s s s s [IZR 1] e ["w_0"] [[JInt 1]]
           [IZR 1] [IZR 1]); reflexivity.
Defined.

(** * The ranking pass on a store of entries with numbers *)

(** ** What the ranker reads in an entry *)
Lemma rankable_raw_value (w_keys : list string) (doc : json) (key : string) :
  rankable w_keys doc -> key ∈ w_keys ->
  exists v, raw_value doc key = Ret v /\ (v = JNull \/ exists x, as_number v = Ret x).
Proof.
  intros (d & ac & -> & Hac & Hvals) Hkey.
  unfold raw_value. cbn [py_get]. rewrite Hac. cbn [mbind result_bind py_get].
  destruct (assoc key ac) as [v|] eqn:Hv.
  - exists v. split; [reflexivity |]. now apply (Hvals key).
  - exists JNull. split; [reflexivity | now left].
Qed.

Lemma rankable_present (w_keys : list string) (doc : json) (key : string) :
  rankable w_keys doc ->
  exists ac, py_getitem doc "analyses_combined" = Ret (JDict ac) /\
             py_get doc "analyses_combined" (JDict []) = Ret (JDict ac).
Proof.
  intros (d & ac & -> & Hac & _). exists ac. cbn [py_getitem py_get]. now rewrite Hac.
Qed.

Lemma objective_of_raw (doc : json) (key : string) (v : json) :
  raw_value doc key = Ret v ->
  objective doc key = (if is_none v then Ret Inf else x ← as_number v; Ret (Fin x)).
Proof.
  unfold raw_value, objective.
  destruct (py_get doc "analyses_combined" (JDict [])) as [ac|e]; [| discriminate].
  cbn [mbind result_bind]. intros ->. reflexivity.
Qed.

Lemma rankable_objective (w_keys : list string) (doc : json) (key : string) :
  rankable w_keys doc -> key ∈ w_keys ->
  exists v, objective doc key = Ret v /\ (raw_value doc key = Ret JNull -> v = Inf).
Proof.
  intros Hr Hkey. destruct (rankable_raw_value _ _ _ Hr Hkey) as (v & Hraw & Hv).
  rewrite (objective_of_raw _ _ _ Hraw). destruct Hv as [-> | [x Hx]].
  - exists Inf. split; [reflexivity | auto].
  - rewrite (as_number_not_none v x Hx), Hx. exists (Fin x). split; [reflexivity |].
    intros Hn. rewrite Hraw in Hn. injection Hn as ->. discriminate Hx.
Qed.

Lemma rankable_objectives (w_keys : list string) (doc : json) :
  rankable w_keys doc ->
  forall keys, (forall key, key ∈ keys -> key ∈ w_keys) ->
  exists vals, objectives doc keys = Ret vals /\ length vals = length keys /\
    forall (i : nat) key, keys !! i = Some key -> raw_value doc key = Ret JNull ->
      vals !! i = Some Inf.
Proof.
  intros Hr. induction keys as [|key keys IH]; intros Hsub.
  - exists []. repeat split. intros i key Hk. now rewrite lookup_nil in Hk.
  - destruct (rankable_objective _ _ key Hr) as (v & Hv & Hinf).
    { apply Hsub. now left. }
    destruct IH as (vals & Hvals & Hlen & Hnull).
    { intros k Hk. apply Hsub. now right. }
    exists (v :: vals). unfold objectives in *. cbn [map_R]. rewrite Hv.
    cbn [mbind result_bind]. rewrite Hvals. split; [reflexivity |].
    split; [simpl; now rewrite Hlen |].
    intros [|i] k Hk Hraw; simpl in *.
    + injection Hk as <-. now rewrite (Hinf Hraw).
    + now apply (Hnull i k).
Qed.

(** ** The columns of the value matrix *)
Lemma map_R_total {A B} (f : A -> result B) (l : list A) :
  (forall x, x ∈ l -> exists y, f x = Ret y) -> exists l', map_R f l = Ret l'.
Proof.
  induction l as [|a l IH]; intros Hf; [now exists [] |].
  destruct (Hf a) as [b Hb]; [now left |].
  destruct IH as [l' Hl']; [intros x Hx; apply Hf; now right |].
  exists (b :: l'). cbn [map_R]. rewrite Hb. cbn [mbind result_bind]. now rewrite Hl'.
Qed.

Lemma py_min_total (vals : list json) :
  vals <> [] -> (forall v, v ∈ vals -> exists x, as_number v = Ret x) ->
  exists m, py_min vals = Ret m.
Proof.
  intros Hne Hnum. destruct (map_R_total as_number vals Hnum) as [xs Hxs].
  unfold py_min. rewrite Hxs. cbn [mbind result_bind].
  destruct xs as [|x xs]; [| eauto].
  destruct vals; [contradiction |]. apply map_R_lookup in Hxs as [Hl _]. discriminate Hl.
Qed.

Lemma py_max_total (vals : list json) :
  vals <> [] -> (forall v, v ∈ vals -> exists x, as_number v = Ret x) ->
  exists m, py_max vals = Ret m.
Proof.
  intros Hne Hnum. destruct (map_R_total as_number vals Hnum) as [xs Hxs].
  unfold py_max. rewrite Hxs. cbn [mbind result_bind].
  destruct xs as [|x xs]; [| eauto].
  destruct vals; [contradiction |]. apply map_R_lookup in Hxs as [Hl _]. discriminate Hl.
Qed.

Lemma present_values_total (w_keys : list string) (entries : list json) (key : string) :
  (forall e, e ∈ entries -> rankable w_keys e) ->
  exists vals, present_values entries key = Ret vals.
Proof.
  induction entries as [|e es IH]; intros Hr; [now exists [] |].
  destruct (rankable_present w_keys e key) as (ac & Hget & _).
  { apply Hr. now left. }
  destruct IH as [rest Hrest]; [intros e' He'; apply Hr; now right |].
  cbn [present_values]. rewrite Hget. cbn [mbind result_bind py_get]. rewrite Hrest.
  cbn [mbind result_bind]. eauto.
Qed.

Lemma append_values_total (w_keys : list string) (e : json) :
  rankable w_keys e -> forall keys vm, exists vm', append_values e keys vm = Ret vm'.
Proof.
  intros He. destruct (rankable_present w_keys e "" He) as (ac & _ & Hget).
  induction keys as [|key keys IH]; intros vm; [now exists vm |].
  destruct vm as [|col cols]; [now exists [] |].
  destruct (IH cols) as [rest Hrest].
  cbn [append_values]. rewrite Hget. cbn [mbind result_bind py_get]. rewrite Hrest.
  cbn [mbind result_bind]. eauto.
Qed.

Lemma fold_values_total (w_keys : list string) (entries : list json) :
  (forall e, e ∈ entries -> rankable w_keys e) ->
  forall vm, exists vm', fold_values entries w_keys vm = Ret vm'.
Proof.
  induction entries as [|e es IH]; intros Hr vm; [now exists vm |].
  destruct (append_values_total w_keys e (Hr e ltac:(now left)) w_keys vm) as [vm1 Hvm1].
  destruct (IH (fun e' He' => Hr e' ltac:(now right)) vm1) as [vm' Hvm'].
  exists vm'. cbn [fold_values]. rewrite Hvm1. cbn [mbind result_bind]. exact Hvm'.
Qed.

Section Columns.
Variables (w_keys : list string) (entries : list json).
Hypothesis Hrankable : forall e, e ∈ entries -> rankable w_keys e.
Hypothesis Hsome : forall key, key ∈ w_keys ->
  exists e x, e ∈ entries /\ objective e key = Ret (Fin x).

(** The values of an objective that are not [None]: there is one, and
    all are numbers. *)
Lemma present_column (key : string) (vs : list json) :
  key ∈ w_keys ->
  (forall v, v ∈ vs <-> exists e, e ∈ entries /\ raw_value e key = Ret v /\ is_none v = false) ->
  vs <> [] /\ forall v, v ∈ vs -> exists x, as_number v = Ret x.
Proof.
  intros Hkey Hvs. split.
  - destruct (Hsome key Hkey) as (e & x & He & Hobj).
    apply objective_raw_value in Hobj as (v & Hraw & Hn & _).
    assert (v ∈ vs) as Hin by (apply Hvs; eauto).
    intros ->. now apply elem_of_nil in Hin.
  - intros v Hv. apply Hvs in Hv as (e & He & Hraw & Hn).
    destruct (rankable_raw_value _ _ key (Hrankable e He) Hkey) as (v' & Hraw' & Hv').
    rewrite Hraw in Hraw'. injection Hraw' as <-.
    destruct Hv' as [-> | Hx]; [discriminate Hn | exact Hx].
Qed.

Lemma ideal_of_total :
  forall keys, (forall key, key ∈ keys -> key ∈ w_keys) ->
  exists ideal, ideal_of entries keys = Ret (Some ideal).
Proof.
  induction keys as [|key keys IH]; intros Hsub; [now exists [] |].
  destruct (present_values_total w_keys entries key Hrankable) as [vals Hvals].
  destruct (present_column key vals) as [Hne Hnum].
  { apply Hsub. now left. }
  { apply present_values_elem_of. exact Hvals. }
  destruct (py_min_total vals Hne Hnum) as [m Hm].
  destruct IH as [ideal Hideal]; [intros k Hk; apply Hsub; now right |].
  exists (m :: ideal). cbn [ideal_of]. rewrite Hvals. cbn [mbind result_bind].
  destruct vals as [|v0 vals]; [contradiction |].
  rewrite Hm. cbn [mbind result_bind]. rewrite Hideal. reflexivity.
Qed.

Lemma columns_total (vm : list (list json)) :
  fold_values entries w_keys (map (fun _ => []) w_keys) = Ret vm ->
  exists mins maxs, map_R py_min vm = Ret mins /\ map_R py_max vm = Ret maxs.
Proof.
  intros Hfold.
  assert (forall col, col ∈ vm ->
            col <> [] /\ forall v, v ∈ col -> exists x, as_number v = Ret x) as Hcol.
  { intros col Hin. apply list_elem_of_lookup in Hin as [i Hi].
    pose proof (fold_values_length _ _ _ _ Hfold) as Hlen. rewrite length_map in Hlen.
    destruct (w_keys !! i) as [key|] eqn:Hk.
    2:{ apply lookup_ge_None_1 in Hk. apply lookup_lt_Some in Hi. lia. }
    destruct (fold_values_lookup _ _ _ _ Hfold i key []) as (vs & Hvm & Hvs);
      [exact Hk | rewrite list_lookup_fmap, Hk; reflexivity |].
    cbn [app] in Hvm. rewrite Hi in Hvm. injection Hvm as ->.
    apply (present_column key); [| exact Hvs].
    apply list_elem_of_lookup. eauto. }
  destruct (map_R_total py_min vm) as [mins Hmins].
  { intros col Hin. destruct (Hcol col Hin) as [Hne Hnum]. now apply py_min_total. }
  destruct (map_R_total py_max vm) as [maxs Hmaxs].
  { intros col Hin. destruct (Hcol col Hin) as [Hne Hnum]. now apply py_max_total. }
  eauto.
Qed.

End Columns.

(** ** The files through the loop *)
Lemma digest_not_dot (h : string) :
  is_digest h -> starts_with "." (h ++ ".json") = false.
Proof.
  intros [Hlen Hhex]. destruct h as [|c t]; [discriminate |].
  simpl in Hhex. apply andb_true_iff in Hhex as [Hc _].
  rewrite append_cons. unfold starts_with. cbn [String.prefix].
  destruct (ascii_dec "."%char c) as [<- | _]; [discriminate | reflexivity].
Qed.

Lemma ranked_entry_stable (h : string) (doc : json) (dist : xfloat) (hs : gset string) :
  (forall h', h' ∈ hs -> String.length h' = String.length h /\ h' <> h) ->
  rename_stable hs (ranked_entry h doc dist).
Proof.
  intros Hhs d h' old doc' dist' Hin Hold Hlook [Hdoc Huniq].
  destruct (Hhs h' Hin) as [Hlen Hne].
  set (N := storage_name (format_08_4f dist) h) in *.
  set (new := storage_name (format_08_4f dist') h').
  pose proof (storage_name_entry_file (format_08_4f dist) h) as HN. fold N in HN.
  pose proof (storage_name_entry_file (format_08_4f dist') h') as Hnew. fold new in Hnew.
  assert (N <> old) as Hno
    by (intros <-; apply Hne; now apply (entry_file_of_inj h' h N)).
  assert (N <> new) as Hnn
    by (intros Heq; apply Hne; apply (entry_file_of_inj h' h N); [exact Hlen | | exact HN];
        now rewrite Heq).
  split.
  - fold new. rewrite lookup_insert_ne by (intros Heq; now apply Hnn).
    rewrite lookup_delete_ne by (intros Heq; now apply Hno). exact Hdoc.
  - fold new. intros name' [x Hx] Hfile.
    assert (new <> name') as Hnn'
      by (intros <-; apply Hne; now apply (entry_file_of_inj h' h new)).
    rewrite lookup_insert_ne in Hx by exact Hnn'.
    apply lookup_delete_Some in Hx as [_ Hx]. apply Huniq; eauto.
Qed.

Section Loop.
Context `{EOk : ExternalsOk}.
Variables (w_keys : list string) (ideal mins maxs : list R).

(** One turn of the loop, when nothing fails. *)
Lemma rename_one_ranks (h : string) (doc : json) (d : xfloat) (s : state) :
  is_digest h -> never_faults s ->
  stored_entry h doc (pareto_dir s) ->
  entry_distance doc w_keys ideal mins maxs = Ret d ->
  exists s' old,
    rename_one w_keys ideal mins maxs h s = (Ret tt, s') /\
    self_of s' = self_of s /\ root_dir s' = root_dir s /\ out s' = out s /\
    never_faults s' /\
    entry_file_of h old = true /\ pareto_dir s !! old = Some doc /\
    pareto_dir s' = <[storage_name (format_08_4f d) h := doc]> (delete old (pareto_dir s)) /\
    ranked_entry h doc d (pareto_dir s').
Proof.
  intros Hdig Hnf Hst Hdist.
  pose proof (never_faults_tick _ Hnf) as Hnf1.
  pose proof (never_faults_tick _ Hnf1) as Hnf2.
  unfold rename_one. rewrite try_except_run, bind_run.
  rewrite (load_entry_stored h doc s Hst (Hnf 0%nat)).
  rewrite bind_run. unfold lift at 1. rewrite Hdist, bind_run.
  destruct Hst as (name & Hform & Hdoc & Huniq).
  pose proof (stored_entry_file h name Hform) as Hfile.
  assert (fnmatch (Star (h ++ ".json")) name = true) as Hmatch.
  { unfold fnmatch. apply andb_true_iff. split; [exact Hfile |].
    apply negb_true_iff. destruct Hform as [-> | [dist ->]]; [now apply digest_not_dot |].
    unfold storage_name. destruct (format_08_4f_head dist) as (c & t & -> & Hc).
    rewrite append_cons. unfold starts_with. cbn [String.prefix].
    destruct (ascii_dec "."%char c) as [<- | _]; [now contradict Hc | reflexivity]. }
  rewrite (glob_unique _ _ name); [| cbn; eauto | exact Hmatch |].
  2:{ intros name' Hin Hm. apply Huniq; [exact Hin |].
      unfold fnmatch in Hm. now apply andb_true_iff in Hm as [Hm _]. }
  unfold os_rename. rewrite os_replace_run.
  pose proof (Hnf1 0%nat) as Hhead.
  assert (pareto_dir (tick (tick s)) !! name = Some doc) as Hdoc2 by exact Hdoc.
  cbn [dir_of name_of]. rewrite Hdoc2.
  assert (ranked_entry h doc d
            (<[storage_name (format_08_4f d) h := doc]> (delete name (pareto_dir s)))) as Hranked.
  { split; [apply lookup_insert_eq |].
    intros name' [x Hx] Hf'.
    destruct (String.eqb_spec (storage_name (format_08_4f d) h) name') as [<- | Hne];
      [reflexivity |].
    rewrite lookup_insert_ne in Hx by exact Hne.
    apply lookup_delete_Some in Hx as [Hno Hx].
    exfalso. apply Hno. symmetry. apply Huniq; eauto. }
  destruct (faults (tick s)) as [|[] fs] eqn:Hf1; [| now contradict Hhead |];
    (eexists _, name; split; [reflexivity |]);
    cbn [set_dir]; unfold self_of; cbn [hashes sig_digits root_dir out pareto_dir tick];
    repeat split; try assumption; try exact Hnf2; apply Hranked.
Qed.

Lemma rename_loop (docs : string -> json) (dist : string -> xfloat) :
  forall (l done : list string) (s : state),
    NoDup l -> (forall h, h ∈ l -> h ∉ done) ->
    (forall h, h ∈ l \/ h ∈ done -> is_digest h) ->
    never_faults s ->
    (forall h, h ∈ l ->
       stored_entry h (docs h) (pareto_dir s) /\
       entry_distance (docs h) w_keys ideal mins maxs = Ret (dist h)) ->
    (forall h, h ∈ done -> ranked_entry h (docs h) (dist h) (pareto_dir s)) ->
    exists s',
      for_each l (rename_one w_keys ideal mins maxs) s = (Ret tt, s') /\
      self_of s' = self_of s /\ root_dir s' = root_dir s /\ out s' = out s /\
      never_faults s' /\
      forall h, h ∈ l \/ h ∈ done -> ranked_entry h (docs h) (dist h) (pareto_dir s').
Proof.
  induction l as [|h l IH]; intros done s Hnd Hfresh Hdig Hnf Hst Hdone.
  - exists s. split; [reflexivity |]. split; [reflexivity |]. split; [reflexivity |].
    split; [reflexivity |]. split; [exact Hnf |].
    intros h [Hh | Hh]; [now apply elem_of_nil in Hh | now apply Hdone].
  - apply NoDup_cons in Hnd as [Hnotin Hnd].
    destruct (Hst h ltac:(now left)) as [Hsth Hdh].
    destruct (rename_one_ranks h (docs h) (dist h) s (Hdig h ltac:(left; now left)) Hnf Hsth Hdh)
      as (s1 & old & Hrun & Hself & Hroot & Hout & Hnf1 & Hold & Hlook & Hdir & Hranked).
    assert (forall x, x ∈ ({[h]} : gset string) -> x = h) as Hsing
      by (intros x Hx; now apply elem_of_singleton in Hx).
    destruct (IH (h :: done) s1) as (s' & Hfor & Hself' & Hroot' & Hout' & Hnf' & Hall).
    + exact Hnd.
    + intros h' Hin Hd. apply elem_of_cons in Hd as [-> | Hd]; [contradiction |].
      apply (Hfresh h'); [now right | exact Hd].
    + intros h' [Hin | Hin]; apply Hdig.
      * left. now right.
      * apply elem_of_cons in Hin as [-> | Hin]; [left; now left | now right].
    + exact Hnf1.
    + intros h' Hin. destruct (Hst h' ltac:(now right)) as [Hst' Hd']. split; [| exact Hd'].
      rewrite Hdir.
      apply (stored_entry_stable h' (docs h') {[h]}) with (h := h) (old := old) (doc := docs h);
        try assumption.
      * intros x Hx. rewrite (Hsing x Hx).
        destruct (Hdig h ltac:(left; now left)) as [-> _].
        destruct (Hdig h' ltac:(left; now right)) as [-> _]. reflexivity.
      * now apply elem_of_singleton.
    + intros h' Hin. apply elem_of_cons in Hin as [-> | Hin]; [exact Hranked |].
      rewrite Hdir.
      apply (ranked_entry_stable h' (docs h') (dist h') {[h]}) with (h := h) (old := old)
                                                                  (doc := docs h);
        try assumption.
      * intros x Hx. rewrite (Hsing x Hx). split.
        -- destruct (Hdig h ltac:(left; now left)) as [-> _].
           destruct (Hdig h' ltac:(now right)) as [-> _]. reflexivity.
        -- intros ->. apply (Hfresh h'); [now left | exact Hin].
      * now apply elem_of_singleton.
      * now apply Hdone.
    + exists s'. split.
      { cbn [for_each]. rewrite bind_run, Hrun. exact Hfor. }
      split; [congruence |]. split; [congruence |]. split; [congruence |].
      split; [exact Hnf' |].
      intros h' [Hin | Hin].
      * apply elem_of_cons in Hin as [-> | Hin]; apply Hall; [right; now left | now left].
      * apply Hall. right. now right.
Qed.

(** ** Loading the entries *)
Lemma load_all_stored (docs : string -> json) :
  forall (l : list string) (s : state),
    never_faults s ->
    (forall h, h ∈ l -> stored_entry h (docs h) (pareto_dir s)) ->
    exists s1,
      map_M load_entry l s = (Ret (map docs l), s1) /\
      never_faults s1 /\ self_of s1 = self_of s /\ files_of s1 = files_of s /\
      out s1 = out s.
Proof.
  induction l as [|h l IH]; intros s Hnf Hst.
  - exists s. repeat split. exact Hnf.
  - destruct (IH (tick s)) as (s1 & Hmap & Hnf1 & Hself & Hfiles & Hout).
    + now apply never_faults_tick.
    + intros h' Hin. apply Hst. now right.
    + exists s1. split.
      * cbn [map_M map]. rewrite bind_run.
        rewrite (load_entry_stored h (docs h) s); [| apply Hst; now left | apply Hnf].
        rewrite bind_run, Hmap. reflexivity.
      * repeat split; assumption.
Qed.

Lemma fill_matrix_of_fold (w : list string) :
  forall (l : list string) (vm : list (list json)) (s s' : state) es vm',
    map_M load_entry l s = (Ret es, s') ->
    fold_values es w vm = Ret vm' ->
    fill_matrix l w vm s = (Ret vm', s').
Proof.
  induction l as [|h l IH]; intros vm s s' es vm' Hmap Hfold.
  - cbn [map_M] in Hmap. unfold mret, M_ret in Hmap. injection Hmap as <- <-.
    cbn [fold_values] in Hfold. injection Hfold as <-. reflexivity.
  - cbn [map_M] in Hmap. rewrite bind_run in Hmap.
    destruct (load_entry h s) as [[e|err] s1] eqn:Hload; [| discriminate Hmap].
    rewrite bind_run in Hmap.
    destruct (map_M load_entry l s1) as [[es1|err] s2] eqn:Hrest; [| discriminate Hmap].
    unfold mret, M_ret in Hmap. injection Hmap as <- <-.
    cbn [fold_values] in Hfold.
    destruct (append_values e w vm) as [vm1|err] eqn:Happ; [| discriminate Hfold].
    cbn [mbind result_bind] in Hfold.
    cbn [fill_matrix]. rewrite bind_run, Hload, bind_run. unfold lift at 1. rewrite Happ.
    now apply (IH vm1 s1 s2 es1 vm').
Qed.

End Loop.

(** ** The whole pass *)
Lemma columns_least_greatest (entries : list json) (w_keys : list string)
    (vm : list (list json)) (mins maxs : list R) :
  fold_values entries w_keys (map (fun _ => []) w_keys) = Ret vm ->
  map_R py_min vm = Ret mins -> map_R py_max vm = Ret maxs ->
  forall (i : nat) key, w_keys !! i = Some key ->
    exists mn mx, mins !! i = Some mn /\ maxs !! i = Some mx /\
      (exists e, e ∈ entries /\ objective e key = Ret (Fin mn)) /\
      (exists e, e ∈ entries /\ objective e key = Ret (Fin mx)) /\
      (forall e x, e ∈ entries -> objective e key = Ret (Fin x) -> (mn <= x <= mx)%R).
Proof.
  intros Hfold Hmins Hmaxs i key Hkey.
  destruct (map_R_lookup _ _ _ Hmins) as [_ Hkmin].
  destruct (map_R_lookup _ _ _ Hmaxs) as [_ Hkmax].
  assert (map (fun _ : string => @nil json) w_keys !! i = Some []) as Hinit.
  { rewrite list_lookup_fmap, Hkey. reflexivity. }
  destruct (fold_values_lookup _ _ _ _ Hfold i key [] Hkey Hinit) as (vs & Hcol & Hvs).
  simpl in Hcol.
  destruct (Hkmin i vs Hcol) as (mn & Hmn & Hpmin).
  destruct (Hkmax i vs Hcol) as (mx & Hmx & Hpmax).
  exists mn, mx. split; [exact Hmn |]. split; [exact Hmx |].
  destruct (py_min_least _ _ Hpmin) as [(v1 & Hv1 & Hn1) Hle].
  destruct (py_max_greatest _ _ Hpmax) as [(v2 & Hv2 & Hn2) Hge].
  split; [| split].
  - apply Hvs in Hv1 as (e & He & Hraw & Hnone). exists e. split; [exact He |].
    apply objective_raw_value. eauto.
  - apply Hvs in Hv2 as (e & He & Hraw & Hnone). exists e. split; [exact He |].
    apply objective_raw_value. eauto.
  - intros e x He Hobj. apply objective_raw_value in Hobj as (v & Hraw & Hnone & Hnum).
    assert (v ∈ vs) as Hv by (apply Hvs; eauto).
    split; [eapply Hle | eapply Hge]; eauto.
Qed.

Section RankingPass.
Context `{EOk : ExternalsOk}.

Lemma NoDup_sorted_hashes (hs : gset string) : NoDup (sorted_strings (set_iter hs)).
Proof.
  rewrite sorted_strings_perm, set_iter_perm. apply NoDup_elements.
Qed.

Lemma ranking_pass_run (s : state) (docs : string -> json) (h0 : string)
    (rest ks : list string) :
  let w_keys := sorted_strings ks in
  never_faults s ->
  set_iter (hashes s) = h0 :: rest ->
  w_keys_of (docs h0) = Ret ks -> ks <> [] ->
  (forall h, h ∈ hashes s ->
     is_digest h /\ stored_entry h (docs h) (pareto_dir s) /\ rankable w_keys (docs h)) ->
  (forall key, key ∈ w_keys ->
     exists h x, h ∈ hashes s /\ objective (docs h) key = Ret (Fin x)) ->
  exists ideal mins maxs s1 s',
    compute_ideal_point s = (Ret (Some ideal), s1) /\
    rename_entries_with_distance s = (Ret tt, s') /\
    self_of s' = self_of s /\ root_dir s' = root_dir s /\ out s' = out s /\
    length mins = length w_keys /\ length maxs = length w_keys /\ ideal = mins /\
    (forall (i : nat) key, w_keys !! i = Some key ->
       exists mn mx, mins !! i = Some mn /\ maxs !! i = Some mx /\
         (exists h, h ∈ hashes s /\ objective (docs h) key = Ret (Fin mn)) /\
         (exists h, h ∈ hashes s /\ objective (docs h) key = Ret (Fin mx)) /\
         (forall h x, h ∈ hashes s -> objective (docs h) key = Ret (Fin x) ->
            (mn <= x <= mx)%R)) /\
    forall h, h ∈ hashes s ->
      exists vals,
        objectives (docs h) w_keys = Ret vals /\
        (forall (i : nat) key, w_keys !! i = Some key ->
           raw_value (docs h) key = Ret JNull -> vals !! i = Some Inf) /\
        ranked_entry h (docs h)
          (euclid_norm (normalized_point vals mins maxs) (normalized_ideal ideal mins maxs))
          (pareto_dir s').
Proof.
  intros w_keys Hnf Hiter Hks Hne Hstore Hsome.
  assert (w_keys <> []) as Hwne by (now apply sorted_strings_not_nil).
  assert (sorted_strings ks = w_keys) as HK by reflexivity.
  clearbody w_keys.
  set (l := h0 :: rest) in *.
  assert (forall h, h ∈ l <-> h ∈ hashes s) as Hl.
  { intros h. rewrite <- Hiter. apply elem_of_set_iter. }
  set (entries := map docs l).
  assert (forall e, e ∈ entries -> exists h, h ∈ hashes s /\ e = docs h) as Hentry.
  { intros e He. apply list_elem_of_fmap in He as (h & -> & Hh). exists h.
    split; [now apply Hl | reflexivity]. }
  assert (forall h, h ∈ hashes s -> docs h ∈ entries) as Hdocs.
  { intros h Hh. apply list_elem_of_fmap. exists h. split; [reflexivity | now apply Hl]. }
  assert (forall e, e ∈ entries -> rankable w_keys e) as Hrank.
  { intros e He. destruct (Hentry e He) as (h & Hh & ->). now apply Hstore. }
  assert (forall key, key ∈ w_keys ->
            exists e x, e ∈ entries /\ objective e key = Ret (Fin x)) as HsomeE.
  { intros key Hkey. destruct (Hsome key Hkey) as (h & x & Hh & Hobj).
    exists (docs h), x. split; [now apply Hdocs | exact Hobj]. }
  assert (forall t, pareto_dir t = pareto_dir s ->
            forall h, h ∈ l -> stored_entry h (docs h) (pareto_dir t)) as Hstored.
  { intros t -> h Hh. apply Hstore. now apply Hl. }
  (* the ideal point *)
  destruct (load_all_stored docs l s Hnf (Hstored s eq_refl))
    as (s1 & Hmap1 & Hnf1 & Hself1 & Hfiles1 & Hout1).
  injection Hfiles1 as Hroot1 Hdir1.
  destruct (ideal_of_total w_keys entries Hrank HsomeE w_keys (fun _ H => H))
    as [ideal Hideal].
  assert (compute_ideal_point s = (Ret (Some ideal), s1)) as Hcip.
  { rewrite compute_ideal_point_run, Hiter, Hmap1.
    change (py_index (map docs l) 0) with (Ret (docs h0)). cbv iota. rewrite Hks, HK.
    destruct ks as [|k ks']; [contradiction |].
    change (map docs l) with (docs h0 :: map docs rest) at 1. cbv iota.
    f_equal. exact Hideal. }
  (* the value matrix *)
  pose proof (never_faults_tick _ Hnf1) as Hnf2.
  destruct (load_all_stored docs l (tick s1) Hnf2 (Hstored (tick s1) Hdir1))
    as (s3 & Hmap3 & Hnf3 & Hself3 & Hfiles3 & Hout3).
  injection Hfiles3 as Hroot3 Hdir3. cbn [tick root_dir pareto_dir] in Hroot3, Hdir3.
  destruct (fold_values_total w_keys entries Hrank (map (fun _ => []) w_keys)) as [vm Hvm].
  pose proof (fill_matrix_of_fold w_keys l _ _ _ _ _ Hmap3 Hvm) as Hfill.
  destruct (columns_total w_keys entries Hrank HsomeE vm Hvm) as (mins & maxs & Hmins & Hmaxs).
  destruct (ideal_is_minimum _ _ _ _ _ _ Hideal Hvm Hmins Hmaxs) as (Heq & _ & _).
  pose proof (fold_values_length _ _ _ _ Hvm) as Hlvm. rewrite length_map in Hlvm.
  destruct (map_R_lookup _ _ _ Hmins) as [Hlmin Hkmin].
  destruct (map_R_lookup _ _ _ Hmaxs) as [Hlmax Hkmax].
  rewrite Hlvm in Hlmin, Hlmax.
  assert (length ideal = length w_keys) as Hlideal by congruence.
  (* the distances *)
  pose (dist := fun h =>
          match objectives (docs h) w_keys with
          | Ret vals => euclid_norm (normalized_point vals mins maxs)
                                    (normalized_ideal ideal mins maxs)
          | Raise _ => Inf
          end).
  assert (forall h, h ∈ hashes s ->
            exists vals, objectives (docs h) w_keys = Ret vals /\
              (forall (i : nat) key, w_keys !! i = Some key ->
                 raw_value (docs h) key = Ret JNull -> vals !! i = Some Inf) /\
              dist h = euclid_norm (normalized_point vals mins maxs)
                                   (normalized_ideal ideal mins maxs) /\
              entry_distance (docs h) w_keys ideal mins maxs = Ret (dist h)) as Hdist.
  { intros h Hh. destruct (Hstore h Hh) as (_ & _ & Hr).
    destruct (rankable_objectives w_keys (docs h) Hr w_keys (fun _ H => H))
      as (vals & Hvals & Hlen & Hnull).
    exists vals. split; [exact Hvals |]. split; [exact Hnull |].
    unfold dist. rewrite Hvals. split; [reflexivity |].
    now apply entry_distance_spec. }
  (* the loop *)
  destruct (rename_loop w_keys ideal mins maxs docs dist
              (sorted_strings (set_iter (hashes s))) [] s3)
    as (s' & Hfor & Hself' & Hroot' & Hout' & _ & Hall).
  { apply NoDup_sorted_hashes. }
  { intros h _ Hin. now apply elem_of_nil in Hin. }
  { intros h [Hin | Hin]; [| now apply elem_of_nil in Hin].
    apply elem_of_sorted_strings, elem_of_set_iter in Hin. now apply Hstore. }
  { exact Hnf3. }
  { intros h Hin. apply elem_of_sorted_strings, elem_of_set_iter in Hin.
    split; [rewrite Hdir3, Hdir1; now apply Hstore |].
    destruct (Hdist h Hin) as (vals & _ & _ & _ & Hd). exact Hd. }
  { intros h Hin. now apply elem_of_nil in Hin. }
  assert (hashes s1 = hashes s) as Hh1 by (now injection Hself1).
  exists ideal, mins, maxs, s1, s'.
  split; [exact Hcip |]. split.
  { unfold rename_entries_with_distance. rewrite bind_run, Hcip.
    rewrite bind_run. unfold get_hashes at 1. rewrite Hh1, Hiter.
    rewrite bind_run. unfold l. cbv iota. fold l.
    unfold mret at 1, M_ret at 1. cbv beta iota.
    rewrite bind_run, (load_entry_stored h0 (docs h0) s1);
      [| apply (Hstored s1 Hdir1); now left | apply Hnf1].
    rewrite bind_run. unfold lift at 1. rewrite Hks. cbv zeta. rewrite HK.
    assert (forall (A : Type) (a b : A),
              match w_keys with [] => a | _ :: _ => b end = b) as Hm.
    { intros A a b. destruct w_keys; [contradiction | reflexivity]. }
    rewrite Hm. rewrite bind_run, Hfill.
    rewrite bind_run. unfold lift at 1. rewrite Hmins.
    rewrite bind_run. unfold lift at 1. rewrite Hmaxs.
    rewrite <- Hiter. exact Hfor. }
  assert (self_of s3 = self_of s) as Hs3.
  { rewrite Hself3. unfold self_of in *. cbn [tick hashes sig_digits]. exact Hself1. }
  split; [now rewrite Hself' |].
  split; [now rewrite Hroot', Hroot3 |].
  split; [rewrite Hout', Hout3; exact Hout1 |].
  split; [exact Hlmin |]. split; [exact Hlmax |]. split; [exact Heq |].
  split.
  - intros i key Hkey.
    destruct (columns_least_greatest _ _ _ _ _ Hvm Hmins Hmaxs i key Hkey)
      as (mn & mx & Hmn & Hmx & (e1 & He1 & Ho1) & (e2 & He2 & Ho2) & Hb).
    exists mn, mx. split; [exact Hmn |]. split; [exact Hmx |].
    destruct (Hentry e1 He1) as (h1 & Hin1 & ->).
    destruct (Hentry e2 He2) as (h2 & Hin2 & ->).
    split; [eauto |]. split; [eauto |].
    intros h x Hh Hobj. apply (Hb (docs h)); [now apply Hdocs | exact Hobj].
  - intros h Hh. destruct (Hdist h Hh) as (vals & Hvals & Hnull & Hd & _).
    exists vals. split; [exact Hvals |]. split; [exact Hnull |].
    rewrite <- Hd. apply Hall. left. rewrite sorted_strings_perm. now apply elem_of_set_iter.
Qed.

End RankingPass.

(** ** The pass on a store of three entries *)
Lemma sample_store_members (h : string) :
  h ∈ hashes sample_store <-> h ∈ sample_hashes.
Proof. apply elem_of_list_to_set. Qed.

Lemma sample_store_wellformed :
  never_faults sample_store /\
  @set_iter sample_externals (hashes sample_store)
  = ["3333333333333333"; "1111111111111111"; "2222222222222222"] /\
  w_keys_of (sample_docs "3333333333333333") = Ret ["w_0"; "w_1"] /\
  (forall h, h ∈ hashes sample_store ->
     is_digest h /\ stored_entry h (sample_docs h) (pareto_dir sample_store) /\
     rankable (sorted_strings ["w_0"; "w_1"]) (sample_docs h)) /\
  (forall key, key ∈ sorted_strings ["w_0"; "w_1"] ->
     exists h x, h ∈ hashes sample_store /\ objective (sample_docs h) key = Ret (Fin x)).
Proof.
  split; [intros i; cbn; rewrite lookup_nil; discriminate |].
  split; [vm_compute; reflexivity |].
  split; [reflexivity |].
  split.
  - intros h Hh. apply sample_store_members in Hh. unfold sample_hashes in Hh.
    rewrite !elem_of_cons, elem_of_nil in Hh.
    assert (forall h0 : string, In h0 sample_hashes ->
              stored_entry h0 (sample_docs h0) (pareto_dir sample_store)) as Hst.
    { intros h0 Hin. exists (h0 ++ ".json")%string. split; [now left |]. split.
      - destruct Hin as [<- | [<- | [<- | []]]]; reflexivity.
      - intros name' [x Hx] Hf. cbn [pareto_dir sample_store] in Hx.
        apply elem_of_list_to_map_2 in Hx. cbn [map sample_hashes] in Hx.
        rewrite !elem_of_cons, elem_of_nil in Hx.
        destruct Hin as [<- | [<- | [<- | []]]];
          destruct Hx as [[= -> _] | [[= -> _] | [[= -> _] | []]]];
          first [reflexivity | discriminate Hf]. }
    assert (forall h0 : string, In h0 sample_hashes ->
              rankable (sorted_strings ["w_0"; "w_1"]) (sample_docs h0)) as Hr.
    { intros h0 Hin. eexists _, _. split; [reflexivity |]. split; [reflexivity |].
      intros key v Hkey. change (sorted_strings ["w_0"; "w_1"]) with ["w_0"; "w_1"] in Hkey.
      rewrite !elem_of_cons, elem_of_nil in Hkey.
      destruct Hin as [<- | [<- | [<- | []]]]; destruct Hkey as [-> | [-> | []]];
        cbn; intros [= <-]; first [now left | right; eexists; reflexivity]. }
    destruct Hh as [-> | [-> | [-> | []]]];
      (split; [split; reflexivity |]); (split; [apply Hst | apply Hr]); cbn; tauto.
  - intros key Hkey. change (sorted_strings ["w_0"; "w_1"]) with ["w_0"; "w_1"] in Hkey.
    rewrite !elem_of_cons, elem_of_nil in Hkey.
    exists "2222222222222222". destruct Hkey as [-> | [-> | []]]; eexists;
      (split; [apply sample_store_members; unfold sample_hashes;
               rewrite !elem_of_cons; tauto | reflexivity]).
Qed.

Lemma format_one : format_08_4f (Fin 1) = "001.0000".
Proof.
  assert (round_half_even (1 * 10000) = 10000) as Hr.
  { unfold round_half_even.
    assert (Int_part (1 * 10000) = 10000) as -> by (symmetry; apply Int_part_spec; lra).
    destruct (Rlt_dec _ _) as [_|Hn]; [reflexivity | lra]. }
  rewrite format_fixed4; rewrite ?Hr; [reflexivity | lra | reflexivity].
Qed.

Lemma sample_store_ranked :
  exists s1 s',
    @compute_ideal_point sample_externals sample_store = (Ret (Some [0; 0]%R), s1) /\
    @rename_entries_with_distance sample_externals sample_store = (Ret tt, s') /\
    self_of s' = self_of sample_store /\ out s' = [] /\
    ranked_entry "1111111111111111" (sample_docs "1111111111111111") (Fin 0) (pareto_dir s') /\
    ranked_entry "2222222222222222" (sample_docs "2222222222222222") (Fin 1) (pareto_dir s') /\
    ranked_entry "3333333333333333" (sample_docs "3333333333333333") Inf (pareto_dir s').
Proof.
  destruct sample_store_wellformed as (Hnf & Hiter & Hks & Hstore & Hsome).
  destruct (@ranking_pass_run sample_externals sample_externals_ok sample_store sample_docs
              _ _ _ Hnf Hiter Hks ltac:(discriminate) Hstore Hsome)
    as (ideal & mins & maxs & s1 & s' & Hcip & Hrun & Hself & _ & Hout & Hlmin & Hlmax
        & Heq & Hcols & Hall).
  change (sorted_strings ["w_0"; "w_1"]) with ["w_0"; "w_1"] in *.
  assert (forall h, h ∈ hashes sample_store <->
            h = "1111111111111111" \/ h = "2222222222222222" \/ h = "3333333333333333") as Hmem.
  { intros h. rewrite sample_store_members. unfold sample_hashes.
    rewrite !elem_of_cons, elem_of_nil. tauto. }
  assert (objective (sample_docs "1111111111111111") "w_0" = Ret Inf) as O10 by reflexivity.
  assert (objective (sample_docs "2222222222222222") "w_0" = Ret (Fin 0)) as O20 by reflexivity.
  assert (objective (sample_docs "3333333333333333") "w_0" = Ret (Fin 0)) as O30 by reflexivity.
  assert (objective (sample_docs "1111111111111111") "w_1" = Ret (Fin 0)) as O11 by reflexivity.
  assert (objective (sample_docs "2222222222222222") "w_1" = Ret (Fin 1)) as O21 by reflexivity.
  assert (objective (sample_docs "3333333333333333") "w_1" = Ret Inf) as O31 by reflexivity.
  assert (mins = [0; 0]%R /\ maxs = [0; 1]%R) as [-> ->].
  { destruct (Hcols 0%nat "w_0" eq_refl)
      as (mn0 & mx0 & Hmn0 & Hmx0 & (a & Ha & Hoa) & (b & Hb & Hob) & _).
    destruct (Hcols 1%nat "w_1" eq_refl)
      as (mn1 & mx1 & Hmn1 & Hmx1 & (c & Hc & Hoc) & (d & Hd & Hod) & Hbound).
    assert (mn0 = 0%R) as ->.
    { apply Hmem in Ha as [-> | [-> | ->]]; congruence. }
    assert (mx0 = 0%R) as ->.
    { apply Hmem in Hb as [-> | [-> | ->]]; congruence. }
    pose proof (Hbound "1111111111111111" 0%R ltac:(apply Hmem; tauto) O11) as B1.
    pose proof (Hbound "2222222222222222" 1%R ltac:(apply Hmem; tauto) O21) as B2.
    assert (mn1 = 0%R) as ->.
    { apply Hmem in Hc as [-> | [-> | ->]]; [congruence | | congruence].
      assert (mn1 = 1%R) by congruence. lra. }
    assert (mx1 = 1%R) as ->.
    { apply Hmem in Hd as [-> | [-> | ->]]; [| congruence | congruence].
      assert (mx1 = 0%R) by congruence. lra. }
    destruct mins as [|m0 [|m1 [|]]]; try discriminate Hlmin.
    destruct maxs as [|x0 [|x1 [|]]]; try discriminate Hlmax.
    cbn in Hmn0, Hmx0, Hmn1, Hmx1. split; congruence. }
  subst ideal.
  assert (forall v : xfloat, normalize v 0 0 = Fin 0) as N0.
  { intros v. unfold normalize. destruct (Rlt_dec 0 0); [lra | reflexivity]. }
  assert (forall v : xfloat, normalize v 0 1 = xdiv (xsub v 0) (1 - 0)) as N1.
  { intros v. unfold normalize. destruct (Rlt_dec 0 1); [reflexivity | lra]. }
  assert (normalized_ideal [0; 0]%R [0; 0]%R [0; 1]%R = [0; 0]%R) as NI.
  { cbn [normalized_ideal]. unfold normalize_ideal.
    destruct (Rlt_dec 0 0); [lra |]. destruct (Rlt_dec 0 1); [| lra].
    do 2 f_equal. field. }
  exists s1, s'. split; [exact Hcip |]. split; [exact Hrun |]. split; [exact Hself |].
  split; [exact Hout |].
  split; [| split].
  - destruct (Hall "1111111111111111" ltac:(apply Hmem; tauto)) as (vals & Hvals & _ & Hr).
    assert (vals = [Inf; Fin 0]) as -> by (injection Hvals as <-; reflexivity).
    cbn [normalized_point] in Hr. rewrite NI, N0, N1 in Hr.
    replace (euclid_norm _ _) with (Fin 0) in Hr; [exact Hr |].
    unfold euclid_norm. cbn. f_equal.
    replace (_ + _)%R with 0%R by field. symmetry. apply sqrt_0.
  - destruct (Hall "2222222222222222" ltac:(apply Hmem; tauto)) as (vals & Hvals & _ & Hr).
    assert (vals = [Fin 0; Fin 1]) as -> by (injection Hvals as <-; reflexivity).
    cbn [normalized_point] in Hr. rewrite NI, N0, N1 in Hr.
    replace (euclid_norm _ _) with (Fin 1) in Hr; [exact Hr |].
    unfold euclid_norm. cbn. f_equal.
    replace (_ + _)%R with 1%R by field. symmetry. apply sqrt_1.
  - destruct (Hall "3333333333333333" ltac:(apply Hmem; tauto)) as (vals & Hvals & _ & Hr).
    assert (vals = [Fin 0; Inf]) as -> by (injection Hvals as <-; reflexivity).
    cbn [normalized_point] in Hr. rewrite NI, N0, N1 in Hr. exact Hr.
Qed.

Lemma round_half_even_10000 : round_half_even 10000 = 10000.
Proof.
  unfold round_half_even.
  assert (Int_part 10000 = 10000) as -> by (symmetry; apply Int_part_spec; lra).
  destruct (Rlt_dec _ _) as [_|Hn]; [reflexivity | lra].
Qed.

(** The prefix of an infinite distance among those of the finite ones. *)
Lemma inf_prefix_order (x : R) :
  ((1 <= x < 99999995 / 100000)%R ->
     str_lt (format_08_4f Inf) (format_08_4f (Fin x)) = true) /\
  ((0 <= x < 99995 / 100000)%R ->
     str_lt (format_08_4f (Fin x)) (format_08_4f Inf) = true).
Proof.
  set (n := round_half_even (x * 10000)).
  pose proof (round_half_even_near (x * 10000)) as [Hlo Hhi]. fold n in Hlo, Hhi.
  split; intros Hx.
  - assert (n < 10 ^ 7) as Hn7 by (apply lt_IZR; change (10 ^ 7) with 10000000; lra).
    assert (10000 <= n) as Hn4.
    { rewrite <- round_half_even_10000. apply round_half_even_le. lra. }
    rewrite format_fixed4 by (lra || exact Hn7). fold n.
    apply str_lt_compare. unfold fixed4.
    change (format_08_4f Inf) with (digits_fixed 3 0 ++ "00inf")%string.
    apply digits_fixed_lt.
    + split; [lia |]. apply Z.div_str_pos. lia.
    + apply Z.div_lt_upper_bound; [lia |]. change (10 ^ Z.of_nat 3) with 1000. 
      change (10 ^ 7) with 10000000 in Hn7. lia.
  - assert (0 <= n) as Hn0 by (apply round_half_even_nonneg; lra).
    assert (n < 10000) as Hn4 by (apply lt_IZR; lra).
    rewrite format_fixed4 by (lra || (fold n; change (10 ^ 7) with 10000000; lia)). fold n.
    apply str_lt_compare. unfold fixed4.
    rewrite Z.div_small by lia.
    change (format_08_4f Inf) with (digits_fixed 3 0 ++ "00inf")%string.
    rewrite compare_append_same. reflexivity.
Qed.

(** C5, as the code has it.  On a store without file faults, whose indexed
    hashes are digests with one entry file each, whose entries hold, for
    every objective, a number or null, and where every objective is a
    number in at least one entry, [rename_entries_with_distance] comes to
    an end without printing and leaves index and root directory alone.
    Minimum and maximum of an objective are the least and the greatest of
    its values over the loaded entries that have one, and the ideal point
    is the vector of the minima.  The normalized value is
    (value - min) / (max - min) when max > min and 0.0 otherwise, also for
    the ideal point, and a missing value counts as +infinity before that.
    Every entry file is renamed to the distance, formatted, before the
    hash, where the distance is the Euclidean norm of the difference of
    the two normalized vectors.  An entry that misses an objective with
    max > min gets the distance +infinity and the prefix 00000inf, which
    sorts after the prefix of every distance below 0.99995 and before
    the prefix of every distance from 1 on; a missing value of an
    objective with max = min counts as 0.0. *)
Theorem ranking_pass_distances `{ExternalsOk} (s : state) (docs : string -> json)
    (h0 : string) (rest ks : list string) :
  let w_keys := sorted_strings ks in
  never_faults s ->
  set_iter (hashes s) = h0 :: rest ->
  w_keys_of (docs h0) = Ret ks -> ks <> [] ->
  (forall h, h ∈ hashes s ->
     is_digest h /\ stored_entry h (docs h) (pareto_dir s) /\ rankable w_keys (docs h)) ->
  (forall key, key ∈ w_keys ->
     exists h x, h ∈ hashes s /\ objective (docs h) key = Ret (Fin x)) ->
  exists ideal mins maxs s1 s',
    compute_ideal_point s = (Ret (Some ideal), s1) /\
    rename_entries_with_distance s = (Ret tt, s') /\
    self_of s' = self_of s /\ root_dir s' = root_dir s /\ out s' = out s /\
    length mins = length w_keys /\ length maxs = length w_keys /\ ideal = mins /\
    (forall (i : nat) key, w_keys !! i = Some key ->
       exists mn mx, mins !! i = Some mn /\ maxs !! i = Some mx /\
         (exists h, h ∈ hashes s /\ objective (docs h) key = Ret (Fin mn)) /\
         (exists h, h ∈ hashes s /\ objective (docs h) key = Ret (Fin mx)) /\
         (forall h x, h ∈ hashes s -> objective (docs h) key = Ret (Fin x) ->
            (mn <= x <= mx)%R)) /\
    (forall h, h ∈ hashes s ->
       exists vals,
         objectives (docs h) w_keys = Ret vals /\
         (forall (i : nat) key, w_keys !! i = Some key ->
            raw_value (docs h) key = Ret JNull -> vals !! i = Some Inf) /\
         ranked_entry h (docs h)
           (euclid_norm (normalized_point vals mins maxs) (normalized_ideal ideal mins maxs))
           (pareto_dir s') /\
         (forall (i : nat) key mn mx, w_keys !! i = Some key ->
            raw_value (docs h) key = Ret JNull ->
            mins !! i = Some mn -> maxs !! i = Some mx -> (mn < mx)%R ->
            ranked_entry h (docs h) Inf (pareto_dir s'))) /\
    (forall (v : xfloat) (mn mx : R),
       ((mn < mx)%R -> normalize v mn mx = xdiv (xsub v mn) (mx - mn)) /\
       (~ (mn < mx)%R -> normalize v mn mx = Fin 0)) /\
    (forall (v mn mx : R),
       ((mn < mx)%R -> normalize_ideal v mn mx = ((v - mn) / (mx - mn))%R) /\
       (~ (mn < mx)%R -> normalize_ideal v mn mx = 0%R)) /\
    format_08_4f Inf = "00000inf" /\
    (forall x : R,
       ((1 <= x < 99999995 / 100000)%R ->
          str_lt (format_08_4f Inf) (format_08_4f (Fin x)) = true) /\
       ((0 <= x < 99995 / 100000)%R ->
          str_lt (format_08_4f (Fin x)) (format_08_4f Inf) = true)).
Proof.
  intros w_keys Hnf Hiter Hks Hne Hstore Hsome.
  destruct (ranking_pass_run s docs h0 rest ks Hnf Hiter Hks Hne Hstore Hsome)
    as (ideal & mins & maxs & s1 & s' & Hcip & Hrun & Hself & Hroot & Hout & Hlmin & Hlmax
        & Heq & Hcols & Hall).
  fold w_keys in Hlmin, Hlmax, Hcols, Hall.
  exists ideal, mins, maxs, s1, s'.
  do 9 (split; [assumption |]).
  split; [| split; [| split; [| split; [reflexivity | exact inf_prefix_order]]]].
  - intros h Hh. destruct (Hall h Hh) as (vals & Hvals & Hnull & Hr).
    exists vals. do 3 (split; [assumption |]).
    intros i key mn mx Hkey Hraw Hmn Hmx Hlt.
    replace Inf with (euclid_norm (normalized_point vals mins maxs)
                                  (normalized_ideal ideal mins maxs)); [exact Hr |].
    unfold euclid_norm. rewrite (sum_squares_inf _ _ i); [reflexivity | |].
    + rewrite (normalized_point_lookup vals mins maxs i Inf mn mx (Hnull i key Hkey Hraw) Hmn Hmx).
      unfold normalize. destruct (Rlt_dec mn mx); [reflexivity | contradiction].
    + rewrite normalized_ideal_length by congruence.
      apply lookup_lt_Some in Hmn. congruence.
  - intros v mn mx. unfold normalize. destruct (Rlt_dec mn mx); split; tauto.
  - intros v mn mx. unfold normalize_ideal. destruct (Rlt_dec mn mx); split; tauto.
Qed.

Lemma ranking_pass_distances_witness :
  exists ideal mins maxs s1 s',
    @compute_ideal_point sample_externals sample_store = (Ret (Some ideal), s1) /\
    @rename_entries_with_distance sample_externals sample_store = (Ret tt, s') /\
    ideal = mins /\
    (forall h, h ∈ hashes sample_store ->
       exists vals,
         objectives (sample_docs h) ["w_0"; "w_1"] = Ret vals /\
         ranked_entry h (sample_docs h)
           (euclid_norm (normalized_point vals mins maxs) (normalized_ideal ideal mins maxs))
           (pareto_dir s')) /\
    ranked_entry "3333333333333333" (sample_docs "3333333333333333") Inf (pareto_dir s').
Proof.
  destruct sample_store_wellformed as (Hnf & Hiter & Hks & Hstore & Hsome).
  destruct (@ranking_pass_distances sample_externals sample_externals_ok sample_store
              sample_docs _ _ _ Hnf Hiter Hks ltac:(discriminate) Hstore Hsome)
    as (ideal & mins & maxs & s1 & s' & Hcip & Hrun & _ & _ & _ & Hlmin & Hlmax
        & Heq & Hcols & Hall & _).
  exists ideal, mins, maxs, s1, s'.
  split; [exact Hcip |]. split; [exact Hrun |]. split; [exact Heq |]. split.
  - intros h Hh. destruct (Hall h Hh) as (vals & Hvals & _ & Hr & _).
    exists vals. split; [exact Hvals | exact Hr].
  - destruct (Hall "3333333333333333") as (vals & _ & _ & _ & Hinf).
    { apply sample_store_members. unfold sample_hashes. rewrite !elem_of_cons. tauto. }
    destruct (Hcols 1%nat "w_1" eq_refl)
      as (mn & mx & Hmn & Hmx & _ & _ & Hbound).
    apply (Hinf 1%nat "w_1" mn mx eq_refl eq_refl Hmn Hmx).
    assert (forall h, In h sample_hashes -> h ∈ hashes sample_store) as Hin.
    { intros h Hh. apply sample_store_members. now apply list_elem_of_In. }
    pose proof (Hbound "1111111111111111" 0%R ltac:(apply Hin; cbn; tauto) eq_refl).
    pose proof (Hbound "2222222222222222" 1%R ltac:(apply Hin; cbn; tauto) eq_refl).
    lra.
Defined.

(** The claim of C5 fails where it says that an entry that misses an
    objective ranks maximally far.  In a store of three entries with the
    objectives (null, 0), (0, 1) and (0, null), the pass names the first
    000.0000 (its missing objective has no spread and counts 0.0), the
    third 00000inf and the second, which misses nothing, 001.0000: both
    entries with a missing objective sort before the complete one. *)
Lemma missing_objective_not_farthest :
  exists s',
    @rename_entries_with_distance sample_externals sample_store = (Ret tt, s') /\
    out s' = [] /\
    raw_value (sample_docs "1111111111111111") "w_0" = Ret JNull /\
    raw_value (sample_docs "3333333333333333") "w_1" = Ret JNull /\
    objectives (sample_docs "2222222222222222") ["w_0"; "w_1"] = Ret [Fin 0; Fin 1] /\
    pareto_dir s' !! "000.0000_1111111111111111.json"
    = Some (sample_docs "1111111111111111") /\
    pareto_dir s' !! "00000inf_3333333333333333.json"
    = Some (sample_docs "3333333333333333") /\
    pareto_dir s' !! "001.0000_2222222222222222.json"
    = Some (sample_docs "2222222222222222") /\
    str_lt "000.0000_1111111111111111.json" "001.0000_2222222222222222.json" = true /\
    str_lt "00000inf_3333333333333333.json" "001.0000_2222222222222222.json" = true.
Proof.
  destruct sample_store_ranked as (s1 & s' & _ & Hrun & _ & Hout & [H1 _] & [H2 _] & [H3 _]).
  rewrite format_zero in H1. rewrite format_one in H2.
  exists s'. repeat split; assumption.
Qed.
